(* ===== verification/_CoqProject ===== *)
-Q . S2P
Prelude.v
BootInfo.v
FrameInterface.v
FrameAllocator.v
PageTable.v
AddressSpace.v
Heap.v
Window.v
Protection.v
Budget.v
SpinLock.v
SlotTable.v
Objects.v
Ipc.v
Linearizability.v
WeakMemory.v
Descriptors.v
Cpu.v
Task.v
Interrupts.v
RunQueue.v
Scheduler.v
Preempt.v
Cooperation.v
Syscall.v
Serial.v
Devices.v
Console.v
Diagnostics.v
KernelTests.v
Boot.v
ImageBuilder.v
BuildScript.v
BootLoader.v
BootChain.v
