(* ===== verification/Prelude.v ===== *)
(** * A verification development of the Unbound OS kernel

    Unbound OS is a small x86-64 kernel in Rust.  A two-stage boot loader reads the
    kernel from the disk image that tools/image-builder writes, and jumps to
    [_start] (kernel/src/bin/kernel.rs) with a pointer to a [BootInfo].  [_start]
    builds the descriptor tables, the frame allocator, an address space and the
    kernel heap, tests the spin lock, the kernel objects, the messages and the
    system-call registers, and enters ring 3, where a test program makes one system
    call.  A preemptive scheduler exists beside this path; [_start] reports it as
    parked.  This development translates that code into executable Rocq
    definitions and proves what makes it correct.

    ** How code is modelled

    Rust code that mutates a state [S] is a function in the monad [M S] of this
    file: it returns a value and the new state, or panics.  The kernel is built with
    the dev profile, so overflow, an index out of range and a failed assertion are
    panics, and most theorems begin by showing that there is none.  Machine integers
    are [Z] with their width written out ([add_u], [wrapping_add], [cast]).
    [Result] is [result]; [Option] is [option].  A page table is read and written
    through a [Window], the part of physical memory that is mapped at its own
    address, and an access outside it is a page fault.  Assembly runs on the machine
    of Cpu.v, a function for each instruction; [iretq] checks the selectors it pops
    against the kernel's descriptor table, and an exception it raises is recorded.  Code of kernel.rs, which also prints
    and may stop the processor, runs in the monad [K] of Console.v.  Addresses the
    linker chooses (statics, entry points) are arguments.

    ** The files

    - Prelude.v: outcomes, the state monad and its proof rules, machine integers,
      loops, little-endian memory, lemmas on lists, shared tactics.
    - BootInfo.v: boot_info.rs, the checks of [_start] on it, the memory map it
      points to, and the stores of boot/stage2/stage2.asm that build it.
    - FrameInterface.v, FrameAllocator.v: memory/frame_allocator.rs, and the class
      [FrameAllocSpec] its clients are proved against.
    - PageTable.v, AddressSpace.v, Heap.v: memory/page_table.rs, address.rs,
      address_space.rs, heap.rs, generic in the frame allocator and in the window.
    - Window.v: through a smaller window those operations do the same or page-fault.
    - Protection.v: the user and write rights the processor finds in the tables
      those operations build, and the type of their entries.
    - Budget.v: how many frames those operations take, so that with that many free
      frames they do not run out of memory, and where the frames are.
    - SpinLock.v, SlotTable.v, Objects.v, Ipc.v: sync/spinlock.rs, objects/ and ipc/;
      SlotTable.v has what the two handle tables share.
    - Linearizability.v: concurrent calls of the object table and the message manager,
      through the class [LockedObject] of objects behind a spin lock.
    - WeakMemory.v: the memory orderings of sync/spinlock.rs, on a machine with views.
    - Descriptors.v: arch/x86_64/gdt.rs, tss.rs and the table of idt.rs, as the
      processor reads them, and the selectors [iretq] accepts.
    - Cpu.v, Task.v, Interrupts.v: the machine, scheduler/task.rs and context.rs,
      and the assembly of arch/x86_64/idt.rs.
    - RunQueue.v, Scheduler.v, Preempt.v, Cooperation.v: scheduler/queue.rs and mod.rs;
      the last has the tasks of the two scheduling tests.
    - Syscall.v: arch/x86_64/msr.rs, syscall.rs, syscall.asm, user.rs,
      user_entry.asm and syscall/mod.rs.
    - Serial.v, Devices.v: the serial output of kernel.rs and idt.rs, pic.rs, pit.rs.
    - Console.v, KernelTests.v, Boot.v: kernel.rs itself: printing and halting, the
      self-tests and the two handlers, and [_start] in its sections.
    - Diagnostics.v: what the frame dumps of idt.rs, scheduler/mod.rs and task.rs
      print of a saved interrupt frame.
    - ImageBuilder.v, BuildScript.v: tools/image-builder/src/main.rs and build.rs.
    - BootLoader.v: boot/stage1/boot.asm and boot/stage2/stage2.asm.
    - BootChain.v: the boot loader and [_start] together.

    ** What the theorems show

    Memory.  Initialisation frees exactly the usable frames; along any sequence of
    calls no frame is handed out twice and no reserved frame ever; [map], [unmap] and
    [identity_map] change the translations of exactly the pages they name, [unmap]
    undoes [map], and the heap is mapped to distinct fresh frames or rolled back.
    A page has exactly the user and write rights it was mapped with, and the entries
    of the tables stay well typed whatever is mapped, unmapped or allocated.

    Objects, messages, locks.  The object table and the message manager refine finite
    maps from handles to records and to bounded queues; a stale handle stays invalid
    for fewer than 2^32-2 further calls.  The spin lock gives mutual exclusion and
    loses no update in any interleaving, and no reachable state is a deadlock.  Under
    concurrent calls, interleaved at every access, the table and the manager are
    linearizable with respect to those same specifications.  The orderings of the lock
    exclude data races on a machine with release-acquire synchronisation, whose
    executions are then among those interleavings.

    Tasks and interrupts.  The timer interrupt is transparent to the code it
    interrupts; the context switch keeps the registers of the calling convention;
    the scheduler's invariant holds after any calls; the timer's decision is
    specified on every branch, and a full slice does preempt; the cooperative test
    passes the processor round and cleans up after itself.  Some theorems state
    defects: the exception return, whose [iretq] raises a general-protection
    exception, the first stack pointer of a preempted task, the unequal rotation of
    the run queue.

    Start-up.  The boot loader reads from the builder's image the kernel, places its
    segments and jumps to its entry with the boot information and memory map that
    [_start] then reads; from such a disk the machine gets to ring 3.  With valid
    boot information the descriptor tables are as the processor needs them, with
    invalid information the kernel reports the reason and stops.  After the
    breakpoint test [_start] reaches [enter_ring3] without panic, page fault or halt
    if it gets twenty free frames in the first 2 MiB, all that the loader and its
    own tables map; with frames elsewhere it does so or page-faults, and it
    page-faults if none below 2 MiB is free.  There it has the address space, the heap,
    the stacks and the system-call registers in place, and ring 3 can then access
    its code page and its stack only, none of which holds a page table; the
    self-tests pass with exactly the output the source has.  The system-call path is
    followed instruction by instruction, its wrong argument registers included.

    Devices and tools.  The controllers and the timer are left in the state the
    kernel needs, the timer at 100 Hz; printing terminates and, because it waits for
    the port, sends the text whole, while the printer of idt.rs, which does not
    wait, may lose digits; the image builder's image is read back as the three files
    it was made from, with the report it prints, and the build script strips the
    kernel to the file the image builder reads.

    ** Bounds and fuel

    - [while_fuel] and [identity_loop] get as many rounds as the range has pages;
      the unfolding lemmas show that this never ends a loop.
    - The wait for the serial port has a fuel [n]; the theorems hold for every
      device that empties its queue within [n] accesses, for every [n].
    - [BOOT_FRAMES], twenty frames, is what the start-up takes at most: Budget.v
      counts a frame for each table that is missing when a page is mapped.
    - The boot loader's disk loop has a round for each of the 1024 sectors and one to
      find nothing left, its memory-map loop one for each of the 128 entries and one
      to find the table full; both read at least that much a round.
    - Loops over arrays are structural.

    ** What is not modelled

    - In the boot stages: the serial port's set-up and the progress messages, the
      stacks and the variable of the boot sector, and the switches to protected and
      long mode, which are taken to give the mapping that the stage's page tables describe.
    - The text that the scheduler prints.
    - The translation of the kernel's accesses to its own code, data and stacks, and
      the TLB: the window is that of the loader's tables, and Boot.v shows that the
      tables CR3 is loaded with map the same 2 MiB.
    - Of [iretq], the check of a canonical return address, the nested-task flag
      and a return to 32-bit code; of
      the descriptor tables' use by instructions, loads of the data segments.
    - Memory orderings other than those of the lock and the data it protects: the
      counters of kernel.rs and scheduler/ are relaxed atomics of a single processor.
    - Compiled Rust code called from assembly: it is an argument that keeps the
      calling convention ([abi_call]).
    - The return of the breakpoint of [_start], an argument of Boot.v: Interrupts.v
      shows that the exception stubs do not return to the interrupted code. *)

From stdpp Require Export base tactics option list gmap numbers strings.
From Stdlib Require Export ZArith Lia.
#[export] Set Default Goal Selector "!".

Local Open Scope Z_scope.

(** ** Outcomes of Rust code

    The kernel is built with the dev profile (tools/dev/unbound.sh runs
    [cargo build] and the image builder strips target/.../debug), so an
    arithmetic operation that leaves its type's range, an index outside its
    array and a failed [debug_assert!] panic.  There are two other ways not to
    return: waiting for something that no other party can provide, [SpinForever],
    and an access to an address that is not mapped, [NotMapped], which raises a
    page fault (the kernel's handler of it halts). *)

Inductive fault :=
| Overflow
| OutOfBounds
| AssertFailed
| SpinForever
| NotMapped.

#[export] Instance fault_eq_dec : EqDecision fault.
Proof. solve_decision. Defined.

Inductive outcome (A : Type) :=
| Done (a : A)
| Panicked (f : fault).
Arguments Done {A} a.
Arguments Panicked {A} f.

#[export] Instance outcome_ret : MRet outcome := λ A a, Done a.
#[export] Instance outcome_bind : MBind outcome := λ A B f o,
  match o with Done a => f a | Panicked e => Panicked e end.

(** [Result<T, &'static str>]. *)
Inductive result (A : Type) :=
| Ok (a : A)
| Err (e : string).
Arguments Ok {A} a.
Arguments Err {A} e.

(** ** State and panics: code that mutates a state of type [S] *)

Definition M (S A : Type) : Type := S → outcome (A * S).

#[export] Instance M_ret {S} : MRet (M S) := λ A a s, Done (a, s).
#[export] Instance M_bind {S} : MBind (M S) := λ A B f m s,
  match m s with
  | Done (a, s') => f a s'
  | Panicked e => Panicked e
  end.

Definition get {S} : M S S := λ s, Done (s, s).
Definition put {S} (s : S) : M S unit := λ _, Done ((), s).
Definition panic {S A} (f : fault) : M S A := λ _, Panicked f.
Definition lift {S A} (o : outcome A) : M S A := λ s,
  match o with Done a => Done (a, s) | Panicked f => Panicked f end.

(** The state after a run that returns. *)
Definition exec {S A} (m : M S A) (s : S) : S :=
  match m s with Done (_, s') => s' | Panicked _ => s end.
(** The result of a run that returns. *)
Definition eval {S A} (m : M S A) (s : S) : option A :=
  match m s with Done (a, _) => Some a | Panicked _ => None end.

(** Running code on a part of a larger state. *)
Definition zoom {S T A} (prj : S → T) (upd : T → S → S) (m : M T A) : M S A := λ s,
  match m (prj s) with
  | Done (a, t) => Done (a, upd t s)
  | Panicked f => Panicked f
  end.

Section monad_laws.
Context {S : Type}.

Lemma bind_run {A B} (m : M S A) (f : A → M S B) s a s' :
  m s = Done (a, s') → (m ≫= f) s = f a s'.
Proof. unfold mbind, M_bind. by intros ->. Qed.

Lemma bind_run_panic {A B} (m : M S A) (f : A → M S B) s e :
  m s = Panicked e → (m ≫= f) s = Panicked e.
Proof. unfold mbind, M_bind. by intros ->. Qed.

Lemma bind_inv {A B} (m : M S A) (f : A → M S B) s r :
  (m ≫= f) s = Done r → ∃ a s', m s = Done (a, s') ∧ f a s' = Done r.
Proof.
  unfold mbind, M_bind. destruct (m s) as [[a s']|e] eqn:E; [|done]. eauto.
Qed.

Lemma bind_assoc {A B C} (m : M S A) (f : A → M S B) (g : B → M S C) s :
  ((m ≫= f) ≫= g) s = (m ≫= λ a, f a ≫= g) s.
Proof. unfold mbind, M_bind. destruct (m s) as [[a s']|e]; done. Qed.

Lemma ret_bind {A B} (a : A) (f : A → M S B) s : (mret a ≫= f) s = f a s.
Proof. done. Qed.
End monad_laws.

(** ** Machine integers

    A [w]-bit unsigned integer is a [Z] in [0, 2^w). *)

Definition in_u (w x : Z) : Prop := 0 ≤ x < 2 ^ w.
#[export] Instance in_u_dec w x : Decision (in_u w x).
Proof. unfold in_u. apply _. Defined.

(** [a + b], [a - b], [a * b] with the overflow checks of the dev profile. *)
Definition add_u (w a b : Z) : outcome Z :=
  if a + b <? 2 ^ w then Done (a + b) else Panicked Overflow.
Definition sub_u (a b : Z) : outcome Z :=
  if b <=? a then Done (a - b) else Panicked Overflow.
(** [a.checked_add(b)] and [a.checked_mul(b)]. *)
Definition checked_add (w a b : Z) : option Z :=
  if a + b <? 2 ^ w then Some (a + b) else None.
Definition checked_mul (w a b : Z) : option Z :=
  if a * b <? 2 ^ w then Some (a * b) else None.
(** [a.wrapping_add(b)]; [x as uN]; [!x]. *)
Definition wrapping_add (w a b : Z) : Z := (a + b) mod 2 ^ w.
Definition cast (w x : Z) : Z := x mod 2 ^ w.
Definition not_u (w x : Z) : Z := Z.land (Z.lnot x) (Z.ones w).

Lemma add_u_Done w a b : a + b < 2 ^ w → add_u w a b = Done (a + b).
Proof. intros. unfold add_u. by rewrite (proj2 (Z.ltb_lt _ _)). Qed.
Lemma add_u_inv w a b c : add_u w a b = Done c → c = a + b.
Proof. unfold add_u. destruct (_ <? _); [|done]. by intros [=]. Qed.
Lemma add_u_Panic w a b : 2 ^ w ≤ a + b → add_u w a b = Panicked Overflow.
Proof. intros. unfold add_u. by rewrite (proj2 (Z.ltb_ge _ _)). Qed.
Lemma sub_u_Done a b : b ≤ a → sub_u a b = Done (a - b).
Proof. intros. unfold sub_u. by rewrite (proj2 (Z.leb_le _ _)). Qed.

(** *** Bit facts *)

Lemma testbit_above w x i : in_u w x → 0 ≤ w → w ≤ i → Z.testbit x i = false.
Proof.
  intros [Hx0 Hx1] Hw Hi. rewrite <- (Z.mod_small x (2 ^ w)) by lia.
  by apply Z.mod_pow2_bits_high.
Qed.

Lemma land_pow2_ne0 x k :
  0 ≤ k → negb (Z.land x (Z.shiftl 1 k) =? 0) = Z.testbit x k.
Proof.
  intros Hk. rewrite Z.shiftl_1_l.
  destruct (Z.testbit x k) eqn:E.
  - destruct (Z.eqb_spec (Z.land x (2 ^ k)) 0) as [H|]; [|done].
    assert (Z.testbit (Z.land x (2 ^ k)) k = true) as H1.
    { rewrite Z.land_spec, E, Z.pow2_bits_true by lia. done. }
    rewrite H, Z.bits_0 in H1. done.
  - destruct (Z.eqb_spec (Z.land x (2 ^ k)) 0) as [|H]; [done|].
    exfalso. apply H. apply Z.bits_inj'. intros n Hn.
    rewrite Z.land_spec, Z.bits_0, Z.pow2_bits_eqb by lia.
    destruct (Z.eqb_spec k n); [subst; by rewrite E|apply andb_false_r].
Qed.

Lemma in_u_bits w x :
  0 ≤ w → 0 ≤ x → (∀ i, w ≤ i → Z.testbit x i = false) → in_u w x.
Proof.
  intros Hw Hx H. split; [done|].
  rewrite <- (Z.mod_small x (2 ^ w)); [apply Z.mod_pos_bound; lia|].
  split; [done|]. destruct (decide (x = 0)) as [->|]; [lia|].
  destruct (decide (x < 2 ^ w)) as [|Hge]; [done|].
  exfalso. assert (w ≤ Z.log2 x) as Hl by (apply Z.log2_le_pow2; lia).
  specialize (H _ Hl). rewrite Z.bit_log2 in H by lia. done.
Qed.

Lemma in_u_lor w x y : 0 ≤ w → in_u w x → in_u w y → in_u w (Z.lor x y).
Proof.
  intros Hw Hx Hy. apply in_u_bits; [done|apply Z.lor_nonneg; split; [apply Hx|apply Hy]|].
  intros i Hi. rewrite Z.lor_spec, !(testbit_above w) by done. done.
Qed.

Lemma in_u_land_l w x y : 0 ≤ w → in_u w x → in_u w (Z.land x y).
Proof.
  intros Hw Hx. apply in_u_bits; [done|apply Z.land_nonneg; left; apply Hx|].
  intros i Hi. rewrite Z.land_spec, (testbit_above w) by done. done.
Qed.

Lemma in_u_shiftl1 w k : 0 ≤ k < w → in_u w (Z.shiftl 1 k).
Proof.
  intros. rewrite Z.shiftl_1_l. split; [lia|apply Z.pow_lt_mono_r; lia].
Qed.

Lemma testbit_not_u w x i :
  0 ≤ i < w → Z.testbit (not_u w x) i = negb (Z.testbit x i).
Proof.
  intros. unfold not_u.
  rewrite Z.land_spec, Z.lnot_spec, Z.ones_spec_low by lia. apply andb_true_r.
Qed.

(** Joining two bit fields that do not overlap. *)
Lemma lor_shiftl k x y : 0 ≤ k → in_u k x → Z.lor x (Z.shiftl y k) = x + y * 2 ^ k.
Proof.
  intros Hk Hx. rewrite <- Z.shiftl_mul_pow2 by lia.
  symmetry. apply Z.add_nocarry_lor. apply Z.bits_inj'. intros n Hn.
  rewrite Z.land_spec, Z.bits_0, Z.shiftl_spec by lia. destruct (Z.lt_ge_cases n k).
  - rewrite (Z.testbit_neg_r y) by lia. apply andb_false_r.
  - by rewrite (testbit_above k x) by done.
Qed.

(** ** Counting: the number of [i < n] with [P i] *)

Fixpoint count (P : Z → bool) (n : nat) : Z :=
  match n with
  | O => 0
  | S k => count P k + (if P (Z.of_nat k) then 1 else 0)
  end.

Lemma count_bounds P n : 0 ≤ count P n ≤ Z.of_nat n.
Proof. induction n; simpl count; [lia|]. destruct (P _); lia. Qed.

Lemma count_ext P Q n :
  (∀ i, 0 ≤ i < Z.of_nat n → P i = Q i) → count P n = count Q n.
Proof.
  induction n as [|n IH]; intros H; simpl; [done|].
  rewrite IH, H by (intros; try apply H; lia). done.
Qed.

Lemma count_const_false P n :
  (∀ i, 0 ≤ i < Z.of_nat n → P i = false) → count P n = 0.
Proof.
  induction n as [|n IH]; intros H; simpl; [done|].
  rewrite IH, H by (intros; try apply H; lia). done.
Qed.

Lemma count_flip P Q n k :
  0 ≤ k < Z.of_nat n → P k = false → Q k = true →
  (∀ i, i ≠ k → Q i = P i) → count Q n = count P n + 1.
Proof.
  induction n as [|n IH]; intros Hk HP HQ Hext; [lia|]. simpl.
  destruct (decide (k = Z.of_nat n)) as [->|Hne].
  - rewrite HP, HQ, (count_ext Q P) by (intros; apply Hext; lia). lia.
  - rewrite IH, (Hext (Z.of_nat n)) by (try done; lia). lia.
Qed.

Lemma count_pos P n k : 0 ≤ k < Z.of_nat n → P k = true → 0 < count P n.
Proof.
  induction n as [|n IH]; intros Hk HP; [lia|]. simpl.
  destruct (decide (k = Z.of_nat n)) as [->|Hne].
  - rewrite HP. pose proof (count_bounds P n). lia.
  - assert (0 < count P n) by (apply IH; [lia|done]). destruct (P (Z.of_nat n)); lia.
Qed.

(** ** Loops

    [for_range n i body] is [for k in i..i+n { body(k) }].  [while_lt] is
    [while a < e { body(a); a += step }] with the overflow check of [+=];
    the bound on the number of iterations is computed from [a] and [e], and
    [while_lt_unfold] shows it is never what stops the loop. *)

Section loops.
Context {S : Type}.

Fixpoint for_range (n : nat) (i : Z) (body : Z → M S unit) : M S unit :=
  match n with
  | O => mret ()
  | Datatypes.S k => body i ;; for_range k (i + 1) body
  end.

Fixpoint while_fuel (n : nat) (a e step : Z) (body : Z → M S unit) : M S unit :=
  match n with
  | O => mret ()
  | Datatypes.S k =>
      if a <? e then
        body a ;; a' ← lift (add_u 64 a step); while_fuel k a' e step body
      else mret ()
  end.

Definition while_lt (a e step : Z) (body : Z → M S unit) : M S unit :=
  while_fuel (Z.to_nat ((e - a + step - 1) / step)) a e step body.

Lemma while_lt_unfold a e step body s :
  0 < step →
  while_lt a e step body s =
  (if a <? e then
     body a ;; a' ← lift (add_u 64 a step); while_lt a' e step body
   else mret ()) s.
Proof.
  intros Hstep. unfold while_lt.
  destruct (Z.ltb_spec a e) as [Hlt|Hge].
  - assert (Z.to_nat ((e - a + step - 1) / step)
            = Datatypes.S (Z.to_nat ((e - (a + step) + step - 1) / step))) as ->.
    { replace (e - a + step - 1) with ((e - (a + step) + step - 1) + 1 * step) by lia.
      rewrite Z.div_add by lia.
      assert (0 ≤ (e - (a + step) + step - 1) / step) by (apply Z.div_pos; lia). lia. }
    simpl. rewrite (proj2 (Z.ltb_lt _ _)) by done.
    unfold mbind, M_bind. destruct (body a s) as [[? s']|]; [|done].
    unfold lift, add_u. by destruct (a + step <? 2 ^ 64).
  - assert (Z.to_nat ((e - a + step - 1) / step) = O) as ->; [|done].
    assert ((e - a + step - 1) / step < 1) by (apply Z.div_lt_upper_bound; lia). lia.
Qed.
End loops.

(** Invariant rule for [while_lt] when [step] divides the range: [I b s]
    holds at the loop head with the counter at [b]. *)
Lemma while_lt_inv {S} (I : Z → S → Prop) a e step (body : Z → M S unit) s :
  0 < step → e < 2 ^ 64 → a ≤ e → (e - a) mod step = 0 →
  (∀ b t, a ≤ b < e → (b - a) mod step = 0 → I b t →
     ∃ t', body b t = Done ((), t') ∧ I (b + step) t') →
  I a s →
  ∃ s', while_lt a e step body s = Done ((), s') ∧ I e s'.
Proof.
  intros Hstep He. remember (Z.to_nat (e - a)) as n eqn:Hn.
  revert a s Hn. induction n as [n IH] using lt_wf_ind. intros a s Hn Hae Hmod Hbody HI.
  rewrite while_lt_unfold by done. destruct (Z.ltb_spec a e) as [Hlt|Hge].
  - destruct (Hbody a s) as (s1 & Hs1 & HI1);
      [lia|by rewrite Z.sub_diag, Z.mod_0_l by lia|done|].
    assert (a + step ≤ e).
    { apply Z.mod_divide in Hmod as [q Hq]; [|lia].
      destruct (decide (q ≤ 0)); nia. }
    destruct (IH (Z.to_nat (e - (a + step))) ltac:(lia) (a + step) s1 eq_refl)
      as (s' & Hrun & HI'); [done| |..|done|].
    { replace (e - (a + step)) with (e - a + (-1) * step) by lia.
      by rewrite Z.mod_add by lia. }
    { intros b t Hb Hm. apply Hbody; [lia|].
      replace (b - a) with ((b - (a + step)) + 1 * step) by lia.
      by rewrite Z.mod_add by lia. }
    exists s'. split; [|done].
    erewrite bind_run by done. simpl. erewrite bind_run; [exact Hrun|].
    unfold lift. by rewrite add_u_Done by lia.
  - assert (a = e) as -> by lia. by exists s.
Qed.

Lemma while_lt_stop {S} a e step (body : Z → M S unit) s :
  0 < step → e ≤ a → while_lt a e step body s = Done ((), s).
Proof.
  intros. rewrite while_lt_unfold by done. destruct (Z.ltb_spec a e); [lia|done].
Qed.

(** ** Fixed-size byte arrays

    [[u8; N]] as a fill byte plus the cells written since: [write_bytes]
    sets the fill byte, an indexed write overrides one cell, and an index
    outside [0, N) panics. *)

Record array := Arr { arr_len : Z; arr_fill : Z; arr_over : gmap Z Z }.

Definition arr_at (a : array) (i : Z) : Z := default (arr_fill a) (arr_over a !! i).
Definition arr_get (a : array) (i : Z) : outcome Z :=
  if (0 <=? i) && (i <? arr_len a) then Done (arr_at a i) else Panicked OutOfBounds.
Definition arr_set (a : array) (i x : Z) : outcome array :=
  if (0 <=? i) && (i <? arr_len a)
  then Done (Arr (arr_len a) (arr_fill a) (<[i := x]> (arr_over a)))
  else Panicked OutOfBounds.
Definition arr_filled (n x : Z) : array := Arr n x ∅.

Lemma arr_get_Done a i : 0 ≤ i < arr_len a → arr_get a i = Done (arr_at a i).
Proof.
  intros. unfold arr_get.
  by rewrite (proj2 (Z.leb_le _ _)), (proj2 (Z.ltb_lt _ _)) by lia.
Qed.

Lemma arr_set_Done a i x : 0 ≤ i < arr_len a →
  ∃ a', arr_set a i x = Done a' ∧ arr_len a' = arr_len a ∧
        ∀ j, arr_at a' j = if decide (j = i) then x else arr_at a j.
Proof.
  intros. unfold arr_set.
  rewrite (proj2 (Z.leb_le _ _)), (proj2 (Z.ltb_lt _ _)) by lia. simpl.
  eexists. split; [done|]. split; [done|]. intros j. unfold arr_at. simpl.
  case_decide; subst; [by rewrite lookup_insert_eq|by rewrite lookup_insert_ne].
Qed.

Lemma arr_at_filled n x i : arr_at (arr_filled n x) i = x.
Proof. unfold arr_at, arr_filled. simpl. by rewrite lookup_empty. Qed.

(** ** Byte-addressed memory, little-endian

    [le_store m a n x] writes the [n] low bytes of [x] at [a]; [le_load]
    reads them back. *)

Abbreviation bytemem := (gmap Z Z).

Fixpoint le_store (m : bytemem) (a : Z) (n : nat) (x : Z) : bytemem :=
  match n with
  | O => m
  | S k => le_store (<[a := x mod 256]> m) (a + 1) k (x / 256)
  end.

Fixpoint le_load (m : bytemem) (a : Z) (n : nat) : Z :=
  match n with
  | O => 0
  | S k => default 0 (m !! a) + 256 * le_load m (a + 1) k
  end.

Lemma le_store_other m a n x b :
  b < a ∨ a + Z.of_nat n ≤ b → le_store m a n x !! b = m !! b.
Proof.
  revert m a x. induction n as [|n IH]; intros m a x Hb; simpl; [done|].
  rewrite IH by lia. by rewrite lookup_insert_ne by lia.
Qed.

Lemma le_load_store_same m a n x : 0 ≤ x < 256 ^ Z.of_nat n → le_load (le_store m a n x) a n = x.
Proof.
  revert m a x. induction n as [|n IH]; intros m a x Hx.
  { simpl in *. lia. }
  cbn [le_store le_load]. rewrite Nat2Z.inj_succ, Z.pow_succ_r in Hx by lia.
  rewrite IH.
  - rewrite le_store_other by lia. rewrite lookup_insert_eq. simpl.
    pose proof (Z.div_mod x 256). lia.
  - split; [apply Z.div_pos; lia|apply Z.div_lt_upper_bound; lia].
Qed.

Lemma le_load_store_other m a n x b k :
  b + Z.of_nat k ≤ a ∨ a + Z.of_nat n ≤ b → le_load (le_store m a n x) b k = le_load m b k.
Proof.
  revert b. induction k as [|k IH]; intros b Hb; [done|]. cbn [le_load].
  rewrite le_store_other, IH by lia. done.
Qed.

(** Byte by byte. *)
Fixpoint store_bytes (m : bytemem) (a : Z) (bs : list Z) : bytemem :=
  match bs with
  | [] => m
  | b :: rest => store_bytes (<[a := b]> m) (a + 1) rest
  end.
Fixpoint load_bytes (m : bytemem) (a : Z) (n : nat) : list Z :=
  match n with
  | O => []
  | S k => default 0 (m !! a) :: load_bytes m (a + 1) k
  end.
Fixpoint le_bytes (n : nat) (x : Z) : list Z :=
  match n with O => [] | S k => x mod 256 :: le_bytes k (x / 256) end.

Lemma store_bytes_other bs m a b : b < a ∨ a + Z.of_nat (length bs) ≤ b →
  store_bytes m a bs !! b = m !! b.
Proof.
  revert m a. induction bs as [|x bs IH]; intros m a Hb; [done|]. simpl in *.
  rewrite IH by lia. by rewrite lookup_insert_ne by lia.
Qed.

Lemma store_bytes_in bs m a i x : bs !! i = Some x → store_bytes m a bs !! (a + Z.of_nat i) = Some x.
Proof.
  revert m a i. induction bs as [|y bs IH]; intros m a [|i] Hi; simplify_eq/=.
  - rewrite store_bytes_other, Z.add_0_r by lia. by rewrite lookup_insert_eq.
  - rewrite <- (IH (<[a:=y]> m) (a + 1) i Hi). f_equal. lia.
Qed.

Lemma le_load_S m a n : le_load m a (S n) = default 0 (m !! a) + 256 * le_load m (a + 1) n.
Proof. done. Qed.

Lemma le_load_ext m m' a n :
  (∀ i, 0 ≤ i < Z.of_nat n → m !! (a + i) = m' !! (a + i)) → le_load m a n = le_load m' a n.
Proof.
  revert a. induction n as [|n IH]; intros a Hm; [done|]. rewrite !le_load_S.
  rewrite (IH (a + 1)).
  - pose proof (Hm 0 ltac:(lia)) as H0. rewrite Z.add_0_r in H0. by rewrite H0.
  - intros i Hi. rewrite <- Z.add_assoc. apply Hm. lia.
Qed.

Lemma le_load_zero m a n :
  (∀ i, 0 ≤ i < Z.of_nat n → m !! (a + i) = Some 0) → le_load m a n = 0.
Proof.
  revert a. induction n as [|n IH]; intros a Hm; [done|]. rewrite !le_load_S.
  pose proof (Hm 0 ltac:(lia)) as H0. rewrite Z.add_0_r in H0. rewrite H0, IH; [done|].
  intros i Hi. rewrite <- Z.add_assoc. apply Hm. lia.
Qed.

Lemma store_bytes_app bs bs' m a :
  store_bytes m a (bs ++ bs') = store_bytes (store_bytes m a bs) (a + Z.of_nat (length bs)) bs'.
Proof.
  revert m a. induction bs as [|b bs IH]; intros m a; cbn [app store_bytes length].
  - by rewrite Z.add_0_r.
  - rewrite IH. f_equal. lia.
Qed.
Lemma le_bytes_length n x : length (le_bytes n x) = n.
Proof. revert x. induction n as [|n IH]; intros x; [done|]. cbn. by rewrite IH. Qed.
Lemma le_store_bytes n m a x : le_store m a n x = store_bytes m a (le_bytes n x).
Proof. revert m a x. induction n as [|n IH]; intros m a x; [done|]. cbn [le_store le_bytes store_bytes]. apply IH. Qed.

Lemma le_load_shift m m' a a' n :
  (∀ i, 0 ≤ i < Z.of_nat n → m' !! (a' + i) = m !! (a + i)) → le_load m' a' n = le_load m a n.
Proof.
  revert a a'. induction n as [|n IH]; intros a a' Hm; [done|]. rewrite !le_load_S.
  pose proof (Hm 0 ltac:(lia)) as H0. rewrite !Z.add_0_r in H0. rewrite H0, (IH (a + 1) (a' + 1)); [done|].
  intros i Hi. rewrite <- !Z.add_assoc. apply Hm. lia.
Qed.
Lemma le_load_bound m a n :
  (∀ i, 0 ≤ i < Z.of_nat n → 0 ≤ default 0 (m !! (a + i)) < 256) → 0 ≤ le_load m a n < 256 ^ Z.of_nat n.
Proof.
  revert a. induction n as [|n IH]; intros a Hm; [cbn; lia|]. rewrite le_load_S, Nat2Z.inj_succ, Z.pow_succ_r by lia.
  pose proof (Hm 0 ltac:(lia)) as H0. rewrite Z.add_0_r in H0. destruct (IH (a + 1)); [|lia].
  intros i Hi. rewrite <- Z.add_assoc. apply Hm. lia.
Qed.

#[global] Arguments le_store : simpl never.
#[global] Arguments le_load : simpl never.

(** Reads a value back through the stores that come after it. *)
Ltac load_store :=
  repeat first [rewrite le_load_store_same by lia | rewrite le_load_store_other by lia].

(** ** [repr(C)]

    Every field is placed at the next multiple of its alignment, and the
    size is rounded up to the largest alignment.  A field is its size in
    bytes and its alignment. *)

Definition round_up (x align : Z) : Z := (x + align - 1) / align * align.

Fixpoint c_offsets (at_ : Z) (fields : list (Z * Z)) : list Z :=
  match fields with
  | [] => []
  | (sz, al) :: rest => round_up at_ al :: c_offsets (round_up at_ al + sz) rest
  end.

Fixpoint c_end (at_ : Z) (fields : list (Z * Z)) : Z :=
  match fields with
  | [] => at_
  | (sz, al) :: rest => c_end (round_up at_ al + sz) rest
  end.

Definition c_align (fields : list (Z * Z)) : Z := foldr (λ f, Z.max f.2) 1 fields.
Definition size_of (fields : list (Z * Z)) : Z := round_up (c_end 0 fields) (c_align fields).

(** ** Arrays of structures

    [a[i]] and [a[i] = x] on an array kept as a list; an index outside it
    panics. *)

Definition vec_get {A} (i : Z) : M (list A) A := λ l,
  if i <? 0 then Panicked OutOfBounds
  else match l !! Z.to_nat i with
       | Some x => Done (x, l)
       | None => Panicked OutOfBounds
       end.
Definition vec_set {A} (i : Z) (x : A) : M (list A) unit := λ l,
  if (0 <=? i) && (i <? Z.of_nat (length l)) then Done ((), <[Z.to_nat i := x]> l)
  else Panicked OutOfBounds.

Lemma vec_get_run {A} (l : list A) i x : 0 ≤ i → l !! Z.to_nat i = Some x →
  vec_get i l = Done (x, l).
Proof. intros Hi Hx. unfold vec_get. by rewrite (proj2 (Z.ltb_ge _ _)), Hx by lia. Qed.

Lemma vec_set_run {A} (l : list A) i x : 0 ≤ i < Z.of_nat (length l) →
  vec_set i x l = Done ((), <[Z.to_nat i := x]> l).
Proof.
  intros Hi. unfold vec_set. by rewrite (proj2 (Z.leb_le _ _)), (proj2 (Z.ltb_lt _ _)) by lia.
Qed.

Lemma vec_lookup {A} (l : list A) i : 0 ≤ i < Z.of_nat (length l) →
  ∃ x, l !! Z.to_nat i = Some x.
Proof. intros Hi. apply lookup_lt_is_Some_2. lia. Qed.

(** Reading back an updated array, with [Z] indices. *)
Lemma vec_lookup_set {A} (l : list A) i j x : 0 ≤ i < Z.of_nat (length l) → 0 ≤ j →
  <[Z.to_nat i := x]> l !! Z.to_nat j = if decide (j = i) then Some x else l !! Z.to_nat j.
Proof.
  intros Hi Hj. case_decide as Hd.
  - subst. apply list_lookup_insert_eq. lia.
  - apply list_lookup_insert_ne. lia.
Qed.

(** ** Automation *)

Create HintDb kernel.
#[export] Hint Resolve in_u_lor in_u_land_l in_u_shiftl1 : kernel.

(** Case analysis on the boolean comparisons the code branches on. *)
Ltac zcases :=
  repeat match goal with
  | |- context [?a <? ?b] => destruct (Z.ltb_spec a b)
  | |- context [?a <=? ?b] => destruct (Z.leb_spec a b)
  | |- context [?a =? ?b] => destruct (Z.eqb_spec a b)
  | H : context [?a <? ?b] |- _ => destruct (Z.ltb_spec a b)
  | H : context [?a <=? ?b] |- _ => destruct (Z.leb_spec a b)
  | H : context [?a =? ?b] |- _ => destruct (Z.eqb_spec a b)
  end; simpl in *; try lia; try done.

(** Decomposes [(m ≫= f) s = Done r] into the run of [m] and of [f]. *)
Ltac run_inv H :=
  let a := fresh "a" in let s := fresh "s" in let E := fresh "E" in
  apply bind_inv in H as (a & s & E & H).
