(* ===== verification/BootInfo.v ===== *)
(** * The hand-off from the boot loader (kernel/src/boot_info.rs)

    [BootInfo] and [MemoryMapEntry] with their [repr(C)] layout, the checks
    [_start] makes before it uses them (kernel/src/bin/kernel.rs), and the
    stores with which the second boot stage fills the structure
    (boot/stage2/stage2.asm).  [validate_stage2] says the two sides agree. *)

From S2P Require Import Prelude.
Local Open Scope Z_scope.

Record BootInfo := mkBootInfo {
  magic : Z;
  version : Z;
  size : Z;
  boot_drive : Z;
  kernel_phys_start : Z;
  kernel_phys_end : Z;
  memory_map_addr : Z;
  memory_map_count : Z;
  memory_map_entry_size : Z;
}.

Record MemoryMapEntry := mkMemoryMapEntry {
  base_addr : Z;
  entry_length : Z;
  entry_type : Z;
  attributes : Z;
}.

Definition BOOT_INFO_MAGIC : Z := 0x554E424F554E4442.
Definition BOOT_INFO_VERSION : Z := 2.

(** ** Layout *)

(** The fields in declaration order; [_reserved] is [[u8; 7]]. *)
Definition BootInfo_fields : list (Z * Z) :=
  [(8, 8); (4, 4); (4, 4); (1, 1); (7, 1); (8, 8); (8, 8); (8, 8); (4, 4); (4, 4); (8, 8)].
Definition MemoryMapEntry_fields : list (Z * Z) := [(8, 8); (8, 8); (4, 4); (4, 4)].

Definition MEMORY_MAP_ENTRY_SIZE : Z := cast 32 (size_of MemoryMapEntry_fields).

(** [&*boot_info]: the fields at the offsets of the layout. *)
Definition BootInfo_read (m : bytemem) (p : Z) : BootInfo :=
  let at_ i := p + nth i (c_offsets 0 BootInfo_fields) 0 in
  {| magic := le_load m (at_ 0%nat) 8;
     version := le_load m (at_ 1%nat) 4;
     size := le_load m (at_ 2%nat) 4;
     boot_drive := le_load m (at_ 3%nat) 1;
     kernel_phys_start := le_load m (at_ 5%nat) 8;
     kernel_phys_end := le_load m (at_ 6%nat) 8;
     memory_map_addr := le_load m (at_ 7%nat) 8;
     memory_map_count := le_load m (at_ 8%nat) 4;
     memory_map_entry_size := le_load m (at_ 9%nat) 4 |}.

Definition MemoryMapEntry_read (m : bytemem) (p : Z) : MemoryMapEntry :=
  let at_ i := p + nth i (c_offsets 0 MemoryMapEntry_fields) 0 in
  {| base_addr := le_load m (at_ 0%nat) 8;
     entry_length := le_load m (at_ 1%nat) 8;
     entry_type := le_load m (at_ 2%nat) 4;
     attributes := le_load m (at_ 3%nat) 4 |}.
(** [slice::from_raw_parts(memory_map_addr, memory_map_count)]. *)
Definition memory_map (m : bytemem) (info : BootInfo) : list MemoryMapEntry :=
  (λ i, MemoryMapEntry_read m (memory_map_addr info + size_of MemoryMapEntry_fields * i))
    <$> seqZ 0 (memory_map_count info).

(** ** The checks of [_start]

    [Err line] is the line the kernel writes to the serial port before it
    halts, [Ok info] the boot information it goes on with. *)

Definition validate_boot_info (m : bytemem) (boot_info : Z) : result BootInfo :=
  if boot_info =? 0 then Err "BOOTINFO NULL" else
  let info := BootInfo_read m boot_info in
  if negb (magic info =? BOOT_INFO_MAGIC) then Err "BAD MAGIC" else
  if negb (version info =? BOOT_INFO_VERSION) then Err "BAD VERSION" else
  if memory_map_addr info =? 0 then Err "BAD MEMORY MAP ADDRESS" else
  if memory_map_count info =? 0 then Err "BAD MEMORY MAP COUNT" else
  if negb (memory_map_entry_size info =? MEMORY_MAP_ENTRY_SIZE)
  then Err "BAD MEMORY MAP ENTRY SIZE" else
  if size info <? cast 32 (size_of BootInfo_fields) then Err "BAD SIZE" else
  if kernel_phys_end info <=? kernel_phys_start info then Err "BAD KERNEL RANGE" else
  Ok info.

(** ** The stores of the second boot stage

    R10 and R11 hold the kernel's physical range, [drive] is the byte at
    [boot_drive] and [count] the word at [memory_map_count]. *)

Definition STAGE2_BOOT_INFO : Z := 0x70000.

Definition stage2_build_boot_info (drive count r10 r11 : Z) (m : bytemem) : bytemem :=
  let rdi := STAGE2_BOOT_INFO in
  let m := le_store m (rdi + 0x00) 8 0x554E424F554E4442 in
  let m := le_store m (rdi + 0x08) 4 2 in
  let m := le_store m (rdi + 0x0C) 4 64 in
  let m := le_store m (rdi + 0x10) 8 0 in
  let m := le_store m (rdi + 0x10) 1 drive in
  let m := le_store m (rdi + 0x18) 8 r10 in
  let m := le_store m (rdi + 0x20) 8 r11 in
  let m := le_store m (rdi + 0x28) 8 0x60000 in
  let m := le_store m (rdi + 0x30) 4 count in
  let m := le_store m (rdi + 0x34) 4 24 in
  le_store m (rdi + 0x38) 8 0.

Lemma BootInfo_read_stage2 drive count r10 r11 m :
  in_u 8 drive → in_u 16 count → in_u 64 r10 → in_u 64 r11 →
  BootInfo_read (stage2_build_boot_info drive count r10 r11 m) STAGE2_BOOT_INFO =
  mkBootInfo BOOT_INFO_MAGIC BOOT_INFO_VERSION 64 drive r10 r11 0x60000 count 24.
Proof.
  unfold in_u, BootInfo_read, stage2_build_boot_info. intros Hd Hc Hs He.
  assert (c_offsets 0 BootInfo_fields = [0; 8; 12; 16; 17; 24; 32; 40; 48; 52; 56]) as -> by done.
  cbn [nth]. cbv zeta. unfold STAGE2_BOOT_INFO.
  f_equal; load_store; done.
Qed.

(** The boot loader and the kernel agree on the hand-off: whatever was in
    memory, the [BootInfo] the kernel reads through its [repr(C)] layout after
    the second stage's stores is the drive, the kernel range and the map the
    stage wrote, and every check of [_start] passes exactly when the map has an
    entry and the kernel's physical range is not empty; the only other outcomes
    are the halts on an empty map and on an empty range. *)
Lemma validate_stage2 drive count r10 r11 m :
  in_u 8 drive → in_u 16 count → in_u 64 r10 → in_u 64 r11 →
  validate_boot_info (stage2_build_boot_info drive count r10 r11 m) STAGE2_BOOT_INFO =
  if count =? 0 then Err "BAD MEMORY MAP COUNT"
  else if r11 <=? r10 then Err "BAD KERNEL RANGE"
  else Ok (mkBootInfo BOOT_INFO_MAGIC BOOT_INFO_VERSION 64 drive r10 r11 0x60000 count 24).
Proof.
  intros Hd Hc Hs He. unfold validate_boot_info.
  rewrite BootInfo_read_stage2 by done.
  simpl magic. simpl version. simpl memory_map_addr. simpl memory_map_entry_size.
  simpl memory_map_count. simpl size. simpl kernel_phys_start. simpl kernel_phys_end.
  assert (MEMORY_MAP_ENTRY_SIZE = 24) as -> by done.
  assert (cast 32 (size_of BootInfo_fields) = 64) as -> by done.
  rewrite !Z.eqb_refl. done.
Qed.
