(* ===== verification/FrameInterface.v ===== *)
(** * What the frame allocator promises its clients

    The page-table code, the address spaces and the heap call only
    [allocate_frame] and [free_frame].  [FrameAlloc] names the two
    operations, [FrameAllocSpec] states what the clients rely on, in terms
    of the set of frames that are in use.  FrameAllocator.v discharges it. *)

From S2P Require Import Prelude.
Local Open Scope Z_scope.

Class FrameAlloc (A : Type) := {
  allocate_frame : M A (option Z);
  free_frame : Z → M A unit;
}.

(** [fa_used s f]: the frame at physical address [f] is reserved or handed
    out; [fa_owned s f]: it was handed out by [allocate_frame].  A frame is
    only ever handed out when it is not in use, and it is the lowest such. *)
Class FrameAllocSpec (A : Type) `{FrameAlloc A} := {
  fa_ok : A → Prop;
  fa_used : A → Z → bool;
  fa_owned : A → Z → bool;
  fa_owned_used s f : fa_ok s → fa_owned s f = true → fa_used s f = true;
  fa_alloc s : fa_ok s →
    (∃ f s', allocate_frame s = Done (Some f, s') ∧ fa_ok s' ∧
       0 ≤ f < 2 ^ 32 ∧ f mod 4096 = 0 ∧
       fa_used s f = false ∧ fa_owned s' f = true ∧
       (∀ g, fa_used s' g = if decide (g = f) then true else fa_used s g) ∧
       (∀ g, g ≠ f → fa_owned s' g = fa_owned s g))
    ∨ (allocate_frame s = Done (None, s) ∧
       ∀ f, 0 ≤ f < 2 ^ 32 → f mod 4096 = 0 → fa_used s f = true);
  fa_alloc_lowest s f s' : fa_ok s → allocate_frame s = Done (Some f, s') →
    ∀ g, 0 ≤ g < f → g mod 4096 = 0 → fa_used s g = true;
  fa_free s f : fa_ok s → fa_owned s f = true →
    ∃ s', free_frame f s = Done ((), s') ∧ fa_ok s' ∧
      (∀ g, fa_used s' g = if decide (g = f) then false else fa_used s g) ∧
      (∀ g, fa_owned s' g = if decide (g = f) then false else fa_owned s g);
  fa_free_ignored s f : fa_ok s → 0 ≤ f → fa_owned s f = false →
    free_frame f s = Done ((), s);
}.
