(* ===== verification/FrameAllocator.v ===== *)
(** * The physical frame allocator (kernel/src/memory/frame_allocator.rs)

    The two static bitmaps and the [free_frames] counter are the state
    [FrameAllocator]; every method is a definition in the monad [M] over it,
    with the overflow checks and array bounds checks of the source. *)

From S2P Require Import Prelude BootInfo FrameInterface.
Local Open Scope Z_scope.

Definition FRAME_SIZE : Z := 4096.
Definition MAX_PHYSICAL_MEMORY : Z := 4 * 1024 * 1024 * 1024.
Definition MAX_FRAMES : Z := MAX_PHYSICAL_MEMORY / FRAME_SIZE.
Definition BITMAP_SIZE : Z := MAX_FRAMES / 8.

Record FrameAllocator := mkFA {
  FRAME_BITMAP : array;
  ALLOCATED_BITMAP : array;
  free_frames : Z;
}.

(** [FrameAllocator::empty()], with the statics as the program loads them. *)
Definition FrameAllocator_empty : FrameAllocator :=
  mkFA (arr_filled BITMAP_SIZE 0) (arr_filled BITMAP_SIZE 0) 0.

Definition align_up (value alignment : Z) : outcome Z :=
  if value mod alignment =? 0 then Done value
  else add_u 64 value (alignment - value mod alignment).

Definition align_down (value alignment : Z) : Z := value - value mod alignment.

(** ** Single-frame operations *)

Definition is_used (frame : Z) : M FrameAllocator bool :=
  s ← get;
  byte ← lift (arr_get (FRAME_BITMAP s) (frame / 8));
  let mask := Z.shiftl 1 (frame mod 8) in
  mret (negb (Z.land byte mask =? 0)).

Definition mark_used (frame : Z) : M FrameAllocator unit :=
  s ← get;
  byte ← lift (arr_get (FRAME_BITMAP s) (frame / 8));
  bm ← lift (arr_set (FRAME_BITMAP s) (frame / 8) (Z.lor byte (Z.shiftl 1 (frame mod 8))));
  put (mkFA bm (ALLOCATED_BITMAP s) (free_frames s)).

Definition mark_free (frame : Z) : M FrameAllocator unit :=
  s ← get;
  byte ← lift (arr_get (FRAME_BITMAP s) (frame / 8));
  bm ← lift (arr_set (FRAME_BITMAP s) (frame / 8)
               (Z.land byte (not_u 8 (Z.shiftl 1 (frame mod 8)))));
  put (mkFA bm (ALLOCATED_BITMAP s) (free_frames s)).

Definition is_allocated (frame : Z) : M FrameAllocator bool :=
  s ← get;
  byte ← lift (arr_get (ALLOCATED_BITMAP s) (frame / 8));
  let mask := Z.shiftl 1 (frame mod 8) in
  mret (negb (Z.land byte mask =? 0)).

Definition mark_allocated (frame : Z) : M FrameAllocator unit :=
  s ← get;
  byte ← lift (arr_get (ALLOCATED_BITMAP s) (frame / 8));
  bm ← lift (arr_set (ALLOCATED_BITMAP s) (frame / 8) (Z.lor byte (Z.shiftl 1 (frame mod 8))));
  put (mkFA (FRAME_BITMAP s) bm (free_frames s)).

Definition mark_unallocated (frame : Z) : M FrameAllocator unit :=
  s ← get;
  byte ← lift (arr_get (ALLOCATED_BITMAP s) (frame / 8));
  bm ← lift (arr_set (ALLOCATED_BITMAP s) (frame / 8)
               (Z.land byte (not_u 8 (Z.shiftl 1 (frame mod 8)))));
  put (mkFA (FRAME_BITMAP s) bm (free_frames s)).

(** [self.free_frames += 1] and [self.free_frames -= 1]. *)
Definition free_frames_inc : M FrameAllocator unit :=
  s ← get; n ← lift (add_u 64 (free_frames s) 1);
  put (mkFA (FRAME_BITMAP s) (ALLOCATED_BITMAP s) n).
Definition free_frames_dec : M FrameAllocator unit :=
  s ← get; n ← lift (sub_u (free_frames s) 1);
  put (mkFA (FRAME_BITMAP s) (ALLOCATED_BITMAP s) n).

(** ** Allocation and release *)

Fixpoint allocate_loop (n : nat) (frame : Z) : M FrameAllocator (option Z) :=
  match n with
  | O => mret None
  | S k =>
      used ← is_used frame;
      if negb used then
        mark_used frame ;;
        mark_allocated frame ;;
        free_frames_dec ;;
        mret (Some (frame * FRAME_SIZE))
      else allocate_loop k (frame + 1)
  end.

Definition FrameAllocator_allocate_frame : M FrameAllocator (option Z) :=
  allocate_loop (Z.to_nat MAX_FRAMES) 0.

Definition FrameAllocator_free_frame (address : Z) : M FrameAllocator unit :=
  if negb (address mod FRAME_SIZE =? 0) then mret ()
  else
    let frame := address / FRAME_SIZE in
    if MAX_FRAMES <=? frame then mret ()
    else
      allocated ← is_allocated frame;
      if negb allocated then mret ()
      else mark_free frame ;; mark_unallocated frame ;; free_frames_inc.

(** ** Initialisation from the E820 memory map *)

Definition reserve_body (address : Z) : M FrameAllocator unit :=
  let frame := address / FRAME_SIZE in
  if frame <? MAX_FRAMES then
    used ← is_used frame;
    if negb used then mark_used frame ;; free_frames_dec else mret ()
  else mret ().

Definition reserve_range (start end_ : Z) : M FrameAllocator unit :=
  let start := align_down start FRAME_SIZE in
  end_ ← lift (align_up end_ FRAME_SIZE);
  while_lt start end_ FRAME_SIZE reserve_body.

Definition release_body (address : Z) : M FrameAllocator unit :=
  let frame := address / FRAME_SIZE in
  if frame <? MAX_FRAMES then
    used ← is_used frame;
    if (used : bool) then mark_free frame ;; free_frames_inc else mret ()
  else mret ().

(** One iteration of [for entry in memory_map]; each [continue] is a [mret ()]. *)
Definition release_entry (entry : MemoryMapEntry) : M FrameAllocator unit :=
  if negb (entry_type entry =? 1) then mret ()
  else
    region_start ← lift (align_up (base_addr entry) FRAME_SIZE);
    match checked_add 64 (base_addr entry) (entry_length entry) with
    | None => mret ()
    | Some e =>
        let region_end := align_down e FRAME_SIZE in
        if region_end <=? region_start then mret ()
        else
          let region_end := Z.min region_end MAX_PHYSICAL_MEMORY in
          while_lt region_start region_end FRAME_SIZE release_body
    end.

Fixpoint release_entries (memory_map : list MemoryMapEntry) : M FrameAllocator unit :=
  match memory_map with
  | [] => mret ()
  | entry :: rest => release_entry entry ;; release_entries rest
  end.

Definition FrameAllocator_initialize (memory_map : list MemoryMapEntry)
    (kernel_start kernel_end : Z) : M FrameAllocator unit :=
  put (mkFA (arr_filled BITMAP_SIZE 0xFF) (arr_filled BITMAP_SIZE 0x00) 0) ;;
  release_entries memory_map ;;
  reserve_range 0x00000000 0x00100000 ;;
  reserve_range 0x00008000 0x0000C000 ;;
  reserve_range 0x00020000 0x00024000 ;;
  reserve_range 0x00060000 0x00061000 ;;
  reserve_range 0x00070000 0x00071000 ;;
  reserve_range 0x00090000 0x00091000 ;;
  reserve_range kernel_start kernel_end.

#[export] Instance FrameAllocator_ops : FrameAlloc FrameAllocator := {|
  allocate_frame := FrameAllocator_allocate_frame;
  free_frame := FrameAllocator_free_frame;
|}.

(** ** Bitmaps as sets of frames *)

Lemma MAX_FRAMES_val : MAX_FRAMES = 1048576.
Proof. reflexivity. Qed.
Lemma BITMAP_SIZE_val : BITMAP_SIZE = 131072.
Proof. reflexivity. Qed.

#[global] Opaque MAX_FRAMES BITMAP_SIZE.

Definition bm_test (bm : array) (f : Z) : bool := Z.testbit (arr_at bm (f / 8)) (f mod 8).

(** The type invariant of [[u8; BITMAP_SIZE]]. *)
Definition bm_ok (bm : array) : Prop :=
  arr_len bm = BITMAP_SIZE ∧ ∀ i, in_u 8 (arr_at bm i).

(** [set_bit f b U] is [U] with the answer for [f] replaced by [b]. *)
Definition set_bit (f : Z) (b : bool) (U : Z → bool) : Z → bool :=
  λ g, if decide (g = f) then b else U g.

Lemma frame_byte_range f : 0 ≤ f < MAX_FRAMES → 0 ≤ f / 8 < BITMAP_SIZE.
Proof.
  rewrite MAX_FRAMES_val, BITMAP_SIZE_val. intros.
  split; [apply Z.div_pos|apply Z.div_lt_upper_bound]; lia.
Qed.

Lemma frame_bit_inj f g : f / 8 = g / 8 → f mod 8 = g mod 8 → f = g.
Proof. intros. rewrite (Z.div_mod f 8), (Z.div_mod g 8); lia. Qed.

Lemma bm_get bm f : bm_ok bm → 0 ≤ f < MAX_FRAMES →
  arr_get bm (f / 8) = Done (arr_at bm (f / 8)).
Proof. intros [Hl _] Hf%frame_byte_range. apply arr_get_Done. lia. Qed.

(** Writing a byte that differs from the old one at bit [f mod 8] only. *)
Lemma bm_write bm f b x : bm_ok bm → 0 ≤ f < MAX_FRAMES → in_u 8 x →
  (∀ k, 0 ≤ k < 8 →
     Z.testbit x k = if decide (k = f mod 8) then b else Z.testbit (arr_at bm (f / 8)) k) →
  ∃ bm', arr_set bm (f / 8) x = Done bm' ∧ bm_ok bm' ∧
         ∀ g, bm_test bm' g = set_bit f b (bm_test bm) g.
Proof.
  intros [Hl Hu] Hf Hx Hbits. pose proof (frame_byte_range f Hf).
  destruct (arr_set_Done bm (f / 8) x) as (bm' & Hset & Hl' & Hat); [lia|].
  exists bm'. split; [done|]. split.
  { split; [congruence|]. intros i. rewrite Hat. by case_decide. }
  intros g. unfold bm_test, set_bit. rewrite Hat.
  pose proof (Z.mod_pos_bound g 8 ltac:(lia)) as Hg.
  case_decide as Hd.
  - rewrite Hbits by done. rewrite <- Hd. repeat case_decide; try done; subst; try done.
    exfalso. eauto using frame_bit_inj.
  - case_decide; [by subst|done].
Qed.

Lemma or_bit_spec byte f k : 0 ≤ k < 8 →
  Z.testbit (Z.lor byte (Z.shiftl 1 (f mod 8))) k
  = if decide (k = f mod 8) then true else Z.testbit byte k.
Proof.
  intros Hk. pose proof (Z.mod_pos_bound f 8 ltac:(lia)).
  rewrite Z.lor_spec, Z.shiftl_1_l, Z.pow2_bits_eqb by lia.
  case_decide as Hd; [by rewrite Hd, Z.eqb_refl, orb_true_r|].
  destruct (Z.eqb_spec (f mod 8) k); [congruence|apply orb_false_r].
Qed.

Lemma clear_bit_spec byte f k : 0 ≤ k < 8 →
  Z.testbit (Z.land byte (not_u 8 (Z.shiftl 1 (f mod 8)))) k
  = if decide (k = f mod 8) then false else Z.testbit byte k.
Proof.
  intros Hk. pose proof (Z.mod_pos_bound f 8 ltac:(lia)).
  rewrite Z.land_spec, testbit_not_u, Z.shiftl_1_l, Z.pow2_bits_eqb by lia.
  case_decide as Hd; [by rewrite Hd, Z.eqb_refl, andb_false_r|].
  destruct (Z.eqb_spec (f mod 8) k); [congruence|apply andb_true_r].
Qed.

Lemma mask_u8 f : in_u 8 (Z.shiftl 1 (f mod 8)).
Proof. apply in_u_shiftl1, Z.mod_pos_bound. lia. Qed.

(** ** The abstract state: which frames are used, which are handed out *)

Definition used (s : FrameAllocator) : Z → bool := bm_test (FRAME_BITMAP s).
Definition alloced (s : FrameAllocator) : Z → bool := bm_test (ALLOCATED_BITMAP s).

(** [view s U A n]: the bitmaps of [s] represent the sets [U] and [A] and
    its counter is [n]. *)
Record view (s : FrameAllocator) (U A : Z → bool) (n : Z) : Prop := {
  view_fb : bm_ok (FRAME_BITMAP s);
  view_ab : bm_ok (ALLOCATED_BITMAP s);
  view_U : ∀ f, used s f = U f;
  view_A : ∀ f, alloced s f = A f;
  view_n : free_frames s = n;
}.

Section view_ops.
Context (s : FrameAllocator) (U A : Z → bool) (n f : Z).
Context (HV : view s U A n).

Section in_range.
Context (Hf : 0 ≤ f < MAX_FRAMES).

Lemma is_used_run : is_used f s = Done (U f, s).
Proof using HV Hf.
  destruct HV as [Hb _ HU _ _]. unfold is_used, mbind, M_bind, lift, get.
  rewrite bm_get by done. unfold mret, M_ret.
  rewrite land_pow2_ne0 by (apply Z.mod_pos_bound; lia). by rewrite <- HU.
Qed.

Lemma is_allocated_run : is_allocated f s = Done (A f, s).
Proof using HV Hf.
  destruct HV as [_ Hb _ HA _]. unfold is_allocated, mbind, M_bind, lift, get.
  rewrite bm_get by done. unfold mret, M_ret.
  rewrite land_pow2_ne0 by (apply Z.mod_pos_bound; lia). by rewrite <- HA.
Qed.

Lemma bm_or_run bm : bm_ok bm →
  ∃ bm', arr_set bm (f / 8) (Z.lor (arr_at bm (f / 8)) (Z.shiftl 1 (f mod 8))) = Done bm'
         ∧ bm_ok bm' ∧ ∀ g, bm_test bm' g = set_bit f true (bm_test bm) g.
Proof using Hf.
  intros Hb. apply bm_write; [done|done| |intros; by apply or_bit_spec].
  apply in_u_lor; [lia|apply Hb|apply mask_u8].
Qed.

Lemma bm_clear_run bm : bm_ok bm →
  ∃ bm', arr_set bm (f / 8) (Z.land (arr_at bm (f / 8)) (not_u 8 (Z.shiftl 1 (f mod 8))))
         = Done bm'
         ∧ bm_ok bm' ∧ ∀ g, bm_test bm' g = set_bit f false (bm_test bm) g.
Proof using Hf.
  intros Hb. apply bm_write; [done|done| |intros; by apply clear_bit_spec].
  apply in_u_land_l; [lia|apply Hb].
Qed.

Lemma set_bit_ext b (P Q : Z → bool) : (∀ g, P g = Q g) → ∀ g, set_bit f b P g = set_bit f b Q g.
Proof. intros H g. unfold set_bit. by case_decide. Qed.

Lemma mark_used_run :
  ∃ s', mark_used f s = Done ((), s') ∧ view s' (set_bit f true U) A n.
Proof using HV Hf.
  destruct HV as [Hb Ha HU HA Hn]. destruct (bm_or_run _ Hb) as (bm' & Hset & Hok & Ht).
  unfold mark_used, mbind, M_bind, lift, get, put. rewrite bm_get, Hset by done.
  eexists. split; [done|]. split; [done|done| |done|done].
  intros g. unfold used; simpl. rewrite Ht. by apply set_bit_ext.
Qed.

Lemma mark_free_run :
  ∃ s', mark_free f s = Done ((), s') ∧ view s' (set_bit f false U) A n.
Proof using HV Hf.
  destruct HV as [Hb Ha HU HA Hn]. destruct (bm_clear_run _ Hb) as (bm' & Hset & Hok & Ht).
  unfold mark_free, mbind, M_bind, lift, get, put. rewrite bm_get, Hset by done.
  eexists. split; [done|]. split; [done|done| |done|done].
  intros g. unfold used; simpl. rewrite Ht. by apply set_bit_ext.
Qed.

Lemma mark_allocated_run :
  ∃ s', mark_allocated f s = Done ((), s') ∧ view s' U (set_bit f true A) n.
Proof using HV Hf.
  destruct HV as [Hb Ha HU HA Hn]. destruct (bm_or_run _ Ha) as (bm' & Hset & Hok & Ht).
  unfold mark_allocated, mbind, M_bind, lift, get, put. rewrite bm_get, Hset by done.
  eexists. split; [done|]. split; [done|done|done| |done].
  intros g. unfold alloced; simpl. rewrite Ht. by apply set_bit_ext.
Qed.

Lemma mark_unallocated_run :
  ∃ s', mark_unallocated f s = Done ((), s') ∧ view s' U (set_bit f false A) n.
Proof using HV Hf.
  destruct HV as [Hb Ha HU HA Hn]. destruct (bm_clear_run _ Ha) as (bm' & Hset & Hok & Ht).
  unfold mark_unallocated, mbind, M_bind, lift, get, put. rewrite bm_get, Hset by done.
  eexists. split; [done|]. split; [done|done|done| |done].
  intros g. unfold alloced; simpl. rewrite Ht. by apply set_bit_ext.
Qed.
End in_range.

Lemma free_frames_inc_run : n + 1 < 2 ^ 64 →
  ∃ s', free_frames_inc s = Done ((), s') ∧ view s' U A (n + 1).
Proof using HV.
  intros. destruct HV as [Hb Ha HU HA Hn].
  unfold free_frames_inc, mbind, M_bind, lift, get, put.
  rewrite add_u_Done by lia. eexists. split; [done|]. split; try done. simpl. lia.
Qed.

Lemma free_frames_dec_run : 1 ≤ n →
  ∃ s', free_frames_dec s = Done ((), s') ∧ view s' U A (n - 1).
Proof using HV.
  intros. destruct HV as [Hb Ha HU HA Hn].
  unfold free_frames_dec, mbind, M_bind, lift, get, put.
  rewrite sub_u_Done by lia. eexists. split; [done|]. split; try done. simpl. lia.
Qed.
End view_ops.

(** ** The invariant *)

(** The number of frames not in [U]; sealed, so that no tactic evaluates a
    count over a million frames. *)
Definition free_count_def (U : Z → bool) : Z := count (λ f, negb (U f)) (Z.to_nat MAX_FRAMES).
Definition free_count_aux : seal free_count_def.
Proof. by eexists. Qed.
Definition free_count : (Z → bool) → Z := unseal free_count_aux.
Lemma free_count_eq U : free_count U = count (λ f, negb (U f)) (Z.to_nat MAX_FRAMES).
Proof. unfold free_count. by rewrite seal_eq. Qed.

(** The counter is the number of free frames; a frame handed out is used. *)
Record fa_inv (s : FrameAllocator) (U A : Z → bool) : Prop := {
  inv_view : view s U A (free_count U);
  inv_alloc_used : ∀ f, 0 ≤ f < MAX_FRAMES → A f = true → U f = true;
}.

Lemma free_count_bound U : 0 ≤ free_count U ≤ MAX_FRAMES.
Proof.
  rewrite free_count_eq. pose proof (count_bounds (λ f, negb (U f)) (Z.to_nat MAX_FRAMES)).
  pose proof MAX_FRAMES_val. lia.
Qed.

Lemma free_count_set_used U f : 0 ≤ f < MAX_FRAMES → U f = false →
  free_count U = free_count (set_bit f true U) + 1.
Proof.
  intros Hf HU. rewrite !free_count_eq.
  apply (count_flip _ _ (Z.to_nat MAX_FRAMES) f); [lia| | |].
  - unfold set_bit. by rewrite decide_True.
  - by rewrite HU.
  - intros i Hi. unfold set_bit. by rewrite decide_False.
Qed.

Lemma free_count_set_free U f : 0 ≤ f < MAX_FRAMES → U f = true →
  free_count (set_bit f false U) = free_count U + 1.
Proof.
  intros Hf HU. rewrite !free_count_eq.
  apply (count_flip _ _ (Z.to_nat MAX_FRAMES) f); [lia| | |].
  - by rewrite HU.
  - unfold set_bit. by rewrite decide_True.
  - intros i Hi. unfold set_bit. by rewrite decide_False.
Qed.

Ltac step_with H :=
  let s' := fresh "s" in let E := fresh "E" in let V := fresh "V" in
  destruct H as (s' & E & V); [..|rewrite (bind_run _ _ _ _ _ E); clear E].

(** The effect of taking a free frame, as [allocate_frame] does it. *)
Lemma take_frame_run s U A f : fa_inv s U A → 0 ≤ f < MAX_FRAMES → U f = false →
  ∃ s', (mark_used f ;; mark_allocated f ;; free_frames_dec ;; mret (Some (f * FRAME_SIZE))) s
        = Done (Some (f * FRAME_SIZE), s') ∧
        fa_inv s' (set_bit f true U) (set_bit f true A).
Proof.
  intros [HV HA] Hf HU. pose proof (free_count_set_used U f Hf HU) as Hc.
  pose proof (free_count_bound (set_bit f true U)).
  destruct (mark_used_run s U A _ f HV Hf) as (s1 & E1 & V1).
  destruct (mark_allocated_run s1 _ _ _ f V1 Hf) as (s2 & E2 & V2).
  destruct (free_frames_dec_run s2 _ _ _ V2) as (s3 & E3 & V3); [lia|].
  exists s3. split.
  { rewrite (bind_run _ _ _ _ _ E1), (bind_run _ _ _ _ _ E2), (bind_run _ _ _ _ _ E3). done. }
  split; [by replace (free_count (set_bit f true U)) with (free_count U - 1) by lia|].
  intros g Hg. unfold set_bit. case_decide; auto.
Qed.

Lemma allocate_loop_run n frame s U A :
  fa_inv s U A → 0 ≤ frame → frame + Z.of_nat n ≤ MAX_FRAMES →
  (∃ f s', frame ≤ f < frame + Z.of_nat n ∧ U f = false ∧
     (∀ g, frame ≤ g < f → U g = true) ∧
     allocate_loop n frame s = Done (Some (f * FRAME_SIZE), s') ∧
     fa_inv s' (set_bit f true U) (set_bit f true A))
  ∨ ((∀ g, frame ≤ g < frame + Z.of_nat n → U g = true) ∧
     allocate_loop n frame s = Done (None, s)).
Proof.
  intros HI. revert frame. induction n as [|n IH]; intros frame H0 Hn.
  { right. split; [lia|done]. }
  simpl allocate_loop. rewrite (bind_run _ _ _ _ _ (is_used_run s U A _ frame (inv_view _ _ _ HI) ltac:(lia))).
  destruct (U frame) eqn:HU; simpl negb; cbv iota.
  - destruct (IH (frame + 1)) as [(f & s' & Hf & HUf & Hmin & Hrun & HI')|[Hall Hrun]]; [lia..| |].
    + left. exists f, s'. split; [lia|]. split; [done|]. split; [|done].
      intros g Hg. destruct (decide (g = frame)) as [->|]; [done|apply Hmin; lia].
    + right. split; [|done]. intros g Hg.
      destruct (decide (g = frame)) as [->|]; [done|apply Hall; lia].
  - left. destruct (take_frame_run s U A frame HI) as (s' & Hrun & HI'); [lia|done|].
    exists frame, s'. split; [lia|]. split; [done|]. split; [lia|done].
Qed.

(** The invariant on a concrete state, as its clients see it. *)
Definition FrameAllocator_ok (s : FrameAllocator) : Prop := fa_inv s (used s) (alloced s).

Lemma fa_inv_ok s U A : fa_inv s U A → FrameAllocator_ok s.
Proof.
  intros [HV HA]. destruct HV as [Hb Ha HU HAl Hn].
  assert (free_count (used s) = free_count U) as Hc.
  { rewrite !free_count_eq. apply count_ext. intros. by rewrite HU. }
  split; [by split; try done; rewrite Hc|].
  intros f Hf. rewrite HU, HAl. by apply HA.
Qed.

Lemma view_used s U A n f : view s U A n → used s f = U f.
Proof. intros [_ _ H _ _]. apply H. Qed.
Lemma view_alloced s U A n f : view s U A n → alloced s f = A f.
Proof. intros [_ _ _ H _]. apply H. Qed.

Lemma allocate_frame_run s U A : fa_inv s U A →
  (∃ f s', 0 ≤ f < MAX_FRAMES ∧ U f = false ∧ (∀ g, 0 ≤ g < f → U g = true) ∧
     FrameAllocator_allocate_frame s = Done (Some (f * FRAME_SIZE), s') ∧
     fa_inv s' (set_bit f true U) (set_bit f true A))
  ∨ ((∀ g, 0 ≤ g < MAX_FRAMES → U g = true) ∧
     FrameAllocator_allocate_frame s = Done (None, s)).
Proof.
  intros HI. pose proof MAX_FRAMES_val as Hm. unfold FrameAllocator_allocate_frame.
  destruct (allocate_loop_run (Z.to_nat MAX_FRAMES) 0 s _ _ HI)
    as [(f & s' & Hf & HU & Hmin & Hrun & HI')|[Hall Hrun]]; [lia..| |].
  - left. exists f, s'. assert (0 ≤ f < MAX_FRAMES) by lia. auto.
  - right. split; [intros; apply Hall; lia|exact Hrun].
Qed.

(** The effect of giving a frame back, once the guards have passed. *)
Lemma give_frame_run s U A f : fa_inv s U A → 0 ≤ f < MAX_FRAMES → A f = true →
  ∃ s', (mark_free f ;; mark_unallocated f ;; free_frames_inc) s = Done ((), s') ∧
        fa_inv s' (set_bit f false U) (set_bit f false A).
Proof.
  intros [HV HA] Hf HAf. pose proof (HA f Hf HAf) as HU.
  pose proof (free_count_set_free U f Hf HU) as Hc.
  pose proof (free_count_bound (set_bit f false U)). pose proof MAX_FRAMES_val.
  destruct (mark_free_run s U A _ f HV Hf) as (s1 & E1 & V1).
  destruct (mark_unallocated_run s1 _ _ _ f V1 Hf) as (s2 & E2 & V2).
  destruct (free_frames_inc_run s2 _ _ _ V2) as (s3 & E3 & V3); [lia|].
  exists s3. split.
  { rewrite (bind_run _ _ _ _ _ E1), (bind_run _ _ _ _ _ E2). exact E3. }
  split; [by rewrite Hc|].
  intros g Hg. unfold set_bit. case_decide; auto.
Qed.

(** The condition under which [free_frame] acts. *)
Definition freeable (A : Z → bool) (address : Z) : bool :=
  (address mod FRAME_SIZE =? 0) && (address / FRAME_SIZE <? MAX_FRAMES)
  && A (address / FRAME_SIZE).

Lemma free_frame_run s U A address : fa_inv s U A → 0 ≤ address →
  if freeable A address then
    ∃ s', FrameAllocator_free_frame address s = Done ((), s') ∧
      fa_inv s' (set_bit (address / FRAME_SIZE) false U) (set_bit (address / FRAME_SIZE) false A)
  else FrameAllocator_free_frame address s = Done ((), s).
Proof.
  intros HI Ha. unfold freeable, FrameAllocator_free_frame.
  destruct (address mod FRAME_SIZE =? 0); [|done]. simpl.
  assert (0 ≤ address / FRAME_SIZE) by (apply Z.div_pos; [lia|done]).
  rewrite Z.leb_antisym. destruct (Z.ltb_spec (address / FRAME_SIZE) MAX_FRAMES); [|done]. simpl.
  rewrite (bind_run _ _ _ _ _ (is_allocated_run s _ _ _ _ (inv_view _ _ _ HI) ltac:(done))).
  destruct (A (address / FRAME_SIZE)) eqn:HA; [|done]. simpl.
  by apply give_frame_run.
Qed.

(** ** Ranges of frames *)

(** [range_set lo hi b U]: the frames of [lo, hi) that the bitmap has are set to [b]. *)
Definition range_set (lo hi : Z) (b : bool) (U : Z → bool) : Z → bool :=
  λ f, if decide (lo ≤ f < hi ∧ f < MAX_FRAMES) then b else U f.

Lemma fa_inv_ext s U V A B : fa_inv s U A →
  (∀ f, U f = V f) → (∀ f, A f = B f) → fa_inv s V B.
Proof.
  intros [[Hb Ha HU HA Hn] HAU] HUV HAB.
  assert (free_count U = free_count V) as Hc.
  { rewrite !free_count_eq. apply count_ext. intros. by rewrite HUV. }
  split; [split; [done|done|intros; by rewrite HU|intros; by rewrite HA|congruence]|].
  intros f Hf. rewrite <- HUV, <- HAB. by apply HAU.
Qed.

Lemma set_bit_same U f b g : U f = b → U g = set_bit f b U g.
Proof. intros. unfold set_bit. case_decide; by subst. Qed.

Lemma range_set_snoc lo hi b U f : lo ≤ hi →
  range_set lo (hi + 1) b U f
  = if hi <? MAX_FRAMES then set_bit hi b (range_set lo hi b U) f else range_set lo hi b U f.
Proof.
  intros. unfold range_set, set_bit.
  destruct (Z.ltb_spec hi MAX_FRAMES); repeat case_decide; try done; lia.
Qed.

Lemma range_set_empty lo hi b U f : hi ≤ lo → range_set lo hi b U f = U f.
Proof. intros. unfold range_set. case_decide; [lia|done]. Qed.

Lemma reserve_body_run s U A f : fa_inv s U A → 0 ≤ f →
  ∃ s', reserve_body (f * FRAME_SIZE) s = Done ((), s') ∧
        fa_inv s' (if f <? MAX_FRAMES then set_bit f true U else U) A.
Proof.
  intros HI Hf. unfold reserve_body. rewrite Z.div_mul by done.
  destruct (Z.ltb_spec f MAX_FRAMES); [|by exists s].
  destruct HI as [HV HA]. rewrite (bind_run _ _ _ _ _ (is_used_run s _ _ _ f HV ltac:(done))).
  destruct (U f) eqn:HU; simpl.
  - exists s. split; [done|]. apply (fa_inv_ext s U _ A); [done| |done].
    intros. by apply set_bit_same.
  - pose proof (free_count_set_used U f ltac:(done) HU).
    pose proof (free_count_bound (set_bit f true U)).
    destruct (mark_used_run s U A _ f HV ltac:(done)) as (s1 & E1 & V1).
    destruct (free_frames_dec_run s1 _ _ _ V1) as (s2 & E2 & V2); [lia|].
    exists s2. split; [by rewrite (bind_run _ _ _ _ _ E1)|].
    split; [by replace (free_count (set_bit f true U)) with (free_count U - 1) by lia|].
    intros g Hg HAg. unfold set_bit. case_decide; [done|auto].
Qed.

Lemma release_body_run s U A f : fa_inv s U A → 0 ≤ f → A f = false →
  ∃ s', release_body (f * FRAME_SIZE) s = Done ((), s') ∧
        fa_inv s' (if f <? MAX_FRAMES then set_bit f false U else U) A.
Proof.
  intros HI Hf HAf. unfold release_body. rewrite Z.div_mul by done.
  destruct (Z.ltb_spec f MAX_FRAMES); [|by exists s].
  destruct HI as [HV HA]. rewrite (bind_run _ _ _ _ _ (is_used_run s _ _ _ f HV ltac:(done))).
  destruct (U f) eqn:HU; simpl.
  - pose proof (free_count_set_free U f ltac:(done) HU).
    pose proof (free_count_bound (set_bit f false U)). pose proof MAX_FRAMES_val.
    destruct (mark_free_run s U A _ f HV ltac:(done)) as (s1 & E1 & V1).
    destruct (free_frames_inc_run s1 _ _ _ V1) as (s2 & E2 & V2); [lia|].
    exists s2. split; [by rewrite (bind_run _ _ _ _ _ E1)|].
    split; [by replace (free_count (set_bit f false U)) with (free_count U + 1) by lia|].
    intros g Hg HAg. unfold set_bit. case_decide; [congruence|auto].
  - exists s. split; [done|]. apply (fa_inv_ext s U _ A); [done| |done].
    intros. by apply set_bit_same.
Qed.

(** A loop over frames whose body sets one bit sets the range. *)
Lemma frame_loop_run (b : bool) (body : Z → M FrameAllocator unit) s U A lo hi :
  fa_inv s U A → 0 ≤ lo → hi * FRAME_SIZE < 2 ^ 64 →
  (∀ t V f, fa_inv t V A → lo ≤ f →
     ∃ t', body (f * FRAME_SIZE) t = Done ((), t') ∧
           fa_inv t' (if f <? MAX_FRAMES then set_bit f b V else V) A) →
  ∃ s', while_lt (lo * FRAME_SIZE) (hi * FRAME_SIZE) FRAME_SIZE body s = Done ((), s') ∧
        fa_inv s' (range_set lo hi b U) A.
Proof.
  intros HI Hlo Hhi Hbody. assert (FRAME_SIZE = 4096) as HFS by done.
  destruct (decide (hi ≤ lo)).
  { exists s. rewrite while_lt_stop by nia. split; [done|].
    apply (fa_inv_ext s U _ A); [done| |done]. intros. by rewrite range_set_empty. }
  destruct (while_lt_inv (λ a t, fa_inv t (range_set lo (a / FRAME_SIZE) b U) A)
    (lo * FRAME_SIZE) (hi * FRAME_SIZE) FRAME_SIZE body s) as (s' & Hrun & HI'); [lia..| | | |].
  - rewrite <- Z.mul_sub_distr_r. by apply Z.mod_mul.
  - intros a t Ha Hmod HIt.
    assert (∃ f, a = f * FRAME_SIZE) as [f ->].
    { apply Z.mod_divide in Hmod as [q Hq]; [|done]. exists (q + lo). lia. }
    rewrite Z.div_mul in HIt by done.
    destruct (Hbody t _ f HIt) as (t' & Et & HIt'); [nia|].
    exists t'. split; [done|].
    replace (f * FRAME_SIZE + FRAME_SIZE) with ((f + 1) * FRAME_SIZE) by lia.
    rewrite Z.div_mul by done. eapply fa_inv_ext; [exact HIt'| |done].
    intros g. rewrite range_set_snoc by nia. by destruct (f <? MAX_FRAMES).
  - rewrite Z.div_mul by done. eapply fa_inv_ext; [exact HI| |done].
    intros. by rewrite range_set_empty.
  - exists s'. by rewrite Z.div_mul in HI' by done.
Qed.

(** ** Alignment *)

(** The index of the first frame at or above [value]. *)
Definition frame_ceil (value : Z) : Z := (value + (FRAME_SIZE - 1)) / FRAME_SIZE.
Definition frame_floor (value : Z) : Z := value / FRAME_SIZE.

Lemma align_down_frame value : align_down value FRAME_SIZE = frame_floor value * FRAME_SIZE.
Proof.
  unfold align_down, frame_floor. pose proof (Z.div_mod value FRAME_SIZE ltac:(done)). lia.
Qed.

Lemma align_up_frame value : 0 ≤ value →
  align_up value FRAME_SIZE =
  if frame_ceil value * FRAME_SIZE <? 2 ^ 64 then Done (frame_ceil value * FRAME_SIZE)
  else if value mod FRAME_SIZE =? 0 then Done (frame_ceil value * FRAME_SIZE)
  else Panicked Overflow.
Proof.
  intros Hv. unfold align_up, frame_ceil.
  assert (FRAME_SIZE = 4096) as HF by done.
  pose proof (Z.div_mod value FRAME_SIZE ltac:(done)) as Hdm.
  pose proof (Z.mod_pos_bound value FRAME_SIZE ltac:(done)) as Hm.
  destruct (Z.eqb_spec (value mod FRAME_SIZE) 0) as [H0|H0].
  - assert ((value + (FRAME_SIZE - 1)) / FRAME_SIZE = value / FRAME_SIZE) as ->.
    { symmetry. apply (Z.div_unique _ _ _ (FRAME_SIZE - 1)); lia. }
    replace (value / FRAME_SIZE * FRAME_SIZE) with value by lia. by destruct (value <? _).
  - assert ((value + (FRAME_SIZE - 1)) / FRAME_SIZE = value / FRAME_SIZE + 1) as ->.
    { symmetry. apply (Z.div_unique _ _ _ (value mod FRAME_SIZE - 1)); lia. }
    unfold add_u.
    replace (value + (FRAME_SIZE - value mod FRAME_SIZE))
      with ((value / FRAME_SIZE + 1) * FRAME_SIZE) by lia. done.
Qed.

Lemma align_up_frame_Done value : 0 ≤ value ≤ 2 ^ 64 - FRAME_SIZE →
  align_up value FRAME_SIZE = Done (frame_ceil value * FRAME_SIZE) ∧
  frame_ceil value * FRAME_SIZE < 2 ^ 64.
Proof.
  assert (FRAME_SIZE = 4096) as HF by done. intros Hv.
  assert (frame_ceil value * FRAME_SIZE < 2 ^ 64) as Hlt.
  { unfold frame_ceil. rewrite HF in *.
    assert ((value + (4096 - 1)) / 4096 < 2 ^ 52) by (apply Z.div_lt_upper_bound; lia). lia. }
  rewrite align_up_frame by lia. rewrite (proj2 (Z.ltb_lt _ _)) by done. done.
Qed.

Lemma reserve_range_run s U A start end_ : fa_inv s U A →
  0 ≤ start → 0 ≤ end_ ≤ 2 ^ 64 - FRAME_SIZE →
  ∃ s', reserve_range start end_ s = Done ((), s') ∧
        fa_inv s' (range_set (frame_floor start) (frame_ceil end_) true U) A.
Proof.
  intros HI Hs He. unfold reserve_range. rewrite align_down_frame.
  destruct (align_up_frame_Done end_ He) as [-> Hlt].
  rewrite (bind_run _ _ s (frame_ceil end_ * FRAME_SIZE) s) by done.
  assert (0 ≤ frame_floor start) by (apply Z.div_pos; [lia|done]).
  apply frame_loop_run; [done|done|done|].
  intros t V f Ht Hf. apply reserve_body_run; [done|lia].
Qed.

(** An E820 entry the allocator can use: type 1 and not past [2^64]. *)
Definition usable (entry : MemoryMapEntry) : bool :=
  (entry_type entry =? 1) && (base_addr entry + entry_length entry <? 2 ^ 64).

(** The frames that lie completely inside a usable entry. *)
Definition covers (entry : MemoryMapEntry) (f : Z) : bool :=
  usable entry && (frame_ceil (base_addr entry) <=? f)
  && (f <? frame_floor (base_addr entry + entry_length entry)).

(** Well-typed entries whose base [align_up] can round. *)
Definition entry_ok (entry : MemoryMapEntry) : Prop :=
  in_u 64 (base_addr entry) ∧ in_u 64 (entry_length entry) ∧
  (entry_type entry = 1 → base_addr entry ≤ 2 ^ 64 - FRAME_SIZE).

Definition release_set (entry : MemoryMapEntry) (U : Z → bool) : Z → bool :=
  λ f, if decide (f < MAX_FRAMES) then U f && negb (covers entry f) else U f.

Lemma release_entry_run s U A entry : fa_inv s U A → (∀ f, A f = false) → entry_ok entry →
  ∃ s', release_entry entry s = Done ((), s') ∧ fa_inv s' (release_set entry U) A.
Proof.
  intros HI HA (Hb & Hl & Ht). unfold release_entry, release_set, covers, usable.
  destruct (Z.eqb_spec (entry_type entry) 1) as [H1|H1]; simpl.
  2:{ exists s. split; [done|]. eapply fa_inv_ext; [exact HI| |done].
      intros. case_decide; by rewrite ?andb_true_r. }
  destruct (align_up_frame_Done (base_addr entry)) as [-> Hlt]; [destruct Hb; lia|].
  erewrite bind_run by done. cbv beta. unfold checked_add.
  destruct (Z.ltb_spec (base_addr entry + entry_length entry) (2 ^ 64)) as [Hov|Hov]; simpl.
  2:{ exists s. split; [done|]. eapply fa_inv_ext; [exact HI| |done].
      intros. case_decide; by rewrite ?andb_true_r. }
  rewrite align_down_frame.
  set (lo := frame_ceil (base_addr entry)) in *.
  set (hi := frame_floor (base_addr entry + entry_length entry)) in *.
  assert (FRAME_SIZE = 4096) as HF by done.
  assert (0 ≤ lo) by (apply Z.div_pos; destruct Hb; lia).
  assert (MAX_PHYSICAL_MEMORY = MAX_FRAMES * FRAME_SIZE) as HM by (by rewrite MAX_FRAMES_val).
  pose proof MAX_FRAMES_val.
  destruct (Z.leb_spec (hi * FRAME_SIZE) (lo * FRAME_SIZE)).
  { exists s. split; [done|]. eapply fa_inv_ext; [exact HI| |done].
    intros f. case_decide; [|done].
    destruct (Z.leb_spec lo f), (Z.ltb_spec f hi); simpl; rewrite ?andb_true_r; try done. nia. }
  replace (Z.min (hi * FRAME_SIZE) MAX_PHYSICAL_MEMORY)
    with (Z.min hi MAX_FRAMES * FRAME_SIZE) by nia.
  destruct (frame_loop_run false release_body s U A lo (Z.min hi MAX_FRAMES))
    as (s' & Hrun & HI'); [done|done|nia| |].
  { intros t V f Ht' Hf. apply release_body_run; [done|lia|apply HA]. }
  exists s'. split; [done|]. eapply fa_inv_ext; [exact HI'| |done].
  intros f. unfold range_set.
  destruct (Z.leb_spec lo f), (Z.ltb_spec f hi); simpl; repeat case_decide;
    rewrite ?andb_true_r, ?andb_false_r; try done; lia.
Qed.

(** The frames released by a whole memory map. *)
Definition map_covers (mm : list MemoryMapEntry) (f : Z) : bool := existsb (λ e, covers e f) mm.

Lemma release_entries_run mm s U A : fa_inv s U A → (∀ f, A f = false) → Forall entry_ok mm →
  ∃ s', release_entries mm s = Done ((), s') ∧
    fa_inv s' (λ f, if decide (f < MAX_FRAMES) then U f && negb (map_covers mm f) else U f) A.
Proof.
  intros HI HA Hmm. revert s U HI. induction Hmm as [|e mm He Hmm IH]; intros s U HI.
  - exists s. split; [done|]. eapply fa_inv_ext; [exact HI| |done].
    intros f. case_decide; simpl; by rewrite ?andb_true_r.
  - destruct (release_entry_run s U A e HI HA He) as (s1 & E1 & HI1).
    destruct (IH s1 _ HI1) as (s2 & E2 & HI2).
    exists s2. simpl. rewrite (bind_run _ _ _ _ _ E1). split; [done|].
    eapply fa_inv_ext; [exact HI2| |done]. intros f. unfold release_set. simpl.
    case_decide; [|done]. by rewrite negb_orb, andb_assoc.
Qed.

(** ** Initialisation *)

Definition initial_fa : FrameAllocator :=
  mkFA (arr_filled BITMAP_SIZE 0xFF) (arr_filled BITMAP_SIZE 0x00) 0.

Lemma testbit_0xFF k : 0 ≤ k < 8 → Z.testbit 0xFF k = true.
Proof. intros. change 0xFF with (Z.ones 8). apply Z.ones_spec_low. lia. Qed.

Lemma filled_ok x : in_u 8 x → bm_ok (arr_filled BITMAP_SIZE x).
Proof. intros Hx. split; [done|]. intros i. by rewrite arr_at_filled. Qed.

Lemma initial_fa_inv : fa_inv initial_fa (λ _, true) (λ _, false).
Proof.
  split; [split; simpl; [by apply filled_ok|by apply filled_ok| | |]|done].
  - intros f. unfold used, bm_test. simpl. rewrite arr_at_filled.
    apply testbit_0xFF, Z.mod_pos_bound. lia.
  - intros f. unfold alloced, bm_test. simpl. rewrite arr_at_filled. apply Z.bits_0.
  - rewrite free_count_eq. symmetry. by apply count_const_false.
Qed.

(** The frames [initialize] leaves in use. *)
Definition boot_used (mm : list MemoryMapEntry) (kernel_start kernel_end f : Z) : bool :=
  negb (map_covers mm f) || (f <? 256)
  || ((frame_floor kernel_start <=? f) && (f <? frame_ceil kernel_end)).

Lemma range_set_in lo hi b U f : f < MAX_FRAMES →
  range_set lo hi b U f = if (lo <=? f) && (f <? hi) then b else U f.
Proof.
  intros. unfold range_set. case_decide as Hd; destruct (Z.leb_spec lo f), (Z.ltb_spec f hi);
    simpl; try done; lia.
Qed.

(** A reservation inside the first MiB adds nothing to the first MiB. *)
Lemma low_range_absorbed lo hi f (Y : bool) : 0 ≤ lo → hi ≤ 256 → 0 ≤ f →
  (if (lo <=? f) && (f <? hi) then true else (f <? 256) || Y) = (f <? 256) || Y.
Proof.
  intros. destruct (Z.leb_spec lo f), (Z.ltb_spec f hi), (Z.ltb_spec f 256); simpl; done || lia.
Qed.

Lemma initialize_run mm ks ke s :
  Forall entry_ok mm → 0 ≤ ks → 0 ≤ ke ≤ 2 ^ 64 - FRAME_SIZE →
  ∃ s' U, FrameAllocator_initialize mm ks ke s = Done ((), s') ∧
    fa_inv s' U (λ _, false) ∧ ∀ f, 0 ≤ f < MAX_FRAMES → U f = boot_used mm ks ke f.
Proof.
  intros Hmm Hks Hke. assert (FRAME_SIZE = 4096) as HF by done.
  destruct (release_entries_run mm _ _ _ initial_fa_inv ltac:(done) Hmm) as (s0 & E0 & I0).
  destruct (reserve_range_run s0 _ _ 0x00000000 0x00100000 I0) as (s1 & E1 & I1); [lia..|].
  destruct (reserve_range_run s1 _ _ 0x00008000 0x0000C000 I1) as (s2 & E2 & I2); [lia..|].
  destruct (reserve_range_run s2 _ _ 0x00020000 0x00024000 I2) as (s3 & E3 & I3); [lia..|].
  destruct (reserve_range_run s3 _ _ 0x00060000 0x00061000 I3) as (s4 & E4 & I4); [lia..|].
  destruct (reserve_range_run s4 _ _ 0x00070000 0x00071000 I4) as (s5 & E5 & I5); [lia..|].
  destruct (reserve_range_run s5 _ _ 0x00090000 0x00091000 I5) as (s6 & E6 & I6); [lia..|].
  destruct (reserve_range_run s6 _ _ ks ke I6) as (s7 & E7 & I7); [lia..|].
  eexists s7, _. split; [|split; [exact I7|]].
  { unfold FrameAllocator_initialize. rewrite (bind_run _ _ s () initial_fa) by done.
    rewrite (bind_run _ _ _ _ _ E0), (bind_run _ _ _ _ _ E1), (bind_run _ _ _ _ _ E2),
      (bind_run _ _ _ _ _ E3), (bind_run _ _ _ _ _ E4), (bind_run _ _ _ _ _ E5),
      (bind_run _ _ _ _ _ E6). exact E7. }
  intros f Hf. rewrite !range_set_in by lia. rewrite decide_True by lia.
  unfold boot_used. simpl andb.
  change (frame_floor 0x00000000) with 0. change (frame_ceil 0x00100000) with 256.
  assert ((if (0 <=? f) && (f <? 256) then true else negb (map_covers mm f))
          = (f <? 256) || negb (map_covers mm f)) as ->.
  { destruct (Z.leb_spec 0 f); [|lia]. by destruct (f <? 256). }
  rewrite !low_range_absorbed by (done || lia).
  rewrite (orb_comm (negb _)).
  destruct ((frame_floor ks <=? f) && (f <? frame_ceil ke)); by rewrite ?orb_true_r, ?orb_false_r.
Qed.

(** ** Runs of allocations and releases

    A configuration is the allocator and the list of addresses that have
    been handed out and not freed since.  [free_frame] may be called with any
    address. *)

Inductive fa_step : FrameAllocator * list Z → FrameAllocator * list Z → Prop :=
| step_alloc s s' a live :
    FrameAllocator_allocate_frame s = Done (Some a, s') → fa_step (s, live) (s', a :: live)
| step_alloc_none s s' live :
    FrameAllocator_allocate_frame s = Done (None, s') → fa_step (s, live) (s', live)
| step_free s s' a live :
    0 ≤ a → FrameAllocator_free_frame a s = Done ((), s') →
    fa_step (s, live) (s', filter (λ x, x ≠ a) live).

(** What holds of every configuration reached from one whose used frames are [U0]. *)
Definition run_inv (U0 : Z → bool) (c : FrameAllocator * list Z) : Prop :=
  let '(s, live) := c in
  ∃ U A, fa_inv s U A ∧ NoDup live ∧
    (∀ a, a ∈ live ↔ freeable A a = true ∧ 0 ≤ a) ∧
    (∀ f, 0 ≤ f < MAX_FRAMES → U f = U0 f || A f) ∧
    (∀ f, 0 ≤ f < MAX_FRAMES → A f = true → U0 f = false) ∧
    free_count U + Z.of_nat (length live) = free_count U0.

Lemma freeable_frame A f : 0 ≤ f < MAX_FRAMES → freeable A (f * FRAME_SIZE) = A f.
Proof.
  intros. unfold freeable. rewrite Z.mod_mul, Z.div_mul by done. simpl.
  by rewrite (proj2 (Z.ltb_lt _ _)) by lia.
Qed.

Lemma freeable_inv A a : freeable A a = true → 0 ≤ a →
  a = a / FRAME_SIZE * FRAME_SIZE ∧ 0 ≤ a / FRAME_SIZE < MAX_FRAMES ∧ A (a / FRAME_SIZE) = true.
Proof.
  unfold freeable. intros H Ha. apply andb_true_iff in H as [[H1 H2]%andb_true_iff H3].
  apply Z.eqb_eq in H1. apply Z.ltb_lt in H2.
  pose proof (Z.div_mod a FRAME_SIZE ltac:(done)).
  split; [lia|]. split; [|done]. split; [apply Z.div_pos; [lia|done]|done].
Qed.

Lemma freeable_set_bit A f b a : 0 ≤ f < MAX_FRAMES →
  freeable (set_bit f b A) a = if decide (a = f * FRAME_SIZE) then b else freeable A a.
Proof.
  intros Hf. case_decide as Hd.
  { subst. rewrite freeable_frame by done. unfold set_bit. by rewrite decide_True. }
  unfold freeable, set_bit.
  destruct (Z.eqb_spec (a mod FRAME_SIZE) 0) as [H0|]; [|done].
  rewrite decide_False; [done|]. intros <-. apply Hd.
  pose proof (Z.div_mod a FRAME_SIZE ltac:(done)). lia.
Qed.

Lemma filter_ne_length (a : Z) (l : list Z) : NoDup l → a ∈ l →
  S (length (filter (λ x, x ≠ a) l)) = length l.
Proof.
  induction 1 as [|x l Hx Hnd IH]; intros Ha; [by apply not_elem_of_nil in Ha|].
  rewrite filter_cons. destruct (decide (x ≠ a)) as [Hne|Heq].
  - simpl. f_equal. apply IH. apply elem_of_cons in Ha as [->|]; done.
  - apply dec_stable in Heq as ->. simpl. f_equal.
    clear -Hx. induction l as [|y l IHl]; [done|].
    apply not_elem_of_cons in Hx as [Hy Hl].
    rewrite filter_cons, decide_True by done. simpl. by rewrite IHl.
Qed.

Lemma filter_ne_absent (a : Z) (l : list Z) : a ∉ l → filter (λ x, x ≠ a) l = l.
Proof.
  induction l as [|x l IH]; intros H; [done|]. apply not_elem_of_cons in H as [Hx Hl].
  rewrite filter_cons, decide_True by done. by rewrite IH.
Qed.

Lemma run_inv_alloc U0 s s' a live :
  run_inv U0 (s, live) → FrameAllocator_allocate_frame s = Done (Some a, s') →
  run_inv U0 (s', a :: live).
Proof.
  intros (U & A & HI & Hnd & Hlive & HU & HA & Hc) Hrun.
  destruct (allocate_frame_run s U A HI) as [(f & s1 & Hf & HUf & _ & Hrun' & HI')|[_ Hrun']];
    rewrite Hrun' in Hrun; [|done]. simplify_eq.
  pose proof (HU f Hf) as HUf'. rewrite HUf in HUf'. symmetry in HUf'.
  apply orb_false_iff in HUf' as [HU0 HAf].
  exists (set_bit f true U), (set_bit f true A). split; [done|]. split.
  { apply NoDup_cons. split; [|done]. rewrite Hlive. intros [H _].
    rewrite freeable_frame in H by done. congruence. }
  split.
  { intros x. rewrite elem_of_cons, Hlive, freeable_set_bit by done.
    case_decide; [|tauto]. subst. split; [|by left]. intros _. split; [done|].
    apply Z.mul_nonneg_nonneg; [lia|done]. }
  split; [intros g Hg; unfold set_bit; case_decide; [by rewrite orb_true_r|auto]|].
  split; [intros g Hg; unfold set_bit; case_decide; [by subst|auto]|].
  rewrite <- Hc, (free_count_set_used U f) by done. simpl length. lia.
Qed.

Lemma run_inv_free U0 s s' a live : 0 ≤ a →
  run_inv U0 (s, live) → FrameAllocator_free_frame a s = Done ((), s') →
  run_inv U0 (s', filter (λ x, x ≠ a) live).
Proof.
  intros Ha (U & A & HI & Hnd & Hlive & HU & HA & Hc) Hrun.
  pose proof (free_frame_run s U A a HI Ha) as Hfree.
  destruct (freeable A a) eqn:Hfa.
  - destruct Hfree as (s1 & Hrun' & HI'). rewrite Hrun' in Hrun. simplify_eq.
    destruct (freeable_inv A a Hfa Ha) as (Hfeq & Hf & HAf).
    exists (set_bit (a / FRAME_SIZE) false U), (set_bit (a / FRAME_SIZE) false A).
    split; [done|]. split; [by apply NoDup_filter|].
    split.
    { intros x. rewrite list_elem_of_filter, Hlive, freeable_set_bit, <- Hfeq by done.
      case_decide; [|tauto]. split; [by intros [? _]|by intros [? _]]. }
    split.
    { intros g Hg. unfold set_bit. case_decide as Hd; [|auto].
      subst g. by rewrite (HA _ Hf HAf). }
    split; [intros g Hg; unfold set_bit; case_decide; [done|auto]|].
    rewrite free_count_set_free by (try done; by apply (inv_alloc_used _ _ _ HI)).
    pose proof (filter_ne_length a live Hnd) as Hlen.
    rewrite Hlive in Hlen. specialize (Hlen ltac:(done)). lia.
  - rewrite Hfree in Hrun. simplify_eq.
    rewrite filter_ne_absent; [by exists U, A|]. rewrite Hlive. rewrite Hfa. by intros [? _].
Qed.

Lemma run_inv_step U0 c c' : run_inv U0 c → fa_step c c' → run_inv U0 c'.
Proof.
  intros HI Hstep. inversion Hstep as [s s' a live Hr|s s' live Hr|s s' a live Ha Hr]; subst.
  - by eapply run_inv_alloc.
  - destruct HI as (U & A & HI & Hrest).
    destruct (allocate_frame_run s U A HI) as [(f & s1 & _ & _ & _ & Hr' & _)|[_ Hr']];
      rewrite Hr' in Hr; simplify_eq. by exists U, A.
  - by eapply run_inv_free.
Qed.

Lemma run_inv_init U0 s : fa_inv s U0 (λ _, false) → run_inv U0 (s, []).
Proof.
  intros HI. exists U0, (λ _, false). split; [done|]. split; [constructor|].
  split.
  { intros a. unfold freeable. rewrite andb_false_r. split; [by intros ?%not_elem_of_nil|].
    by intros [? _]. }
  split; [intros; by rewrite orb_false_r|]. split; [done|]. simpl. lia.
Qed.

(** ** The allocator implements its interface *)

Definition frame_addr (a : Z) : Prop := 0 ≤ a < 2 ^ 32 ∧ a mod FRAME_SIZE = 0.
#[export] Instance frame_addr_dec a : Decision (frame_addr a).
Proof. unfold frame_addr. apply _. Defined.

(** What is not a frame of the first 4 GiB is never available. *)
Definition FrameAllocator_used (s : FrameAllocator) (a : Z) : bool :=
  if decide (frame_addr a) then used s (a / FRAME_SIZE) else true.
Definition FrameAllocator_owned (s : FrameAllocator) (a : Z) : bool :=
  if decide (frame_addr a) then alloced s (a / FRAME_SIZE) else false.

Lemma frame_addr_frame f : 0 ≤ f < MAX_FRAMES → frame_addr (f * FRAME_SIZE).
Proof.
  rewrite MAX_FRAMES_val. intros. split; [unfold FRAME_SIZE; lia|by apply Z.mod_mul].
Qed.

Lemma frame_addr_div a : frame_addr a →
  0 ≤ a / FRAME_SIZE < MAX_FRAMES ∧ a = a / FRAME_SIZE * FRAME_SIZE.
Proof.
  intros [Ha Hm]. rewrite MAX_FRAMES_val. pose proof (Z.div_mod a FRAME_SIZE ltac:(done)).
  split; [|lia]. split; [apply Z.div_pos; [lia|done]|].
  apply Z.div_lt_upper_bound; unfold FRAME_SIZE; lia.
Qed.

Lemma frame_addr_ne f a : a ≠ f * FRAME_SIZE → frame_addr a → a / FRAME_SIZE ≠ f.
Proof. intros Hne Ha%frame_addr_div <-. lia. Qed.

Lemma FrameAllocator_owned_freeable s a : 0 ≤ a →
  FrameAllocator_owned s a = freeable (alloced s) a.
Proof.
  intros Ha. unfold FrameAllocator_owned, freeable. case_decide as Hd.
  - pose proof (frame_addr_div a Hd) as [? _]. destruct Hd as [_ Hm].
    rewrite Hm, (proj2 (Z.ltb_lt _ _)) by lia. done.
  - destruct (Z.eqb_spec (a mod FRAME_SIZE) 0) as [Hm|]; [|done].
    destruct (Z.ltb_spec (a / FRAME_SIZE) MAX_FRAMES) as [Hlt|]; [|done].
    exfalso. apply Hd. rewrite MAX_FRAMES_val in Hlt. split; [|done].
    pose proof (Z.div_mod a FRAME_SIZE ltac:(done)) as Hdm. split; [lia|].
    assert (FRAME_SIZE = 4096) as HF by done. rewrite HF in *. lia.
Qed.

Lemma FrameAllocator_alloc_ok s : FrameAllocator_ok s →
  (∃ f s', FrameAllocator_allocate_frame s = Done (Some f, s') ∧ FrameAllocator_ok s' ∧
     0 ≤ f < 2 ^ 32 ∧ f mod 4096 = 0 ∧
     FrameAllocator_used s f = false ∧ FrameAllocator_owned s' f = true ∧
     (∀ g, FrameAllocator_used s' g = if decide (g = f) then true else FrameAllocator_used s g) ∧
     (∀ g, g ≠ f → FrameAllocator_owned s' g = FrameAllocator_owned s g))
  ∨ (FrameAllocator_allocate_frame s = Done (None, s) ∧
     ∀ f, 0 ≤ f < 2 ^ 32 → f mod 4096 = 0 → FrameAllocator_used s f = true).
Proof.
  intros HI. destruct (allocate_frame_run s _ _ HI)
    as [(f & s' & Hf & HU & _ & Hrun & HI')|[Hall Hrun]].
  - left. exists (f * FRAME_SIZE), s'. pose proof (frame_addr_frame f Hf) as Ha.
    split; [done|]. split; [by eapply fa_inv_ok|]. split; [apply Ha|]. split; [apply Ha|].
    destruct HI' as [HV _]. clear Hrun.
    unfold FrameAllocator_used, FrameAllocator_owned. rewrite !(decide_True (P:=frame_addr _)) by done.
    rewrite Z.div_mul by done. split; [done|].
    split; [by erewrite view_alloced by done; unfold set_bit; rewrite decide_True|].
    split; intros g; [|intros Hg]; repeat case_decide; subst; try done;
      erewrite ?view_used, ?view_alloced by done; unfold set_bit;
      rewrite ?Z.div_mul by done; [by rewrite decide_True|..];
      by rewrite decide_False by (by apply frame_addr_ne).
  - right. split; [done|]. intros f Hf Hm. unfold FrameAllocator_used.
    case_decide as Hd; [|done]. apply Hall. by apply frame_addr_div.
Qed.

Lemma FrameAllocator_alloc_lowest s f s' : FrameAllocator_ok s →
  FrameAllocator_allocate_frame s = Done (Some f, s') →
  ∀ g, 0 ≤ g < f → g mod 4096 = 0 → FrameAllocator_used s g = true.
Proof.
  intros HI E g Hg Hm. destruct (allocate_frame_run s _ _ HI) as [(f' & s1 & Hf & _ & Hlow & E' & _)|[_ E']];
    rewrite E in E'; [|done]. injection E' as -> _. unfold FrameAllocator_used. case_decide as Hd; [|done].
  apply Hlow. destruct (frame_addr_div g Hd) as [? Hgd]. unfold FRAME_SIZE in *. lia.
Qed.

Lemma FrameAllocator_free_ok s f : FrameAllocator_ok s → FrameAllocator_owned s f = true →
  ∃ s', FrameAllocator_free_frame f s = Done ((), s') ∧ FrameAllocator_ok s' ∧
    (∀ g, FrameAllocator_used s' g = if decide (g = f) then false else FrameAllocator_used s g) ∧
    (∀ g, FrameAllocator_owned s' g = if decide (g = f) then false else FrameAllocator_owned s g).
Proof.
  intros HI Ho. assert (frame_addr f) as Hf by (unfold FrameAllocator_owned in Ho; by case_decide).
  assert (0 ≤ f) by apply Hf.
  rewrite FrameAllocator_owned_freeable in Ho by done.
  pose proof (free_frame_run s _ _ f HI ltac:(done)) as H'. rewrite Ho in H'.
  destruct H' as (s' & Hrun & HI'). exists s'. split; [done|]. split; [by eapply fa_inv_ok|].
  destruct HI' as [HV _]. destruct (frame_addr_div f Hf) as [Hr Hfeq].
  unfold FrameAllocator_used, FrameAllocator_owned.
  split; intros g; (destruct (decide (frame_addr g)) as [Hg|Hg];
    [|case_decide; subst; done]); erewrite ?view_used, ?view_alloced by done; unfold set_bit;
    destruct (decide (g = f)) as [->|Hne]; [by rewrite decide_True| |by rewrite decide_True|];
    rewrite decide_False; try done; apply frame_addr_ne; try done; congruence.
Qed.

Lemma FrameAllocator_owned_used s f : FrameAllocator_ok s →
  FrameAllocator_owned s f = true → FrameAllocator_used s f = true.
Proof.
  intros HI. unfold FrameAllocator_owned, FrameAllocator_used. case_decide as Hd; [|done].
  apply (inv_alloc_used _ _ _ HI). by apply frame_addr_div.
Qed.

Lemma FrameAllocator_free_ignored s f : FrameAllocator_ok s → 0 ≤ f →
  FrameAllocator_owned s f = false → FrameAllocator_free_frame f s = Done ((), s).
Proof.
  intros HI Hf Ho. rewrite FrameAllocator_owned_freeable in Ho by done.
  pose proof (free_frame_run s _ _ f HI Hf) as H'. by rewrite Ho in H'.
Qed.

#[export] Instance FrameAllocator_spec : FrameAllocSpec FrameAllocator := {|
  fa_ok := FrameAllocator_ok;
  fa_used := FrameAllocator_used;
  fa_owned := FrameAllocator_owned;
  fa_owned_used := FrameAllocator_owned_used;
  fa_alloc := FrameAllocator_alloc_ok;
  fa_alloc_lowest := FrameAllocator_alloc_lowest;
  fa_free := FrameAllocator_free_ok;
  fa_free_ignored := FrameAllocator_free_ignored;
|}.

(** ** Properties *)

(** The frames that are free after [initialize], in bytes. *)
Lemma boot_used_false mm kernel_start kernel_end f : boot_used mm kernel_start kernel_end f = false ↔
  (∃ e, e ∈ mm ∧ entry_type e = 1 ∧ base_addr e + entry_length e < 2 ^ 64 ∧
        base_addr e ≤ f * FRAME_SIZE ∧ (f + 1) * FRAME_SIZE ≤ base_addr e + entry_length e) ∧
  0x100000 ≤ f * FRAME_SIZE ∧ (kernel_end ≤ f * FRAME_SIZE ∨ (f + 1) * FRAME_SIZE ≤ kernel_start).
Proof.
  unfold boot_used.
  rewrite !orb_false_iff, negb_false_iff, andb_false_iff, Z.ltb_ge, Z.leb_gt, Z.ltb_ge.
  unfold map_covers. rewrite existsb_exists.
  assert (∀ x, frame_floor x ≤ f ↔ x < (f + 1) * FRAME_SIZE) as Hfl.
  { intros x. unfold frame_floor, FRAME_SIZE. split; intros.
    - pose proof (Z.mul_succ_div_gt x 4096 ltac:(lia)). lia.
    - apply Z.lt_succ_r. apply Z.div_lt_upper_bound; lia. }
  assert (∀ x, frame_ceil x ≤ f ↔ x ≤ f * FRAME_SIZE) as Hce.
  { intros x. pose proof (Hfl (x + (FRAME_SIZE - 1))) as H. unfold frame_floor in H.
    unfold frame_ceil. rewrite H. unfold FRAME_SIZE. lia. }
  assert (0x100000 ≤ f * FRAME_SIZE ↔ 256 ≤ f) as -> by (unfold FRAME_SIZE; lia).
  rewrite Hce. assert (f < frame_floor kernel_start ↔ (f + 1) * FRAME_SIZE ≤ kernel_start) as ->.
  { pose proof (Hfl kernel_start). lia. }
  assert ((∃ e, In e mm ∧ covers e f = true) ↔
    (∃ e, e ∈ mm ∧ entry_type e = 1 ∧ base_addr e + entry_length e < 2 ^ 64 ∧
       base_addr e ≤ f * FRAME_SIZE ∧ (f + 1) * FRAME_SIZE ≤ base_addr e + entry_length e)) as ->;
    [|tauto].
  f_equiv. intros e. rewrite list_elem_of_In. unfold covers, usable.
  rewrite !andb_true_iff, Z.eqb_eq, Z.ltb_lt, Z.leb_le, Hce, Z.ltb_lt.
  pose proof (Hfl (base_addr e + entry_length e)).
  assert (f < frame_floor (base_addr e + entry_length e)
          ↔ (f + 1) * FRAME_SIZE ≤ base_addr e + entry_length e) as -> by lia.
  tauto.
Qed.

(** C1: [initialize(memory_map, kernel_start, kernel_end)], on a memory map
    whose type-1 entries start at most at [2^64 - 4096] and a kernel that ends
    there, does not panic and leaves exactly these frames of the first 4 GiB
    free: those that lie completely inside a type-1 entry that does not run
    past [2^64], are not in the first MiB and do not meet the loaded kernel.
    No frame is marked handed out, and [free_frames] is the number of free
    frames (part of [FrameAllocator_ok]). *)
Theorem initialize_spec mm kernel_start kernel_end s :
  Forall entry_ok mm → 0 ≤ kernel_start → 0 ≤ kernel_end ≤ 2 ^ 64 - FRAME_SIZE →
  ∃ s', FrameAllocator_initialize mm kernel_start kernel_end s = Done ((), s') ∧
    FrameAllocator_ok s' ∧ (∀ f, alloced s' f = false) ∧
    ∀ f, 0 ≤ f < MAX_FRAMES →
      used s' f = false ↔
      (∃ e, e ∈ mm ∧ entry_type e = 1 ∧ base_addr e + entry_length e < 2 ^ 64 ∧
            base_addr e ≤ f * FRAME_SIZE ∧
            (f + 1) * FRAME_SIZE ≤ base_addr e + entry_length e) ∧
      0x100000 ≤ f * FRAME_SIZE ∧
      (kernel_end ≤ f * FRAME_SIZE ∨ (f + 1) * FRAME_SIZE ≤ kernel_start).
Proof.
  intros Hmm Hks Hke. destruct (initialize_run mm kernel_start kernel_end s Hmm Hks Hke)
    as (s' & U & Hrun & HI & HU).
  exists s'. split; [done|]. split; [by eapply fa_inv_ok|]. destruct HI as [HV _].
  split; [intros; by erewrite view_alloced|]. intros f Hf.
  erewrite view_used, HU by done. apply boot_used_false.
Qed.

(** A small machine: 1 MiB of memory above 1 MiB, kernel at 1 MiB. *)
Definition sample_map : list MemoryMapEntry :=
  [mkMemoryMapEntry 0 0x9F000 1 0; mkMemoryMapEntry 0x9F000 0x61000 2 0;
   mkMemoryMapEntry 0x100000 0x100000 1 0].
Definition sample_fa : FrameAllocator :=
  exec (FrameAllocator_initialize sample_map 0x100000 0x180000) FrameAllocator_empty.

Lemma sample_map_ok : Forall entry_ok sample_map.
Proof. repeat constructor; simpl; unfold FRAME_SIZE; lia. Qed.

Lemma sample_fa_init : ∃ U, fa_inv sample_fa U (λ _, false) ∧
  FrameAllocator_initialize sample_map 0x100000 0x180000 FrameAllocator_empty
  = Done ((), sample_fa).
Proof.
  destruct (initialize_run sample_map 0x100000 0x180000 FrameAllocator_empty sample_map_ok)
    as (s' & U & Hrun & HI & _); [lia|unfold FRAME_SIZE; lia|].
  exists U. unfold sample_fa, exec. rewrite Hrun. exact (conj HI eq_refl).
Qed.

Lemma sample_fa_ok : FrameAllocator_ok sample_fa.
Proof. destruct sample_fa_init as (U & HI & _). by eapply fa_inv_ok. Qed.

Lemma sample_fa_first : eval FrameAllocator_allocate_frame sample_fa = Some (Some 0x180000).
Proof. vm_compute. reflexivity. Qed.

Lemma initialize_spec_witness : ∃ s',
  FrameAllocator_initialize sample_map 0x100000 0x180000 FrameAllocator_empty = Done ((), s') ∧
  FrameAllocator_ok s'.
Proof.
  destruct (initialize_spec sample_map 0x100000 0x180000 FrameAllocator_empty) as (s' & Hr & Hok & _).
  - exact sample_map_ok.
  - lia.
  - unfold FRAME_SIZE. lia.
  - exists s'. split; [exact Hr|exact Hok].
Defined.

(** C6: On a well-formed allocator [allocate_frame] never panics: it returns
    the lowest free frame, marks exactly that frame used and handed out and
    lowers [free_frames] by one, or, exactly when every frame of the bitmap is
    used, returns [None] and changes nothing. *)
Theorem allocate_frame_spec s : FrameAllocator_ok s →
  (∃ f s', 0 ≤ f < MAX_FRAMES ∧ used s f = false ∧
     (∀ g, 0 ≤ g < f → used s g = true) ∧
     FrameAllocator_allocate_frame s = Done (Some (f * FRAME_SIZE), s') ∧
     FrameAllocator_ok s' ∧
     (∀ g, used s' g = set_bit f true (used s) g) ∧
     (∀ g, alloced s' g = set_bit f true (alloced s) g) ∧
     free_frames s' = free_frames s - 1)
  ∨ ((∀ g, 0 ≤ g < MAX_FRAMES → used s g = true) ∧
     FrameAllocator_allocate_frame s = Done (None, s)).
Proof.
  intros HI. destruct (allocate_frame_run s _ _ HI)
    as [(f & s' & Hf & HU & Hmin & Hrun & HI')|?]; [left|by right].
  exists f, s'. split; [done|]. split; [done|]. split; [done|]. split; [done|].
  split; [by eapply fa_inv_ok|]. destruct HI' as [HV _]. clear Hrun.
  split; [intros; by erewrite view_used|]. split; [intros; by erewrite view_alloced|].
  rewrite (view_n _ _ _ _ HV), (view_n _ _ _ _ (inv_view _ _ _ HI)).
  rewrite (free_count_set_used (used s) f); [lia|lia|exact HU].
Qed.

Lemma allocate_frame_spec_witness : ∃ s',
  FrameAllocator_allocate_frame sample_fa = Done (Some 0x180000, s') ∧ FrameAllocator_ok s'.
Proof.
  pose proof sample_fa_first as Hv. unfold eval in Hv.
  destruct (allocate_frame_spec sample_fa sample_fa_ok)
    as [(f & s' & _ & _ & _ & Hr & Hok & _)|[_ Hr]].
  - exists s'. rewrite Hr in Hv. rewrite Hr. injection Hv as ->. split; [reflexivity|exact Hok].
  - rewrite Hr in Hv. discriminate Hv.
Defined.

(** C7: [free_frame(address)] on a well-formed allocator never panics.  When
    [address] is a 4 KiB aligned frame below 4 GiB that [allocate_frame]
    handed out, exactly that frame becomes free and no longer handed out and
    [free_frames] grows by one; in every other case (misaligned, out of
    range, reserved by the boot code, or freed before) nothing changes. *)
Theorem free_frame_spec s address : FrameAllocator_ok s → 0 ≤ address →
  if (address mod FRAME_SIZE =? 0) && (address / FRAME_SIZE <? MAX_FRAMES)
     && alloced s (address / FRAME_SIZE) then
    ∃ s', FrameAllocator_free_frame address s = Done ((), s') ∧ FrameAllocator_ok s' ∧
      (∀ g, used s' g = set_bit (address / FRAME_SIZE) false (used s) g) ∧
      (∀ g, alloced s' g = set_bit (address / FRAME_SIZE) false (alloced s) g) ∧
      free_frames s' = free_frames s + 1
  else FrameAllocator_free_frame address s = Done ((), s).
Proof.
  intros HI Ha. pose proof (free_frame_run s _ _ address HI Ha) as H.
  fold (freeable (alloced s) address). destruct (freeable (alloced s) address) eqn:Hfa; [|done].
  destruct H as (s' & Hrun & HI'). exists s'. split; [done|]. split; [by eapply fa_inv_ok|].
  destruct HI' as [HV _]. clear Hrun.
  split; [intros; by erewrite view_used|]. split; [intros; by erewrite view_alloced|].
  rewrite (view_n _ _ _ _ HV), (view_n _ _ _ _ (inv_view _ _ _ HI)).
  destruct (freeable_inv _ _ Hfa Ha) as (_ & Hf & HA).
  apply free_count_set_free; [done|]. by apply (inv_alloc_used _ _ _ HI).
Qed.

(** Freeing a boot-reserved frame is ignored. *)
Lemma free_frame_spec_witness : FrameAllocator_free_frame 0 sample_fa = Done ((), sample_fa).
Proof.
  assert (alloced sample_fa 0 = false) as Ha by (vm_compute; reflexivity).
  pose proof (free_frame_spec sample_fa 0 sample_fa_ok ltac:(lia)) as H.
  change (0 / FRAME_SIZE) with 0 in H. rewrite Ha, andb_false_r in H. exact H.
Defined.

(** C2: Whatever sequence of allocations and releases follows initialisation
    (releases of arbitrary addresses included), the addresses handed out and
    not yet freed are pairwise distinct, page aligned, below 4 GiB, completely
    inside usable memory, above the first MiB and outside the kernel; and
    [free_frames] plus their number is constant. *)
Theorem frames_never_shared mm kernel_start kernel_end s s0 s1 live :
  Forall entry_ok mm → 0 ≤ kernel_start → 0 ≤ kernel_end ≤ 2 ^ 64 - FRAME_SIZE →
  FrameAllocator_initialize mm kernel_start kernel_end s = Done ((), s0) →
  rtc fa_step (s0, []) (s1, live) →
  NoDup live ∧
  (∀ a, a ∈ live → a mod FRAME_SIZE = 0 ∧ 0x100000 ≤ a < 2 ^ 32 ∧
     boot_used mm kernel_start kernel_end (a / FRAME_SIZE) = false) ∧
  free_frames s1 + Z.of_nat (length live) = free_frames s0.
Proof.
  intros Hmm Hks Hke Hinit Hsteps.
  destruct (initialize_run mm kernel_start kernel_end s Hmm Hks Hke) as (s' & U0 & Hrun & HI & HU0).
  rewrite Hrun in Hinit. simplify_eq.
  assert (run_inv U0 (s1, live)) as (U & A & HI1 & Hnd & Hlive & HU & HA & Hc).
  { pose proof (run_inv_init U0 s0 HI) as H0. clear -H0 Hsteps. revert H0.
    induction Hsteps as [|c1 c2 c3 Hstep _ IH]; [done|]. intros H. by eapply IH, run_inv_step. }
  split; [done|]. split.
  - intros a [Hfa Ha]%Hlive. destruct (freeable_inv A a Hfa Ha) as (Heq & Hf & HAf).
    assert (boot_used mm kernel_start kernel_end (a / FRAME_SIZE) = false) as Hb.
    { rewrite <- HU0 by done. by apply HA. }
    pose proof Hb as Hb'. unfold boot_used in Hb'.
    apply orb_false_iff in Hb' as [[_ Hlow%Z.ltb_ge]%orb_false_iff _].
    destruct (frame_addr_frame _ Hf) as [Hr Hm]. rewrite <- Heq in Hr, Hm.
    split; [done|]. split; [|done]. unfold FRAME_SIZE in *. lia.
  - rewrite (view_n _ _ _ _ (inv_view _ _ _ HI1)), (view_n _ _ _ _ (inv_view _ _ _ HI)). done.
Qed.

Lemma frames_never_shared_witness : ∃ s1,
  rtc fa_step (sample_fa, []) (s1, [0x180000]) ∧ free_frames s1 + 1 = free_frames sample_fa.
Proof.
  pose proof sample_fa_first as Hv. unfold eval in Hv.
  destruct (FrameAllocator_allocate_frame sample_fa) as [[r s1]|] eqn:Hs1; [|discriminate Hv].
  injection Hv as ->. destruct sample_fa_init as (U & _ & Hinit).
  assert (rtc fa_step (sample_fa, []) (s1, [0x180000])) as Hstep
    by (eapply rtc_l; [apply step_alloc; exact Hs1|apply rtc_refl]).
  exists s1. split; [exact Hstep|].
  apply (frames_never_shared sample_map 0x100000 0x180000 FrameAllocator_empty sample_fa s1
           [0x180000] sample_map_ok); [lia|unfold FRAME_SIZE; lia|exact Hinit|exact Hstep].
Defined.

(** A type-1 entry whose base lies in the last, partial page of the 64-bit
    address space makes [initialize] panic in [align_up], although the check
    on [base_addr + length] two lines below is written to skip such entries. *)
Theorem initialize_panics mm1 e mm2 kernel_start kernel_end s :
  Forall entry_ok mm1 → entry_type e = 1 → 2 ^ 64 - FRAME_SIZE < base_addr e < 2 ^ 64 →
  FrameAllocator_initialize (mm1 ++ e :: mm2) kernel_start kernel_end s = Panicked Overflow.
Proof.
  intros Hmm He Hb. unfold FrameAllocator_initialize.
  rewrite (bind_run _ _ s () initial_fa) by done. apply bind_run_panic.
  generalize initial_fa_inv. generalize initial_fa (λ _ : Z, true).
  induction Hmm as [|e1 mm1 He1 Hmm IH]; intros t U HI; simpl.
  - apply bind_run_panic. unfold release_entry. rewrite He. simpl negb. cbv iota.
    apply bind_run_panic. unfold lift.
    assert (FRAME_SIZE = 4096) as HF by done.
    pose proof (Z.div_mod (base_addr e) FRAME_SIZE ltac:(done)).
    pose proof (Z.mod_pos_bound (base_addr e) FRAME_SIZE ltac:(done)).
    unfold align_up. rewrite (proj2 (Z.eqb_neq _ _)) by (rewrite HF in *; lia).
    rewrite add_u_Panic by (rewrite HF in *; lia). done.
  - destruct (release_entry_run t U _ e1 HI ltac:(done) He1) as (t' & E & HI').
    rewrite (bind_run _ _ _ _ _ E). by eapply IH.
Qed.

Lemma initialize_panics_witness :
  FrameAllocator_initialize [mkMemoryMapEntry 0xFFFFFFFFFFFFFFFF 0x1000 1 0] 0x100000 0x180000
    FrameAllocator_empty = Panicked Overflow.
Proof.
  apply (initialize_panics [] (mkMemoryMapEntry 0xFFFFFFFFFFFFFFFF 0x1000 1 0) []);
    [constructor|reflexivity|simpl; unfold FRAME_SIZE; lia].
Defined.
