(* ===== verification/PageTable.v ===== *)
(** * Four-level page tables (kernel/src/memory/page_table.rs, address.rs)

    Physical memory is a finite map from word addresses to 64-bit words
    (absent words are 0); a [PageTable] is the 512 words at its address, so
    the tables the code reaches through entries are shared memory, as in the
    source.  The operations are generic in the frame allocator, which they
    reach only through the interface of FrameInterface.v, and in the window of
    memory the kernel's pointers reach ([Window]): the code uses physical
    addresses as pointers, and what the processor maps at these addresses is not
    the business of this file.  The theorems here are about an unlimited window;
    Budget.v and Boot.v are about a limited one. *)

From S2P Require Import Prelude FrameInterface.
Local Open Scope Z_scope.

Definition PAGE_SIZE : Z := 4096.
Definition PRESENT : Z := Z.shiftl 1 0.
Definition WRITABLE : Z := Z.shiftl 1 1.
Definition USER : Z := Z.shiftl 1 2.
Definition HUGE_PAGE : Z := Z.shiftl 1 7.
Definition ADDRESS_MASK : Z := 0x000FFFFFFFFFF000.

Definition IDENTITY_MAP_BASE : Z := 0.
Definition phys_to_virt (physical_address : Z) : Z := physical_address + IDENTITY_MAP_BASE.

(** ** Memory *)

Abbreviation pmem := (gmap Z Z).
Definition rd (m : pmem) (a : Z) : Z := default 0 (m !! a).
Definition wr (m : pmem) (a x : Z) : pmem := <[a := x]> m.

(** The word of entry [i] of the table at [t]. *)
Definition slot (t i : Z) : Z := t + 8 * i.

(** [PageTable::zero]: [entries.fill(0)]. *)
Definition PageTable_zero (t : Z) (m : pmem) : pmem :=
  foldl (λ m i, wr m (slot t i) 0) m (seqZ 0 512).

(** ** Addresses and entries *)

Definition indexes (virtual_address : Z) : Z * Z * Z * Z :=
  (Z.land (Z.shiftr virtual_address 39) 0x1FF,
   Z.land (Z.shiftr virtual_address 30) 0x1FF,
   Z.land (Z.shiftr virtual_address 21) 0x1FF,
   Z.land (Z.shiftr virtual_address 12) 0x1FF).

Definition is_canonical (virtual_address : Z) : bool :=
  let upper := Z.shiftr virtual_address 48 in
  let sign := Z.land (Z.shiftr virtual_address 47) 1 in
  if sign =? 0 then upper =? 0 else upper =? 0xFFFF.

Definition entry_address (entry : Z) : Z := Z.land entry ADDRESS_MASK.

Definition make_entry (address : Z) (writable user : bool) : Z :=
  let entry := Z.land address ADDRESS_MASK in
  let entry := Z.lor entry PRESENT in
  let entry := if writable then Z.lor entry WRITABLE else entry in
  if user then Z.lor entry USER else entry.

(** [entry & FLAG != 0]. *)
Definition has (flag entry : Z) : bool := negb (Z.land entry flag =? 0).

(** ** The window

    Whether the page at an address is mapped to the frame of the same address.
    Tables are pages, so this decides whether an entry of a table at [t] can be
    accessed. *)
Class Window := reachable : Z → bool.
#[export] Instance everywhere : Window := λ _, true.

(** ** Operations *)

Section ops.
Context {A : Type} `{FrameAlloc A} {W : Window}.

(** The state the operations share: the frame allocator and memory. *)
Record machine := mkMachine { fa : A; mem : pmem }.

Definition on_fa {B} (m : M A B) : M machine B := zoom fa (λ a s, mkMachine a (mem s)) m.

(** An access to the page of the table at [t]. *)
Definition touch_table {B} (t : Z) (m : M machine B) : M machine B :=
  if reachable t then m else panic NotMapped.

(** [table.entries[index]] with its bounds check. *)
Definition read_entry (t index : Z) : M machine Z :=
  if (0 <=? index) && (index <? 512)
  then touch_table t (λ s, Done (rd (mem s) (slot t index), s))
  else panic OutOfBounds.
Definition write_entry (t index x : Z) : M machine unit :=
  if (0 <=? index) && (index <? 512)
  then touch_table t (λ s, Done ((), mkMachine (fa s) (wr (mem s) (slot t index) x)))
  else panic OutOfBounds.
Definition zero_table (t : Z) : M machine unit :=
  touch_table t (λ s, Done ((), mkMachine (fa s) (PageTable_zero t (mem s)))).

(** [e?]: return the error at once, or go on with the value. *)
Definition try {B C} (m : M machine (result B)) (k : B → M machine (result C)) :
    M machine (result C) :=
  r ← m; match r with Ok b => k b | Err e => mret (Err e) end.

Definition get_or_create_table (parent index : Z) (writable user : bool) :
    M machine (result Z) :=
  entry ← read_entry parent index;
  if has PRESENT entry then
    let updated_entry := if user then Z.lor entry USER else entry in
    let updated_entry := if writable then Z.lor updated_entry WRITABLE else updated_entry in
    write_entry parent index updated_entry ;;
    mret (Ok (entry_address entry))
  else
    frame ← on_fa allocate_frame;
    match frame with
    | None => mret (Err "out of physical memory")
    | Some frame =>
        zero_table (phys_to_virt frame) ;;
        write_entry parent index (make_entry frame writable user) ;;
        mret (Ok frame)
    end.

Definition page_table_map (pml4 virtual_address physical_address : Z) (writable user : bool) :
    M machine (result unit) :=
  if negb (is_canonical virtual_address) then
    mret (Err "virtual address is not canonical")
  else if negb (virtual_address mod PAGE_SIZE =? 0) then
    mret (Err "virtual address is not page aligned")
  else if negb (physical_address mod PAGE_SIZE =? 0) then
    mret (Err "physical address is not page aligned")
  else if ADDRESS_MASK <? physical_address then
    mret (Err "physical address exceeds supported page-table range")
  else
    let '(pml4_index, pdpt_index, pd_index, pt_index) := indexes virtual_address in
    try (get_or_create_table pml4 pml4_index writable user) (λ pdpt_address,
    let pdpt := phys_to_virt pdpt_address in
    try (get_or_create_table pdpt pdpt_index writable user) (λ pd_address,
    let pd := phys_to_virt pd_address in
    try (get_or_create_table pd pd_index writable user) (λ pt_address,
    let pt := phys_to_virt pt_address in
    pte ← read_entry pt pt_index;
    if has PRESENT pte then mret (Err "virtual page is already mapped")
    else
      write_entry pt pt_index (make_entry physical_address writable user) ;;
      mret (Ok ())))).

Definition page_table_translate (pml4 virtual_address : Z) : M machine (option Z) :=
  if negb (is_canonical virtual_address) then mret None
  else
    let '(pml4_index, pdpt_index, pd_index, pt_index) := indexes virtual_address in
    pml4_entry ← read_entry pml4 pml4_index;
    if negb (has PRESENT pml4_entry) then mret None
    else
      let pdpt := phys_to_virt (entry_address pml4_entry) in
      pdpt_entry ← read_entry pdpt pdpt_index;
      if negb (has PRESENT pdpt_entry) then mret None
      else if has HUGE_PAGE pdpt_entry then
        let base := Z.land pdpt_entry 0x000FFFC000000000 in
        r ← lift (add_u 64 base (Z.land virtual_address 0x3FFFFFFF));
        mret (Some r)
      else
        let pd := phys_to_virt (entry_address pdpt_entry) in
        pd_entry ← read_entry pd pd_index;
        if negb (has PRESENT pd_entry) then mret None
        else if has HUGE_PAGE pd_entry then
          let base := Z.land pd_entry 0x000FFFFFFFE00000 in
          r ← lift (add_u 64 base (Z.land virtual_address 0x1FFFFF));
          mret (Some r)
        else
          let pt := phys_to_virt (entry_address pd_entry) in
          pt_entry ← read_entry pt pt_index;
          if negb (has PRESENT pt_entry) then mret None
          else
            r ← lift (add_u 64 (entry_address pt_entry) (Z.land virtual_address 0xFFF));
            mret (Some r).

Definition page_table_unmap (pml4 virtual_address : Z) : M machine (result Z) :=
  if negb (is_canonical virtual_address) then
    mret (Err "virtual address is not canonical")
  else if negb (virtual_address mod PAGE_SIZE =? 0) then
    mret (Err "virtual address is not page aligned")
  else
    let '(pml4_index, pdpt_index, pd_index, pt_index) := indexes virtual_address in
    pml4_entry ← read_entry pml4 pml4_index;
    if negb (has PRESENT pml4_entry) then mret (Err "PML4 entry is not present")
    else
      let pdpt := phys_to_virt (entry_address pml4_entry) in
      pdpt_entry ← read_entry pdpt pdpt_index;
      if negb (has PRESENT pdpt_entry) then mret (Err "PDPT entry is not present")
      else if has HUGE_PAGE pdpt_entry then
        mret (Err "cannot unmap a huge page with 4 KiB unmap")
      else
        let pd := phys_to_virt (entry_address pdpt_entry) in
        pd_entry ← read_entry pd pd_index;
        if negb (has PRESENT pd_entry) then mret (Err "PD entry is not present")
        else if has HUGE_PAGE pd_entry then
          mret (Err "cannot unmap a huge page with 4 KiB unmap")
        else
          let pt := phys_to_virt (entry_address pd_entry) in
          pte ← read_entry pt pt_index;
          if negb (has PRESENT pte) then mret (Err "virtual page is not mapped")
          else
            write_entry pt pt_index 0 ;;
            mret (Ok (entry_address pte)).

(** [allocate_page_table_frame]. *)
Definition allocate_page_table_frame : M machine (option Z) := on_fa allocate_frame.
End ops.
Arguments machine : clear implicits.
Arguments mkMachine {A} fa mem.

(** ** Entries, bit by bit *)

Lemma has_PRESENT e : has PRESENT e = Z.testbit e 0.
Proof. unfold has, PRESENT. by apply land_pow2_ne0. Qed.
Lemma has_HUGE e : has HUGE_PAGE e = Z.testbit e 7.
Proof. unfold has, HUGE_PAGE. by apply land_pow2_ne0. Qed.

Lemma ADDRESS_MASK_shift : ADDRESS_MASK = Z.shiftl (Z.ones 40) 12.
Proof. reflexivity. Qed.

Definition aligned (t : Z) : Prop := t mod 4096 = 0 ∧ 0 ≤ t.

Lemma entry_address_arith e : entry_address e = ((e / 4096) mod 2 ^ 40) * 4096.
Proof.
  unfold entry_address. rewrite ADDRESS_MASK_shift.
  assert (Z.land e (Z.shiftl (Z.ones 40) 12)
          = Z.shiftl (Z.land (Z.shiftr e 12) (Z.ones 40)) 12) as ->.
  { apply Z.bits_inj'. intros n Hn. rewrite Z.land_spec, !Z.shiftl_spec by lia.
    destruct (decide (n < 12)).
    - rewrite !(Z.testbit_neg_r _ (n - 12)) by lia. apply andb_false_r.
    - rewrite Z.land_spec, Z.shiftr_spec by lia. by replace (n - 12 + 12) with n by lia. }
  rewrite Z.shiftl_mul_pow2, Z.land_ones, Z.shiftr_div_pow2 by lia. done.
Qed.

Lemma entry_address_bounds e : 0 ≤ entry_address e < 2 ^ 52.
Proof.
  rewrite entry_address_arith. pose proof (Z.mod_pos_bound (e / 4096) (2 ^ 40) ltac:(lia)). lia.
Qed.

Lemma entry_address_aligned e : aligned (entry_address e).
Proof.
  split; [|apply entry_address_bounds]. rewrite entry_address_arith. by apply Z.mod_mul.
Qed.

Lemma entry_address_id a : aligned a → a < 2 ^ 52 → entry_address a = a.
Proof.
  intros [Hm H0] Hlt. rewrite entry_address_arith.
  pose proof (Z.div_mod a 4096 ltac:(lia)).
  rewrite Z.mod_small; [lia|]. split; [apply Z.div_pos; lia|apply Z.div_lt_upper_bound; lia].
Qed.

Lemma entry_address_lor e flag : Z.land flag ADDRESS_MASK = 0 →
  entry_address (Z.lor e flag) = entry_address e.
Proof. intros Hf. unfold entry_address. by rewrite Z.land_lor_distr_l, Hf, Z.lor_0_r. Qed.

Lemma make_entry_address a w u : aligned a → a < 2 ^ 52 → entry_address (make_entry a w u) = a.
Proof.
  intros. unfold make_entry. fold (entry_address a). rewrite (entry_address_id a) by done.
  destruct w, u; rewrite ?entry_address_lor by done; by apply entry_address_id.
Qed.

Lemma make_entry_present a w u : has PRESENT (make_entry a w u) = true.
Proof.
  rewrite has_PRESENT. unfold make_entry.
  destruct w, u; rewrite !Z.lor_spec; simpl; by rewrite ?orb_true_r.
Qed.

Lemma make_entry_not_huge a w u : aligned a → has HUGE_PAGE (make_entry a w u) = false.
Proof.
  intros [Hm _]. rewrite has_HUGE. unfold make_entry.
  assert (Z.testbit (Z.land a ADDRESS_MASK) 7 = false) as H7.
  { rewrite Z.land_spec. apply andb_false_r. }
  destruct w, u; rewrite !Z.lor_spec, H7; done.
Qed.

(** What a walk reads off an entry. *)
Definition target (e : Z) : option Z := if has PRESENT e then Some (entry_address e) else None.

(** The entry with the flag bits [get_or_create_table] adds. *)
Definition add_flags (w u : bool) (e : Z) : Z :=
  let e := if u then Z.lor e USER else e in if w then Z.lor e WRITABLE else e.

Lemma add_flags_target w u e : target (add_flags w u e) = target e.
Proof.
  unfold target, add_flags. rewrite !has_PRESENT.
  destruct w, u; rewrite ?Z.lor_spec, ?entry_address_lor by done; simpl; by rewrite ?orb_false_r.
Qed.

Lemma add_flags_huge w u e : has HUGE_PAGE (add_flags w u e) = has HUGE_PAGE e.
Proof.
  unfold add_flags. rewrite !has_HUGE.
  destruct w, u; rewrite ?Z.lor_spec; simpl; by rewrite ?orb_false_r.
Qed.

(** ** Memory lemmas *)

Lemma rd_wr m a x b : rd (wr m a x) b = if decide (b = a) then x else rd m b.
Proof.
  unfold rd, wr. case_decide; subst; [by rewrite lookup_insert_eq|by rewrite lookup_insert_ne].
Qed.

Lemma slot_inj t t' i j : aligned t → aligned t' → 0 ≤ i < 512 → 0 ≤ j < 512 →
  slot t i = slot t' j → t = t' ∧ i = j.
Proof.
  unfold slot. intros [Ht _] [Ht' _] Hi Hj Heq.
  apply Z.mod_divide in Ht as [q ->]; [|lia]. apply Z.mod_divide in Ht' as [q' ->]; [|lia]. lia.
Qed.

Lemma rd_foldl_zero t m l b :
  rd (foldl (λ m i, wr m (slot t i) 0) m l) b
  = if decide (b ∈ (slot t <$> l)) then 0 else rd m b.
Proof.
  revert m. induction l as [|i l IH]; intros m.
  { case_decide as Hd; [by apply not_elem_of_nil in Hd|done]. }
  simpl foldl. rewrite fmap_cons, IH, rd_wr. repeat case_decide; try done; rewrite ?elem_of_cons in *; tauto.
Qed.

Lemma rd_zero t m b :
  rd (PageTable_zero t m) b
  = if decide (b ∈ (slot t <$> seqZ 0 512)) then 0 else rd m b.
Proof. apply rd_foldl_zero. Qed.
#[global] Opaque PageTable_zero.

Lemma elem_of_table t b : b ∈ (slot t <$> seqZ 0 512) ↔ ∃ i, 0 ≤ i < 512 ∧ b = slot t i.
Proof.
  rewrite list_elem_of_fmap. split; intros (i & Hi & Hj).
  - apply elem_of_seqZ in Hj. exists i. split; [lia|done].
  - exists i. split; [done|]. apply elem_of_seqZ. lia.
Qed.

Lemma rd_zero_in t m i : 0 ≤ i < 512 → rd (PageTable_zero t m) (slot t i) = 0.
Proof. intros. rewrite rd_zero, decide_True; [done|]. apply elem_of_table. eauto. Qed.

Lemma rd_zero_out t t' m i : aligned t → aligned t' → t ≠ t' → 0 ≤ i < 512 →
  rd (PageTable_zero t m) (slot t' i) = rd m (slot t' i).
Proof.
  intros Ht Ht' Hne Hi. rewrite rd_zero, decide_False; [done|]. rewrite elem_of_table.
  intros (j & Hj & Heq). destruct (slot_inj t' t i j); congruence.
Qed.

(** ** Walking the tree

    [walk m t path] follows present entries from the table at [t]; after four
    indices it has read the page-table entry and gives the mapped frame. *)

Fixpoint walk (m : pmem) (t : Z) (path : list Z) : option Z :=
  match path with
  | [] => Some t
  | i :: rest => t' ← target (rd m (slot t i)); walk m t' rest
  end.

Definition path_ok (p : list Z) : Prop := Forall (λ i, 0 ≤ i < 512) p.

Lemma path_ok_app p q : path_ok (p ++ q) ↔ path_ok p ∧ path_ok q.
Proof. apply Forall_app. Qed.
Lemma path_ok_snoc p i : path_ok (p ++ [i]) ↔ path_ok p ∧ 0 ≤ i < 512.
Proof. rewrite path_ok_app. unfold path_ok. by rewrite Forall_singleton. Qed.

Lemma walk_app m t p q : walk m t (p ++ q) = t' ← walk m t p; walk m t' q.
Proof.
  revert t. induction p as [|i p IH]; intros t; simpl; [done|].
  destruct (target _); simpl; [apply IH|done].
Qed.
Lemma walk_snoc m t p i :
  walk m t (p ++ [i]) = t' ← walk m t p; target (rd m (slot t' i)).
Proof.
  rewrite walk_app. destruct (walk m t p); simpl; [|done]. by destruct (target _).
Qed.

(** Two memories whose entries agree along a path walk it alike. *)
Lemma walk_agree m m' t q :
  (∀ r j s t', q = r ++ j :: s → walk m t r = Some t' →
     target (rd m' (slot t' j)) = target (rd m (slot t' j))) →
  walk m' t q = walk m t q.
Proof.
  induction q as [|j q IH] using rev_ind; intros Hag; [done|].
  rewrite !walk_snoc, IH.
  - destruct (walk m t q) as [t'|] eqn:E; simpl; [|done]. by apply (Hag q j []).
  - intros r j' s t' -> Hr. apply (Hag r j' (s ++ [j])); [|done]. by rewrite <- app_assoc.
Qed.

(** ** Well-formed trees

    [U] is the set of frames in use.  The tables of the three upper levels
    and the page tables are distinct frames in use, and no entry is a huge
    page. *)
Record pt_wf (U : Z → bool) (m : pmem) (root : Z) : Prop := {
  wf_node p t : path_ok p → (length p ≤ 3)%nat → walk m root p = Some t →
    aligned t ∧ U t = true;
  wf_inj p q t : path_ok p → path_ok q → (length p ≤ 3)%nat → (length q ≤ 3)%nat →
    walk m root p = Some t → walk m root q = Some t → p = q;
  wf_small p t i : path_ok p → (length p = 1 ∨ length p = 2)%nat →
    walk m root p = Some t → 0 ≤ i < 512 →
    has PRESENT (rd m (slot t i)) = true → has HUGE_PAGE (rd m (slot t i)) = false;
}.

Section wf.
Context (U : Z → bool) (m : pmem) (root : Z) (HW : pt_wf U m root).

Lemma wf_aligned p t : path_ok p → (length p ≤ 3)%nat → walk m root p = Some t → aligned t.
Proof using HW. intros. by apply (wf_node _ _ _ HW p). Qed.

(** Another frame in use, same tree. *)
Lemma pt_wf_mono (V : Z → bool) : (∀ t, U t = true → V t = true) → pt_wf V m root.
Proof using HW.
  destruct HW as [Hn Hi Hs]. intros HV. split; [|done|done].
  intros p t Hp Hl Hw. destruct (Hn p t Hp Hl Hw). auto.
Qed.

(** The word an entry [i] of the node at [p] lives in belongs to no other
    entry of the tree. *)
Lemma slot_unique p t i r t' j : path_ok p → path_ok r → 0 ≤ i < 512 → 0 ≤ j < 512 →
  (length p ≤ 3)%nat → (length r ≤ 3)%nat →
  walk m root p = Some t → walk m root r = Some t' →
  slot t' j = slot t i → r = p ∧ j = i.
Proof using HW.
  intros Hp Hr Hi Hj Hlp Hlr Hwp Hwr Heq.
  destruct (slot_inj t' t j i) as [-> ->]; eauto using wf_aligned.
  split; [|done]. by eapply (wf_inj _ _ _ HW).
Qed.

(** Overwriting entry [i] of the node at [p] leaves every walk that does not
    go through it unchanged; [m'] may also differ in words of no node. *)
Lemma walk_other m' p t i q : path_ok p → 0 ≤ i < 512 → (length p ≤ 3)%nat →
  walk m root p = Some t →
  (∀ r t' j, path_ok r → (length r ≤ 3)%nat → walk m root r = Some t' → 0 ≤ j < 512 →
     slot t' j ≠ slot t i → rd m' (slot t' j) = rd m (slot t' j)) →
  path_ok q → (length q ≤ 4)%nat → ¬ (p ++ [i]) `prefix_of` q →
  walk m' root q = walk m root q.
Proof using HW.
  intros Hp Hi Hlp Hwp Hm' Hq Hlq Hpre. apply walk_agree.
  intros r j s t' -> Hwr.
  apply path_ok_app in Hq as [Hr [Hj Hs]%Forall_cons]. rewrite length_app in Hlq. simpl in Hlq.
  f_equal. apply (Hm' r); [done|lia|done|done|]. intros Heq.
  destruct (slot_unique p t i r t' j) as [-> ->]; try done; [lia|].
  apply Hpre. exists s. by rewrite <- app_assoc.
Qed.
End wf.

(** ** The three ways the code changes a tree *)

Section updates.
Context (U : Z → bool) (m : pmem) (root : Z) (HW : pt_wf U m root).
Context (p : list Z) (t i : Z) (Hp : path_ok p) (Hi : 0 ≤ i < 512).
Context (Hwalk : walk m root p = Some t).

(** Adding flags to a present entry. *)
Section flags.
Context (w u : bool).
Let m' := wr m (slot t i) (add_flags w u (rd m (slot t i))).

Lemma flags_walk q : walk m' root q = walk m root q.
Proof using.
  apply walk_agree. intros r j s t' _ _. unfold m'. rewrite rd_wr.
  case_decide as Hd; [|done]. by rewrite Hd, add_flags_target.
Qed.

Lemma flags_wf : pt_wf U m' root.
Proof using HW.
  destruct HW as [Hn Hinj Hs]. split.
  - intros q t' Hq Hl. rewrite flags_walk. by apply Hn.
  - intros q q' t' Hq Hq' Hl Hl'. rewrite !flags_walk. by apply Hinj.
  - intros q t' j Hq Hl. rewrite flags_walk. unfold m'. rewrite rd_wr. intros Hw Hj.
    case_decide as Hd; [|by apply (Hs q)]. rewrite add_flags_huge, <- Hd. intros Hpr.
    apply (Hs q); try done. revert Hpr. rewrite Hd.
    pose proof (add_flags_target w u (rd m (slot t i))) as Ht. unfold target in Ht.
    destruct (has PRESENT (rd m (slot t i))); [done|]. intros Hpr. by rewrite Hpr in Ht.
Qed.
End flags.

(** Linking a fresh, zeroed table. *)
Section fresh.
Context (f : Z) (w u : bool) (U' : Z → bool).
Context (Hlen : (length p ≤ 2)%nat) (Hf : aligned f) (Hf' : f < 2 ^ 52) (HUf : U f = false).
Context (HU' : ∀ x, U' x = if decide (x = f) then true else U x).
Context (Hnone : target (rd m (slot t i)) = None).
Let m' := wr (PageTable_zero f m) (slot t i) (make_entry f w u).

Lemma fresh_not_node q t' : path_ok q → (length q ≤ 3)%nat → walk m root q = Some t' → t' ≠ f.
Proof using HW HUf. intros Hq Hl Hw ->. destruct (wf_node _ _ _ HW q f Hq Hl Hw). congruence. Qed.

Lemma fresh_rd r t' j : path_ok r → (length r ≤ 3)%nat → walk m root r = Some t' → 0 ≤ j < 512 →
  slot t' j ≠ slot t i → rd m' (slot t' j) = rd m (slot t' j).
Proof using HW HUf Hf.
  intros Hr Hl Hw Hj Hne. unfold m'. rewrite rd_wr, decide_False by done.
  apply rd_zero_out; [done|by eapply wf_aligned| |done].
  apply not_eq_sym. by eapply fresh_not_node.
Qed.

Lemma fresh_walk q : path_ok q → (length q ≤ 4)%nat → ¬ (p ++ [i]) `prefix_of` q →
  walk m' root q = walk m root q.
Proof using HW HUf Hf Hlen Hwalk Hp Hi.
  intros. eapply (walk_other U m root HW m' p t i); eauto using fresh_rd with lia.
Qed.

Lemma fresh_walk_self : walk m' root p = Some t.
Proof using HW HUf Hf Hlen Hwalk Hp Hi.
  rewrite fresh_walk; [done|done|lia|]. intros [k Hk%(f_equal length)].
  rewrite !length_app in Hk. simpl in Hk. lia.
Qed.

Lemma fresh_walk_new : walk m' root (p ++ [i]) = Some f.
Proof using HW HUf Hf Hf' Hlen Hwalk Hp Hi.
  rewrite walk_snoc, fresh_walk_self. simpl. unfold m'. rewrite rd_wr, decide_True by done.
  unfold target. by rewrite make_entry_present, make_entry_address.
Qed.

Lemma fresh_walk_below j s : 0 ≤ j < 512 →
  walk m' root ((p ++ [i]) ++ j :: s) = None ∧ walk m root ((p ++ [i]) ++ j :: s) = None.
Proof using HW HUf Hf Hf' Hlen Hwalk Hp Hi Hnone.
  intros Hj. rewrite !(walk_app _ _ (p ++ [i])), fresh_walk_new.
  rewrite (walk_snoc m), Hwalk. cbn [mbind option_bind walk]. rewrite Hnone. split; [|done].
  unfold m'. rewrite rd_wr, decide_False.
  - by rewrite rd_zero_in.
  - intros Heq. destruct (slot_inj f t j i) as [Hft _]; try done.
    + apply (wf_aligned U m root HW p); [done|lia|done].
    + apply (fresh_not_node p t); [done|lia|done|done].
Qed.

Lemma fresh_cases q : path_ok q → (length q ≤ 4)%nat →
  (q = p ++ [i] ∧ walk m' root q = Some f ∧ walk m root q = None)
  ∨ (q ≠ p ++ [i] ∧ walk m' root q = walk m root q).
Proof using HW HUf Hf Hf' Hlen Hwalk Hp Hi Hnone.
  intros Hq Hl. destruct (decide ((p ++ [i]) `prefix_of` q)) as [[k ->]|Hpre].
  - destruct k as [|j s].
    + left. rewrite app_nil_r. split; [done|]. split; [apply fresh_walk_new|].
      rewrite walk_snoc, Hwalk. done.
    + right. apply path_ok_app in Hq as [_ [Hj _]%Forall_cons].
      destruct (fresh_walk_below j s Hj) as [-> ->]. split; [|done].
      intros Hk%(f_equal length). rewrite length_app in Hk. simpl in Hk. lia.
  - right. split; [|by apply fresh_walk]. intros ->. by apply Hpre.
Qed.

Lemma fresh_wf : pt_wf U' m' root.
Proof using HW HUf Hf Hf' Hlen Hwalk Hp Hi Hnone HU'.
  split.
  - intros q t' Hq Hl Hw. rewrite HU'.
    destruct (fresh_cases q Hq ltac:(lia)) as [(-> & Hw' & _)|[_ Hw']]; rewrite Hw' in Hw.
    + simplify_eq. by rewrite decide_True.
    + destruct (wf_node _ _ _ HW q t' Hq Hl Hw). by case_decide.
  - intros q q' t' Hq Hq' Hl Hl' Hw Hw'.
    destruct (fresh_cases q Hq ltac:(lia)) as [(-> & Hv & _)|[_ Hv]],
      (fresh_cases q' Hq' ltac:(lia)) as [(-> & Hv' & _)|[_ Hv']]; rewrite Hv in Hw; rewrite Hv' in Hw'.
    + done.
    + injection Hw as Hft. by destruct (fresh_not_node q' t' Hq' Hl' Hw').
    + injection Hw' as Hft. by destruct (fresh_not_node q t' Hq Hl Hw).
    + by eapply (wf_inj _ _ _ HW).
  - intros q t' j Hq Hl Hw Hj.
    destruct (decide (slot t' j = slot t i)) as [->|Hne].
    { unfold m'. rewrite rd_wr, decide_True by done. intros _. by apply make_entry_not_huge. }
    destruct (fresh_cases q Hq ltac:(lia)) as [(-> & Hw' & _)|[_ Hw']]; rewrite Hw' in Hw.
    + simplify_eq. unfold m'. rewrite rd_wr, decide_False, rd_zero_in by done. done.
    + rewrite (fresh_rd q) by (done || lia). by apply (wf_small _ _ _ HW q).
Qed.
End fresh.

(** Writing an entry of a page table. *)
Section leaf.
Context (e : Z) (Hlen : (length p = 3)%nat).
Let m' := wr m (slot t i) e.

Lemma leaf_walk q : path_ok q → (length q ≤ 4)%nat → q ≠ p ++ [i] →
  walk m' root q = walk m root q.
Proof using HW Hlen Hwalk Hp Hi.
  intros Hq Hl Hne. apply (walk_other U m root HW m' p t i); try done; [lia| |].
  - intros r t' j Hr Hlr Hw Hj Hs. unfold m'. by rewrite rd_wr, decide_False.
  - intros [k ->]. rewrite !length_app in Hl. simpl in Hl.
    destruct k; [by rewrite app_nil_r in Hne|simpl in Hl; lia].
Qed.

Lemma leaf_walk_self : walk m' root (p ++ [i]) = target e.
Proof using HW Hlen Hwalk Hp Hi.
  rewrite walk_snoc, leaf_walk, Hwalk.
  - simpl. unfold m'. by rewrite rd_wr, decide_True.
  - done.
  - lia.
  - intros Hk%(f_equal length). rewrite length_app in Hk. simpl in Hk. lia.
Qed.

Lemma leaf_walk_node q : path_ok q → (length q ≤ 3)%nat → walk m' root q = walk m root q.
Proof using HW Hlen Hwalk Hp Hi.
  intros. apply leaf_walk; [done|lia|]. intros ->. rewrite length_app in *. simpl in *. lia.
Qed.

Lemma leaf_wf : pt_wf U m' root.
Proof using HW Hlen Hwalk Hp Hi.
  split.
  - intros q t' Hq Hl. rewrite leaf_walk_node by done. by apply (wf_node _ _ _ HW).
  - intros q q' t' Hq Hq' Hl Hl'. rewrite !leaf_walk_node by done. by apply (wf_inj _ _ _ HW).
  - intros q t' j Hq Hl. rewrite leaf_walk_node by (done || lia). intros Hw Hj.
    unfold m'. rewrite rd_wr, decide_False; [by apply (wf_small _ _ _ HW q)|].
    intros Heq. destruct (slot_unique U m root HW p t i q t' j) as [-> _]; try done; lia.
Qed.
End leaf.
End updates.

(** ** Specifications of the operations *)

Section specs.
Context {A : Type} `{HFA : FrameAllocSpec A}.
Implicit Types s : machine A.

Definition inuse s : Z → bool := fa_used (fa s).

(** The machine invariant: the allocator is well formed and the tree at
    [root] is well formed with its tables among the frames in use. *)
Definition vm_ok (root : Z) s : Prop := fa_ok (fa s) ∧ pt_wf (inuse s) (mem s) root.

(** [tables_grow root s s']: from [s] to [s'] the tree at [root] only gained
    tables, in frames that were free, and no other frame was taken. *)
Record tables_grow (root : Z) s s' : Prop := {
  tg_ok : vm_ok root s';
  tg_keep q t : path_ok q → (length q ≤ 3)%nat → walk (mem s) root q = Some t →
    walk (mem s') root q = Some t;
  tg_new q t : path_ok q → (length q ≤ 3)%nat → walk (mem s') root q = Some t →
    walk (mem s) root q = Some t ∨ inuse s t = false;
  tg_used f : inuse s f = true → inuse s' f = true;
  tg_used_inv f : inuse s' f = true → inuse s f = true ∨
    ∃ q, path_ok q ∧ (length q ≤ 3)%nat ∧ walk (mem s') root q = Some f;
  tg_owned f : inuse s f = true → fa_owned (fa s') f = fa_owned (fa s) f;
}.

(** The mapping the tree represents: four indices to a frame. *)
Definition leaf s root (q : list Z) : option Z := walk (mem s) root q.
Definition same_leaves (root : Z) s s' : Prop :=
  ∀ q, path_ok q → length q = 4%nat → leaf s' root q = leaf s root q.

Lemma tables_grow_refl root s : vm_ok root s → tables_grow root s s.
Proof. intros. split; auto. Qed.

Lemma tables_grow_trans root s1 s2 s3 :
  tables_grow root s1 s2 → tables_grow root s2 s3 → tables_grow root s1 s3.
Proof.
  intros [O1 K1 N1 U1 I1 W1] [O2 K2 N2 U2 I2 W2]. split.
  - done.
  - intros q t Hq Hl Hw. by apply K2, K1.
  - intros q t Hq Hl Hw. destruct (N2 q t Hq Hl Hw) as [Hw2|Hu]; [by apply N1|].
    right. destruct (inuse s1 t) eqn:E; [|done]. by rewrite (U1 t E) in Hu.
  - auto.
  - intros f Hf. destruct (I2 f Hf) as [Hf2|?]; [|by right].
    destruct (I1 f Hf2) as [?|(q & Hq & Hl & Hw)]; [by left|]. right. exists q. eauto.
  - intros f Hf. rewrite W2, W1 by auto. done.
Qed.

Lemma same_leaves_trans root s1 s2 s3 :
  same_leaves root s1 s2 → same_leaves root s2 s3 → same_leaves root s1 s3.
Proof. intros H1 H2 q Hq Hl. by rewrite H2, H1. Qed.

Lemma read_entry_run t i s : 0 ≤ i < 512 →
  read_entry t i s = Done (rd (mem s) (slot t i), s).
Proof.
  intros. unfold read_entry. by rewrite (proj2 (Z.leb_le _ _)), (proj2 (Z.ltb_lt _ _)) by lia.
Qed.
Lemma write_entry_run t i x s : 0 ≤ i < 512 →
  write_entry t i x s = Done ((), mkMachine (fa s) (wr (mem s) (slot t i) x)).
Proof.
  intros. unfold write_entry. by rewrite (proj2 (Z.leb_le _ _)), (proj2 (Z.ltb_lt _ _)) by lia.
Qed.

Lemma target_Some e a : target e = Some a → has PRESENT e = true ∧ a = entry_address e.
Proof. unfold target. destruct (has PRESENT e); naive_solver. Qed.
Lemma target_None e : target e = None → has PRESENT e = false.
Proof. unfold target. by destruct (has PRESENT e). Qed.

(** The present branch of [get_or_create_table]. *)
Lemma get_table_run root s p t i w u a : vm_ok root s → path_ok p → 0 ≤ i < 512 →
  walk (mem s) root p = Some t → target (rd (mem s) (slot t i)) = Some a →
  ∃ s', get_or_create_table t i w u s = Done (Ok a, s') ∧ tables_grow root s s' ∧
        same_leaves root s s' ∧ fa s' = fa s ∧ ∀ q, walk (mem s') root q = walk (mem s) root q.
Proof.
  intros [Hok HW] Hp Hi Hw Ht. destruct (target_Some _ _ Ht) as [Hpr ->].
  set (s' := mkMachine (fa s)
    (wr (mem s) (slot t i) (add_flags w u (rd (mem s) (slot t i))))).
  assert (∀ q, walk (mem s') root q = walk (mem s) root q) as Hwalk by (intros; apply flags_walk).
  exists s'. split.
  { unfold get_or_create_table. rewrite (bind_run _ _ _ _ _ (read_entry_run t i s Hi)), Hpr.
    rewrite (bind_run _ _ _ _ _ (write_entry_run t i _ s Hi)). done. }
  split; [|split; [intros q _ _; apply Hwalk|done]].
  split.
  - split; [done|]. by apply flags_wf.
  - intros. by rewrite Hwalk.
  - intros q t' _ _. rewrite Hwalk. by left.
  - done.
  - by left.
  - done.
Qed.

(** The allocating branch of [get_or_create_table]. *)
Lemma create_table_run root s p t i w u : vm_ok root s → path_ok p → 0 ≤ i < 512 →
  (length p ≤ 2)%nat →
  walk (mem s) root p = Some t → target (rd (mem s) (slot t i)) = None →
  (∃ a s', get_or_create_table t i w u s = Done (Ok a, s') ∧ tables_grow root s s' ∧
        same_leaves root s s' ∧ walk (mem s') root (p ++ [i]) = Some a ∧ inuse s a = false)
  ∨ (get_or_create_table t i w u s = Done (Err "out of physical memory", s) ∧
     allocate_frame (fa s) = Done (None, fa s)).
Proof.
  intros [Hok HW] Hp Hi Hlen Hw Ht. pose proof (target_None _ Ht) as Hpr.
  unfold get_or_create_table. rewrite (bind_run _ _ _ _ _ (read_entry_run t i s Hi)), Hpr.
  destruct (fa_alloc (fa s) Hok)
    as [(f & a' & Ha & Hok' & Hf & Hfa & Hfree & Hown & Hused & Hown')|[Ha Hall]].
  2:{ right. split; [|done]. rewrite (bind_run _ _ s None s); [done|].
      unfold on_fa, zoom. rewrite Ha. by destruct s. }
  left. set (s' := mkMachine a' (wr (PageTable_zero f (mem s)) (slot t i) (make_entry f w u))).
  exists f, s'.
  assert (aligned f) as Hal by (split; [done|lia]). assert (f < 2 ^ 52) as Hf' by lia.
  pose proof (fresh_cases _ _ _ HW p t i Hp Hi Hw f w u Hlen Hal Hf' Hfree Ht) as Hcases.
  split.
  { rewrite (bind_run _ _ s (Some f) (mkMachine a' (mem s)))
      by (unfold on_fa, zoom; by rewrite Ha).
    rewrite (bind_run _ _ _ () (mkMachine a' (PageTable_zero f (mem s))))
      by (unfold phys_to_virt, zero_table, IDENTITY_MAP_BASE; by rewrite Z.add_0_r).
    by rewrite (bind_run _ _ _ _ _ (write_entry_run t i _ _ Hi)). }
  split; [split|].
  - split; [done|]. by apply (fresh_wf _ _ _ HW p t i Hp Hi Hw f w u (inuse s')).
  - intros q t' Hq Hl Hwq.
    destruct (Hcases q Hq ltac:(lia)) as [(_ & _ & Hn)|[_ Hsame]]; [congruence|].
    simpl. by rewrite Hsame.
  - intros q t' Hq Hl. simpl.
    destruct (Hcases q Hq ltac:(lia)) as [(_ & -> & _)|[_ ->]]; [|by left].
    intros ?. simplify_eq. by right.
  - intros g Hg. unfold inuse in *. simpl. rewrite Hused. by case_decide.
  - intros g. unfold inuse at 1. simpl. rewrite Hused. case_decide; [subst|by left].
    right. exists (p ++ [i]). split; [by apply path_ok_snoc|].
    split; [rewrite length_app; simpl; lia|].
    apply (fresh_walk_new _ _ _ HW p t i Hp Hi Hw f w u Hlen Hal Hf' Hfree).
  - intros g Hg. apply Hown'. unfold inuse in Hg. congruence.
  - split; [|split; [by apply (fresh_walk_new _ _ _ HW p t i Hp Hi Hw f w u)|done]].
    intros q Hq Hl. unfold leaf. simpl.
    destruct (Hcases q Hq ltac:(lia)) as [(-> & _ & _)|[_ ->]]; [|done].
    rewrite length_app in Hl. simpl in Hl. lia.
Qed.

Lemma table_run root s p t i w u : vm_ok root s → path_ok p → 0 ≤ i < 512 →
  (length p ≤ 2)%nat → walk (mem s) root p = Some t →
  (∃ a s', get_or_create_table t i w u s = Done (Ok a, s') ∧ tables_grow root s s' ∧
        same_leaves root s s' ∧ walk (mem s') root (p ++ [i]) = Some a)
  ∨ (get_or_create_table t i w u s = Done (Err "out of physical memory", s) ∧
     allocate_frame (fa s) = Done (None, fa s) ∧ walk (mem s) root (p ++ [i]) = None).
Proof.
  intros Hok Hp Hi Hlen Hw. destruct (target (rd (mem s) (slot t i))) as [a|] eqn:Ht.
  - left. destruct (get_table_run root s p t i w u a) as (s' & Hrun & Hg & Hl & _ & Hwalk); try done.
    exists a, s'. split; [done|]. split; [done|]. split; [done|].
    rewrite Hwalk, walk_snoc, Hw. done.
  - destruct (create_table_run root s p t i w u) as [(a & s' & Hrun & Hg & Hl & Hwa & _)|[Hrun Ha]];
      try done.
    + left. by exists a, s'.
    + right. split; [done|]. split; [done|]. rewrite walk_snoc, Hw. done.
Qed.

(** Writing an entry of an existing page table. *)
Lemma leaf_write root s p t i e : vm_ok root s → path_ok p → 0 ≤ i < 512 →
  length p = 3%nat → walk (mem s) root p = Some t →
  let s' := mkMachine (fa s) (wr (mem s) (slot t i) e) in
  tables_grow root s s' ∧ leaf s' root (p ++ [i]) = target e ∧
  (∀ q, path_ok q → length q = 4%nat → q ≠ p ++ [i] → leaf s' root q = leaf s root q) ∧
  (∀ q, path_ok q → (length q ≤ 3)%nat → walk (mem s') root q = walk (mem s) root q).
Proof.
  intros [Hok HW] Hp Hi Hlen Hw s'.
  assert (∀ q, path_ok q → (length q ≤ 3)%nat → walk (mem s') root q = walk (mem s) root q)
    as Hnode by (intros; by apply (leaf_walk_node _ _ _ HW p)).
  split; [split|split; [|split]].
  - split; [done|]. by apply (leaf_wf _ _ _ HW p).
  - intros. by rewrite Hnode.
  - intros q t' Hq Hl. rewrite Hnode by done. by left.
  - done.
  - by left.
  - done.
  - by apply (leaf_walk_self _ _ _ HW p).
  - intros q Hq Hl Hne. apply (leaf_walk _ _ _ HW p); try done. lia.
  - done.
Qed.

Definition path4 (v : Z) : list Z := let '(a, b, c, d) := indexes v in [a; b; c; d].

Lemma index_range x k : 0 ≤ Z.land (Z.shiftr x k) 0x1FF < 512.
Proof.
  change 0x1FF with (Z.ones 9). rewrite Z.land_ones by lia. apply Z.mod_pos_bound. lia.
Qed.

Lemma path4_ok v : path_ok (path4 v).
Proof. unfold path4, indexes, path_ok. repeat constructor; apply index_range. Qed.

(** The outcomes of [map] on arguments that pass its checks. *)
Inductive map_result (root : Z) s (v pa : Z) : result unit → machine A → Prop :=
| map_ok s' :
    leaf s root (path4 v) = None → tables_grow root s s' →
    leaf s' root (path4 v) = Some pa →
    (∀ q, path_ok q → length q = 4%nat → q ≠ path4 v → leaf s' root q = leaf s root q) →
    map_result root s v pa (Ok ()) s'
| map_already s' a :
    leaf s root (path4 v) = Some a → tables_grow root s s' → same_leaves root s s' →
    map_result root s v pa (Err "virtual page is already mapped") s'
| map_oom s' :
    leaf s root (path4 v) = None → tables_grow root s s' → same_leaves root s s' →
    allocate_frame (fa s') = Done (None, fa s') →
    map_result root s v pa (Err "out of physical memory") s'.

Definition map_args_ok (v pa : Z) : Prop :=
  is_canonical v = true ∧ v mod PAGE_SIZE = 0 ∧ pa mod PAGE_SIZE = 0 ∧ 0 ≤ pa ≤ ADDRESS_MASK.

Lemma walk_none_prefix m t p i q : walk m t (p ++ [i]) = None → walk m t (p ++ i :: q) = None.
Proof.
  intros Hn. replace (p ++ i :: q) with ((p ++ [i]) ++ q) by (by rewrite <- app_assoc).
  by rewrite walk_app, Hn.
Qed.

Lemma leaf_step root s s1 q : path_ok q → length q = 4%nat → same_leaves root s s1 →
  leaf s1 root q = None → leaf s root q = None.
Proof. intros Hq Hl Hs Hn. by rewrite <- Hs. Qed.

(** The descent shared by every call of [map]: three levels of tables. *)
Lemma descend_run root s i0 i1 i2 i3 w u (k : Z → M (machine A) (result unit)) :
  vm_ok root s → path_ok [i0; i1; i2; i3] →
  (∃ pt s', tables_grow root s s' ∧ same_leaves root s s' ∧
     walk (mem s') root [i0; i1; i2] = Some pt ∧
     try (get_or_create_table root i0 w u) (λ a,
       try (get_or_create_table (phys_to_virt a) i1 w u) (λ b,
         try (get_or_create_table (phys_to_virt b) i2 w u) (λ c, k (phys_to_virt c)))) s
     = k pt s')
  ∨ (∃ s', tables_grow root s s' ∧ same_leaves root s s' ∧
     leaf s root [i0; i1; i2; i3] = None ∧
     allocate_frame (fa s') = Done (None, fa s') ∧
     try (get_or_create_table root i0 w u) (λ a,
       try (get_or_create_table (phys_to_virt a) i1 w u) (λ b,
         try (get_or_create_table (phys_to_virt b) i2 w u) (λ c, k (phys_to_virt c)))) s
     = Done (Err "out of physical memory", s')).
Proof.
  intros Hok Hpath. pose proof Hpath as Hp.
  apply Forall_cons in Hp as [H0 Hp]. apply Forall_cons in Hp as [H1 Hp].
  apply Forall_cons in Hp as [H2 Hp].
  assert (path_ok [i0]) as P1 by (by constructor).
  assert (path_ok [i0; i1]) as P2 by (by apply (path_ok_snoc [i0])).
  assert (∀ x, phys_to_virt x = x) as Hv
    by (intros; unfold phys_to_virt, IDENTITY_MAP_BASE; lia).
  destruct (table_run root s [] root i0 w u) as [(a & s1 & E1 & G1 & L1 & W1)|(E1 & A1 & N1)];
    [done|constructor|done|simpl; lia|done| |].
  2:{ right. exists s. split; [by apply tables_grow_refl|]. split; [done|].
      split; [by apply (walk_none_prefix _ _ [])|]. split; [done|].
      unfold try at 1. by rewrite (bind_run _ _ _ _ _ E1). }
  unfold try at 1 4. rewrite !(bind_run _ _ _ _ _ E1), !Hv.
  destruct (table_run root s1 [i0] a i1 w u) as [(b & s2 & E2 & G2 & L2 & W2)|(E2 & A2 & N2)];
    [apply G1|done|done|simpl; lia|done| |].
  2:{ right. exists s1. split; [done|]. split; [done|].
      split; [apply (leaf_step root s s1); try done; by apply (walk_none_prefix _ _ [i0])|].
      split; [done|]. unfold try at 1. by rewrite (bind_run _ _ _ _ _ E2). }
  unfold try at 1 3. rewrite !(bind_run _ _ _ _ _ E2), !Hv.
  pose proof (tables_grow_trans _ _ _ _ G1 G2) as G12.
  pose proof (same_leaves_trans _ _ _ _ L1 L2) as L12.
  destruct (table_run root s2 [i0; i1] b i2 w u) as [(c & s3 & E3 & G3 & L3 & W3)|(E3 & A3 & N3)];
    [apply G2|done|done|simpl; lia|done| |].
  2:{ right. exists s2. split; [done|]. split; [done|].
      split; [apply (leaf_step root s s2); try done; by apply (walk_none_prefix _ _ [i0; i1])|].
      split; [done|]. unfold try at 1. by rewrite (bind_run _ _ _ _ _ E3). }
  left. exists c, s3. split; [by eapply tables_grow_trans|]. split; [by eapply same_leaves_trans|].
  split; [done|]. unfold try. by rewrite (bind_run _ _ _ _ _ E3), Hv.
Qed.

Lemma map_run root s v pa w u : vm_ok root s → map_args_ok v pa →
  ∃ r s', page_table_map root v pa w u s = Done (r, s') ∧ map_result root s v pa r s'.
Proof.
  intros Hok (Hc & Hva & Hpa & Hr). unfold page_table_map. rewrite Hc, Hva, Hpa, !Z.eqb_refl.
  rewrite (proj2 (Z.ltb_ge _ _)) by lia. 
  pose proof (path4_ok v) as Hpath.
  destruct (indexes v) as [[[i0 i1] i2] i3] eqn:Hidx.
  cbv beta iota zeta delta [negb].
  assert (path4 v = [i0; i1; i2; i3]) as Hp4 by (unfold path4; by rewrite Hidx).
  rewrite Hp4 in Hpath. pose proof Hpath as Hi3. apply (path_ok_snoc [i0; i1; i2]) in Hi3 as [Hp3 Hi3].
  destruct (descend_run root s i0 i1 i2 i3 w u (λ pt,
    pte ← read_entry pt i3;
    if has PRESENT pte then mret (Err "virtual page is already mapped")
    else write_entry pt i3 (make_entry pa w u) ;; mret (Ok ())) Hok Hpath)
    as [(pt & s1 & G & L & W & ->)|(s1 & G & L & N & Ha & ->)].
  2:{ eexists _, s1. split; [done|]. constructor; rewrite ?Hp4; done. }
  rewrite (bind_run _ _ _ _ _ (read_entry_run pt i3 s1 Hi3)).
  assert (leaf s1 root (path4 v) = target (rd (mem s1) (slot pt i3))) as Hleaf.
  { rewrite Hp4. unfold leaf. change [i0; i1; i2; i3] with ([i0; i1; i2] ++ [i3]).
    by rewrite walk_snoc, W. }
  rewrite <- Hp4 in Hpath.
  rewrite L in Hleaf; [|done|by rewrite Hp4].
  destruct (has PRESENT (rd (mem s1) (slot pt i3))) eqn:Hpr.
  { eexists _, s1. split; [done|]. unfold target in Hleaf. rewrite Hpr in Hleaf. by econstructor. }
  rewrite (bind_run _ _ _ _ _ (write_entry_run pt i3 _ s1 Hi3)).
  destruct (leaf_write root s1 [i0; i1; i2] pt i3 (make_entry pa w u)) as (G' & Hself & Hother & _);
    [apply G|done|done|done|done|].
  eexists _, _. split; [done|]. unfold target in Hleaf. rewrite Hpr in Hleaf. constructor.
  - done.
  - by eapply tables_grow_trans.
  - rewrite Hp4. change [i0; i1; i2; i3] with ([i0; i1; i2] ++ [i3]). rewrite Hself.
    unfold target. rewrite make_entry_present, make_entry_address; [done|split; [done|lia]|].
    unfold ADDRESS_MASK in Hr. lia.
  - intros q Hq Hl Hne. rewrite Hother; [by apply L|done|done|].
    by rewrite Hp4 in Hne.
Qed.

(** One level of a read-only walk: the entry at [i], its target, no huge page. *)
Lemma entry_cases m t i :
  (has PRESENT (rd m (slot t i)) = true ∧
     target (rd m (slot t i)) = Some (entry_address (rd m (slot t i))))
  ∨ (has PRESENT (rd m (slot t i)) = false ∧ target (rd m (slot t i)) = None).
Proof. unfold target. destruct (has PRESENT _); [left|right]; done. Qed.

Lemma phys_to_virt_id a : phys_to_virt a = a.
Proof. unfold phys_to_virt, IDENTITY_MAP_BASE. lia. Qed.

Lemma page_offset v : Z.land v 0xFFF = v mod 4096.
Proof. change 0xFFF with (Z.ones 12). by rewrite Z.land_ones by lia. Qed.

Lemma add_offset_run {S} e v (s : S) :
  lift (add_u 64 (entry_address e) (Z.land v 0xFFF)) s = Done (entry_address e + v mod 4096, s).
Proof.
  rewrite page_offset. unfold lift. rewrite add_u_Done; [done|].
  pose proof (entry_address_bounds e). pose proof (Z.mod_pos_bound v 4096 ltac:(lia)). lia.
Qed.

Lemma translate_run root s v : vm_ok root s →
  page_table_translate root v s =
  Done (if is_canonical v then (λ a, a + v mod 4096) <$> leaf s root (path4 v) else None, s).
Proof.
  intros [_ HW]. unfold page_table_translate. destruct (is_canonical v); [|done].
  pose proof (path4_ok v) as Hpath. unfold path4, leaf in *.
  destruct (indexes v) as [[[i0 i1] i2] i3]. cbv beta iota zeta delta [negb].
  apply Forall_cons in Hpath as [H0 Hp]. apply Forall_cons in Hp as [H1 Hp].
  apply Forall_cons in Hp as [H2 Hp]. apply Forall_cons in Hp as [H3 _].
  rewrite (bind_run _ _ _ _ _ (read_entry_run root i0 s H0)). simpl walk.
  destruct (entry_cases (mem s) root i0) as [[P0 T0]|[P0 T0]]; rewrite P0, T0; [|done].
  set (t1 := entry_address (rd (mem s) (slot root i0))) in *. rewrite phys_to_virt_id. simpl.
  rewrite (bind_run _ _ _ _ _ (read_entry_run t1 i1 s H1)).
  assert (walk (mem s) root [i0] = Some t1) as W1 by (simpl; by rewrite T0).
  destruct (entry_cases (mem s) t1 i1) as [[P1 T1]|[P1 T1]]; rewrite P1, T1; [|done].
  rewrite (wf_small _ _ _ HW [i0] t1 i1 ltac:(by constructor) ltac:(by left) W1 H1 P1).
  set (t2 := entry_address (rd (mem s) (slot t1 i1))) in *. rewrite phys_to_virt_id. simpl.
  rewrite (bind_run _ _ _ _ _ (read_entry_run t2 i2 s H2)).
  assert (walk (mem s) root [i0; i1] = Some t2) as W2 by (simpl; by rewrite T0; simpl; rewrite T1).
  destruct (entry_cases (mem s) t2 i2) as [[P2 T2]|[P2 T2]]; rewrite P2, T2; [|done].
  rewrite (wf_small _ _ _ HW [i0; i1] t2 i2 ltac:(by apply (path_ok_snoc [i0]); split; [constructor|])
             ltac:(by right) W2 H2 P2).
  set (t3 := entry_address (rd (mem s) (slot t2 i2))) in *. rewrite phys_to_virt_id. simpl.
  rewrite (bind_run _ _ _ _ _ (read_entry_run t3 i3 s H3)).
  destruct (entry_cases (mem s) t3 i3) as [[P3 T3]|[P3 T3]]; rewrite P3, T3; [|done].
  rewrite (bind_run _ _ _ _ _ (add_offset_run _ v s)). done.
Qed.

(** The outcomes of [unmap] on arguments that pass its checks. *)
Lemma unmap_run root s v : vm_ok root s → is_canonical v = true → v mod PAGE_SIZE = 0 →
  match leaf s root (path4 v) with
  | Some a => ∃ s', page_table_unmap root v s = Done (Ok a, s') ∧ fa s' = fa s ∧
      tables_grow root s s' ∧ leaf s' root (path4 v) = None ∧
      (∀ q, path_ok q → length q = 4%nat → q ≠ path4 v → leaf s' root q = leaf s root q) ∧
      (∀ q, path_ok q → (length q ≤ 3)%nat → walk (mem s') root q = walk (mem s) root q)
  | None => ∃ e, page_table_unmap root v s = Done (Err e, s)
  end.
Proof.
  intros Hok Hc Hv. pose proof Hok as [_ HW]. unfold page_table_unmap. rewrite Hc, Hv, Z.eqb_refl.
  pose proof (path4_ok v) as Hpath. unfold path4 in *.
  destruct (indexes v) as [[[i0 i1] i2] i3]. cbv beta iota zeta delta [negb].
  apply Forall_cons in Hpath as [H0 Hp]. apply Forall_cons in Hp as [H1 Hp].
  apply Forall_cons in Hp as [H2 Hp]. apply Forall_cons in Hp as [H3 _].
  assert (path_ok [i0]) as Hp1 by (by constructor).
  assert (path_ok [i0; i1]) as Hp2 by (by apply (path_ok_snoc [i0])).
  assert (path_ok [i0; i1; i2]) as Hp3 by (by apply (path_ok_snoc [i0; i1])).
  rewrite (bind_run _ _ _ _ _ (read_entry_run root i0 s H0)). unfold leaf at 1. simpl walk.
  destruct (entry_cases (mem s) root i0) as [[P0 T0]|[P0 T0]]; rewrite P0, T0; [|by eexists].
  set (t1 := entry_address (rd (mem s) (slot root i0))) in *. rewrite phys_to_virt_id. simpl.
  rewrite (bind_run _ _ _ _ _ (read_entry_run t1 i1 s H1)).
  assert (walk (mem s) root [i0] = Some t1) as W1 by (simpl; by rewrite T0).
  destruct (entry_cases (mem s) t1 i1) as [[P1 T1]|[P1 T1]]; rewrite P1, T1; [|by eexists].
  rewrite (wf_small _ _ _ HW [i0] t1 i1 Hp1 ltac:(by left) W1 H1 P1).
  set (t2 := entry_address (rd (mem s) (slot t1 i1))) in *. rewrite phys_to_virt_id. simpl.
  rewrite (bind_run _ _ _ _ _ (read_entry_run t2 i2 s H2)).
  assert (walk (mem s) root [i0; i1] = Some t2) as W2 by (simpl; by rewrite T0; simpl; rewrite T1).
  destruct (entry_cases (mem s) t2 i2) as [[P2 T2]|[P2 T2]]; rewrite P2, T2; [|by eexists].
  rewrite (wf_small _ _ _ HW [i0; i1] t2 i2 Hp2 ltac:(by right) W2 H2 P2).
  set (t3 := entry_address (rd (mem s) (slot t2 i2))) in *. rewrite phys_to_virt_id. simpl.
  rewrite (bind_run _ _ _ _ _ (read_entry_run t3 i3 s H3)).
  assert (walk (mem s) root [i0; i1; i2] = Some t3) as W3
    by (simpl; rewrite T0; simpl; rewrite T1; simpl; by rewrite T2).
  destruct (entry_cases (mem s) t3 i3) as [[P3 T3]|[P3 T3]]; rewrite P3, T3; [|by eexists].
  rewrite (bind_run _ _ _ _ _ (write_entry_run t3 i3 0 s H3)).
  destruct (leaf_write root s [i0; i1; i2] t3 i3 0) as (G & Hself & Hother & Hnode); try done.
  simpl. eexists. split; [done|]. split; [done|]. split; [done|]. split; [exact Hself|].
  split; [exact Hother|exact Hnode].
Qed.
End specs.

(** ** Virtual addresses and paths *)

Lemma index_arith v k : 0 ≤ k → Z.land (Z.shiftr v k) 0x1FF = (v / 2 ^ k) mod 512.
Proof.
  intros. change 0x1FF with (Z.ones 9). by rewrite Z.land_ones, Z.shiftr_div_pow2 by lia.
Qed.

Lemma path4_arith v :
  path4 v = [(v / 2 ^ 39) mod 512; (v / 2 ^ 30) mod 512; (v / 2 ^ 21) mod 512; (v / 2 ^ 12) mod 512].
Proof. unfold path4, indexes. by rewrite !index_arith. Qed.

(** The index path of an address is that of its page. *)
Lemma path4_page v : path4 v = path4 (v / 4096 * 4096).
Proof.
  rewrite !path4_arith.
  assert (∀ n, 12 ≤ n → v / 4096 * 4096 / 2 ^ n = v / 2 ^ n) as Hk.
  { intros n Hn. replace n with (12 + (n - 12)) by lia.
    rewrite !Z.pow_add_r, <- !Z.div_div by lia. change (2 ^ 12) with 4096. by rewrite Z.div_mul. }
  rewrite !Hk by lia. done.
Qed.

Lemma path4_offset v off : v mod 4096 = 0 → 0 ≤ off < 4096 → path4 (v + off) = path4 v.
Proof.
  intros Hv Hoff. rewrite (path4_page (v + off)), (path4_page v).
  pose proof (Z.div_mod v 4096 ltac:(lia)).
  replace ((v + off) / 4096) with (v / 4096); [done|].
  apply (Z.div_unique _ _ _ off); lia.
Qed.

Lemma canonical_arith v : in_u 64 v →
  is_canonical v = true ↔ v < 2 ^ 47 ∨ 2 ^ 64 - 2 ^ 47 ≤ v.
Proof.
  intros [H0 H1]. unfold is_canonical.
  rewrite !Z.shiftr_div_pow2 by lia. change 1 with (Z.ones 1) at 1. rewrite Z.land_ones by lia.
  change (2 ^ 1) with 2. pose proof (Z.div_mod (v / 2 ^ 47) 2 ltac:(lia)) as Hd.
  pose proof (Z.mod_pos_bound (v / 2 ^ 47) 2 ltac:(lia)).
  rewrite Z.div_div in Hd by lia. change (2 ^ 47 * 2) with (2 ^ 48) in Hd.
  pose proof (Z.div_mod v (2 ^ 47) ltac:(lia)).
  pose proof (Z.mod_pos_bound v (2 ^ 47) ltac:(lia)).
  destruct (Z.eqb_spec ((v / 2 ^ 47) mod 2) 0); rewrite Z.eqb_eq; lia.
Qed.

(** Two canonical addresses with the same path are on the same page. *)
Lemma path4_inj v v' : in_u 64 v → in_u 64 v' →
  is_canonical v = true → is_canonical v' = true → path4 v = path4 v' → v / 4096 = v' / 4096.
Proof.
  intros Hv Hv' Hc%canonical_arith Hc'%canonical_arith; [|done..]. rewrite !path4_arith.
  intros Heq. injection Heq as E0 E1 E2 E3. destruct Hv as [? ?], Hv' as [? ?].
  change (2 ^ 12) with 4096 in *.
  assert (∀ x n, 12 ≤ n → x / 2 ^ n = x / 4096 / 2 ^ (n - 12)) as Hdd.
  { intros x n Hn. replace n with (12 + (n - 12)) at 1 by lia.
    rewrite Z.pow_add_r, <- Z.div_div by lia. done. }
  rewrite !(Hdd _ 39) in E0 by lia. rewrite !(Hdd _ 30) in E1 by lia. rewrite !(Hdd _ 21) in E2 by lia.
  change (39 - 12) with 27 in E0. change (30 - 12) with 18 in E1. change (21 - 12) with 9 in E2.
  assert (∀ x, (x < 2 ^ 47 → x / 4096 < 2 ^ 35) ∧ (2 ^ 64 - 2 ^ 47 ≤ x < 2 ^ 64 →
    2 ^ 52 - 2 ^ 35 ≤ x / 4096 < 2 ^ 52)) as Hb.
  { intros x. split; intros; [apply Z.div_lt_upper_bound; lia|split].
    - apply Z.div_le_lower_bound; lia.
    - apply Z.div_lt_upper_bound; lia. }
  pose proof (Hb v) as [Hb1 Hb2]. pose proof (Hb v') as [Hb1' Hb2'].
  assert (0 ≤ v / 4096) by (apply Z.div_pos; lia). assert (0 ≤ v' / 4096) by (apply Z.div_pos; lia).
  set (a := v / 4096) in *. set (b := v' / 4096) in *. clearbody a b.
  assert (∀ x y, x / 512 = y / 512 → x mod 512 = y mod 512 → x = y) as Hglue.
  { intros x y Hq Hr. rewrite (Z.div_mod x 512), (Z.div_mod y 512) by lia. lia. }
  assert (∀ x k, 0 ≤ k → x / 2 ^ k / 512 = x / 2 ^ (k + 9)) as Hup.
  { intros x k Hk. rewrite Z.pow_add_r, <- Z.div_div by lia. done. }
  assert (a / 2 ^ 36 = b / 2 ^ 36) as E4.
  { change (2 ^ 36) with (2 ^ (27 + 9)). rewrite <- !Hup by lia.
    assert (∀ x, 0 ≤ x → (x < 2 ^ 35 → 0 ≤ x / 2 ^ 27 < 256) ∧
      (2 ^ 52 - 2 ^ 35 ≤ x < 2 ^ 52 → 2 ^ 25 - 256 ≤ x / 2 ^ 27 < 2 ^ 25)) as Hc27.
    { intros x Hx. split; intros; split; try (apply Z.div_pos; lia);
        try (apply Z.div_lt_upper_bound; lia). apply Z.div_le_lower_bound; lia. }
    pose proof (Hc27 a ltac:(done)) as [Ha1 Ha2]. pose proof (Hc27 b ltac:(done)) as [Hb3 Hb4].
    set (c := a / 2 ^ 27) in *. set (d := b / 2 ^ 27) in *. clearbody c d.
    pose proof (Z.div_mod c 512 ltac:(lia)). pose proof (Z.div_mod d 512 ltac:(lia)).
    pose proof (Z.mod_pos_bound c 512 ltac:(lia)). pose proof (Z.mod_pos_bound d 512 ltac:(lia)).
    destruct Hc, Hc'; lia. }
  apply Hglue; [|done]. change 512 with (2 ^ 9). apply Hglue; [|done].
  rewrite !(Hup _ 9) by lia. apply Hglue; [|done]. rewrite !(Hup _ 18) by lia.
  apply Hglue; [|done]. rewrite !(Hup _ 27) by lia. done.
Qed.
