(* ===== verification/AddressSpace.v ===== *)
(** * Address spaces (kernel/src/memory/address_space.rs)

    [AddressSpace::new], [identity_map] and [activate] over the page tables
    of PageTable.v, and the correctness theorems of the paging layer stated
    for the translations an address space performs. *)

From S2P Require Import Prelude BootInfo FrameInterface FrameAllocator PageTable.
Local Open Scope Z_scope.

Record AddressSpace := mkAddressSpace { pml4_phys : Z }.

Section ops.
Context {A : Type} `{FrameAlloc A} {W : Window}.

Definition AddressSpace_new : M (machine A) (result AddressSpace) :=
  frame ← on_fa allocate_frame;
  match frame with
  | None => mret (Err "out of physical memory")
  | Some pml4_phys =>
      zero_table (phys_to_virt pml4_phys) ;;
      mret (Ok (mkAddressSpace pml4_phys))
  end.

(** [while address < end { map(..)?; address += PAGE_SIZE; }]: the number of
    rounds is bounded by the pages of the range, see [identity_loop_unfold]. *)
Fixpoint identity_loop (n : nat) (pml4 address end_ : Z) (writable : bool) :
    M (machine A) (result unit) :=
  match n with
  | O => mret (Ok ())
  | S k =>
      if address <? end_ then
        try (page_table_map pml4 address address writable false) (λ _,
          address' ← lift (add_u 64 address PAGE_SIZE);
          identity_loop k pml4 address' end_ writable)
      else mret (Ok ())
  end.

Definition AddressSpace_identity_map (self : AddressSpace) (start end_ : Z) (writable : bool) :
    M (machine A) (result unit) :=
  if negb (start mod PAGE_SIZE =? 0) then
    mret (Err "identity-map start is not page aligned")
  else if negb (end_ mod PAGE_SIZE =? 0) then
    mret (Err "identity-map end is not page aligned")
  else if end_ <=? start then
    mret (Err "identity-map range is empty")
  else
    let pml4 := phys_to_virt (pml4_phys self) in
    identity_loop (Z.to_nat ((end_ - start + PAGE_SIZE - 1) / PAGE_SIZE))
      pml4 start end_ writable.

(** [activate] loads the PML4 address into CR3 (the state is CR3). *)
Definition AddressSpace_activate (self : AddressSpace) : M Z unit := put (pml4_phys self).
Definition AddressSpace_pml4_phys (self : AddressSpace) : Z := pml4_phys self.

(** The bound of [identity_loop] is never what ends the loop. *)
Lemma identity_loop_unfold pml4 address end_ w s :
  identity_loop (Z.to_nat ((end_ - address + PAGE_SIZE - 1) / PAGE_SIZE)) pml4 address end_ w s =
  (if address <? end_ then
     try (page_table_map pml4 address address w false) (λ _,
       address' ← lift (add_u 64 address PAGE_SIZE);
       identity_loop (Z.to_nat ((end_ - address' + PAGE_SIZE - 1) / PAGE_SIZE))
         pml4 address' end_ w)
   else mret (Ok ())) s.
Proof.
  unfold PAGE_SIZE. destruct (Z.ltb_spec address end_) as [Hlt|Hge].
  - assert (Z.to_nat ((end_ - address + 4096 - 1) / 4096)
            = S (Z.to_nat ((end_ - (address + 4096) + 4096 - 1) / 4096))) as ->.
    { replace (end_ - address + 4096 - 1) with ((end_ - (address + 4096) + 4096 - 1) + 1 * 4096) by lia.
      rewrite Z.div_add by lia.
      assert (0 ≤ (end_ - (address + 4096) + 4096 - 1) / 4096) by (apply Z.div_pos; lia). lia. }
    simpl. rewrite (proj2 (Z.ltb_lt _ _)) by done. unfold try, mbind, M_bind.
    destruct (page_table_map pml4 address address w false s) as [[[?|?] ?]|]; try done.
    unfold lift, add_u, PAGE_SIZE. by destruct (address + 4096 <? 2 ^ 64).
  - assert (Z.to_nat ((end_ - address + 4096 - 1) / 4096) = O) as ->; [|done].
    assert ((end_ - address + 4096 - 1) / 4096 < 1) by (apply Z.div_lt_upper_bound; lia). lia.
Qed.
End ops.

Section specs.
Context {A : Type} `{HFA : FrameAllocSpec A}.
Implicit Types s : machine A.

(** A zeroed table in a fresh frame is an empty, well-formed tree. *)
Lemma empty_tree_wf (U : Z → bool) m f : aligned f → U f = true →
  pt_wf U (PageTable_zero f m) f ∧ ∀ q, path_ok q → q ≠ [] → walk (PageTable_zero f m) f q = None.
Proof.
  intros Hf HU.
  assert (∀ q, path_ok q → q ≠ [] → walk (PageTable_zero f m) f q = None) as Hn.
  { intros [|i q] Hq Hne; [done|].
    apply Forall_cons in Hq as [Hi _]. cbn [walk]. by rewrite rd_zero_in. }
  split; [|done]. split.
  - intros [|i p] t Hp _ Hw; [by simplify_eq/=|]. by rewrite Hn in Hw.
  - intros [|i p] [|j q] t Hp Hq _ _ Hw Hw'; try done.
    + by rewrite (Hn (j :: q)) in Hw'.
    + by rewrite (Hn (i :: p)) in Hw.
    + by rewrite (Hn (i :: p)) in Hw.
  - intros [|i p] t j Hp Hl Hw; [simpl in Hl; lia|]. by rewrite (Hn (i :: p)) in Hw.
Qed.

Lemma AddressSpace_new_run s : fa_ok (fa s) →
  (∃ root s', AddressSpace_new s = Done (Ok (mkAddressSpace root), s') ∧
     vm_ok root s' ∧ inuse s root = false ∧ (∀ q, path_ok q → q ≠ [] → walk (mem s') root q = None) ∧
     ∀ f, inuse s' f = if decide (f = root) then true else inuse s f)
  ∨ (AddressSpace_new s = Done (Err "out of physical memory", s) ∧
     allocate_frame (fa s) = Done (None, fa s)).
Proof.
  intros Hok. unfold AddressSpace_new.
  destruct (fa_alloc (fa s) Hok)
    as [(f & a' & Ha & Hok' & Hf & Hfa & Hfree & Hown & Hused & _)|[Ha _]].
  - left. exists f, (mkMachine a' (PageTable_zero f (mem s))).
    rewrite (bind_run _ _ s (Some f) (mkMachine a' (mem s))) by (unfold on_fa, zoom; by rewrite Ha).
    rewrite phys_to_virt_id. split; [done|].
    assert (aligned f) as Hal by (split; [done|lia]).
    destruct (empty_tree_wf (fa_used a') (mem s) f Hal) as [Hwf Hn].
    { rewrite Hused. by rewrite decide_True. }
    split; [by split|]. split; [done|]. split; [done|]. done.
  - right. split; [|done]. rewrite (bind_run _ _ s None s); [done|].
    unfold on_fa, zoom. rewrite Ha. by destruct s.
Qed.

(** ** Translations

    [translates root s v o]: in state [s] the address space at [root]
    translates [v] to [o], and the lookup changes nothing. *)

Definition translates (root : Z) s (v : Z) (o : option Z) : Prop :=
  page_table_translate root v s = Done (o, s).

Definition translation (root : Z) s (v : Z) : option Z :=
  if is_canonical v then (λ a, a + v mod 4096) <$> leaf s root (path4 v) else None.

Lemma translates_iff root s v o : vm_ok root s → translates root s v o ↔ o = translation root s v.
Proof.
  intros Hok. unfold translates. rewrite translate_run by exact Hok.
  fold (translation root s v). generalize (translation root s v). intros o'.
  split; congruence.
Qed.

(** A change of one leaf is a change of the translations of one page. *)
Lemma leaf_change_translation root s s' v o x :
  is_canonical v = true → in_u 64 v → in_u 64 x →
  leaf s' root (path4 v) = o →
  (∀ q, path_ok q → length q = 4%nat → q ≠ path4 v → leaf s' root q = leaf s root q) →
  translation root s' x =
  if decide (x / 4096 = v / 4096) then (λ a, a + x mod 4096) <$> o else translation root s x.
Proof.
  intros Hc Hv Hx Hself Hother. unfold translation. case_decide as Hd.
  - assert (is_canonical x = true) as ->.
    { apply canonical_arith; [done|]. apply canonical_arith in Hc; [|done].
      pose proof (Z.div_mod x 4096 ltac:(lia)). pose proof (Z.mod_pos_bound x 4096 ltac:(lia)).
      pose proof (Z.div_mod v 4096 ltac:(lia)). pose proof (Z.mod_pos_bound v 4096 ltac:(lia)).
      assert ((2 ^ 47) mod 4096 = 0) by done.
      destruct Hc; [left|right].
      - assert (v / 4096 < 2 ^ 35) by (apply Z.div_lt_upper_bound; lia). lia.
      - assert (2 ^ 52 - 2 ^ 35 ≤ v / 4096) by (apply Z.div_le_lower_bound; lia). lia. }
    rewrite (path4_page x), Hd, <- (path4_page v), Hself. done.
  - destruct (is_canonical x) eqn:Hcx; [|done]. f_equal. apply Hother; [apply path4_ok|done|].
    intros Heq. apply Hd. by apply path4_inj.
Qed.

Lemma same_leaves_translation root s s' x : same_leaves root s s' →
  translation root s' x = translation root s x.
Proof.
  intros Hs. unfold translation. destruct (is_canonical x); [|done]. f_equal.
  apply Hs; [apply path4_ok|done].
Qed.

Lemma translation_page root s v : is_canonical v = true → v mod 4096 = 0 →
  translation root s v = leaf s root (path4 v).
Proof.
  intros Hc Hm. unfold translation. rewrite Hc, Hm.
  destruct (leaf s root (path4 v)); simpl; [|done]. by rewrite Z.add_0_r.
Qed.

(** ** Identity mapping *)

(** After the loop has reached [a]: the pages of [start, a) translate to
    themselves, every other leaf is as in [s0]. *)
Record identity_inv (root : Z) s0 (start a : Z) s : Prop := {
  ii_grow : tables_grow root s0 s;
  ii_self x : x mod 4096 = 0 → start ≤ x < a → leaf s root (path4 x) = Some x;
  ii_rest q : path_ok q → length q = 4%nat →
    (∀ x, x mod 4096 = 0 → start ≤ x < a → q ≠ path4 x) → leaf s root q = leaf s0 root q;
}.

Lemma page_args_ok x : x mod 4096 = 0 → 0 ≤ x < 2 ^ 47 → map_args_ok x x ∧ is_canonical x = true.
Proof.
  intros Hm Hx. assert (is_canonical x = true) by (apply canonical_arith; [split; lia|lia]).
  split; [|done]. split; [done|]. split; [done|]. split; [done|]. unfold ADDRESS_MASK. lia.
Qed.

Lemma identity_inv_step root s0 start a s s' :
  identity_inv root s0 start a s → a mod 4096 = 0 → 0 ≤ start ≤ a → a < 2 ^ 47 →
  map_result root s a a (Ok ()) s' → identity_inv root s0 start (a + 4096) s'.
Proof.
  intros [G Hself Hrest] Hm Ha Hlt Hmap. inversion Hmap as [? _ G' Hnew Hother| |]; subst.
  assert (∀ x, x mod 4096 = 0 → start ≤ x < a + 4096 → x ≠ a → start ≤ x < a) as Hlast.
  { intros x Hx Hr Hne. split; [lia|].
    pose proof (Z.div_mod x 4096 ltac:(lia)). pose proof (Z.div_mod a 4096 ltac:(lia)). lia. }
  split.
  - by eapply tables_grow_trans.
  - intros x Hx Hr. destruct (decide (x = a)) as [->|Hne]; [done|].
    rewrite Hother; [apply Hself; auto|apply path4_ok|done|].
    pose proof (Hlast x Hx Hr Hne). intros Heq%path4_inj; [|split; lia|split; lia|..].
    + pose proof (Z.div_mod x 4096 ltac:(lia)). pose proof (Z.div_mod a 4096 ltac:(lia)). lia.
    + apply page_args_ok; [done|lia].
    + apply page_args_ok; [done|lia].
  - intros q Hq Hl Hnot. rewrite Hother; [|done|done|apply Hnot; lia].
    apply Hrest; [done|done|]. intros x Hx Hr. apply Hnot; [done|lia].
Qed.

Lemma identity_inv_translation root s0 start b s x : identity_inv root s0 start b s →
  start mod 4096 = 0 → b mod 4096 = 0 → 0 ≤ start → b ≤ 2 ^ 47 → in_u 64 x →
  translation root s x = if decide (start ≤ x < b) then Some x else translation root s0 x.
Proof.
  intros [_ Hself Hrest] Hms Hmb Hs Hb Hx. unfold translation. case_decide as Hd.
  - assert (is_canonical x = true) as -> by (apply canonical_arith; [done|lia]).
    pose proof (Z.div_mod x 4096 ltac:(lia)). pose proof (Z.mod_pos_bound x 4096 ltac:(lia)).
    pose proof (Z.div_mod start 4096 ltac:(lia)).
    rewrite (path4_page x), Hself; simpl; [f_equal; lia|by apply Z.mod_mul|lia].
  - destruct (is_canonical x) eqn:Hcx; [|done]. f_equal.
    rewrite Hrest; [done|apply path4_ok|done|]. intros y Hy Hr' Heq.
    apply path4_inj in Heq; [|done|split; lia|done|apply page_args_ok; [done|lia]].
    pose proof (Z.div_mod x 4096 ltac:(lia)). pose proof (Z.mod_pos_bound x 4096 ltac:(lia)).
    pose proof (Z.div_mod y 4096 ltac:(lia)). pose proof (Z.div_mod b 4096 ltac:(lia)). lia.
Qed.

Lemma identity_loop_run root s0 start end_ w n a s :
  Z.to_nat ((end_ - a + PAGE_SIZE - 1) / PAGE_SIZE) = n →
  a mod 4096 = 0 → end_ mod 4096 = 0 → 0 ≤ start ≤ a → a ≤ end_ ≤ 2 ^ 47 →
  vm_ok root s → identity_inv root s0 start a s →
  ∃ r s' b, identity_loop n root a end_ w s = Done (r, s') ∧ vm_ok root s' ∧
    identity_inv root s0 start b s' ∧ a ≤ b ≤ end_ ∧ b mod 4096 = 0 ∧
    match r with
    | Ok _ => b = end_
    | Err e => b < end_ ∧
        ((e = "virtual page is already mapped" ∧ leaf s0 root (path4 b) ≠ None)
         ∨ (e = "out of physical memory" ∧ allocate_frame (fa s') = Done (None, fa s')))
    end.
Proof.
  revert a s. induction n as [|n IH]; intros a s Hn Hma Hme Hsa Hae Hok HI.
  { exists (Ok ()), s, a. assert (a = end_).
    2:{ split; [done|]. split; [done|]. split; [done|]. split; [lia|done]. }
    destruct (decide (a < end_)); [|lia].
    assert (1 ≤ (end_ - a + PAGE_SIZE - 1) / PAGE_SIZE)
      by (apply Z.div_le_lower_bound; unfold PAGE_SIZE; lia). lia. }
  rewrite <- Hn, identity_loop_unfold.
  destruct (Z.ltb_spec a end_) as [Hlt|Hge].
  2:{ exists (Ok ()), s, a. assert (a = end_) by lia.
      split; [done|]. split; [done|]. split; [done|]. split; [lia|done]. }
  destruct (page_args_ok a Hma) as [Hargs Hc]; [lia|].
  destruct (map_run root s a a w false Hok Hargs) as (r & s1 & E1 & R1).
  unfold try at 1. rewrite (bind_run _ _ _ _ _ E1).
  assert (leaf s root (path4 a) = leaf s0 root (path4 a)) as Hleaf.
  { apply (ii_rest _ _ _ _ _ HI); [apply path4_ok|done|]. intros x Hx Hr Heq.
    apply path4_inj in Heq; [|split; lia|split; lia|done|apply page_args_ok; [done|lia]].
    pose proof (Z.div_mod x 4096 ltac:(lia)). pose proof (Z.div_mod a 4096 ltac:(lia)). lia. }
  destruct r as [[]|e].
  - pose proof (identity_inv_step root s0 start a s s1 HI Hma Hsa ltac:(lia) R1) as HI1.
    rewrite (bind_run _ _ s1 (a + 4096) s1)
      by (unfold lift; rewrite add_u_Done by (unfold PAGE_SIZE; lia); done).
    assert (a + 4096 ≤ end_).
    { pose proof (Z.div_mod end_ 4096 ltac:(lia)). pose proof (Z.div_mod a 4096 ltac:(lia)). lia. }
    assert (Z.to_nat ((end_ - (a + 4096) + PAGE_SIZE - 1) / PAGE_SIZE) = n) as Hn'.
    { unfold PAGE_SIZE in *.
      replace (end_ - a + 4096 - 1) with ((end_ - (a + 4096) + 4096 - 1) + 1 * 4096) in Hn by lia.
      rewrite Z.div_add in Hn by lia.
      assert (0 ≤ (end_ - (a + 4096) + 4096 - 1) / 4096) by (apply Z.div_pos; lia). lia. }
    rewrite Hn'. destruct (IH (a + 4096) s1) as (r & s' & b & E & Hok' & HI' & Hb & Hmb & Hr);
      [done|by rewrite <- Z.add_mod_idemp_r by lia; rewrite Z.mod_same, Z.add_0_r by lia|done|lia|lia| |done|].
    { inversion R1 as [? _ G' _ _| |]; subst. apply G'. }
    exists r, s', b. split; [done|]. split; [done|]. split; [done|]. split; [lia|]. done.
  - assert (tables_grow root s s1 ∧ same_leaves root s s1) as [G L] by (by inversion R1).
    exists (Err e), s1, a. split; [done|]. split; [apply G|]. split.
    { destruct HI as [G0 Hself Hrest]. split.
      - by eapply tables_grow_trans.
      - intros x Hx Hr. rewrite L; [by apply Hself|apply path4_ok|done].
      - intros q Hq Hl Hnot. rewrite L by done. by apply Hrest. }
    split; [lia|]. split; [done|]. split; [done|].
    inversion R1; subst; [left|right]; split; try done. congruence.
Qed.
End specs.

(** ** A sample machine: a fresh address space on the sample allocator *)

Definition sample_boot : machine FrameAllocator := mkMachine sample_fa ∅.
Definition sample_vm : machine FrameAllocator := exec AddressSpace_new sample_boot.
Definition sample_root : Z := 0x180000.

Lemma sample_new : AddressSpace_new sample_boot = Done (Ok (mkAddressSpace sample_root), sample_vm)
  ∧ vm_ok sample_root sample_vm
  ∧ ∀ q, path_ok q → q ≠ [] → walk (mem sample_vm) sample_root q = None.
Proof.
  destruct (AddressSpace_new_run (HFA:=FrameAllocator_spec) sample_boot sample_fa_ok)
    as [(root & s' & E & Hok & _ & Hn & _)|[_ Ha]].
  - assert (root = sample_root) as ->.
    { pose proof sample_fa_first as Hf. revert E. unfold AddressSpace_new. intros E. run_inv E.
      unfold on_fa, zoom, sample_boot in E0. simpl in E0. unfold eval in Hf.
      destruct (FrameAllocator_allocate_frame sample_fa) as [[r a']|]; [|done].
      injection Hf as ->. injection E0 as <- <-. by injection E as <- _. }
    unfold sample_vm, exec. rewrite E. auto.
  - pose proof sample_fa_first as Hf. unfold eval in Hf. simpl in Ha. by rewrite Ha in Hf.
Qed.

Lemma sample_vm_ok : vm_ok sample_root sample_vm.
Proof. apply sample_new. Qed.

Lemma sample_unmapped v : is_canonical v = true → v mod 4096 = 0 →
  translates sample_root sample_vm v None.
Proof.
  intros Hc Hm. apply translates_iff; [exact sample_vm_ok|].
  rewrite translation_page by done. unfold leaf.
  symmetry. apply (proj2 (proj2 sample_new)); [apply path4_ok|done].
Qed.

(** ** Properties *)

Section properties.
Context {A : Type} `{HFA : FrameAllocSpec A}.
Implicit Types s : machine A.

(** C8: [map(v, pa, ..)] with a canonical, page-aligned [v] and a page-aligned
    [pa] in range, on a well-formed address space, returns without panicking
    and keeps it well formed.  On [Ok] the page of [v] was unmapped, every
    address of it now translates to the same offset in [pa], and every other
    address translates as before.  On an error no translation changes, and
    the error is "already mapped" exactly when the page was mapped, or "out of
    physical memory" when the allocator has no frame left. *)
Theorem map_spec root s v pa w u : vm_ok root s → in_u 64 v → map_args_ok v pa →
  ∃ r s', page_table_map root v pa w u s = Done (r, s') ∧ vm_ok root s' ∧
  match r with
  | Ok _ => translates root s v None ∧
      ∀ x o, in_u 64 x → translates root s x o →
        translates root s' x (if decide (x / 4096 = v / 4096) then Some (pa + x mod 4096) else o)
  | Err e =>
      (∀ x o, translates root s x o → translates root s' x o) ∧
      ((e = "virtual page is already mapped" ∧ ∃ a, translates root s v (Some a))
       ∨ (e = "out of physical memory" ∧ translates root s v None ∧
          allocate_frame (fa s') = Done (None, fa s')))
  end.
Proof.
  intros Hok Hv Hargs. destruct (map_run root s v pa w u Hok Hargs) as (r & s' & Hrun & HR).
  destruct Hargs as (Hc & Hm & _). exists r, s'. split; [done|].
  assert (tables_grow root s s') as G by (by inversion HR). split; [apply G|].
  assert (∀ o, translates root s v o ↔ o = leaf s root (path4 v)) as Hpage.
  { intros o. rewrite translates_iff by done. by rewrite translation_page by done. }
  inversion HR as [? Hn _ Hnew Hother|? a Hs _ L|? Hn _ L Ha]; subst.
  - split; [by apply Hpage|]. intros x o Hx Ho.
    apply translates_iff in Ho as ->; [|done]. apply translates_iff; [apply G|].
    erewrite (leaf_change_translation root s s' v (Some pa) x) by done. by case_decide.
  - split; [|left; split; [done|]; exists a; by apply Hpage].
    intros x o Ho. apply translates_iff in Ho as ->; [|done]. apply translates_iff; [apply G|].
    by rewrite (same_leaves_translation root s s').
  - split; [|right; split; [done|]; split; [by apply Hpage|done]].
    intros x o Ho. apply translates_iff in Ho as ->; [|done]. apply translates_iff; [apply G|].
    by rewrite (same_leaves_translation root s s').
Qed.

(** C15: [unmap(v)] with a canonical, page-aligned [v] on a well-formed address
    space: when the page is mapped to the frame [a], it returns [Ok(a)], no
    address of the page translates any more, every other address translates as
    before, and the allocator is untouched (the frame is not freed); when the
    page is not mapped it returns an error and changes nothing. *)
Theorem unmap_spec root s v : vm_ok root s → in_u 64 v →
  is_canonical v = true → v mod PAGE_SIZE = 0 →
  (∃ a s', translates root s v (Some a) ∧ page_table_unmap root v s = Done (Ok a, s') ∧
     vm_ok root s' ∧ fa s' = fa s ∧
     ∀ x o, in_u 64 x → translates root s x o →
       translates root s' x (if decide (x / 4096 = v / 4096) then None else o))
  ∨ (translates root s v None ∧ ∃ e, page_table_unmap root v s = Done (Err e, s)).
Proof.
  intros Hok Hv Hc Hm. pose proof (unmap_run root s v Hok Hc Hm) as HU.
  assert (∀ o, translates root s v o ↔ o = leaf s root (path4 v)) as Hpage.
  { intros o. rewrite translates_iff by done. by rewrite translation_page by done. }
  destruct (leaf s root (path4 v)) as [a|] eqn:Hl; [left|right; split; [by apply Hpage|done]].
  destruct HU as (s' & Hrun & Hfa & G & Hnone & Hother & _).
  exists a, s'. split; [by apply Hpage|]. split; [done|]. split; [apply G|]. split; [done|].
  intros x o Hx Ho. apply translates_iff in Ho as ->; [|done]. apply translates_iff; [apply G|].
  erewrite (leaf_change_translation root s s' v None x) by done. by case_decide.
Qed.

(** C16: [map] followed by [unmap] of the same page returns the frame that was
    mapped and restores every translation of the address space. *)
Theorem map_unmap_roundtrip root s v pa w u s1 : vm_ok root s → in_u 64 v → map_args_ok v pa →
  page_table_map root v pa w u s = Done (Ok (), s1) →
  ∃ s2, page_table_unmap root v s1 = Done (Ok pa, s2) ∧ vm_ok root s2 ∧
    ∀ x o, in_u 64 x → translates root s x o ↔ translates root s2 x o.
Proof.
  intros Hok Hv Hargs Hmap. destruct (map_run root s v pa w u Hok Hargs) as (r & s' & Hrun & HR).
  rewrite Hrun in Hmap. injection Hmap as -> ->. destruct Hargs as (Hc & Hm & _).
  inversion HR as [? Hn G Hnew Hother| |]; subst.
  pose proof (unmap_run root s1 v (tg_ok _ _ _ G) Hc Hm) as HU. rewrite Hnew in HU.
  destruct HU as (s2 & Hun & _ & G2 & Hnone & Hother2 & _).
  exists s2. split; [done|]. split; [apply G2|]. intros x o Hx.
  rewrite !translates_iff by (done || apply G2).
  rewrite (leaf_change_translation root s1 s2 v None x) by done.
  rewrite (leaf_change_translation root s s1 v (Some pa) x) by done.
  case_decide as Hd; [|done].
  rewrite (leaf_change_translation root s s v None x), decide_True by done. done.
Qed.

(** C17: [identity_map(start, end, ..)] of a page-aligned, non-empty range of
    the lower half, on a well-formed address space, returns without panicking
    and keeps it well formed.  On [Ok] every address of the range translates
    to itself and every other address as before.  On an error a prefix of the
    range up to some page [b] has been mapped: [b] was already mapped or memory
    is exhausted, and there is no other error. *)
Theorem identity_map_spec self s start end_ w :
  vm_ok (pml4_phys self) s → 0 ≤ start < end_ → end_ ≤ 2 ^ 47 →
  start mod PAGE_SIZE = 0 → end_ mod PAGE_SIZE = 0 →
  ∃ r s' b, AddressSpace_identity_map self start end_ w s = Done (r, s') ∧
    vm_ok (pml4_phys self) s' ∧ start ≤ b ≤ end_ ∧ b mod PAGE_SIZE = 0 ∧
    (∀ x o, in_u 64 x → translates (pml4_phys self) s x o →
       translates (pml4_phys self) s' x (if decide (start ≤ x < b) then Some x else o)) ∧
    match r with
    | Ok _ => b = end_
    | Err e =>
        (e = "virtual page is already mapped" ∧ ¬ translates (pml4_phys self) s b None)
        ∨ (e = "out of physical memory" ∧ allocate_frame (fa s') = Done (None, fa s'))
    end.
Proof.
  intros Hok Hse He Hms Hme. set (root := pml4_phys self) in *.
  unfold AddressSpace_identity_map. rewrite Hms, Hme, !Z.eqb_refl.
  rewrite (proj2 (Z.leb_gt _ _)) by lia. cbv beta iota zeta delta [negb].
  rewrite phys_to_virt_id. fold root.
  destruct (identity_loop_run root s start end_ w _ start s eq_refl Hms Hme)
    as (r & s' & b & Hrun & Hok' & HI & Hb & Hmb & Hr); [lia|lia|done| |].
  { split; [by apply tables_grow_refl|intros; lia|done]. }
  exists r, s', b. split; [exact Hrun|]. split; [done|]. split; [done|]. split; [done|]. split.
  - intros x o Hx Ho. apply translates_iff in Ho as ->; [|done]. apply translates_iff; [done|].
    symmetry. apply (identity_inv_translation root s start); (done || lia).
  - destruct r as [|e]; [done|]. destruct Hr as [Hlt [[-> Hl]|[-> Ha]]]; [left|by right].
    split; [done|]. destruct (page_args_ok b Hmb) as [_ Hc]; [lia|].
    rewrite translates_iff, translation_page by done. congruence.
Qed.
End properties.

Lemma sample_args : map_args_ok 0x400000 0x100000.
Proof. repeat split; vm_compute; congruence. Qed.

Lemma map_spec_witness : ∃ r s',
  page_table_map sample_root 0x400000 0x100000 true false sample_vm = Done (r, s')
  ∧ vm_ok sample_root s'.
Proof.
  destruct (map_spec sample_root sample_vm 0x400000 0x100000 true false sample_vm_ok)
    as (r & s' & Hrun & Hok & _); [split; lia|exact sample_args|].
  exists r, s'. split; [exact Hrun|exact Hok].
Defined.

Lemma unmap_spec_witness : ∃ e,
  page_table_unmap sample_root 0x400000 sample_vm = Done (Err e, sample_vm).
Proof.
  destruct (unmap_spec sample_root sample_vm 0x400000 sample_vm_ok)
    as [(a & s' & Ht & _)|[_ He]]; [split; lia|reflexivity|reflexivity| |exact He].
  pose proof (sample_unmapped 0x400000 eq_refl eq_refl) as Hn. unfold translates in *. congruence.
Defined.

Lemma sample_map_run : eval (page_table_map sample_root 0x400000 0x100000 true false) sample_vm
  = Some (Ok ()).
Proof. vm_compute. reflexivity. Qed.

Lemma map_unmap_roundtrip_witness : ∃ s1 s2,
  page_table_map sample_root 0x400000 0x100000 true false sample_vm = Done (Ok (), s1) ∧
  page_table_unmap sample_root 0x400000 s1 = Done (Ok 0x100000, s2).
Proof.
  pose proof sample_map_run as Hr. unfold eval in Hr.
  destruct (page_table_map sample_root 0x400000 0x100000 true false sample_vm) as [[r s1]|] eqn:Hm;
    [|discriminate Hr]. injection Hr as ->.
  destruct (map_unmap_roundtrip sample_root sample_vm 0x400000 0x100000 true false s1 sample_vm_ok)
    as (s2 & Hun & _); [split; lia|exact sample_args|exact Hm|].
  exists s1, s2. split; [reflexivity|exact Hun].
Defined.

Lemma identity_map_spec_witness : ∃ r s',
  AddressSpace_identity_map (mkAddressSpace sample_root) 0x100000 0x102000 true sample_vm
  = Done (r, s') ∧ vm_ok sample_root s'.
Proof.
  destruct (identity_map_spec (mkAddressSpace sample_root) sample_vm 0x100000 0x102000 true
    sample_vm_ok) as (r & s' & b & Hrun & Hok & _); [lia|lia|reflexivity|reflexivity|].
  exists r, s'. split; [exact Hrun|exact Hok].
Defined.
