(* ===== verification/Heap.v ===== *)
(** * The kernel heap (kernel/src/memory/heap.rs)

    The heap is a page-backed region of virtual memory: [initialize] takes a
    frame for each page and maps it, and on any failure [rollback] unmaps the
    pages and frees their frames.  The proofs follow a [region] of the address
    space, the pages mapped since a state [s0] together with the frames taken
    and not yet mapped, through the four steps the code makes: take a frame,
    map it, unmap it, free it. *)

From S2P Require Import Prelude BootInfo FrameInterface FrameAllocator PageTable AddressSpace.
Local Open Scope Z_scope.

Definition HEAP_START : Z := 0x40000000.
Definition HEAP_SIZE : Z := 16 * 1024 * 1024.
Definition HEAP_END : Z := HEAP_START + HEAP_SIZE.

Record KernelHeap := mkKernelHeap {
  heap_start : Z;
  heap_size : Z;
  mapped_pages : Z;
  initialized : bool;
}.

Definition KernelHeap_new : KernelHeap := mkKernelHeap HEAP_START HEAP_SIZE 0 false.

Definition KernelHeap_start (self : KernelHeap) : Z := heap_start self.
Definition KernelHeap_end (self : KernelHeap) : outcome Z :=
  add_u 64 (heap_start self) (heap_size self).
Definition KernelHeap_size (self : KernelHeap) : Z := heap_size self.
Definition KernelHeap_mapped_pages (self : KernelHeap) : Z := mapped_pages self.
Definition KernelHeap_is_initialized (self : KernelHeap) : bool := initialized self.
Definition KernelHeap_page_capacity (self : KernelHeap) : Z := heap_size self / FRAME_SIZE.

Section ops.
Context {A : Type} `{FrameAlloc A} {W : Window}.

(** [&mut self] with the machine the page tables and the allocator live in. *)
Record heap_state := mkHeapState { heap : KernelHeap; vm : machine A }.

Definition on_vm {B} (m : M (machine A) B) : M heap_state B :=
  zoom vm (λ v s, mkHeapState (heap s) v) m.
Definition set_mapped (pages : Z) (init : bool) : M heap_state unit := λ s,
  Done ((), mkHeapState
    (mkKernelHeap (heap_start (heap s)) (heap_size (heap s)) pages init) (vm s)).

Fixpoint rollback_loop (pages : nat) (pml4 virtual_address : Z) : M heap_state unit :=
  match pages with
  | O => mret ()
  | S k =>
      r ← on_vm (page_table_unmap pml4 virtual_address);
      match r with
      | Ok physical_address => on_vm (on_fa (free_frame physical_address))
      | Err _ => mret ()
      end ;;
      virtual_address' ← lift (add_u 64 virtual_address PAGE_SIZE);
      rollback_loop k pml4 virtual_address'
  end.

Definition KernelHeap_rollback (pml4 pages : Z) : M heap_state unit :=
  self ← get;
  rollback_loop (Z.to_nat pages) pml4 (heap_start (heap self)) ;;
  set_mapped 0 false.

(** The loop of [initialize]: [Ok n] when it ends with [mapped_pages = n]. *)
Fixpoint initialize_loop (pages : nat) (pml4 virtual_address mapped : Z) :
    M heap_state (result Z) :=
  match pages with
  | O => mret (Ok mapped)
  | S k =>
      frame ← on_vm (on_fa allocate_frame);
      match frame with
      | None =>
          KernelHeap_rollback pml4 mapped ;;
          mret (Err "out of physical memory for kernel heap")
      | Some physical_address =>
          r ← on_vm (page_table_map pml4 virtual_address physical_address true false);
          match r with
          | Ok _ =>
              mapped' ← lift (add_u 64 mapped 1);
              virtual_address' ← lift (add_u 64 virtual_address PAGE_SIZE);
              initialize_loop k pml4 virtual_address' mapped'
          | Err error =>
              on_vm (on_fa (free_frame physical_address)) ;;
              KernelHeap_rollback pml4 mapped ;;
              mret (Err error)
          end
      end
  end.

Definition KernelHeap_initialize (pml4 pages : Z) : M heap_state (result unit) :=
  self ← get;
  if initialized (heap self) then mret (Err "kernel heap already initialized")
  else if pages =? 0 then mret (Err "kernel heap page count is zero")
  else match checked_mul 64 pages PAGE_SIZE with
  | None => mret (Err "kernel heap size overflow")
  | Some required_size =>
      if heap_size (heap self) <? required_size then
        mret (Err "kernel heap exceeds configured size")
      else
        r ← initialize_loop (Z.to_nat pages) pml4 (heap_start (heap self)) 0;
        match r with
        | Ok mapped => set_mapped mapped true ;; mret (Ok ())
        | Err e => mret (Err e)
        end
  end.
End ops.
Arguments heap_state A : clear implicits.

(** ** Regions *)

Section region.
Context {A : Type} `{HFA : FrameAllocSpec A}.
Context (root : Z) (s0 : machine A).
Implicit Types s : machine A.

(** A frame that is a table of the address space at [root]. *)
Definition is_node s (f : Z) : Prop :=
  ∃ q, path_ok q ∧ (length q ≤ 3)%nat ∧ walk (mem s) root q = Some f.

(** [region held ps s]: since [s0] the pages [ps] (an address and its frame)
    were mapped and the frames [held] were taken; apart from them and from new
    tables nothing changed. *)
Record region (held : list Z) (ps : list (Z * Z)) s : Prop := {
  rg_ok : vm_ok root s;
  rg_nodup : NoDup (held ++ ps.*2);
  rg_paths : NoDup (path4 <$> ps.*1);
  rg_frame f : f ∈ held ++ ps.*2 →
    aligned f ∧ f < 2 ^ 32 ∧ inuse s0 f = false ∧ inuse s f = true ∧
    fa_owned (fa s) f = true ∧ ¬ is_node s f;
  rg_leaf v f : (v, f) ∈ ps → leaf s root (path4 v) = Some f ∧ leaf s0 root (path4 v) = None;
  rg_rest q : path_ok q → length q = 4%nat → q ∉ path4 <$> ps.*1 → leaf s root q = leaf s0 root q;
  rg_keep q t : path_ok q → (length q ≤ 3)%nat → walk (mem s0) root q = Some t →
    walk (mem s) root q = Some t;
  rg_used f : inuse s0 f = true → inuse s f = true;
  rg_used_inv f : inuse s f = true → inuse s0 f = true ∨ is_node s f ∨ f ∈ held ++ ps.*2;
  rg_owned f : inuse s0 f = true → fa_owned (fa s) f = fa_owned (fa s0) f;
}.

Lemma region_start : vm_ok root s0 → region [] [] s0.
Proof.
  intros Hok. split; simpl; try done; auto using NoDup_nil_2.
  - by intros ? ?%not_elem_of_nil.
  - by intros ? ? ?%not_elem_of_nil.
Qed.

Lemma is_node_used s f : vm_ok root s → is_node s f → inuse s f = true.
Proof. intros [_ HW] (q & Hq & Hl & Hw). by eapply wf_node. Qed.

(** Taking a frame. *)
Lemma region_alloc ps s f a' : region [] ps s →
  fa_ok a' → 0 ≤ f < 2 ^ 32 → f mod 4096 = 0 → inuse s f = false → fa_owned a' f = true →
  (∀ g, fa_used a' g = if decide (g = f) then true else inuse s g) →
  (∀ g, g ≠ f → fa_owned a' g = fa_owned (fa s) g) →
  region [f] ps (mkMachine a' (mem s)).
Proof.
  intros R Hok Hf Hm Hfree Hown Hused Howned.
  assert (∀ g, inuse s g = true → fa_used a' g = true) as Hmono.
  { intros g Hg. rewrite Hused. by case_decide. }
  assert (f ∉ ps.*2) as Hnew.
  { intros Hin. destruct (rg_frame _ _ _ R f) as (_ & _ & _ & Hu & _); [done|]. congruence. }
  split; simpl.
  - destruct (rg_ok _ _ _ R) as [_ HW]. split; [done|]. eapply pt_wf_mono; [exact HW|exact Hmono].
  - constructor; [done|apply R].
  - apply R.
  - intros g [->|Hg]%elem_of_cons.
    + split; [split; [done|lia]|]. split; [lia|]. split.
      { destruct (inuse s0 f) eqn:E; [|done]. by rewrite (rg_used _ _ _ R f E) in Hfree. }
      split; [unfold inuse; simpl; rewrite Hused; by rewrite decide_True|]. split; [done|].
      intros Hn. rewrite (is_node_used s f) in Hfree; [done|apply R|exact Hn].
    + destruct (rg_frame _ _ _ R g Hg) as (Ha & Hb & Hc & Hd & He & Hn).
      split; [done|]. split; [done|]. split; [done|].
      split; [by apply Hmono|]. split; [|done].
      rewrite Howned; [done|]. by intros ->.
  - apply (rg_leaf _ _ _ R).
  - apply (rg_rest _ _ _ R).
  - apply (rg_keep _ _ _ R).
  - intros g Hg. by apply Hmono, (rg_used _ _ _ R).
  - intros g. unfold inuse. simpl. rewrite Hused. case_decide as Hd; [subst; intros; right; right; left|].
    intros Hg. destruct (rg_used_inv _ _ _ R g Hg) as [?|[?|?]]; [by left|by right; left|].
    right; right; by right.
  - intros g Hg. rewrite Howned; [by apply (rg_owned _ _ _ R)|]. intros ->.
    by rewrite (rg_used _ _ _ R f Hg) in Hfree.
Qed.

(** Gaining tables, with no leaf changed except those of [ps']. *)
Lemma region_grow held ps ps' s s' : region held ps s → tables_grow root s s' →
  NoDup (path4 <$> ps'.*1) →
  (∀ v f, (v, f) ∈ ps' → leaf s' root (path4 v) = Some f ∧ leaf s0 root (path4 v) = None) →
  (∀ q, path_ok q → length q = 4%nat → q ∉ path4 <$> ps'.*1 → leaf s' root q = leaf s0 root q) →
  ∀ held', held' ++ ps'.*2 ≡ₚ held ++ ps.*2 → region held' ps' s'.
Proof.
  intros R G Hpaths Hleaf Hrest held' Hperm.
  split.
  - apply G.
  - rewrite Hperm. apply R.
  - done.
  - intros f Hf. rewrite Hperm in Hf. destruct (rg_frame _ _ _ R f Hf) as (Ha & Hb & Hc & Hd & He & Hn).
    split; [done|]. split; [done|]. split; [done|]. split; [by apply (tg_used _ _ _ G)|].
    split; [by rewrite (tg_owned _ _ _ G)|].
    intros (q & Hq & Hl & Hw). destruct (tg_new _ _ _ G q f Hq Hl Hw) as [Hw'|Hfree].
    + apply Hn. by exists q.
    + congruence.
  - done.
  - done.
  - intros q t Hq Hl Hw. apply (tg_keep _ _ _ G); [done|done|]. by apply (rg_keep _ _ _ R).
  - intros f Hf. by apply (tg_used _ _ _ G), (rg_used _ _ _ R).
  - intros f Hf. rewrite Hperm. destruct (tg_used_inv _ _ _ G f Hf) as [Hs|Hn].
    + destruct (rg_used_inv _ _ _ R f Hs) as [?|[(q & Hq & Hl & Hw)|?]]; [by left| |by right; right].
      right; left. exists q. split; [done|]. split; [done|]. by apply (tg_keep _ _ _ G).
    + right; by left.
  - intros f Hf. rewrite (tg_owned _ _ _ G) by (by apply (rg_used _ _ _ R)).
    by apply (rg_owned _ _ _ R).
Qed.

Lemma perm_snoc (f : Z) (l : list Z) : l ++ [f] ≡ₚ f :: l.
Proof. by rewrite Permutation_app_comm. Qed.

(** Mapping the held frame at [v]. *)
Lemma region_map ps s s' v f : region [f] ps s → map_result root s v f (Ok ()) s' →
  region [] (ps ++ [(v, f)]) s'.
Proof.
  intros R HR. inversion HR as [? Hn G Hnew Hother| |]; subst.
  assert (path4 v ∉ path4 <$> ps.*1) as Hv.
  { intros Hin'. apply list_elem_of_fmap in Hin' as (w & Hw & Hin').
    apply list_elem_of_fmap in Hin' as ([w' g] & -> & Hin). simpl in *.
    destruct (rg_leaf _ _ _ R w' g Hin). congruence. }
  assert (path4 <$> (ps ++ [(v, f)]).*1 = (path4 <$> ps.*1) ++ [path4 v]) as Epaths
    by (by rewrite !fmap_app).
  apply (region_grow [f] ps (ps ++ [(v, f)]) s s' R G).
  - rewrite Epaths. apply NoDup_app. split; [apply R|]. split; [|apply NoDup_singleton].
    intros q Hq ->%list_elem_of_singleton. done.
  - intros w g [Hin|Hin%list_elem_of_singleton]%elem_of_app.
    2:{ simplify_eq. split; [done|]. rewrite <- (rg_rest _ _ _ R); [done|apply path4_ok|done|done]. }
    rewrite Hother; [by apply (rg_leaf _ _ _ R)|apply path4_ok|done|].
    intros Heq. apply Hv. rewrite <- Heq. apply list_elem_of_fmap. exists w. split; [done|].
    apply list_elem_of_fmap. by exists (w, g).
  - intros q Hq Hl Hnot. rewrite Epaths, not_elem_of_app, list_elem_of_singleton in Hnot.
    destruct Hnot as [Hnot Hne]. rewrite Hother by done. by apply (rg_rest _ _ _ R).
  - rewrite fmap_app. simpl. apply perm_snoc.
Qed.

(** A failed [map]. *)
Lemma region_map_err held ps s s' v f e : region held ps s →
  map_result root s v f (Err e) s' → region held ps s'.
Proof.
  intros R HR.
  assert (tables_grow root s s' ∧ same_leaves root s s') as [G L] by (by inversion HR).
  apply (region_grow held ps ps s s' R G); [apply R| | |done].
  - intros w g Hin. rewrite L; [by apply (rg_leaf _ _ _ R)|apply path4_ok|done].
  - intros q Hq Hl Hnot. rewrite L by done. by apply (rg_rest _ _ _ R).
Qed.

(** Unmapping the first page. *)
Lemma region_unmap ps s v f : region [] ((v, f) :: ps) s →
  is_canonical v = true → v mod PAGE_SIZE = 0 →
  ∃ s', page_table_unmap root v s = Done (Ok f, s') ∧ region [f] ps s'.
Proof.
  intros R Hc Hm. pose proof (unmap_run root s v (rg_ok _ _ _ R) Hc Hm) as HU.
  destruct (rg_leaf _ _ _ R v f ltac:(left)) as [Hl Hl0]. rewrite Hl in HU.
  destruct HU as (s' & Hrun & _ & G & Hnone & Hother & _). exists s'. split; [done|].
  pose proof (rg_paths _ _ _ R) as Hnd. change (NoDup (path4 v :: (path4 <$> ps.*1))) in Hnd.
  apply NoDup_cons in Hnd as [Hv Hnd].
  apply (region_grow [] ((v, f) :: ps) ps s s' R G); [done| | |done].
  - intros w g Hin. rewrite Hother; [apply (rg_leaf _ _ _ R); by right|apply path4_ok|done|].
    intros Heq. apply Hv. rewrite <- Heq. apply list_elem_of_fmap. exists w. split; [done|].
    apply list_elem_of_fmap. by exists (w, g).
  - intros q Hq Hlq Hnot. destruct (decide (q = path4 v)) as [->|Hne].
    + by rewrite Hnone.
    + rewrite Hother by done. apply (rg_rest _ _ _ R); [done|done|].
      change (q ∉ path4 v :: (path4 <$> ps.*1)). by apply not_elem_of_cons.
Qed.

(** Freeing the held frame. *)
Lemma region_free ps s f : region [f] ps s →
  ∃ s', on_fa (free_frame f) s = Done ((), s') ∧ region [] ps s'.
Proof.
  intros R. destruct (rg_frame _ _ _ R f ltac:(left)) as (_ & _ & Hs0 & Hu & Hown & Hnn).
  pose proof (rg_ok _ _ _ R) as [Hok HW].
  destruct (fa_free (fa s) f Hok Hown) as (a' & Hrun & Hok' & Hused & Howned).
  exists (mkMachine a' (mem s)). split; [unfold on_fa, zoom; by rewrite Hrun|].
  pose proof (rg_nodup _ _ _ R) as Hnd. simpl in Hnd. apply NoDup_cons in Hnd as [Hf Hnd].
  assert (∀ g, g ≠ f → fa_used a' g = inuse s g) as Hother.
  { intros g Hg. by rewrite Hused, decide_False. }
  split; simpl.
  - split; [done|]. destruct HW as [Hnode Hinj Hsmall]. split; [|done|done].
    intros p t Hp Hl Hw. destruct (Hnode p t Hp Hl Hw) as [Ha HU]. split; [done|].
    unfold inuse. simpl. rewrite Hother; [done|]. intros ->. apply Hnn. by exists p.
  - done.
  - apply R.
  - intros g Hg. destruct (rg_frame _ _ _ R g ltac:(by right)) as (Ha & Hb & Hc & Hd & He & Hn).
    assert (g ≠ f) by (by intros ->).
    split; [done|]. split; [done|]. split; [done|].
    split; [unfold inuse; simpl; by rewrite Hother|]. split; [|done].
    by rewrite Howned, decide_False.
  - apply (rg_leaf _ _ _ R).
  - apply (rg_rest _ _ _ R).
  - apply (rg_keep _ _ _ R).
  - intros g Hg. unfold inuse. simpl. rewrite Hother by congruence. by apply (rg_used _ _ _ R).
  - intros g. unfold inuse. simpl. rewrite Hused. case_decide as Hd; [done|]. intros Hg.
    destruct (rg_used_inv _ _ _ R g Hg) as [?|[?|[?|?]%elem_of_cons]]; [by left|by right; left|done|].
    by right; right.
  - intros g Hg. rewrite Howned, decide_False by congruence. by apply (rg_owned _ _ _ R).
Qed.

(** ** The pages of a region from [va] upwards *)
Fixpoint region_pages (va : Z) (fs : list Z) : list (Z * Z) :=
  match fs with
  | [] => []
  | f :: rest => (va, f) :: region_pages (va + PAGE_SIZE) rest
  end.

Lemma region_pages_snoc va fs f :
  region_pages va (fs ++ [f]) = region_pages va fs ++ [(va + PAGE_SIZE * Z.of_nat (length fs), f)].
Proof.
  revert va. induction fs as [|g fs IH]; intros va; cbn [app region_pages length].
  - by rewrite Z.mul_0_r, Z.add_0_r.
  - rewrite IH. simpl. do 3 f_equal. f_equal. lia.
Qed.

Lemma region_pages_frames va fs : (region_pages va fs).*2 = fs.
Proof. revert va. induction fs as [|f fs IH]; intros va; [done|]. cbn. by rewrite IH. Qed.

Lemma region_pages_lookup va fs k f :
  fs !! k = Some f → (va + PAGE_SIZE * Z.of_nat k, f) ∈ region_pages va fs.
Proof.
  revert va k. induction fs as [|g fs IH]; intros va k Hk; [done|].
  destruct k as [|k]; simplify_eq/=.
  - replace (va + PAGE_SIZE * Z.of_nat 0) with va by lia. left.
  - right. replace (va + PAGE_SIZE * Z.of_nat (S k)) with (va + PAGE_SIZE + PAGE_SIZE * Z.of_nat k) by lia.
    by apply IH.
Qed.

Lemma region_pages_paths va fs v : v ∈ (region_pages va fs).*1 →
  ∃ k, (k < length fs)%nat ∧ v = va + PAGE_SIZE * Z.of_nat k.
Proof.
  revert va. induction fs as [|g fs IH]; intros va; cbn [region_pages fmap list_fmap].
  - by intros ?%not_elem_of_nil.
  - intros [->|Hin]%elem_of_cons.
    + exists O. simpl. lia.
    + destruct (IH _ Hin) as (k & Hk & ->). exists (S k). simpl length. lia.
Qed.

(** ** The loops *)

(** The page at [va] of a region that ends at or below [2^47]. *)
Definition page_ok (va : Z) : Prop := va mod PAGE_SIZE = 0 ∧ 0 ≤ va < 2 ^ 47.

Lemma page_next va : va mod PAGE_SIZE = 0 → (va + PAGE_SIZE) mod PAGE_SIZE = 0.
Proof. intros. unfold PAGE_SIZE in *. by rewrite <- Z.add_mod_idemp_r, Z.mod_same, Z.add_0_r by lia. Qed.

Lemma on_vm_run {B} (m : M (machine A) B) h s b s' :
  m s = Done (b, s') → on_vm m (mkHeapState h s) = Done (b, mkHeapState h s').
Proof. intros E. unfold on_vm, zoom. simpl. by rewrite E. Qed.

Lemma lift_add_run {S} a b (s : S) : a + b < 2 ^ 64 → lift (add_u 64 a b) s = Done (a + b, s).
Proof. intros. unfold lift. by rewrite add_u_Done. Qed.

Lemma rollback_loop_run fs va h s : region [] (region_pages va fs) s →
  va mod PAGE_SIZE = 0 → 0 ≤ va → va + PAGE_SIZE * Z.of_nat (length fs) ≤ 2 ^ 47 →
  ∃ s', rollback_loop (length fs) root va (mkHeapState h s) = Done ((), mkHeapState h s') ∧
    region [] [] s'.
Proof.
  revert va s. induction fs as [|f fs IH]; intros va s R Hm Hva Hend.
  { exists s. done. }
  cbn [length region_pages rollback_loop] in *. rewrite Nat2Z.inj_succ in Hend.
  assert (PAGE_SIZE = 4096) as Hps by done.
  destruct (page_args_ok va Hm) as [_ Hc]; [lia|].
  destruct (region_unmap _ _ _ _ R Hc Hm) as (s1 & E1 & R1).
  destruct (region_free _ _ _ R1) as (s2 & E2 & R2).
  destruct (IH (va + PAGE_SIZE) s2 R2) as (s' & E' & R');
    [by apply page_next|lia|lia|].
  exists s'. split; [|done].
  rewrite (bind_run _ _ _ _ _ (on_vm_run _ h _ _ _ E1)).
  rewrite (bind_run _ _ _ _ _ (on_vm_run _ h _ _ _ E2)).
  by rewrite (bind_run _ _ _ _ _ (lift_add_run va PAGE_SIZE _ ltac:(lia))).
Qed.

Lemma rollback_run fs h s n : region [] (region_pages (heap_start h) fs) s →
  n = Z.of_nat (length fs) → heap_start h mod PAGE_SIZE = 0 → 0 ≤ heap_start h →
  heap_start h + PAGE_SIZE * n ≤ 2 ^ 47 →
  ∃ s', KernelHeap_rollback root n (mkHeapState h s)
        = Done ((), mkHeapState (mkKernelHeap (heap_start h) (heap_size h) 0 false) s') ∧
    region [] [] s'.
Proof.
  intros R -> Hm Hs He. unfold KernelHeap_rollback. rewrite Nat2Z.id.
  destruct (rollback_loop_run fs (heap_start h) h s R Hm Hs He) as (s' & E & R').
  exists s'. split; [|done].
  rewrite (bind_run _ _ _ _ _ (eq_refl : get _ = Done _)).
  by rewrite (bind_run _ _ _ _ _ E).
Qed.

(** The page after a region is mapped as it was at the start. *)
Lemma region_next_leaf fs base s : region [] (region_pages base fs) s →
  base mod PAGE_SIZE = 0 → 0 ≤ base → base + PAGE_SIZE * Z.of_nat (length fs) < 2 ^ 47 →
  leaf s root (path4 (base + PAGE_SIZE * Z.of_nat (length fs)))
  = leaf s0 root (path4 (base + PAGE_SIZE * Z.of_nat (length fs))).
Proof.
  intros R Hm Hs He. assert (PAGE_SIZE = 4096) as Hps by done. rewrite Hps in *.
  apply (rg_rest _ _ _ R); [apply path4_ok|done|].
  intros Hin. apply list_elem_of_fmap in Hin as (w & Heq & Hw).
  apply region_pages_paths in Hw as (k & Hk & ->). rewrite Hps in Heq.
  apply path4_inj in Heq; [|split; lia|split; lia| |];
    try (apply page_args_ok; [rewrite Z.mul_comm, Z.mod_add by lia; done|lia]).
  rewrite !(Z.mul_comm 4096), !Z.div_add in Heq by lia. lia.
Qed.

(** The outcomes of the initialisation loop. *)
Definition init_error (base : Z) (total : nat) (e : string) : Prop :=
  e = "out of physical memory for kernel heap" ∨ e = "out of physical memory" ∨
  (e = "virtual page is already mapped" ∧
   ∃ k, (k < total)%nat ∧ leaf s0 root (path4 (base + PAGE_SIZE * Z.of_nat k)) ≠ None).

Lemma initialize_loop_run n h fs s : region [] (region_pages (heap_start h) fs) s →
  heap_start h mod PAGE_SIZE = 0 → 0 ≤ heap_start h →
  heap_start h + PAGE_SIZE * Z.of_nat (length fs + n) ≤ 2 ^ 47 →
  ∃ r s', match r with
    | Ok m => initialize_loop n root (heap_start h + PAGE_SIZE * Z.of_nat (length fs))
                (Z.of_nat (length fs)) (mkHeapState h s) = Done (Ok m, mkHeapState h s') ∧
        ∃ fs', m = Z.of_nat (length fs') ∧ length fs' = (length fs + n)%nat ∧
          region [] (region_pages (heap_start h) fs') s'
    | Err e => initialize_loop n root (heap_start h + PAGE_SIZE * Z.of_nat (length fs))
                (Z.of_nat (length fs)) (mkHeapState h s)
              = Done (Err e, mkHeapState (mkKernelHeap (heap_start h) (heap_size h) 0 false) s') ∧
        region [] [] s' ∧ init_error (heap_start h) (length fs + n) e
    end.
Proof.
  assert (PAGE_SIZE = 4096) as Hps by done.
  revert fs s. induction n as [|n IH]; intros fs s R Hm Hs He.
  { exists (Ok (Z.of_nat (length fs))), s. split; [done|]. exists fs. by rewrite Nat.add_0_r. }
  set (v := heap_start h + PAGE_SIZE * Z.of_nat (length fs)).
  assert (v mod PAGE_SIZE = 0) as Hv.
  { unfold v. rewrite Z.mul_comm, Z.mod_add by lia. done. }
  assert (0 ≤ v < 2 ^ 47) as Hvr by lia.
  destruct (page_args_ok v Hv Hvr) as [(Hc & _ & _ & _) _].
  cbn [initialize_loop].
  destruct (fa_alloc (fa s) (proj1 (rg_ok _ _ _ R)))
    as [(f & a' & Ha & Hok' & Hf & Hfa & Hfree & Hown & Hused & Howned)|[Ha _]].
  2:{ destruct (rollback_run fs h s _ R eq_refl Hm Hs) as (s' & E & R'); [lia|].
      exists (Err "out of physical memory for kernel heap"), s'. split.
      - erewrite bind_run; [|apply on_vm_run; unfold on_fa, zoom; by rewrite Ha].
        simpl. destruct s. by rewrite (bind_run _ _ _ _ _ E).
      - split; [done|by left]. }
  pose proof (region_alloc _ _ _ _ R Hok' Hf Hfa Hfree Hown Hused Howned) as R1.
  set (s1 := mkMachine a' (mem s)) in *.
  assert (on_fa allocate_frame s = Done (Some f, s1)) as Ea.
  { unfold on_fa, zoom. by rewrite Ha. }
  rewrite (bind_run _ _ _ _ _ (on_vm_run _ h _ _ _ Ea)).
  assert (map_args_ok v f) as Hargs.
  { split; [done|]. split; [done|]. split; [done|]. unfold ADDRESS_MASK. lia. }
  destruct (map_run root s1 v f true false (rg_ok _ _ _ R1) Hargs) as (r & s2 & Em & HR).
  rewrite (bind_run _ _ _ _ _ (on_vm_run _ h _ _ _ Em)).
  destruct r as [[]|e].
  - pose proof (region_map _ _ _ _ _ R1 HR) as R2. unfold v in R2.
    rewrite <- region_pages_snoc in R2.
    rewrite (bind_run _ _ _ _ _ (lift_add_run (Z.of_nat (length fs)) 1 _ ltac:(lia))).
    rewrite (bind_run _ _ _ _ _ (lift_add_run v PAGE_SIZE _ ltac:(lia))).
    destruct (IH (fs ++ [f]) s2 R2 Hm Hs) as (r & s' & HH);
      [rewrite length_app; simpl; lia|].
    exists r, s'. rewrite length_app in HH. simpl length in HH.
    replace (length fs + 1 + n)%nat with (length fs + S n)%nat in HH by lia.
    replace (Z.of_nat (length fs + 1)) with (Z.of_nat (length fs) + 1) in HH by lia.
    replace (heap_start h + PAGE_SIZE * (Z.of_nat (length fs) + 1)) with (v + PAGE_SIZE) in HH by lia.
    exact HH.
  - pose proof (region_map_err _ _ _ _ _ _ _ R1 HR) as R2.
    destruct (region_free _ _ _ R2) as (s3 & E3 & R3).
    rewrite (bind_run _ _ _ _ _ (on_vm_run _ h _ _ _ E3)).
    destruct (rollback_run fs h s3 _ R3 eq_refl Hm Hs) as (s' & E & R'); [lia|].
    exists (Err e), s'. rewrite (bind_run _ _ _ _ _ E). split; [done|]. split; [done|].
    inversion HR as [|? a Hl _ _|? Hl _ _ _]; subst; [|by right; left].
    right; right. split; [done|]. exists (length fs). split; [lia|].
    change (leaf s root (path4 (heap_start h + PAGE_SIZE * Z.of_nat (length fs))) = Some a) in Hl.
    rewrite <- (region_next_leaf fs (heap_start h) s R Hm Hs ltac:(lia)). congruence.
Qed.
End region.

(** ** Properties *)

Section properties.
Context {A : Type} `{HFA : FrameAllocSpec A}.

(** What a failed initialisation leaves behind: every translation as before,
    every frame in use either was in use before or is a page table of the
    address space, and the frames in use before kept their owner. *)
Record heap_undone (root : Z) (s s' : machine A) : Prop := {
  hu_ok : vm_ok root s';
  hu_translates x o : translates root s x o → translates root s' x o;
  hu_used f : inuse s f = true → inuse s' f = true;
  hu_used_inv f : inuse s' f = true → inuse s f = true ∨ is_node root s' f;
  hu_owned f : inuse s f = true → fa_owned (fa s') f = fa_owned (fa s) f;
}.

Lemma region_undone root s s' : vm_ok root s → region root s [] [] s' → heap_undone root s s'.
Proof.
  intros Hok R. split; [apply R| | | |].
  - intros x o Ho. apply translates_iff in Ho as ->; [|done]. apply translates_iff; [apply R|].
    symmetry. apply same_leaves_translation. intros q Hq Hl.
    apply (rg_rest _ _ _ _ _ R); [done|done|]. apply not_elem_of_nil.
  - apply R.
  - intros f Hf. destruct (rg_used_inv _ _ _ _ _ R f Hf) as [?|[?|?%not_elem_of_nil]]; auto.
  - apply R.
Qed.

(** The pages of a region translate to its frames. *)
Lemma region_translates root s s' base fs k f : vm_ok root s →
  region root s [] (region_pages base fs) s' → base mod PAGE_SIZE = 0 → 0 ≤ base →
  base + PAGE_SIZE * Z.of_nat (length fs) ≤ 2 ^ 47 → fs !! k = Some f →
  translates root s (base + PAGE_SIZE * Z.of_nat k) None ∧
  ∀ off, 0 ≤ off < 4096 → translates root s' (base + PAGE_SIZE * Z.of_nat k + off) (Some (f + off)).
Proof.
  intros Hok R Hm Hb He Hk. pose proof (lookup_lt_Some _ _ _ Hk).
  assert (PAGE_SIZE = 4096) as Hps by done.
  destruct (rg_leaf _ _ _ _ _ R _ _ (region_pages_lookup base fs k f Hk)) as [Hl Hl0].
  set (v := base + PAGE_SIZE * Z.of_nat k) in *.
  assert (v mod 4096 = 0) as Hv by (unfold v; rewrite Z.mul_comm, Hps, Z.mod_add by lia; done).
  destruct (page_args_ok v Hv) as [_ Hc]; [lia|]. split.
  { apply translates_iff; [done|]. by rewrite translation_page. }
  intros off Hoff. apply translates_iff; [apply R|]. unfold translation.
  assert (is_canonical (v + off) = true) as ->.
  { pose proof (Z.div_mod v 4096). apply canonical_arith; [split; lia|left; lia]. }
  rewrite path4_offset, Hl by done. simpl.
  rewrite Z.add_mod, Hv, Z.add_0_l, Z.mod_mod, Z.mod_small by lia. done.
Qed.

(** The region [initialize] maps, or what its rollback leaves. *)
Lemma heap_initialize_run root s pages : vm_ok root s → 0 < pages → pages * PAGE_SIZE ≤ HEAP_SIZE →
  ∃ r h' s', KernelHeap_initialize root pages (mkHeapState KernelHeap_new s) = Done (r, mkHeapState h' s') ∧
  match r with
  | Ok _ => h' = mkKernelHeap HEAP_START HEAP_SIZE pages true ∧
      ∃ fs, Z.of_nat (length fs) = pages ∧ region root s [] (region_pages HEAP_START fs) s'
  | Err e => h' = KernelHeap_new ∧ region root s [] [] s' ∧ init_error root s HEAP_START (Z.to_nat pages) e
  end.
Proof.
  intros Hok Hp Hfit. assert (PAGE_SIZE = 4096) as Hps by done.
  assert (HEAP_SIZE = 16777216) as Hhs by done. assert (HEAP_START = 0x40000000) as Hst by done.
  unfold KernelHeap_initialize. rewrite (bind_run _ _ _ _ _ (eq_refl : get _ = Done _)).
  cbn [heap KernelHeap_new initialized heap_size heap_start].
  rewrite (proj2 (Z.eqb_neq pages 0)) by lia.
  unfold checked_mul. rewrite (proj2 (Z.ltb_lt (pages * PAGE_SIZE) _)) by lia.
  rewrite (proj2 (Z.ltb_ge HEAP_SIZE _)) by lia.
  destruct (initialize_loop_run root s (Z.to_nat pages) KernelHeap_new [] s
    (region_start root s Hok)) as (r & s' & HH); [done|done|simpl; lia|].
  cbn [heap_start KernelHeap_new length] in HH. rewrite Z.mul_0_r, Z.add_0_r in HH.
  destruct r as [m|e].
  - destruct HH as (E & fs & -> & Hlen & R).
    exists (Ok ()), (mkKernelHeap HEAP_START HEAP_SIZE pages true), s'.
    simpl in Hlen. rewrite (bind_run _ _ _ _ _ E).
    replace pages with (Z.of_nat (length fs)) by lia. split; [done|]. split; [done|]. by exists fs.
  - destruct HH as (E & R & He). exists (Err e), KernelHeap_new, s'.
    rewrite (bind_run _ _ _ _ _ E). done.
Qed.

(** C18: [KernelHeap::initialize(pages)] on a fresh heap, with [0 < pages] pages
    that fit in the configured 16 MiB, returns without panicking.  On [Ok] the
    heap records [pages] mapped pages, and there are [pages] distinct frames,
    handed out by the allocator, free before and none of them a page table,
    such that page [k] of the heap, unmapped before, translates to the [k]-th
    frame at every offset.  On an error the heap is uninitialised and the
    machine is as before except that page tables may have been added; the
    error "already mapped" is returned only when a page of the range was. *)
Theorem heap_initialize_spec root s pages :
  vm_ok root s → 0 < pages → pages * PAGE_SIZE ≤ HEAP_SIZE →
  ∃ r h' s', KernelHeap_initialize root pages (mkHeapState KernelHeap_new s)
             = Done (r, mkHeapState h' s') ∧ vm_ok root s' ∧
  match r with
  | Ok _ => h' = mkKernelHeap HEAP_START HEAP_SIZE pages true ∧
      ∃ fs, Z.of_nat (length fs) = pages ∧ NoDup fs ∧
        (∀ f, f ∈ fs → inuse s f = false ∧ fa_owned (fa s') f = true ∧ ¬ is_node root s' f) ∧
        (∀ k f, fs !! k = Some f →
           translates root s (HEAP_START + PAGE_SIZE * Z.of_nat k) None ∧
           ∀ off, 0 ≤ off < 4096 →
             translates root s' (HEAP_START + PAGE_SIZE * Z.of_nat k + off) (Some (f + off)))
  | Err e => h' = KernelHeap_new ∧ heap_undone root s s' ∧
      init_error root s HEAP_START (Z.to_nat pages) e
  end.
Proof.
  intros Hok Hp Hfit. assert (PAGE_SIZE = 4096) as Hps by done.
  assert (HEAP_SIZE = 16777216) as Hhs by done. assert (HEAP_START = 0x40000000) as Hst by done.
  destruct (heap_initialize_run root s pages Hok Hp Hfit) as (r & h' & s' & E & HH).
  exists r, h', s'. split; [done|]. destruct r as [[]|e].
  - destruct HH as (-> & fs & Hlen & R). split; [apply R|]. split; [done|]. exists fs. split; [done|].
    pose proof (rg_nodup _ _ _ _ _ R) as Hnd. pose proof (rg_frame _ _ _ _ _ R) as Hfr.
    simpl in Hnd, Hfr. rewrite region_pages_frames in Hnd, Hfr. split; [done|]. split.
    + intros f Hf. destruct (Hfr f Hf) as (_ & _ & ? & _ & ? & ?). done.
    + intros k f Hk. pose proof (lookup_lt_Some _ _ _ Hk).
      apply (region_translates root s s' HEAP_START fs); [done|done|done|lia|lia|done].
  - destruct HH as (-> & R & He). split; [apply R|]. split; [done|]. split; [by apply region_undone|exact He].
Qed.
End properties.

(** The boot code maps four pages; here on the sample machine. *)
Lemma sample_heap_run :
  eval (KernelHeap_initialize sample_root 4) (mkHeapState KernelHeap_new sample_vm) = Some (Ok ()).
Proof. vm_compute. reflexivity. Qed.

Lemma heap_initialize_spec_witness : ∃ s' (fs : list Z),
  KernelHeap_initialize sample_root 4 (mkHeapState KernelHeap_new sample_vm)
  = Done (Ok (), mkHeapState (mkKernelHeap HEAP_START HEAP_SIZE 4 true) s') ∧
  Z.of_nat (length fs) = 4 ∧ NoDup fs.
Proof.
  pose proof sample_heap_run as Hr. unfold eval in Hr.
  destruct (heap_initialize_spec sample_root sample_vm 4 sample_vm_ok)
    as (r & h' & s' & Hrun & Hok & HH); [lia|vm_compute; discriminate|].
  rewrite Hrun in Hr. injection Hr as ->. destruct HH as (-> & fs & Hl & Hnd & _).
  exists s', fs. split; [exact Hrun|]. split; [exact Hl|exact Hnd].
Defined.
