(* ===== verification/Window.v ===== *)
(** * The paging code in a smaller window

    The paging code in a window [R] does what it does in an unlimited one, up to an
    access outside the window, where it faults: nothing else can go differently.
    [below f g] is that relation between two programs; every operation of
    page_table.rs, address_space.rs and heap.rs is shown to be in it by following
    its structure. *)

From S2P Require Import Prelude BootInfo FrameInterface FrameAllocator PageTable AddressSpace Heap.
Local Open Scope Z_scope.

(** The same outcome, or a page fault. *)
Definition below {S X : Type} (f g : S → outcome X) : Prop := ∀ s, f s = g s ∨ f s = Panicked NotMapped.

Section below.
Context {S : Type}.
Lemma below_refl {X} (f : S → outcome X) : below f f.
Proof. by left. Qed.
Lemma below_bind {X Y} (m n : M S X) (f g : X → M S Y) :
  below m n → (∀ x, below (f x) (g x)) → below (m ≫= f) (n ≫= g).
Proof.
  intros Hm Hf s. unfold mbind, M_bind. destruct (Hm s) as [-> | ->]; [|by right].
  destruct (n s) as [[x s']|e]; [apply Hf|by left].
Qed.
Lemma below_zoom {T X} (prj : T → S) upd (m n : M S X) : below m n → below (zoom prj upd m) (zoom prj upd n).
Proof. intros Hm t. unfold zoom. destruct (Hm (prj t)) as [-> | ->]; [by left|by right]. Qed.
End below.

(** One step down the structure of two programs that differ in the window. *)
Create HintDb window discriminated.
Ltac below_step :=
  lazymatch goal with
  | |- below ?f ?f => apply below_refl
  | |- below (mbind _ _) (mbind _ _) => apply below_bind; [|intros ?]
  | |- below (zoom _ _ _) (zoom _ _ _) => apply below_zoom
  | |- below (let '(_, _) := ?x in _) _ => destruct x as [??]
  | |- below (if ?b then _ else _) (if ?b then _ else _) => destruct b
  | |- below (match ?x with _ => _ end) (match ?x with _ => _ end) => destruct x
  | |- below _ _ => solve [eauto 2 with window]
  end.
Ltac below_steps := repeat (progress (cbv zeta) || below_step).

Section paging.
Context {A : Type} `{FrameAlloc A} (R : Z → bool).

Lemma below_touch {X} t (m : M (machine A) X) : below (touch_table (W:=R) t m) (touch_table t m).
Proof. intros s. unfold touch_table, reachable. destruct (R t); [by left|by right]. Qed.
Lemma below_read t i : below (read_entry (A:=A) (W:=R) t i) (read_entry t i).
Proof. unfold read_entry. destruct (_ && _); [apply below_touch|apply below_refl]. Qed.
Lemma below_write t i x : below (write_entry (A:=A) (W:=R) t i x) (write_entry t i x).
Proof. unfold write_entry. destruct (_ && _); [apply below_touch|apply below_refl]. Qed.
Lemma below_zero t : below (zero_table (A:=A) (W:=R) t) (zero_table t).
Proof. apply below_touch. Qed.
#[local] Hint Resolve below_read below_write below_zero : window.

Lemma below_get_table t i w u : below (get_or_create_table (A:=A) (W:=R) t i w u) (get_or_create_table t i w u).
Proof. unfold get_or_create_table. below_steps. Qed.
#[local] Hint Resolve below_get_table : window.
Lemma below_map root v pa w u : below (page_table_map (A:=A) (W:=R) root v pa w u) (page_table_map root v pa w u).
Proof. unfold page_table_map, try. below_steps. Qed.
Lemma below_translate root v : below (page_table_translate (A:=A) (W:=R) root v) (page_table_translate root v).
Proof. unfold page_table_translate. below_steps. Qed.
Lemma below_unmap root v : below (page_table_unmap (A:=A) (W:=R) root v) (page_table_unmap root v).
Proof. unfold page_table_unmap. below_steps. Qed.
#[local] Hint Resolve below_map below_unmap : window.

Lemma below_new : below (AddressSpace_new (A:=A) (W:=R)) AddressSpace_new.
Proof. unfold AddressSpace_new. below_steps. Qed.
Lemma below_identity_loop n root a e w :
  below (identity_loop (A:=A) (W:=R) n root a e w) (identity_loop n root a e w).
Proof.
  revert a. induction n as [|n IH]; intros a; cbn [identity_loop]; [apply below_refl|]. unfold try. below_steps.
Qed.
Lemma below_identity_map self a e w :
  below (AddressSpace_identity_map (A:=A) (W:=R) self a e w) (AddressSpace_identity_map self a e w).
Proof. unfold AddressSpace_identity_map. below_steps. apply below_identity_loop. Qed.

Lemma below_rollback_loop n root v : below (rollback_loop (A:=A) (W:=R) n root v) (rollback_loop n root v).
Proof.
  revert v. induction n as [|n IH]; intros v; cbn [rollback_loop]; [apply below_refl|]. unfold on_vm. below_steps.
Qed.
#[local] Hint Resolve below_rollback_loop : window.
Lemma below_initialize_loop n root v k :
  below (initialize_loop (A:=A) (W:=R) n root v k) (initialize_loop n root v k).
Proof.
  revert v k. induction n as [|n IH]; intros v k; cbn [initialize_loop]; [apply below_refl|].
  unfold on_vm, KernelHeap_rollback. below_steps.
Qed.
#[local] Hint Resolve below_initialize_loop : window.
Lemma below_heap_initialize root pages :
  below (KernelHeap_initialize (A:=A) (W:=R) root pages) (KernelHeap_initialize root pages).
Proof. unfold KernelHeap_initialize. below_steps. Qed.
End paging.
#[export] Hint Resolve below_read below_write below_zero below_map below_translate below_unmap below_new
  below_identity_map below_heap_initialize : window.
