(* ===== verification/Protection.v ===== *)
(** * Access rights (kernel/src/memory/page_table.rs)

    The processor combines the flags of the four entries it reads: a page is
    accessible from ring 3 when all of them have USER, and writable there when
    all of them have WRITABLE.  [access] is that walk.  The code keeps the upper
    entries at least as permissive as the pages below them ([rights_ok]), so the
    rights of a page are those it was mapped with, and mapping one page changes
    the rights of no other.  The entries it writes are well typed ([typed]). *)

From S2P Require Import Prelude FrameInterface FrameAllocator PageTable AddressSpace Heap.
Local Open Scope Z_scope.

(** ** The processor's walk *)

(** Where the walk ends, and whether ring 3 may use it and write it. *)
Fixpoint access (m : pmem) (t : Z) (path : list Z) : option (Z * bool * bool) :=
  match path with
  | [] => Some (t, true, true)
  | i :: rest =>
      let e := rd m (slot t i) in
      if has PRESENT e then
        r ← access m (entry_address e) rest;
        let '(a, u, w) := r in Some (a, has USER e && u, has WRITABLE e && w)
      else None
  end.

(** The present entry at index [i] of the table at the end of [p]. *)
Definition pte (m : pmem) (root : Z) (p : list Z) (i : Z) : option Z :=
  t ← walk m root p; let e := rd m (slot t i) in if has PRESENT e then Some e else None.

Lemma access_walk m t p : (λ r : Z * bool * bool, r.1.1) <$> access m t p = walk m t p.
Proof.
  revert t. induction p as [|i p IH]; intros t; [done|]. cbn [access walk]. unfold target.
  destruct (has PRESENT _); [|done]. cbn [mbind option_bind]. rewrite <- IH.
  by destruct (access m _ p) as [[[? ?] ?]|].
Qed.
Lemma access_Some m t p a : walk m t p = Some a → ∃ u w, access m t p = Some (a, u, w).
Proof. rewrite <- access_walk. destruct (access m t p) as [[[? u] w]|]; [|done]. intros [=<-]. by exists u, w. Qed.
Lemma access_walk_1 m t p a u w : access m t p = Some (a, u, w) → walk m t p = Some a.
Proof. intros H. by rewrite <- access_walk, H. Qed.

Lemma access_snoc m root p i t u w : access m root p = Some (t, u, w) →
  access m root (p ++ [i]) =
    (λ e, (entry_address e, u && has USER e, w && has WRITABLE e)) <$> pte m root p i.
Proof.
  intros H. pose proof (access_walk_1 _ _ _ _ _ _ H) as Hw. unfold pte. rewrite Hw. cbn [mbind option_bind]. clear Hw.
  revert root u w H. induction p as [|j p IH]; intros root u w H.
  - injection H as <- <- <-. cbn [app access]. destruct (has PRESENT _); [|done]. cbn. by rewrite !andb_true_r.
  - cbn [app access] in *. destruct (has PRESENT (rd m (slot root j))); [|done].
    destruct (access m (entry_address (rd m (slot root j))) p) as [[[t' u'] w']|] eqn:E; [|done].
    cbn [mbind option_bind] in H. injection H as -> <- <-. rewrite (IH _ _ _ E).
    destruct (has PRESENT _); [|done]. cbn. by rewrite !andb_assoc.
Qed.

(** Entries that keep their target and gain flags give the same walk with more rights. *)
Lemma access_mono m m' t p a u w :
  (∀ b, target (rd m' b) = target (rd m b) ∧
     (has USER (rd m b) = true → has USER (rd m' b) = true) ∧
     (has WRITABLE (rd m b) = true → has WRITABLE (rd m' b) = true)) →
  access m t p = Some (a, u, w) →
  ∃ u' w', access m' t p = Some (a, u', w') ∧ (u = true → u' = true) ∧ (w = true → w' = true).
Proof.
  intros Hm. revert t u w. induction p as [|i p IH]; intros t u w H.
  - injection H as <- <- <-. by exists true, true.
  - cbn [access] in *. destruct (Hm (slot t i)) as (Ht & Hu & Hw). unfold target in Ht.
    destruct (has PRESENT (rd m (slot t i))) eqn:P; [|done].
    destruct (has PRESENT (rd m' (slot t i))); [|done]. injection Ht as ->.
    destruct (access m (entry_address (rd m (slot t i))) p) as [[[t1 u1] w1]|] eqn:E; [|done].
    cbn [mbind option_bind] in H. injection H as -> <- <-.
    destruct (IH _ _ _ E) as (u' & w' & -> & Hu' & Hw'). cbn [mbind option_bind].
    eexists _, _. split; [done|]. rewrite !andb_true_iff. tauto.
Qed.

(** Memories that agree on the entries of a path. *)
Lemma access_agree m m' t p :
  (∀ r j s t', p = r ++ j :: s → walk m t r = Some t' → rd m' (slot t' j) = rd m (slot t' j)) →
  access m' t p = access m t p.
Proof.
  revert t. induction p as [|i p IH]; intros t Hag; [done|]. cbn [access].
  rewrite (Hag [] i p t eq_refl eq_refl). destruct (has PRESENT (rd m (slot t i))) eqn:P; [|done].
  rewrite IH; [done|]. intros r j s t' -> Hw. apply (Hag (i :: r) j s); [done|].
  cbn [walk]. unfold target. by rewrite P.
Qed.

(** ** Flags of an entry *)

Lemma has_USER e : has USER e = Z.testbit e 2.
Proof. unfold has, USER. by apply land_pow2_ne0. Qed.
Lemma has_WRITABLE e : has WRITABLE e = Z.testbit e 1.
Proof. unfold has, WRITABLE. by apply land_pow2_ne0. Qed.

Lemma make_entry_flags a w u :
  has USER (make_entry a w u) = u ∧ has WRITABLE (make_entry a w u) = w.
Proof.
  rewrite has_USER, has_WRITABLE. unfold make_entry.
  assert (∀ n, 0 ≤ n < 12 → Z.testbit (Z.land a ADDRESS_MASK) n = false) as Hlow.
  { intros n Hn. rewrite Z.land_spec. assert (n ∈ seqZ 0 12) as Hin by (apply elem_of_seqZ; lia).
    assert (Z.testbit ADDRESS_MASK n = false) as ->; [|apply andb_false_r].
    repeat (apply elem_of_cons in Hin as [->|Hin]; [done|]). by apply elem_of_nil in Hin. }
  destruct w, u; rewrite !Z.lor_spec, !Hlow by lia; done.
Qed.
Lemma add_flags_flags w u e :
  has USER (add_flags w u e) = has USER e || u ∧ has WRITABLE (add_flags w u e) = has WRITABLE e || w.
Proof.
  rewrite !has_USER, !has_WRITABLE. unfold add_flags.
  destruct w, u; rewrite ?Z.lor_spec; simpl; by rewrite ?orb_false_r, ?orb_true_r.
Qed.
Lemma add_flags_make a w u w' u' :
  add_flags w' u' (make_entry a w u) = make_entry a (w || w') (u || u').
Proof.
  unfold add_flags, make_entry. apply Z.bits_inj'. intros n _.
  destruct w, u, w', u'; cbn [orb]; rewrite !Z.lor_spec;
    destruct (Z.testbit (Z.land a ADDRESS_MASK) n), (Z.testbit PRESENT n), (Z.testbit WRITABLE n), (Z.testbit USER n); done.
Qed.

(** ** Invariants of a tree *)

(** An upper table is usable from ring 3, and writable, when a page below it is. *)
Definition rights_ok (root : Z) (m : pmem) : Prop := ∀ p i e t u w,
  path_ok p → length p = 3%nat → 0 ≤ i < 512 → pte m root p i = Some e → access m root p = Some (t, u, w) →
  (has USER e = true → u = true) ∧ (has WRITABLE e = true → w = true).

(** The words of the tables: an absent entry is zero, a present one holds the address
    of a frame and the three flags, and no other bit. *)
Definition typed (root : Z) (m : pmem) : Prop := ∀ p t i,
  path_ok p → (length p ≤ 3)%nat → walk m root p = Some t → 0 ≤ i < 512 →
  let e := rd m (slot t i) in
  e = 0 ∨ ∃ a w u, aligned a ∧ a < 2 ^ 52 ∧ e = make_entry a w u.

(** From [m] to [m'] the upper tables keep their place and lose no right, and the
    page-table entries are the same. *)
Record rights_grow (root : Z) (m m' : pmem) : Prop := {
  rg_upper p t u w : path_ok p → (length p ≤ 3)%nat → access m root p = Some (t, u, w) →
    ∃ u' w', access m' root p = Some (t, u', w') ∧ (u = true → u' = true) ∧ (w = true → w' = true);
  rg_pages p i : path_ok p → length p = 3%nat → 0 ≤ i < 512 → pte m' root p i = pte m root p i;
}.

Lemma rights_grow_refl root m : rights_grow root m m.
Proof. split; [|done]. intros p t u w _ _ H. by exists u, w. Qed.
Lemma rights_grow_trans root m1 m2 m3 :
  rights_grow root m1 m2 → rights_grow root m2 m3 → rights_grow root m1 m3.
Proof.
  intros [U1 P1] [U2 P2]. split.
  - intros p t u w Hp Hl H. destruct (U1 p t u w Hp Hl H) as (u1 & w1 & H1 & Hu1 & Hw1).
    destruct (U2 p t u1 w1 Hp Hl H1) as (u2 & w2 & H2 & Hu2 & Hw2). exists u2, w2. auto.
  - intros p i Hp Hl Hi. by rewrite P2, P1.
Qed.

Lemma pte_walk m root p i e : pte m root p i = Some e → ∃ t, walk m root p = Some t.
Proof. unfold pte. destruct (walk m root p) as [t|]; [eauto|done]. Qed.

Lemma rights_ok_grow root m m' : rights_ok root m → rights_grow root m m' → rights_ok root m'.
Proof.
  intros Hok [U P] p i e t u w Hp Hl Hi He Ha. rewrite P in He by done.
  destruct (pte_walk _ _ _ _ _ He) as [t0 Hw]. destruct (access_Some _ _ _ _ Hw) as (u0 & w0 & Ha0).
  destruct (Hok p i e t0 u0 w0 Hp Hl Hi He Ha0) as [Hu Hw'].
  destruct (U p t0 u0 w0 Hp ltac:(lia) Ha0) as (u1 & w1 & Ha1 & Hu1 & Hw1).
  rewrite Ha in Ha1. injection Ha1 as -> -> ->. auto.
Qed.

(** Under the invariant the rights of a page are the flags of its own entry. *)
Lemma page_access_flags root m p i : rights_ok root m → path_ok p → length p = 3%nat → 0 ≤ i < 512 →
  access m root (p ++ [i]) = (λ e, (entry_address e, has USER e, has WRITABLE e)) <$> pte m root p i.
Proof.
  intros Hok Hp Hl Hi. destruct (walk m root p) as [t|] eqn:Hw.
  - destruct (access_Some _ _ _ _ Hw) as (u & w & Ha). rewrite (access_snoc _ _ _ _ _ _ _ Ha).
    destruct (pte m root p i) as [e|] eqn:He; [|done]. cbn. destruct (Hok p i e t u w Hp Hl Hi He Ha) as [Hu Hwr].
    destruct (has USER e), (has WRITABLE e); rewrite ?Hu, ?Hwr, ?andb_false_r by done; done.
  - pose proof (access_walk m root (p ++ [i])) as H. rewrite walk_snoc, Hw in H.
    unfold pte. rewrite Hw. by destruct (access m root (p ++ [i])).
Qed.

(** ** The three ways the code changes a tree *)

Section updates.
Context (U : Z → bool) (m : pmem) (root : Z) (HW : pt_wf U m root).
Context (p : list Z) (t i : Z) (Hp : path_ok p) (Hi : 0 ≤ i < 512).
Context (Hwalk : walk m root p = Some t).

(** Words of other entries. *)
Lemma other_slot q t' j : path_ok q → (length q ≤ 3)%nat → (length p ≤ 3)%nat → walk m root q = Some t' → 0 ≤ j < 512 →
  ¬ (q = p ∧ j = i) → slot t' j ≠ slot t i.
Proof using HW Hp Hi Hwalk.
  intros Hq Hlq Hlp Hw Hj Hne Heq. apply Hne. by apply (slot_unique U m root HW p t i q t' j).
Qed.

Section flags.
Context (w u : bool) (Hlen : (length p ≤ 2)%nat).
Let m' := wr m (slot t i) (add_flags w u (rd m (slot t i))).

Lemma flags_rights : rights_grow root m m'.
Proof using HW Hp Hi Hwalk Hlen.
  split.
  - intros q t' u' w' _ _. apply access_mono. intros b. unfold m'. rewrite rd_wr. case_decide as Hd; [|done].
    subst b. rewrite add_flags_target. destruct (add_flags_flags w u (rd m (slot t i))) as [-> ->].
    split; [done|]. split; intros ->; done.
  - intros q j Hq Hlq Hj. unfold pte, m'. rewrite flags_walk.
    destruct (walk m root q) as [t'|] eqn:Hw; [|done]. cbn [mbind option_bind].
    rewrite rd_wr, decide_False; [done|]. apply (other_slot q); try done; [lia|lia|]. intros [-> _]. lia.
Qed.

Lemma flags_typed : has PRESENT (rd m (slot t i)) = true → typed root m → typed root m'.
Proof using Hp Hi Hwalk Hlen.
  intros Hpr Ht q t' j Hq Hl. unfold m'. rewrite flags_walk. intros Hw Hj. cbv zeta. rewrite rd_wr.
  case_decide as Hd; [|by apply (Ht q)].
  destruct (Ht p t i Hp ltac:(lia) Hwalk Hi) as [H0|(a & w0 & u0 & Ha & Ha' & ->)]; [by rewrite H0 in Hpr|].
  right. exists a, (w0 || w), (u0 || u). by rewrite add_flags_make.
Qed.

Lemma flags_access up wp : access m root p = Some (t, up, wp) → (u = true → up = true) → (w = true → wp = true) →
  has PRESENT (rd m (slot t i)) = true →
  ∃ ua wa, access m' root (p ++ [i]) = Some (entry_address (rd m (slot t i)), ua, wa) ∧
    (u = true → ua = true) ∧ (w = true → wa = true).
Proof using Hp Hi Hwalk Hlen HW.
  intros Ha Hu Hwr Hpr. destruct (rg_upper _ _ _ flags_rights p t up wp Hp ltac:(lia) Ha) as (u1 & w1 & Ha1 & Hu1 & Hw1).
  rewrite (access_snoc _ _ _ _ _ _ _ Ha1). unfold pte. rewrite (access_walk_1 _ _ _ _ _ _ Ha1). cbn [mbind option_bind].
  assert (rd m' (slot t i) = add_flags w u (rd m (slot t i))) as -> by (unfold m'; by rewrite rd_wr, decide_True).
  pose proof (add_flags_target w u (rd m (slot t i))) as Ht. unfold target in Ht. rewrite Hpr in Ht.
  destruct (has PRESENT (add_flags w u (rd m (slot t i)))); [|done]. injection Ht as Ht. cbn. rewrite Ht.
  destruct (add_flags_flags w u (rd m (slot t i))) as [-> ->]. eexists _, _. split; [done|].
  split; intros E; subst; rewrite ?Hu1, ?Hw1, ?orb_true_r by auto; done.
Qed.
End flags.

Section fresh.
Context (f : Z) (w u : bool).
Context (Hlen : (length p ≤ 2)%nat) (Hf : aligned f) (Hf' : f < 2 ^ 52) (HUf : U f = false).
Context (Hnone : target (rd m (slot t i)) = None).
Let m' := wr (PageTable_zero f m) (slot t i) (make_entry f w u).

(** A path to a table that was there does not go through the new entry. *)
Lemma fresh_old_access q t' : path_ok q → (length q ≤ 3)%nat → walk m root q = Some t' →
  access m' root q = access m root q.
Proof using HW Hp Hi Hwalk Hlen Hf HUf Hnone.
  intros Hq Hl Hw. apply access_agree. intros r j s t1 -> Hr.
  apply path_ok_app in Hq as [Hq [Hj Hs]%Forall_cons]. rewrite length_app in Hl. cbn [length] in Hl.
  apply (fresh_rd U m root HW t i f w u Hf HUf r); [done|lia|done|done|].
  apply (other_slot r); try done; [lia|lia|]. intros [-> ->].
  rewrite (walk_app m root p (i :: s)), Hwalk in Hw. cbn [mbind option_bind walk] in Hw. by rewrite Hnone in Hw.
Qed.

Lemma fresh_rights : rights_grow root m m'.
Proof using HW Hp Hi Hwalk Hlen Hf Hf' HUf Hnone.
  split.
  - intros q t' u' w' Hq Hl Ha. exists u', w'.
    rewrite (fresh_old_access q t') by (done || by eapply access_walk_1). done.
  - intros q j Hq Hl Hj. unfold pte.
    destruct (fresh_cases U m root HW p t i Hp Hi Hwalk f w u Hlen Hf Hf' HUf Hnone q Hq ltac:(lia))
      as [(-> & Hw' & Hw)|[Hne Hw']]; fold m' in Hw'; rewrite Hw'.
    + rewrite Hw. cbn [mbind option_bind]. unfold m'. rewrite rd_wr, decide_False.
      * by rewrite rd_zero_in.
      * intros Heq. destruct (slot_inj f t j i) as [Hft _]; try done.
        { apply (wf_aligned U m root HW p); [done|lia|done]. }
        eapply (fresh_not_node U m root HW f HUf p t); [done|lia|done|done].
    + destruct (walk m root q) as [t'|] eqn:Hw; [|done]. cbn [mbind option_bind]. unfold m'.
      rewrite (fresh_rd U m root HW t i f w u Hf HUf q); [done|done|lia|done|done|].
      apply (other_slot q); try done; [lia|lia|]. intros [-> _]. lia.
Qed.

Lemma fresh_typed : typed root m → typed root m'.
Proof using HW Hp Hi Hwalk Hlen Hf Hf' HUf Hnone.
  intros Ht q t' j Hq Hl Hw Hj. cbv zeta.
  destruct (decide (slot t' j = slot t i)) as [->|Hne].
  { right. exists f, w, u. unfold m'. by rewrite rd_wr, decide_True. }
  destruct (fresh_cases U m root HW p t i Hp Hi Hwalk f w u Hlen Hf Hf' HUf Hnone q Hq ltac:(lia))
    as [(-> & Hw' & _)|[_ Hw']]; fold m' in Hw'; rewrite Hw' in Hw.
  - left. injection Hw as ->. unfold m'. by rewrite rd_wr, decide_False, rd_zero_in.
  - unfold m'. rewrite (fresh_rd U m root HW t i f w u Hf HUf q) by (done || lia). by apply (Ht q).
Qed.

Lemma fresh_access up wp : access m root p = Some (t, up, wp) → (u = true → up = true) → (w = true → wp = true) →
  ∃ ua wa, access m' root (p ++ [i]) = Some (f, ua, wa) ∧ (u = true → ua = true) ∧ (w = true → wa = true).
Proof using HW Hp Hi Hwalk Hlen Hf Hf' HUf Hnone.
  intros Ha Hu Hwr. pose proof (fresh_old_access p t Hp ltac:(lia) Hwalk) as Ha'. rewrite Ha in Ha'.
  rewrite (access_snoc _ _ _ _ _ _ _ Ha'). unfold pte. rewrite (access_walk_1 _ _ _ _ _ _ Ha'). cbn [mbind option_bind].
  assert (rd m' (slot t i) = make_entry f w u) as -> by (unfold m'; by rewrite rd_wr, decide_True).
  cbv zeta. rewrite make_entry_present. cbn.
  rewrite make_entry_address by done. destruct (make_entry_flags f w u) as [-> ->].
  eexists _, _. split; [done|]. split; intros E; subst; rewrite ?Hu, ?Hwr by done; done.
Qed.
End fresh.

Section leaf.
Context (e : Z) (Hlen : (length p = 3)%nat).
Let m' := wr m (slot t i) e.

Lemma leaf_access q : path_ok q → (length q ≤ 3)%nat → access m' root q = access m root q.
Proof using HW Hp Hi Hwalk Hlen.
  intros Hq Hl. apply access_agree. intros r j s t1 -> Hr.
  apply path_ok_app in Hq as [Hq [Hj Hs]%Forall_cons]. rewrite length_app in Hl. cbn [length] in Hl.
  unfold m'. rewrite rd_wr, decide_False; [done|]. apply (other_slot r); try done; [lia|lia|]. intros [-> _]. lia.
Qed.

Lemma leaf_pte q j : path_ok q → length q = 3%nat → 0 ≤ j < 512 →
  pte m' root q j = if decide (q = p ∧ j = i) then (if has PRESENT e then Some e else None) else pte m root q j.
Proof using HW Hp Hi Hwalk Hlen.
  intros Hq Hl Hj. unfold pte. assert (walk m' root q = walk m root q) as ->.
  { apply (leaf_walk_node U m root HW p t i Hp Hi Hwalk e Hlen); [done|lia]. }
  case_decide as Hd.
  - destruct Hd as [-> ->]. rewrite Hwalk. cbn [mbind option_bind]. unfold m'. by rewrite rd_wr, decide_True.
  - destruct (walk m root q) as [t'|] eqn:Hw; [|done]. cbn [mbind option_bind]. unfold m'.
    rewrite rd_wr, decide_False; [done|]. apply (other_slot q); try done; lia.
Qed.

Lemma leaf_typed : e = 0 ∨ (∃ a w u, aligned a ∧ a < 2 ^ 52 ∧ e = make_entry a w u) → typed root m → typed root m'.
Proof using HW Hp Hi Hwalk Hlen.
  intros He Ht q t' j Hq Hl Hw Hj. cbv zeta. unfold m'. rewrite rd_wr. case_decide; [done|].
  unfold m' in Hw. rewrite (leaf_walk_node U m root HW p t i Hp Hi Hwalk e Hlen q) in Hw by done. by apply (Ht q).
Qed.
End leaf.
End updates.

(** ** The operations *)

Section specs.
Context {A : Type} `{HFA : FrameAllocSpec A}.
Implicit Types s : machine A.

(** A well-formed address space with its flags and its words in order. *)
Record space_ok (root : Z) s : Prop := {
  so_vm : vm_ok root s;
  so_rights : rights_ok root (mem s);
  so_typed : typed root (mem s);
}.

(** The physical address behind [v], and the rights of ring 3 to it. *)
Definition page_access (root : Z) s (v : Z) : option (Z * bool * bool) :=
  if is_canonical v then
    (λ '(a, u, w), (a + v mod 4096, u, w)) <$> access (mem s) root (path4 v)
  else None.

Lemma page_access_translation root s v : (λ r : Z * bool * bool, r.1.1) <$> page_access root s v = translation root s v.
Proof.
  unfold page_access, translation, leaf. destruct (is_canonical v); [|done].
  rewrite <- access_walk. by destruct (access (mem s) root (path4 v)) as [[[? ?] ?]|].
Qed.

Lemma path4_split v : ∃ p i, path4 v = p ++ [i] ∧ path_ok p ∧ length p = 3%nat ∧ 0 ≤ i < 512.
Proof.
  pose proof (path4_ok v) as Hp. rewrite path4_arith in *. apply (path_ok_snoc [_; _; _]) in Hp as [Hp Hi].
  by eexists [_; _; _], _.
Qed.

Lemma page_access_grow root s s' v : rights_ok root (mem s) → rights_grow root (mem s) (mem s') →
  page_access root s' v = page_access root s v.
Proof.
  intros Hok G. unfold page_access. destruct (is_canonical v); [|done]. f_equal.
  destruct (path4_split v) as (p & i & -> & Hp & Hl & Hi).
  rewrite !page_access_flags by (done || by eapply rights_ok_grow). by rewrite (rg_pages _ _ _ G).
Qed.

Lemma get_table_rights root s p t i w u up wp r s' : vm_ok root s → typed root (mem s) →
  path_ok p → 0 ≤ i < 512 → (length p ≤ 2)%nat → access (mem s) root p = Some (t, up, wp) →
  (u = true → up = true) → (w = true → wp = true) →
  get_or_create_table t i w u s = Done (r, s') →
  rights_grow root (mem s) (mem s') ∧ typed root (mem s') ∧
  match r with
  | Ok t' => ∃ ua wa, access (mem s') root (p ++ [i]) = Some (t', ua, wa) ∧ (u = true → ua = true) ∧ (w = true → wa = true)
  | Err _ => s' = s
  end.
Proof.
  intros [Hok HW] Hty Hp Hi Hl Ha Hu Hw E. pose proof (access_walk_1 _ _ _ _ _ _ Ha) as Hwalk.
  unfold get_or_create_table in E. rewrite (bind_run _ _ _ _ _ (read_entry_run t i s Hi)) in E.
  destruct (has PRESENT (rd (mem s) (slot t i))) eqn:Hpr.
  - rewrite (bind_run _ _ _ _ _ (write_entry_run t i _ s Hi)) in E. injection E as <- <-. cbn [mem].
    fold (add_flags w u (rd (mem s) (slot t i))).
    split; [by eapply flags_rights|]. split; [by eapply flags_typed|]. by eapply flags_access.
  - assert (target (rd (mem s) (slot t i)) = None) as Hn by (unfold target; by rewrite Hpr).
    destruct (fa_alloc (fa s) Hok) as [(f & a' & Ea & _ & Hf & Hfm & HUf & _)|[Ea _]].
    + rewrite (bind_run _ _ s (Some f) (mkMachine a' (mem s))) in E by (unfold on_fa, zoom; by rewrite Ea).
      rewrite (bind_run _ _ _ () (mkMachine a' (PageTable_zero f (mem s)))) in E by (by rewrite phys_to_virt_id).
      rewrite (bind_run _ _ _ _ _ (write_entry_run t i _ _ Hi)) in E. injection E as <- <-. cbn [mem].
      assert (aligned f) as Hal by (split; [done|lia]). assert (f < 2 ^ 52) as Hlt by lia.
      split; [by eapply fresh_rights|]. split; [by eapply fresh_typed|]. by eapply fresh_access.
    + rewrite (bind_run _ _ s None s) in E by (unfold on_fa, zoom; rewrite Ea; by destruct s).
      injection E as <- <-. split; [apply rights_grow_refl|]. by split.
Qed.

(** The descent of [map]: the tables on the way get the rights of the page. *)
Lemma descend_access root s i0 i1 i2 w u (k : Z → M (machine A) (result unit)) r s' :
  vm_ok root s → typed root (mem s) → path_ok [i0; i1; i2] →
  try (get_or_create_table root i0 w u) (λ a,
    try (get_or_create_table (phys_to_virt a) i1 w u) (λ b,
      try (get_or_create_table (phys_to_virt b) i2 w u) (λ c, k (phys_to_virt c)))) s = Done (r, s') →
  (vm_ok root s' ∧ rights_grow root (mem s) (mem s') ∧ typed root (mem s') ∧ ∃ e, r = Err e)
  ∨ ∃ pt s1 ua wa, vm_ok root s1 ∧ rights_grow root (mem s) (mem s1) ∧ typed root (mem s1) ∧
      access (mem s1) root [i0; i1; i2] = Some (pt, ua, wa) ∧ (u = true → ua = true) ∧ (w = true → wa = true) ∧
      k pt s1 = Done (r, s').
Proof.
  intros Hok Hty Hpath. pose proof Hpath as Hp. apply Forall_cons in Hp as [H0 Hp]. apply Forall_cons in Hp as [H1 Hp].
  apply Forall_cons in Hp as [H2 _]. assert (path_ok [i0]) as P1 by (by constructor).
  assert (path_ok [i0; i1]) as P2 by (by apply (path_ok_snoc [i0])). unfold try. intros E.
  destruct (table_run root s [] root i0 w u) as [(a & s1 & E1 & G1 & _ & _)|(E1 & _ & _)]; [done|constructor|done|simpl; lia|done| |];
    rewrite (bind_run _ _ _ _ _ E1) in E;
    destruct (get_table_rights root s [] root i0 w u true true _ _ Hok Hty ltac:(constructor) H0 ltac:(simpl; lia) eq_refl
      ltac:(done) ltac:(done) E1) as (R1 & T1 & F1).
  2:{ injection E as <- <-. left. by eauto. }
  destruct F1 as (u1 & w1 & A1 & Hu1 & Hw1). rewrite phys_to_virt_id in E. cbn [app] in A1.
  destruct (table_run root s1 [i0] a i1 w u) as [(b & s2 & E2 & G2 & _ & _)|(E2 & _ & _)];
    [apply G1|done|done|simpl; lia|by eapply access_walk_1| |]; rewrite (bind_run _ _ _ _ _ E2) in E;
    destruct (get_table_rights root s1 [i0] a i1 w u u1 w1 _ _ (tg_ok _ _ _ G1) T1 P1 H1 ltac:(simpl; lia) A1 Hu1 Hw1 E2)
      as (R2 & T2 & F2); pose proof (rights_grow_trans _ _ _ _ R1 R2) as R12.
  2:{ injection E as <- <-. left. split; [apply G1|]. by eauto. }
  destruct F2 as (u2 & w2 & A2 & Hu2 & Hw2). rewrite phys_to_virt_id in E. cbn [app] in A2.
  destruct (table_run root s2 [i0; i1] b i2 w u) as [(c & s3 & E3 & G3 & _ & _)|(E3 & _ & _)];
    [apply G2|done|done|simpl; lia|by eapply access_walk_1| |]; rewrite (bind_run _ _ _ _ _ E3) in E;
    destruct (get_table_rights root s2 [i0; i1] b i2 w u u2 w2 _ _ (tg_ok _ _ _ G2) T2 P2 H2 ltac:(simpl; lia) A2 Hu2 Hw2 E3)
      as (R3 & T3 & F3); pose proof (rights_grow_trans _ _ _ _ R12 R3) as R.
  2:{ injection E as <- <-. left. split; [apply G2|]. by eauto. }
  destruct F3 as (u3 & w3 & A3 & Hu3 & Hw3). rewrite phys_to_virt_id in E. right.
  exists c, s3, u3, w3. split; [apply G3|]. by eauto 10.
Qed.

(** A write to the entry of one page. *)
Lemma leaf_space root s v p i t ua wa e : space_ok root s → path4 v = p ++ [i] → path_ok p → length p = 3%nat → 0 ≤ i < 512 →
  in_u 64 v → is_canonical v = true →
  access (mem s) root p = Some (t, ua, wa) → e = 0 ∨ (∃ a w u, aligned a ∧ a < 2 ^ 52 ∧ e = make_entry a w u) →
  (has USER e = true → ua = true) → (has WRITABLE e = true → wa = true) →
  let s' := mkMachine (fa s) (wr (mem s) (slot t i) e) in
  space_ok root s' ∧ ∀ x, in_u 64 x → page_access root s' x =
    if decide (x / 4096 = v / 4096) then
      if has PRESENT e then Some (entry_address e + x mod 4096, has USER e, has WRITABLE e) else None
    else page_access root s x.
Proof.
  intros [[Hok HW] Hrt Hty] Hv Hp Hl Hi Hvu Hc Ha He Hu Hw s'. pose proof (access_walk_1 _ _ _ _ _ _ Ha) as Hwalk.
  assert (rights_ok root (mem s')) as Hrt'.
  { intros q j e' t' u' w' Hq Hlq Hj He' Ha'. cbn [mem s'] in He', Ha'.
    rewrite (leaf_access (inuse s) (mem s) root HW p t i Hp Hi Hwalk e Hl) in Ha' by (done || lia).
    rewrite (leaf_pte (inuse s) (mem s) root HW p t i Hp Hi Hwalk e Hl) in He' by done.
    case_decide as Hd; [|by eapply Hrt]. destruct Hd as [-> ->]. destruct (has PRESENT e); [|done].
    injection He' as <-. rewrite Ha in Ha'. by injection Ha' as <- <- <-. }
  split; [split; [split; [done|by eapply leaf_wf]|done|by eapply leaf_typed]|].
  intros x Hx. unfold page_access. destruct (path4_split x) as (q & j & Hxq & Hq & Hlq & Hj). rewrite Hxq.
  rewrite !page_access_flags by done. cbn [mem s'].
  rewrite (leaf_pte (inuse s) (mem s) root HW p t i Hp Hi Hwalk e Hl) by done.
  destruct (decide (x / 4096 = v / 4096)) as [Hd|Hd].
  - assert (path4 x = path4 v) as Hpath by (rewrite (path4_page x), (path4_page v), Hd; done).
    rewrite Hxq, Hv in Hpath. apply app_inj_tail in Hpath as [-> ->]. rewrite decide_True by done.
    assert (is_canonical x = true) as ->; [|by destruct (has PRESENT e)].
    apply canonical_arith in Hc; [|done]. apply canonical_arith; [done|].
    pose proof (Z.div_mod x 4096 ltac:(lia)). pose proof (Z.mod_pos_bound x 4096 ltac:(lia)).
    pose proof (Z.div_mod v 4096 ltac:(lia)). pose proof (Z.mod_pos_bound v 4096 ltac:(lia)). destruct Hvu. lia.
  - destruct (is_canonical x) eqn:Hcx; [|done]. rewrite decide_False; [done|]. intros [-> ->].
    apply Hd, path4_inj; try done. by rewrite Hxq, Hv.
Qed.

(** The rights of every page after [map]. *)
Lemma map_access root s v pa w u r s' : space_ok root s → map_args_ok v pa → in_u 64 v →
  page_table_map root v pa w u s = Done (r, s') →
  space_ok root s' ∧ ∀ x, in_u 64 x → page_access root s' x =
    match r with
    | Ok _ => if decide (x / 4096 = v / 4096) then Some (pa + x mod 4096, u, w) else page_access root s x
    | Err _ => page_access root s x
    end.
Proof.
  intros [Hok Hrt Hty] (Hc & Hva & Hpa & Hrange) Hvu E. unfold page_table_map in E.
  rewrite Hc, Hva, Hpa, !Z.eqb_refl, (proj2 (Z.ltb_ge _ _)) in E by lia.
  pose proof (path4_ok v) as Hpath. unfold path4 in Hpath. destruct (indexes v) as [[[i0 i1] i2] i3] eqn:Hix.
  assert (path4 v = [i0; i1; i2] ++ [i3]) as Hp4 by (unfold path4; by rewrite Hix).
  cbv beta iota zeta delta [negb] in E. apply (path_ok_snoc [i0; i1; i2]) in Hpath as [Hp3 Hi3].
  assert (∀ s1, rights_grow root (mem s) (mem s1) → vm_ok root s1 → typed root (mem s1) →
    space_ok root s1 ∧ ∀ x, in_u 64 x → page_access root s1 x = page_access root s x) as Hsame.
  { intros s1 R1 Hok1 Hty1. split; [split; [done|by eapply rights_ok_grow|done]|].
    intros x _. by apply page_access_grow. }
  destruct (descend_access root s i0 i1 i2 w u (λ pt, pte ← read_entry pt i3;
    if has PRESENT pte then mret (Err "virtual page is already mapped")
    else write_entry pt i3 (make_entry pa w u) ;; mret (Ok ())) r s' Hok Hty Hp3 E)
    as [(Hok1 & R1 & Hty1 & e & ->)|(pt & s1 & ua & wa & Hok1 & R1 & Hty1 & Ha & Hu & Hw & E1)]; [by apply Hsame|].
  clear E. rename E1 into E.
  destruct (Hsame s1 R1 Hok1 Hty1) as [Hs1 Hx1].
  rewrite (bind_run _ _ _ _ _ (read_entry_run pt i3 s1 Hi3)) in E.
  destruct (has PRESENT (rd (mem s1) (slot pt i3))); [by injection E as <- <-|].
  rewrite (bind_run _ _ _ _ _ (write_entry_run pt i3 _ s1 Hi3)) in E. injection E as <- <-.
  assert (aligned pa ∧ pa < 2 ^ 52) as [Hal Hlt] by (unfold ADDRESS_MASK in Hrange; split; [split; [done|lia]|lia]).
  destruct (make_entry_flags pa w u) as [Hfu Hfw].
  destruct (leaf_space root s1 v [i0; i1; i2] i3 pt ua wa (make_entry pa w u) Hs1 Hp4 Hp3 eq_refl Hi3 Hvu Hc Ha)
    as [Hs2 Hx2]; [right; by exists pa, w, u|by rewrite Hfu|by rewrite Hfw|].
  split; [done|]. intros x Hx. rewrite Hx2, make_entry_present, make_entry_address, Hfu, Hfw by done.
  case_decide; [done|]. by apply Hx1.
Qed.

(** What [unmap] writes: nothing, or zero in the entry of the page. *)
Lemma unmap_write root s v r s' : page_table_unmap root v s = Done (r, s') →
  (s' = s ∧ ∃ e, r = Err e)
  ∨ ∃ p i t a, r = Ok a ∧ is_canonical v = true ∧ path4 v = p ++ [i] ∧ walk (mem s) root p = Some t ∧
      s' = mkMachine (fa s) (wr (mem s) (slot t i) 0).
Proof.
  unfold page_table_unmap. destruct (is_canonical v); cbn [negb]; [|intros [= <- <-]; eauto].
  destruct (v mod PAGE_SIZE =? 0); cbn [negb]; [|intros [= <- <-]; eauto].
  pose proof (path4_ok v) as Hpath. unfold path4 in *. destruct (indexes v) as [[[i0 i1] i2] i3].
  apply Forall_cons in Hpath as [H0 Hp]. apply Forall_cons in Hp as [H1 Hp].
  apply Forall_cons in Hp as [H2 Hp]. apply Forall_cons in Hp as [H3 _].
  rewrite (bind_run _ _ _ _ _ (read_entry_run root i0 s H0)), phys_to_virt_id.
  destruct (entry_cases (mem s) root i0) as [[P0 T0]|[P0 T0]]; rewrite P0; cbn [negb]; [|intros [= <- <-]; eauto].
  set (t1 := entry_address (rd (mem s) (slot root i0))) in *. rewrite (bind_run _ _ _ _ _ (read_entry_run t1 i1 s H1)), phys_to_virt_id.
  destruct (entry_cases (mem s) t1 i1) as [[P1 T1]|[P1 T1]]; rewrite P1; cbn [negb]; [|intros [= <- <-]; eauto].
  destruct (has HUGE_PAGE _); [intros [= <- <-]; eauto|].
  set (t2 := entry_address (rd (mem s) (slot t1 i1))) in *. rewrite (bind_run _ _ _ _ _ (read_entry_run t2 i2 s H2)), phys_to_virt_id.
  destruct (entry_cases (mem s) t2 i2) as [[P2 T2]|[P2 T2]]; rewrite P2; cbn [negb]; [|intros [= <- <-]; eauto].
  destruct (has HUGE_PAGE _); [intros [= <- <-]; eauto|].
  set (t3 := entry_address (rd (mem s) (slot t2 i2))) in *. rewrite (bind_run _ _ _ _ _ (read_entry_run t3 i3 s H3)).
  destruct (has PRESENT (rd (mem s) (slot t3 i3))); cbn [negb]; [|intros E; injection E as <- <-; eauto].
  rewrite (bind_run _ _ _ _ _ (write_entry_run t3 i3 0 s H3)). intros E. injection E as <- <-. right.
  exists [i0; i1; i2], i3, t3. eexists. do 3 (split; [done|]). split; [|done].
  cbn [walk]. rewrite T0. cbn [mbind option_bind]. rewrite T1. cbn [mbind option_bind]. by rewrite T2.
Qed.

(** The rights of every page after [unmap]. *)
Lemma unmap_access root s v r s' : space_ok root s → in_u 64 v → page_table_unmap root v s = Done (r, s') →
  space_ok root s' ∧ fa s' = fa s ∧ ∀ x, in_u 64 x → page_access root s' x =
    match r with
    | Ok _ => if decide (x / 4096 = v / 4096) then None else page_access root s x
    | Err _ => page_access root s x
    end.
Proof.
  intros Hs Hv [[-> [e ->]]|(p & i & t & a & -> & Hc & Hp4 & Hw & ->)]%unmap_write; [done|].
  destruct (path4_split v) as (q & j & Hq4 & Hq & Hl & Hj). rewrite Hp4 in Hq4. apply app_inj_tail in Hq4 as [<- <-].
  destruct (access_Some _ _ _ _ Hw) as (ua & wa & Ha).
  destruct (leaf_space root s v p i t ua wa 0 Hs Hp4 Hq Hl Hj Hv Hc Ha) as [Hs' Hx]; [by left|done|done|].
  split; [done|]. split; [done|]. exact Hx.
Qed.

(** A new address space: no page is accessible. *)
Lemma new_space s r s' : fa_ok (fa s) → AddressSpace_new s = Done (Ok r, s') →
  space_ok (pml4_phys r) s' ∧ ∀ x, page_access (pml4_phys r) s' x = None.
Proof.
  intros Hok E. destruct (AddressSpace_new_run s Hok) as [(root & s1 & E1 & Hok1 & _ & Hn & _)|[E1 _]];
    pose proof E1 as E2; rewrite E1 in E; [|done]. injection E as <- <-. cbn [pml4_phys]. clear E1.
  assert (∃ m, mem s1 = PageTable_zero root m) as [m Hm].
  { unfold AddressSpace_new in E2. run_inv E2. destruct a as [f|]; [|done].
    rewrite (bind_run _ _ _ () (mkMachine (fa s0) (PageTable_zero f (mem s0)))) in E2 by (by rewrite phys_to_virt_id).
    injection E2 as -> <-. by eexists. }
  assert (∀ x, page_access root s1 x = None) as Hx.
  { intros x. unfold page_access. destruct (is_canonical x); [|done].
    pose proof (access_walk (mem s1) root (path4 x)) as Ha. rewrite Hn in Ha by (done || apply path4_ok).
    by destruct (access (mem s1) root (path4 x)). }
  split; [|done]. split; [done| |].
  - intros p i e t u w Hp Hl _ He _. destruct (pte_walk _ _ _ _ _ He) as [t' Hw]. rewrite Hn in Hw; [done|done|by intros ->].
  - intros [|j p] t i Hp _ Hw Hi; [|by rewrite Hn in Hw]. injection Hw as <-. left. by rewrite Hm, rd_zero_in.
Qed.
(** A change of the allocator that leaves the tables in use. *)
Lemma space_ok_fa root s a : space_ok root s → fa_ok a →
  (∀ f, is_node root s f → inuse s f = true → fa_used a f = true) → space_ok root (mkMachine a (mem s)).
Proof.
  intros [[Hok [Hn Hi Hs]] Hr Ht] Ha Hu. split; [|done|done]. split; [done|]. split; [|done|done].
  intros p t Hp Hl Hw. destruct (Hn p t Hp Hl Hw) as [Hal Hin]. split; [done|]. apply Hu; [by exists p|done].
Qed.

Lemma allocate_space root s r s' : space_ok root s → on_fa allocate_frame s = Done (r, s') →
  space_ok root s' ∧ mem s' = mem s.
Proof.
  intros Hs E. unfold on_fa, zoom in E. destruct (fa_alloc (fa s) (proj1 (so_vm _ _ Hs)))
    as [(f & a & Ea & Hok & _ & _ & _ & _ & Hu & _)|[Ea _]]; rewrite Ea in E; injection E as <- <-.
  - split; [|done]. apply space_ok_fa; [done|done|]. intros g _ Hg. rewrite Hu. by case_decide.
  - by destruct s.
Qed.
Lemma free_space root s f r s' : space_ok root s → 0 ≤ f → ¬ is_node root s f →
  on_fa (free_frame f) s = Done (r, s') → space_ok root s' ∧ mem s' = mem s.
Proof.
  intros Hs Hf Hn E. unfold on_fa, zoom in E. destruct (fa_owned (fa s) f) eqn:Ho.
  - destruct (fa_free (fa s) f (proj1 (so_vm _ _ Hs)) Ho) as (a & Ea & Hok & Hu & _). rewrite Ea in E.
    injection E as <- <-. split; [|done]. apply space_ok_fa; [done|done|]. intros g Hg Hg'. rewrite Hu.
    case_decide; [by subst|done].
  - rewrite (fa_free_ignored (fa s) f (proj1 (so_vm _ _ Hs)) Hf Ho) in E. injection E as <- <-. by destruct s.
Qed.

(** A write to a word of no table. *)
Lemma store_space root s a x : space_ok root s → (∀ t i, is_node root s t → 0 ≤ i < 512 → a ≠ slot t i) →
  let s' := mkMachine (fa s) (wr (mem s) a x) in
  space_ok root s' ∧ ∀ v, page_access root s' v = page_access root s v.
Proof.
  intros [[Hok HW] Hr Ht] Ha s'.
  assert (∀ p t i, path_ok p → (length p ≤ 3)%nat → walk (mem s) root p = Some t → 0 ≤ i < 512 →
    rd (mem s') (slot t i) = rd (mem s) (slot t i)) as Hsame.
  { intros p t i Hp Hl Hw Hi. cbn [mem s']. rewrite rd_wr, decide_False; [done|]. intros Heq.
    eapply (Ha t i); [by exists p|done|done]. }
  assert (∀ p, path_ok p → (length p ≤ 4)%nat → access (mem s') root p = access (mem s) root p) as Hacc.
  { intros p Hp Hl. apply access_agree. intros r j q t -> Hw. rewrite length_app in Hl. cbn [length] in Hl.
    apply path_ok_app in Hp as [Hp [Hj _]%Forall_cons]. apply (Hsame r); (done || lia). }
  assert (∀ p, path_ok p → (length p ≤ 3)%nat → walk (mem s') root p = walk (mem s) root p) as Hwalk.
  { intros p Hp Hl. by rewrite <- !access_walk, Hacc by (done || lia). }
  split; [split|].
  - split; [done|]. destruct HW as [Wn Wi Ws]. split.
    + intros p t Hp Hl. rewrite Hwalk by done. by apply Wn.
    + intros p q t Hp Hq Hl Hl'. rewrite !Hwalk by done. by apply Wi.
    + intros p t i Hp Hl. rewrite Hwalk by (done || lia). intros Hw Hi. rewrite (Hsame p) by (done || lia). by apply (Ws p).
  - intros p i e t u w Hp Hl Hi. unfold pte. rewrite Hwalk, Hacc by (done || lia).
    destruct (walk (mem s) root p) as [t'|] eqn:Hw; [|done]. cbn [mbind option_bind].
    rewrite (Hsame p) by (done || lia). intros He. apply (Hr p i); try done. unfold pte. by rewrite Hw.
  - intros p t i Hp Hl. rewrite Hwalk by done. intros Hw Hi. cbv zeta. rewrite (Hsame p) by done. by apply (Ht p).
  - intros v. unfold page_access. by rewrite Hacc by (done || apply path4_ok).
Qed.

(** ** Ranges *)

Lemma map_args_dec v pa : map_args_ok v pa ∨ ¬ map_args_ok v pa.
Proof.
  unfold map_args_ok. destruct (is_canonical v); [|right; by intros [? _]].
  destruct (decide (v mod PAGE_SIZE = 0 ∧ pa mod PAGE_SIZE = 0 ∧ 0 ≤ pa ≤ ADDRESS_MASK)); tauto.
Qed.
Lemma unmap_total root s : vm_ok root s → ∀ v, ∃ r s', page_table_unmap root v s = Done (r, s').
Proof.
  intros Hok v. destruct (is_canonical v) eqn:Hc; [destruct (Z.eqb_spec (v mod PAGE_SIZE) 0) as [Hm|Hm]|].
  - pose proof (unmap_run root s v Hok Hc Hm) as HU. destruct (leaf s root (path4 v)).
    + destruct HU as (s' & E & _). eauto.
    + destruct HU as [e E]. eauto.
  - unfold page_table_unmap. rewrite Hc, (proj2 (Z.eqb_neq _ _) Hm). by eexists _, _.
  - unfold page_table_unmap. rewrite Hc. by eexists _, _.
Qed.

(** [map] with arguments that fail its checks. *)
Lemma map_refused root s v pa w u : in_u 64 pa → ¬ map_args_ok v pa →
  ∃ e, page_table_map root v pa w u s = Done (Err e, s).
Proof.
  intros [Hpa _] Hargs. unfold page_table_map, map_args_ok in *. destruct (is_canonical v); cbn [negb]; [|by eexists].
  destruct (Z.eqb_spec (v mod PAGE_SIZE) 0); cbn [negb]; [|by eexists].
  destruct (Z.eqb_spec (pa mod PAGE_SIZE) 0); cbn [negb]; [|by eexists].
  destruct (Z.ltb_spec ADDRESS_MASK pa); [by eexists|]. destruct Hargs. lia.
Qed.

(** [identity_map]: the pages of the range are the kernel's. *)
Lemma identity_access n root a e w s r s' : space_ok root s → a mod 4096 = 0 → e mod 4096 = 0 → 0 ≤ a → e ≤ 2 ^ 47 →
  e ≤ a + 4096 * Z.of_nat n → identity_loop n root a e w s = Done (r, s') →
  space_ok root s' ∧ ∀ x, in_u 64 x → r = Ok () →
    page_access root s' x = if decide (a ≤ x < e) then Some (x, false, w) else page_access root s x.
Proof.
  revert a s. induction n as [|n IH]; intros a s Hs Hm Hme Ha He Hn E; cbn [identity_loop] in E.
  { injection E as <- <-. split; [done|]. intros x _ _. by rewrite decide_False by lia. }
  destruct (Z.ltb_spec a e) as [Hlt|Hge].
  2:{ injection E as <- <-. split; [done|]. intros x _ _. by rewrite decide_False by lia. }
  destruct (page_args_ok a Hm) as [Hargs _]; [lia|]. unfold try in E. run_inv E.
  destruct (map_access root s a a w false _ _ Hs Hargs ltac:(split; lia) E0) as [Hs1 Hx1].
  destruct a0 as [[]|err]; [|by injection E as <- <-]. run_inv E.
  unfold lift in E1. destruct (add_u 64 a PAGE_SIZE) as [a2|] eqn:Ea; [|done]. injection E1 as <- <-.
  apply add_u_inv in Ea as ->. unfold PAGE_SIZE in E.
  assert ((a + 4096) mod 4096 = 0) as Hm' by (change 4096 with (1 * 4096) at 1; by rewrite Z.mod_add).
  destruct (IH (a + 4096) s0 Hs1 Hm' Hme ltac:(lia) He ltac:(lia) E) as [Hs2 Hx2].
  split; [done|]. intros x Hx Hr. rewrite Hx2, Hx1 by done.
  pose proof (Z.div_mod x 4096 ltac:(lia)). pose proof (Z.mod_pos_bound x 4096 ltac:(lia)).
  pose proof (Z.div_mod a 4096 ltac:(lia)). pose proof (Z.div_mod e 4096 ltac:(lia)).
  destruct (decide (a + 4096 ≤ x < e)); [by rewrite decide_True by lia|].
  destruct (decide (x / 4096 = a / 4096)).
  - rewrite decide_True by lia. do 3 f_equal. lia.
  - rewrite decide_False; [done|]. intros Hin. assert (x / 4096 < a / 4096 + 1) by (apply Z.div_lt_upper_bound; lia).
    assert (a / 4096 ≤ x / 4096) by (apply Z.div_le_mono; lia). lia.
Qed.
Lemma identity_map_access root start end_ w s s' : space_ok root s → 0 ≤ start → end_ ≤ 2 ^ 47 →
  AddressSpace_identity_map (mkAddressSpace root) start end_ w s = Done (Ok (), s') →
  space_ok root s' ∧ ∀ x, in_u 64 x →
    page_access root s' x = if decide (start ≤ x < end_) then Some (x, false, w) else page_access root s x.
Proof.
  intros Hs Hst He E. unfold AddressSpace_identity_map in E.
  destruct (Z.eqb_spec (start mod PAGE_SIZE) 0) as [Hm|]; cbn [negb] in E; [|done].
  destruct (Z.eqb_spec (end_ mod PAGE_SIZE) 0) as [Hme|]; cbn [negb] in E; [|done].
  destruct (Z.leb_spec end_ start); [done|]. cbv zeta in E. rewrite phys_to_virt_id in E. cbn [pml4_phys] in E.
  apply identity_access in E as [Hs' Hx]; try done; [by split; [|intros; apply Hx]|].
  pose proof (Z.div_mod (end_ - start + PAGE_SIZE - 1) PAGE_SIZE ltac:(done)).
  pose proof (Z.mod_pos_bound (end_ - start + PAGE_SIZE - 1) PAGE_SIZE ltac:(done)).
  assert (0 ≤ (end_ - start + PAGE_SIZE - 1) / PAGE_SIZE) by (apply Z.div_pos; unfold PAGE_SIZE; lia).
  unfold PAGE_SIZE in *. lia.
Qed.

Lemma on_vm_inv {C} (m : M (machine A) C) hs r hs' : on_vm m hs = Done (r, hs') →
  ∃ s', m (vm hs) = Done (r, s') ∧ hs' = mkHeapState (heap hs) s'.
Proof.
  unfold on_vm, zoom. destruct (m (vm hs)) as [[b s']|]; intros [=]; subst. eauto.
Qed.

(** The heap's pages are the kernel's too. *)
Lemma heap_loop_access n root va m hs m' hs' : space_ok root (vm hs) → va mod 4096 = 0 → 0 ≤ va →
  va + 4096 * Z.of_nat n ≤ 2 ^ 46 → initialize_loop n root va m hs = Done (Ok m', hs') →
  space_ok root (vm hs') ∧ ∀ x, in_u 64 x →
    if decide (va ≤ x < va + 4096 * Z.of_nat n) then ∃ a, page_access root (vm hs') x = Some (a, false, true)
    else page_access root (vm hs') x = page_access root (vm hs) x.
Proof.
  revert va m hs. induction n as [|n IH]; intros va m hs Hs Hm Hva Hmax E.
  { injection E as <- <-. split; [done|]. intros x _. by rewrite decide_False by lia. }
  cbn [initialize_loop] in E. apply bind_inv in E as (frame & hs1 & (s1 & E1 & ->)%on_vm_inv & E).
  pose proof (allocate_space root _ _ _ Hs E1) as [Hs1 Hmem].
  destruct frame as [f|]; [|by run_inv E]. apply bind_inv in E as (r1 & hs2 & (s2 & E2 & ->)%on_vm_inv & E). cbn [vm heap] in *.
  assert (map_args_ok va f) as Hargs.
  { unfold on_fa, zoom in E1. destruct (fa_alloc (fa (vm hs)) (proj1 (so_vm _ _ Hs)))
      as [(f' & a' & Ea & _ & Hf & Hfm & _)|[Ea _]]; rewrite Ea in E1; [|done]. injection E1 as <- _.
    split; [apply canonical_arith; [split; lia|lia]|]. split; [done|]. split; [done|]. unfold ADDRESS_MASK. lia. }
  destruct (map_access root s1 va f true false _ _ Hs1 Hargs ltac:(split; lia) E2) as [Hs2 Hx2].
  destruct r1 as [[]|e]; [|by do 2 run_inv E].
  apply bind_inv in E as (m2 & hs3 & E3 & E). apply bind_inv in E as (va' & hs4 & E4 & E).
  unfold lift in E3, E4. destruct (add_u 64 m 1), (add_u 64 va PAGE_SIZE) as [va2|] eqn:Eva; simplify_eq/=.
  apply add_u_inv in Eva as ->. unfold PAGE_SIZE in E.
  destruct (IH (va + 4096) m2 (mkHeapState (heap hs) s2) Hs2) as [Hs3 Hx3]; [|lia|lia|exact E|].
  { change 4096 with (1 * 4096) at 1. by rewrite Z.mod_add. }
  split; [done|]. intros x Hx. pose proof (Hx3 x Hx) as Hx'. cbn [vm] in Hx'. rewrite Hx2 in Hx' by done.
  assert (page_access root s1 x = page_access root (vm hs) x) as Hsame by (unfold page_access; by rewrite Hmem).
  pose proof (Z.div_mod x 4096 ltac:(lia)). pose proof (Z.mod_pos_bound x 4096 ltac:(lia)). pose proof (Z.div_mod va 4096 ltac:(lia)).
  destruct (decide (va + 4096 ≤ x < va + 4096 + 4096 * Z.of_nat n)).
  { by rewrite decide_True by lia. }
  destruct (decide (x / 4096 = va / 4096)).
  - rewrite decide_True by lia. eauto.
  - rewrite decide_False; [congruence|]. intros Hin. assert (x / 4096 < va / 4096 + 1) by (apply Z.div_lt_upper_bound; lia).
    assert (va / 4096 ≤ x / 4096) by (apply Z.div_le_mono; lia). lia.
Qed.

Lemma heap_access root s pages hs' : space_ok root s → 0 < pages → 4096 * pages ≤ HEAP_SIZE →
  KernelHeap_initialize root pages (mkHeapState KernelHeap_new s) = Done (Ok (), hs') →
  space_ok root (vm hs') ∧ ∀ x, in_u 64 x →
    if decide (HEAP_START ≤ x < HEAP_START + 4096 * pages) then ∃ a, page_access root (vm hs') x = Some (a, false, true)
    else page_access root (vm hs') x = page_access root s x.
Proof.
  intros Hs Hp Hfit E. assert (HEAP_SIZE = 16777216) as Hhs by done. assert (HEAP_START = 0x40000000) as Hst by done.
  assert (PAGE_SIZE = 4096) as Hps by done.
  unfold KernelHeap_initialize in E. apply bind_inv in E as (? & ? & [= <- <-] & E).
  cbn [heap KernelHeap_new initialized heap_size heap_start] in E.
  rewrite (proj2 (Z.eqb_neq pages 0)) in E by lia.
  unfold checked_mul in E. rewrite (proj2 (Z.ltb_lt (pages * PAGE_SIZE) _)) in E by lia.
  rewrite (proj2 (Z.ltb_ge HEAP_SIZE _)) in E by lia.
  apply bind_inv in E as (r1 & hs & E & E'). destruct r1 as [m|e]; [|done].
  apply heap_loop_access in E; [|done|done|lia|rewrite Z2Nat.id; lia].
  rewrite Z2Nat.id in E by lia. apply bind_inv in E' as ([] & hs1 & E1 & E'). injection E' as <-. injection E1 as <-. exact E.
Qed.
End specs.

(** ** The life of an address space *)

Section life.
Context {A : Type} `{HFA : FrameAllocSpec A}.
Implicit Types s : machine A.

(** What happens to memory once an address space has been made at [root]: pages are
    mapped and unmapped with any arguments, frames are taken, frames that are not
    tables are given back, and words that are not in a table are written. *)
Inductive life_step (root : Z) : machine A → machine A → Prop :=
| life_map v pa w u r s s' : in_u 64 v → in_u 64 pa →
    page_table_map root v pa w u s = Done (r, s') → life_step root s s'
| life_unmap v r s s' : in_u 64 v → page_table_unmap root v s = Done (r, s') → life_step root s s'
| life_allocate r s s' : on_fa allocate_frame s = Done (r, s') → life_step root s s'
| life_free f r s s' : 0 ≤ f → ¬ is_node root s f → on_fa (free_frame f) s = Done (r, s') → life_step root s s'
| life_store a x s : (∀ t i, is_node root s t → 0 ≤ i < 512 → a ≠ slot t i) →
    life_step root s (mkMachine (fa s) (wr (mem s) a x)).

Lemma life_step_ok root s s' : life_step root s s' → space_ok root s → space_ok root s'.
Proof.
  intros [v pa w u r s1 s2 Hv Hpa E|v r s1 s2 Hv E|r s1 s2 E|f r s1 s2 Hf Hn E|a x s1 Ha] Hs.
  - destruct (map_args_dec v pa) as [Hargs|Hargs].
    + by eapply map_access.
    + destruct (map_refused root s1 v pa w u Hpa Hargs) as [e Ee]. rewrite Ee in E. by injection E as <- <-.
  - by eapply unmap_access.
  - by eapply allocate_space.
  - by eapply free_space.
  - by apply store_space.
Qed.
Lemma life_ok root s s' : rtc (life_step root) s s' → space_ok root s → space_ok root s'.
Proof. induction 1; [done|]. eauto using life_step_ok. Qed.

(** C9: Isolation of [map] and the rights it gives.  On an address space in order, [map]
    returns without panicking and leaves it in order, whatever its arguments.  On [Ok]
    the page was not mapped, and the processor, which combines the flags of all four
    levels, now lets ring 3 at it exactly when [user] was set and write it exactly
    when [writable] was; the rights and the frame of every other page are unchanged,
    although [map] adds flags to the tables they share.  On an error no right of any
    page changes. *)
Theorem map_rights_spec root s v pa w u : space_ok root s → in_u 64 v → in_u 64 pa →
  ∃ r s', page_table_map root v pa w u s = Done (r, s') ∧ space_ok root s' ∧
    match r with
    | Ok _ => page_access root s v = None ∧ ∀ x, in_u 64 x → page_access root s' x =
        if decide (x / 4096 = v / 4096) then Some (pa + x mod 4096, u, w) else page_access root s x
    | Err _ => ∀ x, in_u 64 x → page_access root s' x = page_access root s x
    end.
Proof.
  intros Hs Hv Hpa. destruct (map_args_dec v pa) as [Hargs|Hargs].
  - destruct (map_run root s v pa w u (so_vm _ _ Hs) Hargs) as (r & s' & E & HR). exists r, s'. split; [done|].
    destruct (map_access root s v pa w u r s' Hs Hargs Hv E) as [Hs' Hx]. split; [done|].
    destruct r as [[]|e]; [|done]. split; [|done]. inversion HR as [? Hn| |]; subst.
    pose proof (page_access_translation root s v) as Ht. unfold translation in Ht. rewrite Hn in Ht.
    destruct (page_access root s v), (is_canonical v); done.
  - destruct (map_refused root s v pa w u Hpa Hargs) as [e E]. by exists (Err e), s.
Qed.

(** C10: The words of the page tables are well typed.  From a new address space, whatever
    the arguments of the calls of [map] and [unmap], and whatever is allocated, given
    back or written elsewhere in between, every table is a distinct aligned frame in
    use; every entry of every table is zero or the address of a frame below 2^52 with
    the present bit and the two flags [make_entry] writes, so no reserved bit, no huge
    page and no stale entry ever appears; no upper table takes away a right of a page
    below it; and [map], [unmap] and [translate] do not panic on any arguments. *)
Theorem tables_well_typed s0 sp s1 s : fa_ok (fa s0) → AddressSpace_new s0 = Done (Ok sp, s1) →
  rtc (life_step (pml4_phys sp)) s1 s →
  space_ok (pml4_phys sp) s ∧
  (∀ v pa w u, in_u 64 pa → ∃ r s', page_table_map (pml4_phys sp) v pa w u s = Done (r, s')) ∧
  (∀ v, ∃ r s', page_table_unmap (pml4_phys sp) v s = Done (r, s')) ∧
  (∀ v, ∃ o, page_table_translate (pml4_phys sp) v s = Done (o, s)).
Proof.
  intros Hfa Hnew Hlife. destruct (new_space s0 sp s1 Hfa Hnew) as [Hs1 _]. pose proof (life_ok _ _ _ Hlife Hs1) as Hs.
  pose proof (so_vm _ _ Hs) as Hok. split; [done|]. split; [|split].
  - intros v pa w u Hpa. destruct (map_args_dec v pa) as [Hargs|Hargs].
    + destruct (map_run _ s v pa w u Hok Hargs) as (r & s' & E & _). eauto.
    + destruct (map_refused (pml4_phys sp) s v pa w u Hpa Hargs) as [e E]. eauto.
  - apply unmap_total, Hok.
  - intros v. rewrite translate_run by done. eauto.
Qed.
End life.

(** ** Two pages that share their tables *)

(** A page of the kernel, and beside it one that ring 3 may read. *)
Definition sample_kernel_page : machine FrameAllocator :=
  exec (page_table_map sample_root 0x400000 0x100000 true false) sample_vm.
Lemma sample_pages_run :
  eval (page_table_map sample_root 0x401000 0x101000 false true) sample_kernel_page = Some (Ok ()).
Proof. vm_compute. reflexivity. Qed.

Lemma sample_space_ok : space_ok sample_root sample_vm.
Proof. apply (new_space (HFA:=FrameAllocator_spec) sample_boot (mkAddressSpace sample_root) _ sample_fa_ok), sample_new. Qed.

Lemma map_rights_spec_witness : ∃ s1 s2,
  page_table_map sample_root 0x400000 0x100000 true false sample_vm = Done (Ok (), s1) ∧
  page_table_map sample_root 0x401000 0x101000 false true s1 = Done (Ok (), s2) ∧
  page_access sample_root s2 0x400123 = Some (0x100123, false, true) ∧
  page_access sample_root s2 0x401123 = Some (0x101123, true, false).
Proof.
  pose proof sample_map_run as Hr1. pose proof sample_pages_run as Hr2. unfold eval, sample_kernel_page, exec in *.
  destruct (map_rights_spec sample_root sample_vm 0x400000 0x100000 true false sample_space_ok)
    as (r & s1 & E & Hs & H1); [unfold in_u; lia|unfold in_u; lia|].
  rewrite E in Hr1, Hr2. injection Hr1 as ->. destruct H1 as [_ H1].
  destruct (map_rights_spec sample_root s1 0x401000 0x101000 false true Hs)
    as (r & s2 & E2 & _ & H2); [unfold in_u; lia|unfold in_u; lia|].
  rewrite E2 in Hr2. injection Hr2 as ->. destruct H2 as [_ H2].
  exists s1, s2. split; [exact E|]. split; [exact E2|]. split.
  - rewrite H2, H1 by (unfold in_u; lia). reflexivity.
  - rewrite H2 by (unfold in_u; lia). reflexivity.
Defined.

Lemma tables_well_typed_witness : ∃ s, page_table_map sample_root 0x400000 0x100000 true false sample_vm = Done (Ok (), s) ∧
  space_ok sample_root s.
Proof.
  pose proof sample_map_run as Hr. unfold eval in Hr.
  destruct (page_table_map sample_root 0x400000 0x100000 true false sample_vm) as [[r s]|] eqn:E; [|discriminate Hr].
  injection Hr as ->. exists s. split; [reflexivity|].
  apply (tables_well_typed (HFA:=FrameAllocator_spec) sample_boot (mkAddressSpace sample_root) sample_vm s sample_fa_ok (proj1 sample_new)).
  apply rtc_once. eapply life_map; [| |exact E]; unfold in_u; lia.
Defined.
