(* ===== verification/Budget.v ===== *)
(** * Memory budgets

    How many frames the memory code takes, and where they are.  [room B K k a] says
    that [k] frames below the address [B] are free and that the frames of [K] are
    reserved.  The allocator hands out the lowest free frame, so as long as there is
    room below [B] every frame it hands out lies below [B]; and it never hands out a
    reserved one.  Mapping a page takes one frame for each of the three tables on its
    way that does not exist yet ([missing]); with room for those, [map],
    [identity_map] and the heap do not run out of memory and their tables stay below
    [B] and outside [K] ([low_tables]).  In a window [R] that has the pages below [B]
    they therefore do what they do in an unlimited one: no access faults. *)

From S2P Require Import BootInfo Prelude FrameInterface FrameAllocator PageTable AddressSpace Heap Protection.
Local Open Scope Z_scope.

(** The window [R] has the pages below [B]. *)
Definition covers (R : Z → bool) (B : Z) : Prop := ∀ f, aligned f → f < B → R f = true.

(** Accesses inside the window. *)
Section inside.
Context {A : Type} `{HFA : FrameAlloc A} (R : Z → bool) (t : Z) (Ht : R t = true).
Implicit Types s : machine A.
Lemma read_entry_in i : read_entry (A:=A) (W:=R) t i = read_entry t i.
Proof. unfold read_entry, touch_table, reachable. by rewrite Ht. Qed.
Lemma write_entry_in i x : write_entry (A:=A) (W:=R) t i x = write_entry t i x.
Proof. unfold write_entry, touch_table, reachable. by rewrite Ht. Qed.
Lemma zero_table_in : zero_table (A:=A) (W:=R) t = zero_table t.
Proof. unfold zero_table, touch_table, reachable. by rewrite Ht. Qed.
Lemma get_table_in i w u s : (∀ f a', allocate_frame (fa s) = Done (Some f, a') → R f = true) →
  get_or_create_table (W:=R) t i w u s = get_or_create_table t i w u s.
Proof using Ht.
  intros Hf. unfold get_or_create_table. rewrite read_entry_in. unfold mbind, M_bind.
  destruct (read_entry t i s) as [[e s1]|] eqn:E; [|done].
  assert (s1 = s) as ->.
  { unfold read_entry, touch_table in E. destruct (_ && _); [|done]. by injection E as _ <-. }
  destruct (has PRESENT e); [by rewrite write_entry_in|].
  unfold on_fa, zoom. destruct (allocate_frame (fa s)) as [[[f|] a']|] eqn:Ea; [|done|done].
  rewrite phys_to_virt_id. assert (R f = true) as Hf' by (by eapply Hf).
  replace (zero_table (W:=R) f) with (zero_table (A:=A) f).
  - destruct (zero_table f _) as [[[] s2]|]; [|done]. by rewrite write_entry_in.
  - unfold zero_table, touch_table, reachable. by rewrite Hf'.
Qed.
End inside.

Section budget.
Context {A : Type} `{HFA : FrameAllocSpec A} (B : Z) (K : Z → Prop) (R : Z → bool) (HR : covers R B).
Implicit Types a : A.
Implicit Types s : machine A.

(** The frames of [K] are in use and were not handed out, so they cannot be given back. *)
Definition reserved a : Prop := ∀ f, K f → fa_used a f = true ∧ fa_owned a f = false.
Definition room (k : nat) a : Prop := reserved a ∧ ∃ X : gset Z, (k ≤ size X)%nat ∧
  ∀ f, f ∈ X → 0 ≤ f < 2 ^ 32 ∧ f < B ∧ f mod 4096 = 0 ∧ fa_used a f = false.
(** Where the frames taken may be. *)
Definition lies_low (f : Z) : Prop := f < B ∧ ¬ K f.
Definition low a a' : Prop := ∀ f, fa_used a f = false → fa_used a' f = true → lies_low f.

Lemma room_mono k k' a : room k a → (k' ≤ k)%nat → room k' a.
Proof. intros (HK & X & HX & Hf) Hk. split; [done|]. exists X. split; [lia|done]. Qed.
Lemma low_refl a : low a a.
Proof. intros f H1 H2. congruence. Qed.
Lemma low_trans a a' a'' : low a a' → low a' a'' → low a a''.
Proof. intros H1 H2 f Hf Hf''. destruct (fa_used a' f) eqn:E; auto. Qed.

(** An allocator with room hands out a frame that was free. *)
Lemma room_alloc k a : fa_ok a → room (S k) a →
  ∃ f a', allocate_frame a = Done (Some f, a') ∧ fa_ok a' ∧ room k a' ∧ low a a' ∧ 0 ≤ f ∧ lies_low f.
Proof.
  intros Hok (HK & X & HX & Hf).
  assert (∃ g, g ∈ X) as [g Hg].
  { destruct (decide (X = ∅)) as [->|Hne]; [rewrite size_empty in HX; lia|]. by apply set_choose_L. }
  destruct (Hf g Hg) as (Hg1 & Hg2 & Hg3 & Hg4).
  destruct (fa_alloc a Hok) as [(f & a' & E & Hok' & Hf0 & _ & Hfree & _ & Hu & Ho)|[_ Hn]]; [|by rewrite Hn in Hg4].
  assert (∀ g, K g → g ≠ f) as HKf by (intros x Hx ->; destruct (HK f Hx); congruence).
  assert (f < B) as HfB.
  { destruct (decide (g < f)); [|lia]. rewrite (fa_alloc_lowest a f a' Hok E g) in Hg4 by (done || lia). done. }
  exists f, a'. split; [done|]. split; [done|]. split; [split|split; [|split; [lia|]]].
  - intros x Hx. rewrite Hu, Ho by (by apply HKf). case_decide; [by destruct (HKf x)|]. by apply HK.
  - clear HK HKf. exists (X ∖ {[f]}). split.
    + rewrite size_difference_alt. assert (size (X ∩ {[f]}) ≤ 1)%nat; [|lia].
      rewrite <- (size_singleton (C:=gset Z) f). apply subseteq_size, intersection_subseteq_r.
    + intros x [Hx Hne]%elem_of_difference. rewrite elem_of_singleton in Hne. destruct (Hf x Hx) as (? & ? & ? & ?).
      by rewrite Hu, decide_False.
  - intros x Hx. rewrite Hu. case_decide; [|congruence]. subst. intros _. split; [done|]. intros Hx'. by destruct (HKf f).
  - split; [done|]. intros Hx'. by destruct (HKf f).
Qed.

(** Giving a frame back does not shrink the room. *)
Lemma room_free k a f : fa_ok a → 0 ≤ f → room k a →
  ∃ a', free_frame f a = Done ((), a') ∧ fa_ok a' ∧ room k a'.
Proof.
  intros Hok Hf0 (HK & X & HX & Hf). destruct (fa_owned a f) eqn:Ho.
  - destruct (fa_free a f Hok Ho) as (a' & E & Hok' & Hu & Ho'). exists a'. split; [done|]. split; [done|]. split.
    { intros g Hg. destruct (HK g Hg). rewrite Hu, Ho'. case_decide; [congruence|done]. }
    exists X. split; [done|]. intros g Hg. destruct (Hf g Hg) as (? & ? & ? & ?). rewrite Hu. by case_decide.
  - exists a. split; [by apply fa_free_ignored|]. split; [done|]. split; [done|]. by exists X.
Qed.

(** ** Tables *)

Definition absent (m : pmem) (root : Z) (p : list Z) : nat :=
  match walk m root p with Some _ => 0 | None => 1 end.
(** The tables that do not exist yet on the way to the page of [v]. *)
Definition missing (root : Z) s (v : Z) : nat :=
  absent (mem s) root (take 1 (path4 v))
  + (absent (mem s) root (take 2 (path4 v)) + absent (mem s) root (take 3 (path4 v))).
(** The tables of the tree at [root] lie below [B], outside [K]. *)
Definition low_tables (root : Z) s : Prop :=
  ∀ q t, path_ok q → (length q ≤ 3)%nat → walk (mem s) root q = Some t → lies_low t.

Lemma low_tables_grow root s s' : low_tables root s → tables_grow root s s' → low (fa s) (fa s') →
  low_tables root s'.
Proof.
  intros Hl G Hlow q t Hq Hlen Hw. destruct (tg_new _ _ _ G q t Hq Hlen Hw) as [Hw'|Hf]; [by apply (Hl q)|].
  apply Hlow; [done|]. apply (wf_node _ _ _ (proj2 (tg_ok _ _ _ G)) q t Hq Hlen Hw).
Qed.

Lemma absent_grow root s s' q : tables_grow root s s' → path_ok q → (length q ≤ 3)%nat →
  (absent (mem s') root q ≤ absent (mem s) root q)%nat.
Proof.
  intros G Hq Hl. unfold absent. destruct (walk (mem s) root q) as [t|] eqn:E.
  - by rewrite (tg_keep _ _ _ G q t Hq Hl E).
  - destruct (walk (mem s') root q); lia.
Qed.

Lemma low_tables_in root s p t : vm_ok root s → low_tables root s → path_ok p → (length p ≤ 3)%nat →
  walk (mem s) root p = Some t → R t = true.
Proof using HR.
  intros Hok Hlt Hp Hl Hw. destruct (Hlt p t Hp Hl Hw) as [HtB _]. apply HR; [|done].
  by destruct (wf_node _ _ _ (proj2 Hok) p t Hp Hl Hw).
Qed.
(** Following an entry that is there takes no frame. *)
Lemma get_table_there t i w u s x : R t = true → 0 ≤ i < 512 → target (rd (mem s) (slot t i)) = Some x →
  get_or_create_table (W:=R) t i w u s = get_or_create_table t i w u s.
Proof.
  intros HRt Hi Ht. destruct (target_Some _ _ Ht) as [Hpr _]. unfold get_or_create_table.
  rewrite read_entry_in, !(bind_run _ _ _ _ _ (read_entry_run t i s Hi)), Hpr by done. by rewrite write_entry_in.
Qed.

Lemma get_table_cost root s p t i w u k : vm_ok root s → path_ok p → 0 ≤ i < 512 → (length p ≤ 2)%nat →
  walk (mem s) root p = Some t → low_tables root s → room (absent (mem s) root (p ++ [i]) + k) (fa s) → ∃ t' s',
    get_or_create_table t i w u s = Done (Ok t', s') ∧ tables_grow root s s' ∧
    walk (mem s') root (p ++ [i]) = Some t' ∧ room k (fa s') ∧ low (fa s) (fa s') ∧
    get_or_create_table (W:=R) t i w u s = Done (Ok t', s') ∧ low_tables root s'.
Proof using HR HFA.
  intros Hok Hp Hi Hl Hw Hlt Hr0.
  assert (R t = true) as HRt by (apply (low_tables_in root s p t); done || lia).
  cut (∃ t' s', get_or_create_table t i w u s = Done (Ok t', s') ∧ tables_grow root s s' ∧
    walk (mem s') root (p ++ [i]) = Some t' ∧ room k (fa s') ∧ low (fa s) (fa s') ∧
    get_or_create_table (W:=R) t i w u s = get_or_create_table t i w u s).
  { intros (t' & s' & E & G & W' & Hr' & L & E'). exists t', s'. rewrite E', E.
    do 6 (split; [done|]). by eapply low_tables_grow. }
  revert Hr0. unfold absent. rewrite walk_snoc, Hw. cbn [mbind option_bind].
  destruct (target (rd (mem s) (slot t i))) as [t'|] eqn:Ht; intros Hr.
  - destruct (get_table_run root s p t i w u t') as (s' & E & G & _ & Hfa & Hsame); try done.
    exists t', s'. split; [done|]. split; [done|]. rewrite Hsame, walk_snoc, Hw, Hfa. split; [done|].
    split; [done|]. split; [apply low_refl|]. by apply (get_table_there t i w u s t').
  - destruct (room_alloc k (fa s) (proj1 Hok) Hr) as (f & a' & Ea & _ & Hr' & Hlow & Hf0 & HfB & _).
    assert (R f = true) as HRf.
    { apply HR; [|done]. split; [|done]. destruct (fa_alloc (fa s) (proj1 Hok)) as [(f' & ? & E' & ? & ? & ? & _)|[E' _]];
        rewrite Ea in E'; [|done]. by injection E' as -> ->. }
    assert (get_or_create_table t i w u s
      = Done (Ok f, mkMachine a' (wr (PageTable_zero f (mem s)) (slot t i) (make_entry f w u)))) as E.
    { unfold get_or_create_table. rewrite (bind_run _ _ _ _ _ (read_entry_run t i s Hi)), (target_None _ Ht).
      rewrite (bind_run _ _ s (Some f) (mkMachine a' (mem s))) by (unfold on_fa, zoom; by rewrite Ea).
      rewrite (bind_run _ _ _ () (mkMachine a' (PageTable_zero f (mem s)))) by (by rewrite phys_to_virt_id).
      by rewrite (bind_run _ _ _ _ _ (write_entry_run t i _ _ Hi)). }
    destruct (create_table_run root s p t i w u Hok Hp Hi Hl Hw Ht) as [(b & s' & E' & G & _ & Hwb & _)|[_ En]];
      [|congruence].
    rewrite E in E'. injection E' as <- <-. eexists _, _. split; [exact E|]. do 4 (split; [done|]).
    apply get_table_in; [done|]. intros ? ? Ea'. rewrite Ea in Ea'. by injection Ea' as <- _.
Qed.

(** The messages of [map] other than the one for exhausted memory. *)
Definition map_errors : list string :=
  ["virtual address is not canonical"; "virtual address is not page aligned";
   "physical address is not page aligned"; "physical address exceeds supported page-table range";
   "virtual page is already mapped"].
Definition map_ok_or {C} (r : result C) : Prop :=
  match r with Ok _ => True | Err e => e ∈ map_errors end.

Lemma oom_not_error : "out of physical memory" ∉ map_errors.
Proof. apply (bool_decide_eq_false_1 _). reflexivity. Qed.
Lemma heap_oom_not_error : "out of physical memory for kernel heap" ∉ map_errors.
Proof. apply (bool_decide_eq_false_1 _). reflexivity. Qed.
Lemma already_error : "virtual page is already mapped" ∈ map_errors.
Proof. apply (bool_decide_eq_true_1 _). reflexivity. Qed.

(** [map] when its three tables are found or made. *)
Lemma map_steps (V : Z → bool) root v pa w u s s1 s2 s3 ta tb tc : map_args_ok v pa → V tc = true →
  (let '(i0, i1, i2, i3) := indexes v in
   get_or_create_table (W:=V) root i0 w u s = Done (Ok ta, s1) ∧
   get_or_create_table (W:=V) ta i1 w u s1 = Done (Ok tb, s2) ∧
   get_or_create_table (W:=V) tb i2 w u s2 = Done (Ok tc, s3) ∧ 0 ≤ i3 < 512) →
  page_table_map (W:=V) root v pa w u s =
    let i3 := (indexes v).2 in
    if has PRESENT (rd (mem s3) (slot tc i3)) then Done (Err "virtual page is already mapped", s3)
    else Done (Ok (), mkMachine (fa s3) (wr (mem s3) (slot tc i3) (make_entry pa w u))).
Proof.
  intros (Hc & Hva & Hpa & Hrange) HVc Hsteps. unfold page_table_map.
  rewrite Hc, Hva, Hpa, !Z.eqb_refl, (proj2 (Z.ltb_ge _ _)) by lia.
  destruct (indexes v) as [[[i0 i1] i2] i3]. destruct Hsteps as (E1 & E2 & E3 & H3). cbv beta iota zeta delta [negb snd].
  unfold try. rewrite (bind_run _ _ _ _ _ E1), phys_to_virt_id, (bind_run _ _ _ _ _ E2), phys_to_virt_id,
    (bind_run _ _ _ _ _ E3), phys_to_virt_id, read_entry_in by done.
  rewrite (bind_run _ _ _ _ _ (read_entry_run tc i3 s3 H3)). destruct (has PRESENT _); [done|].
  by rewrite write_entry_in, (bind_run _ _ _ _ _ (write_entry_run tc i3 _ s3 H3)).
Qed.

(** With room for the missing tables [map] does not run out of memory. *)
Lemma map_cost root s v pa w u k : vm_ok root s → low_tables root s → map_args_ok v pa →
  room (missing root s v + k) (fa s) →
  ∃ r s', page_table_map root v pa w u s = Done (r, s') ∧ map_result root s v pa r s' ∧
    map_ok_or r ∧ room k (fa s') ∧ low (fa s) (fa s') ∧ page_table_map (W:=R) root v pa w u s = Done (r, s').
Proof using HR HFA.
  intros Hok Hlt Hargs Hr. destruct (map_run root s v pa w u Hok Hargs) as (r & s' & E & HR').
  exists r, s'. split; [done|]. split; [done|].
  pose proof (path4_ok v) as Hpath. unfold missing, path4 in *.
  destruct (indexes v) as [[[i0 i1] i2] i3] eqn:Hi. cbn [take] in Hr.
  apply (path_ok_snoc [i0; i1; i2]) in Hpath as [P3 H3]. pose proof P3 as P2.
  apply (path_ok_snoc [i0; i1]) in P2 as [P2 H2]. pose proof P2 as P1. apply (path_ok_snoc [i0]) in P1 as [P1 H1].
  assert (0 ≤ i0 < 512) as H0 by (by apply Forall_cons in P1 as [? _]).
  destruct (get_table_cost root s [] root i0 w u (absent (mem s) root [i0; i1] + (absent (mem s) root [i0; i1; i2] + k)))
    as (a & s1 & E1 & G1 & W1 & R1 & L1 & F1 & T1); [done|constructor|done|simpl; lia|done|done|apply (room_mono _ _ _ Hr); simpl; lia|].
  pose proof (absent_grow root s s1 [i0; i1] G1 P2 ltac:(simpl; lia)).
  destruct (get_table_cost root s1 [i0] a i1 w u (absent (mem s) root [i0; i1; i2] + k))
    as (b & s2 & E2 & G2 & W2 & R2 & L2 & F2 & T2); [apply G1|done|done|simpl; lia|done|done|apply (room_mono _ _ _ R1); simpl; lia|].
  pose proof (absent_grow root s s2 [i0; i1; i2] (tables_grow_trans _ _ _ _ G1 G2) P3 ltac:(simpl; lia)).
  destruct (get_table_cost root s2 [i0; i1] b i2 w u k)
    as (c & s3 & E3 & G3 & W3 & R3 & L3 & F3 & T3); [apply G2|done|done|simpl; lia|done|done|apply (room_mono _ _ _ R2); simpl; lia|].
  pose proof (low_tables_in root s3 [i0; i1; i2] c (tg_ok _ _ _ G3) T3 P3 ltac:(simpl; lia) W3) as HRc.
  rewrite (map_steps everywhere root v pa w u s s1 s2 s3 a b c Hargs) in E by (by rewrite ?Hi).
  rewrite (map_steps R root v pa w u s s1 s2 s3 a b c Hargs) by (by rewrite ?Hi).
  pose proof (low_trans _ _ _ (low_trans _ _ _ L1 L2) L3) as L. cbv zeta in *.
  destruct (has PRESENT _); injection E as <- <-; split_and!; first [done|apply already_error].
Qed.

(** A page that is mapped has its tables, and so have the pages beside it. *)
Lemma missing_beside root s x v (j : nat) : leaf s root (path4 x) ≠ None → (j ≤ 3)%nat →
  take j (path4 v) = take j (path4 x) → (missing root s v ≤ 3 - j)%nat.
Proof.
  intros Hx Hj Ht.
  assert (∀ i, (i ≤ 3)%nat → absent (mem s) root (take i (path4 x)) = 0%nat) as Hthere.
  { intros i Hi. unfold absent. destruct (walk (mem s) root (take i (path4 x))) as [t|] eqn:E; [done|].
    destruct Hx. unfold leaf. rewrite <- (take_drop i (path4 x)), walk_app, E. done. }
  assert (∀ i, (i ≤ j)%nat → take i (path4 v) = take i (path4 x)) as Hi.
  { intros i Hi. rewrite <- (Nat.min_l i j Hi), <- !take_take, Ht. done. }
  assert (∀ q, (absent (mem s) root q ≤ 1)%nat) as H1.
  { intros q. unfold absent. destruct (walk _ _ _); lia. }
  unfold missing. pose proof (H1 (take 1 (path4 v))). pose proof (H1 (take 2 (path4 v))).
  pose proof (H1 (take 3 (path4 v))).
  destruct (decide (1 ≤ j)%nat) as [H4|]; [rewrite (Hi 1%nat H4), (Hthere 1%nat) by lia|];
  (destruct (decide (2 ≤ j)%nat) as [H5|]; [rewrite (Hi 2%nat H5), (Hthere 2%nat) by lia|]);
  (destruct (decide (3 ≤ j)%nat) as [H6|]; [rewrite (Hi 3%nat H6), (Hthere 3%nat) by lia|]); lia.
Qed.
Lemma missing_most root s v : (missing root s v ≤ 3)%nat.
Proof.
  unfold missing, absent. repeat match goal with |- context [match ?w with Some _ => _ | None => _ end] => destruct w end; lia.
Qed.
Lemma missing_same root s s' v v' : mem s' = mem s → take 3 (path4 v') = take 3 (path4 v) →
  missing root s' v' = missing root s v.
Proof.
  intros Hm Ht. unfold missing. rewrite Hm.
  assert (∀ i, (i ≤ 3)%nat → take i (path4 v') = take i (path4 v)) as Hi.
  { intros i Hi. rewrite <- (Nat.min_l i 3 Hi), <- !take_take, Ht. done. }
  by rewrite !Hi by lia.
Qed.
(** The pages of 2 MiB share their tables. *)
Lemma take3_path4 v v' : v / 2 ^ 21 = v' / 2 ^ 21 → take 3 (path4 v) = take 3 (path4 v').
Proof.
  intros Heq. rewrite !path4_arith. cbn [take].
  assert (∀ n x, 21 ≤ n → x / 2 ^ n = x / 2 ^ 21 / 2 ^ (n - 21)) as Hn.
  { intros n x Hn. rewrite Z.div_div, <- Z.pow_add_r by lia. f_equal. f_equal. lia. }
  rewrite !(Hn 39), !(Hn 30), Heq by lia. done.
Qed.
End budget.

Section specs.
Context {A : Type} `{HFA : FrameAllocSpec A} (B : Z) (K : Z → Prop) (R : Z → bool) (HR : covers R B).
Implicit Types s : machine A.

(** A table found on the way down is in the window. *)
Lemma descend_in root s p t i : vm_ok root s → low_tables B K root s → path_ok (p ++ [i]) → (length p ≤ 2)%nat →
  walk (mem s) root p = Some t → has PRESENT (rd (mem s) (slot t i)) = true →
  walk (mem s) root (p ++ [i]) = Some (entry_address (rd (mem s) (slot t i))) ∧
  R (entry_address (rd (mem s) (slot t i))) = true.
Proof using HR.
  intros Hok Hlt Hp Hl Hw Hpr. assert (walk (mem s) root (p ++ [i]) = Some (entry_address (rd (mem s) (slot t i)))) as Hw'.
  { rewrite walk_snoc, Hw. cbn [mbind option_bind]. unfold target. by rewrite Hpr. }
  split; [done|]. eapply (low_tables_in B K R HR root s (p ++ [i])); [done|done|done|rewrite length_app; simpl; lia|done].
Qed.
(** The branch where the entry is present; the other one ends both sides. *)
Ltac present_or_done E :=
  match goal with |- context [negb (has PRESENT ?e)] => destruct (has PRESENT e) eqn:E; [|done]; cbn [negb] end.
Lemma translate_in root s v : vm_ok root s → low_tables B K root s →
  page_table_translate (W:=R) root v s = page_table_translate root v s.
Proof using HR.
  intros Hok Hlt. unfold page_table_translate. destruct (is_canonical v); [|done]. cbn [negb].
  pose proof (path4_ok v) as Hpath. unfold path4 in Hpath. destruct (indexes v) as [[[i0 i1] i2] i3].
  apply (path_ok_snoc [i0; i1; i2]) in Hpath as [P3 H3]. pose proof P3 as P2.
  apply (path_ok_snoc [i0; i1]) in P2 as [P2 H2]. pose proof P2 as P1. apply (path_ok_snoc [i0]) in P1 as [P1 H1].
  assert (0 ≤ i0 < 512) as H0 by (by apply Forall_cons in P1 as [? _]).
  assert (R root = true) as HRr by (apply (low_tables_in B K R HR root s []); [done|done|constructor|simpl; lia|done]).
  rewrite read_entry_in, !(bind_run _ _ _ _ _ (read_entry_run root i0 s H0)), !phys_to_virt_id by done.
  present_or_done E0.
  destruct (descend_in root s [] root i0 Hok Hlt P1 ltac:(simpl; lia) eq_refl E0) as [W1 R1].
  rewrite read_entry_in, !(bind_run _ _ _ _ _ (read_entry_run _ i1 s H1)), !phys_to_virt_id by done.
  present_or_done E1. destruct (has HUGE_PAGE _); [done|].
  destruct (descend_in root s [i0] _ i1 Hok Hlt P2 ltac:(simpl; lia) W1 E1) as [W2 R2].
  rewrite read_entry_in, !(bind_run _ _ _ _ _ (read_entry_run _ i2 s H2)), !phys_to_virt_id by done.
  present_or_done E2. destruct (has HUGE_PAGE _); [done|].
  destruct (descend_in root s [i0; i1] _ i2 Hok Hlt P3 ltac:(simpl; lia) W2 E2) as [W3 R3].
  by rewrite read_entry_in.
Qed.
Lemma unmap_in root s v : vm_ok root s → low_tables B K root s →
  page_table_unmap (W:=R) root v s = page_table_unmap root v s.
Proof using HR.
  intros Hok Hlt. unfold page_table_unmap. destruct (is_canonical v); [|done]. cbn [negb].
  destruct (v mod PAGE_SIZE =? 0); [|done]. cbn [negb].
  pose proof (path4_ok v) as Hpath. unfold path4 in Hpath. destruct (indexes v) as [[[i0 i1] i2] i3].
  apply (path_ok_snoc [i0; i1; i2]) in Hpath as [P3 H3]. pose proof P3 as P2.
  apply (path_ok_snoc [i0; i1]) in P2 as [P2 H2]. pose proof P2 as P1. apply (path_ok_snoc [i0]) in P1 as [P1 H1].
  assert (0 ≤ i0 < 512) as H0 by (by apply Forall_cons in P1 as [? _]).
  assert (R root = true) as HRr by (apply (low_tables_in B K R HR root s []); [done|done|constructor|simpl; lia|done]).
  rewrite read_entry_in, !(bind_run _ _ _ _ _ (read_entry_run root i0 s H0)), !phys_to_virt_id by done.
  present_or_done E0.
  destruct (descend_in root s [] root i0 Hok Hlt P1 ltac:(simpl; lia) eq_refl E0) as [W1 R1].
  rewrite read_entry_in, !(bind_run _ _ _ _ _ (read_entry_run _ i1 s H1)), !phys_to_virt_id by done.
  present_or_done E1. destruct (has HUGE_PAGE _); [done|].
  destruct (descend_in root s [i0] _ i1 Hok Hlt P2 ltac:(simpl; lia) W1 E1) as [W2 R2].
  rewrite read_entry_in, !(bind_run _ _ _ _ _ (read_entry_run _ i2 s H2)), !phys_to_virt_id by done.
  present_or_done E2. destruct (has HUGE_PAGE _); [done|].
  destruct (descend_in root s [i0; i1] _ i2 Hok Hlt P3 ltac:(simpl; lia) W2 E2) as [W3 R3].
  rewrite read_entry_in, !(bind_run _ _ _ _ _ (read_entry_run _ i3 s H3)) by done.
  by rewrite write_entry_in.
Qed.

(** The four tables on the way to a mapped page. *)
Lemma path_in root s i0 i1 i2 i3 a : vm_ok root s → low_tables B K root s → path_ok [i0; i1; i2; i3] →
  walk (mem s) root [i0; i1; i2; i3] = Some a →
  let t1 := entry_address (rd (mem s) (slot root i0)) in let t2 := entry_address (rd (mem s) (slot t1 i1)) in
  let t3 := entry_address (rd (mem s) (slot t2 i2)) in R root = true ∧ R t1 = true ∧ R t2 = true ∧ R t3 = true.
Proof using HR.
  intros Hok Hlt Hpath Hw. cbv zeta.
  apply (path_ok_snoc [i0; i1; i2]) in Hpath as [P3 _]. pose proof P3 as P2.
  apply (path_ok_snoc [i0; i1]) in P2 as [P2 _]. pose proof P2 as P1. apply (path_ok_snoc [i0]) in P1 as [P1 _].
  assert (∀ t i q, walk (mem s) t (i :: q) = Some a → has PRESENT (rd (mem s) (slot t i)) = true ∧
    walk (mem s) (entry_address (rd (mem s) (slot t i))) q = Some a) as Hstep.
  { intros t i q Hq. cbn [walk] in Hq. unfold target in Hq. by destruct (has PRESENT _). }
  destruct (Hstep _ _ _ Hw) as [E0 Hw1]. destruct (Hstep _ _ _ Hw1) as [E1 Hw2]. destruct (Hstep _ _ _ Hw2) as [E2 _].
  split; [apply (low_tables_in B K R HR root s []); [done|done|constructor|simpl; lia|done]|].
  destruct (descend_in root s [] root i0 Hok Hlt P1 ltac:(simpl; lia) eq_refl E0) as [W1 R1].
  destruct (descend_in root s [i0] _ i1 Hok Hlt P2 ltac:(simpl; lia) W1 E1) as [W2 R2].
  by destruct (descend_in root s [i0; i1] _ i2 Hok Hlt P3 ltac:(simpl; lia) W2 E2) as [W3 R3].
Qed.

(** [map] of an unmapped page. *)
Lemma map_with_room root s v pa w u k : vm_ok root s → low_tables B K root s →
  room B K (missing root s v + k) (fa s) → map_args_ok v pa → in_u 64 v →
  translation root s v = None → ∃ s',
    page_table_map root v pa w u s = Done (Ok (), s') ∧ page_table_map (W:=R) root v pa w u s = Done (Ok (), s') ∧
    vm_ok root s' ∧ low_tables B K root s' ∧ room B K k (fa s') ∧
    ∀ x, in_u 64 x → translation root s' x =
      if decide (x / 4096 = v / 4096) then Some (pa + x mod 4096) else translation root s x.
Proof using HR HFA.
  intros Hok Hlt Hr Hargs Hv Hn.
  destruct (map_cost B K R HR root s v pa w u k Hok Hlt Hargs Hr) as (r & s' & E & HM & Hq & Hr' & Hl & ER).
  destruct Hargs as (Hc & Hm & _). rewrite translation_page in Hn by done.
  assert (tables_grow root s s') as G by (by inversion HM).
  inversion HM as [? _ _ Hnew Hother|? a Hs _ L|? _ _ L Ha]; subst.
  - exists s'. split; [done|]. split; [done|]. split; [apply G|]. split; [by eapply low_tables_grow|]. split; [done|]. intros x Hx.
    by apply (leaf_change_translation root s s' v (Some pa)).
  - congruence.
  - by apply oom_not_error in Hq.
Qed.

Lemma unmap_mapped root s v t : vm_ok root s → low_tables B K root s → in_u 64 v → is_canonical v = true →
  v mod 4096 = 0 → translation root s v = Some t → ∃ s',
    page_table_unmap root v s = Done (Ok t, s') ∧ page_table_unmap (W:=R) root v s = Done (Ok t, s') ∧ vm_ok root s' ∧ low_tables B K root s' ∧ fa s' = fa s ∧
    ∀ x, in_u 64 x → translation root s' x =
      if decide (x / 4096 = v / 4096) then None else translation root s x.
Proof.
  intros Hok Hlt Hv Hc Hm Ht. rewrite translation_page in Ht by done.
  pose proof (unmap_run root s v Hok Hc Hm) as HU. rewrite Ht in HU.
  destruct HU as (s' & E & Hfa & G & Hnone & Hother & _). exists s'. split; [done|].
  split; [by rewrite unmap_in|]. split; [apply G|].
  split; [eapply low_tables_grow; [done|done|rewrite Hfa; apply low_refl]|].
  split; [done|]. intros x Hx. by apply (leaf_change_translation root s s' v None).
Qed.

(** The pages of one table: at most its three tables are missing, and none after the first page. *)
Lemma identity_loop_cost n root a e w k s r s' : vm_ok root s → low_tables B K root s → a mod 4096 = 0 → 0 ≤ a → e ≤ 2 ^ 21 →
  room B K (missing root s 0 + k) (fa s) → identity_loop n root a e w s = Done (r, s') →
  room B K k (fa s') ∧ low B K (fa s) (fa s') ∧ map_ok_or r ∧ identity_loop (W:=R) n root a e w s = Done (r, s').
Proof using HR HFA.
  revert a s. induction n as [|n IH]; intros a s Hok Hlow Hm Ha He Hr E; cbn [identity_loop] in *.
  { injection E as <- <-. split; [by eapply room_mono; [exact Hr|lia]|]. split; [apply low_refl|done]. }
  destruct (Z.ltb_spec a e) as [Hlt|Hge].
  2:{ injection E as <- <-. split; [by eapply room_mono; [exact Hr|lia]|]. split; [apply low_refl|done]. }
  destruct (page_args_ok a Hm) as [Hargs Hc]; [lia|].
  assert (∀ x, 0 ≤ x < 2 ^ 21 → take 3 (path4 x) = take 3 (path4 0)) as H3.
  { intros x Hx. apply take3_path4. rewrite !Z.div_small by lia. done. }
  destruct (map_cost B K R HR root s a a w false k Hok Hlow Hargs) as (r1 & s1 & E1 & HM & Hq & Hr1 & Hl1 & F1).
  { by rewrite (missing_same root s s 0 a) by (done || apply H3; lia). }
  assert (tables_grow root s s1) as G1 by (by inversion HM). pose proof (tg_ok _ _ _ G1) as Hok1.
  unfold try in *. rewrite (bind_run _ _ _ _ _ E1) in E. rewrite (bind_run _ _ _ _ _ F1).
  destruct r1 as [[]|e1]; [|by injection E as <- <-].
  apply bind_inv in E as (a' & s2 & E2 & E).
  rewrite (bind_run _ _ _ _ _ E2).
  unfold lift in E2. destruct (add_u 64 a PAGE_SIZE) as [a2|] eqn:Ea; [|done]. injection E2 as -> ->.
  apply add_u_inv in Ea as ->. unfold PAGE_SIZE in *.
  destruct (IH (a + 4096) s2 Hok1) as (? & ? & ? & ?); [by eapply low_tables_grow| |lia|done| |done|].
  - change 4096 with (1 * 4096) at 1. by rewrite Z.mod_add.
  - assert (missing root s2 0 ≤ 3 - 3)%nat as H0; [|by eapply room_mono; [exact Hr1|lia]].
    eapply (missing_beside root s2 a 0); [|done|symmetry; apply H3; lia].
    inversion HM as [? _ _ Hnew| |]; subst. by rewrite Hnew.
  - split; [done|]. split; [by eapply low_trans|done].
Qed.

(** [identity_map] of the first pages of an empty address space. *)
Lemma identity_map_with_room root s n w k : vm_ok root s → low_tables B K root s → room B K (3 + k) (fa s) → (0 < n)%nat →
  4096 * Z.of_nat n ≤ 2 ^ 21 → (∀ x, in_u 64 x → translation root s x = None) → ∃ s',
    AddressSpace_identity_map (mkAddressSpace root) 0 (4096 * Z.of_nat n) w s = Done (Ok (), s') ∧
    AddressSpace_identity_map (W:=R) (mkAddressSpace root) 0 (4096 * Z.of_nat n) w s = Done (Ok (), s') ∧
    vm_ok root s' ∧ low_tables B K root s' ∧ room B K k (fa s') ∧
    ∀ x, in_u 64 x → translation root s' x = if decide (0 ≤ x < 4096 * Z.of_nat n) then Some x else None.
Proof.
  intros Hok Hlt Hr Hn Hmax Hempty. unfold AddressSpace_identity_map. change (PAGE_SIZE) with 4096.
  assert ((4096 * Z.of_nat n) mod 4096 = 0) as Hm by (rewrite Z.mul_comm; by apply Z.mod_mul).
  rewrite Z.mod_0_l, Hm, !Z.eqb_refl by lia. rewrite (proj2 (Z.leb_gt _ _)) by lia.
  cbv beta iota zeta delta [negb pml4_phys]. rewrite phys_to_virt_id.
  assert (Z.to_nat ((4096 * Z.of_nat n - 0 + 4096 - 1) / 4096) = n) as Hcount.
  { replace (4096 * Z.of_nat n - 0 + 4096 - 1) with (4095 + Z.of_nat n * 4096) by lia.
    rewrite Z.div_add by lia. change (4095 / 4096) with 0. lia. }
  destruct (identity_loop_run root s 0 (4096 * Z.of_nat n) w n 0 s Hcount)
    as (r & s' & b & E & Hok' & HI & Hb & Hmb & Hres); [done|done|lia|lia|done| |].
  { split; [by apply tables_grow_refl|intros; lia|done]. }
  rewrite Hcount. pose proof (missing_most root s 0).
  destruct (identity_loop_cost n root 0 (4096 * Z.of_nat n) w k s r s' Hok Hlt) as (Hr' & Hl & Hq & ER);
    [done|lia|done|by eapply room_mono; [exact Hr|lia]|done|].
  destruct r as [[]|e].
  - subst b. exists s'. split; [done|]. split; [done|]. split; [done|].
    split; [by eapply low_tables_grow; [|apply (ii_grow _ _ _ _ _ HI)|]|]. split; [done|]. intros x Hx.
    rewrite (identity_inv_translation root s 0 _ s' x HI) by (done || lia). case_decide; [done|auto].
  - exfalso. destruct Hres as (Hlt' & [[-> Hl']|[-> _]]); [|by apply oom_not_error in Hq].
    apply Hl'. destruct (page_args_ok b Hmb) as [_ Hc]; [lia|].
    rewrite <- translation_page by done. apply Hempty. unfold in_u. lia.
Qed.

(** A zeroed table in a frame just allocated is an empty address space. *)
Lemma new_table_with_room s k : fa_ok (fa s) → room B K (S k) (fa s) → ∃ root s1,
  on_fa allocate_frame s = Done (Some root, s1) ∧ zero_table root s1 = Done ((), mkMachine (fa s1) (PageTable_zero root (mem s1))) ∧
  AddressSpace_new s = Done (Ok (mkAddressSpace root), mkMachine (fa s1) (PageTable_zero root (mem s1))) ∧
  R root = true ∧ AddressSpace_new (W:=R) s = AddressSpace_new s ∧
  let s' := mkMachine (fa s1) (PageTable_zero root (mem s1)) in
  vm_ok root s' ∧ low_tables B K root s' ∧ room B K k (fa s') ∧ ∀ x, translation root s' x = None.
Proof.
  intros Hok Hr. destruct (room_alloc B K k (fa s) Hok Hr) as (f & a' & E & _ & Hr' & _ & Hf0 & HfB).
  assert (on_fa allocate_frame s = Done (Some f, mkMachine a' (mem s))) as Ea by (unfold on_fa, zoom; by rewrite E).
  destruct (AddressSpace_new_run s Hok) as [(root & s' & En & Hok' & _ & Hw & _)|[_ En]]; [|congruence].
  exists f, (mkMachine a' (mem s)). split; [done|]. split; [done|].
  assert (AddressSpace_new s = Done (Ok (mkAddressSpace f), mkMachine a' (PageTable_zero f (mem s)))) as En'.
  { unfold AddressSpace_new. rewrite (bind_run _ _ _ _ _ Ea), phys_to_virt_id. done. }
  rewrite En in En'. injection En' as -> ->. split; [done|].
  assert (R f = true) as HRf.
  { apply HR; [|apply HfB]. destruct (wf_node _ _ _ (proj2 Hok') [] f) as [? _]; [constructor|simpl; lia|done|done]. }
  split; [done|]. split.
  { unfold AddressSpace_new. rewrite !(bind_run _ _ _ _ _ Ea), phys_to_virt_id. by rewrite zero_table_in. }
  cbv zeta. split; [done|]. split; [|split; [done|]].
  - intros [|i q] t Hq _ Ht; [injection Ht as <-; apply HfB|]. by rewrite Hw in Ht.
  - intros x. unfold translation. destruct (is_canonical x); [|done]. unfold leaf.
    rewrite Hw; [done|apply path4_ok|]. intros Hp. by apply (f_equal length) in Hp.
Qed.

(** With room for a frame a page and for the missing tables, the heap's loop does not run out. *)
Lemma initialize_loop_with_room n root va m hs r hs' : vm_ok root (vm hs) → low_tables B K root (vm hs) →
  room B K (missing root (vm hs) va + n) (fa (vm hs)) → va mod 4096 = 0 → 0 ≤ va → va + 4096 * Z.of_nat n ≤ 2 ^ 46 →
  va / 2 ^ 21 = (va + 4096 * Z.of_nat n) / 2 ^ 21 →
  initialize_loop n root va m hs = Done (r, hs') →
  match r with
  | Ok _ => low_tables B K root (vm hs') ∧ initialize_loop (W:=R) n root va m hs = Done (r, hs')
  | Err e => e ∈ map_errors
  end.
Proof using HR HFA.
  revert va m hs. induction n as [|n IH]; intros va m hs Hok Hlt Hr Hm Hva Hmax H2M E; [by injection E as <- <-|].
  cbn [initialize_loop] in *. apply bind_inv in E as (frame & hs1 & E0 & E). pose proof E0 as (s1 & E1 & ->)%on_vm_inv.
  destruct (room_alloc B K (missing root (vm hs) va + n) _ (proj1 Hok)) as (f & a' & Ea & Hok1 & Hr1 & _);
    [by apply (room_mono _ _ _ _ _ Hr); lia|].
  destruct (fa_alloc (fa (vm hs)) (proj1 Hok)) as [(f' & a'' & Ea' & _ & Hf & Hfm & _ & _ & Hu & _)|[Ea' _]];
    rewrite Ea in Ea'; [|done]. injection Ea' as <- <-.
  assert (s1 = mkMachine a' (mem (vm hs)) ∧ frame = Some f) as [-> ->].
  { unfold on_fa, zoom in E1. rewrite Ea in E1. by injection E1 as <- <-. }
  assert (vm_ok root (mkMachine a' (mem (vm hs)))) as Hok1'.
  { split; [done|]. eapply pt_wf_mono; [apply Hok|]. intros t Ht. unfold inuse in *. cbn [fa]. rewrite Hu. by case_decide. }
  apply bind_inv in E as (r1 & hs2 & (s2 & E2 & ->)%on_vm_inv & E). cbn [vm heap] in E2.
  destruct (map_cost B K R HR root (mkMachine a' (mem (vm hs))) va f true false n)
    as (r1' & s2' & E2' & HM & Hq & Hr2 & Hl2 & F2); [done|exact Hlt| |done|].
  { split; [apply canonical_arith; [split; lia|lia]|]. split; [done|]. split; [done|]. unfold ADDRESS_MASK. lia. }
  rewrite E2 in E2'. injection E2' as <- <-.
  assert (tables_grow root (mkMachine a' (mem (vm hs))) s2) as G by (by inversion HM).
  destruct r1 as [[]|e].
  2:{ apply bind_inv in E as (? & ? & _ & E). apply bind_inv in E as (? & ? & _ & E). by injection E as <- <-. }
  apply bind_inv in E as (m' & hs3 & E3 & E). apply bind_inv in E as (va' & hs4 & E4 & E).
  rewrite (bind_run _ _ _ _ _ E0). cbv iota beta.
  erewrite bind_run by (unfold on_vm, zoom; cbn [vm]; by rewrite F2). cbv iota beta. cbn [heap].
  rewrite (bind_run _ _ _ _ _ E3), (bind_run _ _ _ _ _ E4).
  unfold lift in E3, E4. destruct (add_u 64 m 1), (add_u 64 va PAGE_SIZE) as [va2|] eqn:Eva; simplify_eq/=.
  apply add_u_inv in Eva as ->. unfold PAGE_SIZE in E.
  assert (va / 2 ^ 21 = (va + 4096) / 2 ^ 21) as Hnext.
  { apply Z.le_antisymm; [apply Z.div_le_mono; lia|]. rewrite H2M. apply Z.div_le_mono; lia. }
  eapply (IH (va + 4096) m' (mkHeapState (heap hs) s2)); [apply G| | | | | | |exact E]; cbn [vm].
  - eapply low_tables_grow; [|exact G|exact Hl2]. exact Hlt.
  - assert (missing root s2 (va + 4096) ≤ 3 - 3)%nat; [|by apply (room_mono _ _ _ _ _ Hr2); lia].
    eapply (missing_beside root s2 va); [|done|by apply take3_path4].
    inversion HM as [? _ _ Hnew| |]; subst. by rewrite Hnew.
  - change 4096 with (1 * 4096) at 1. by rewrite Z.mod_add.
  - lia.
  - lia.
  - rewrite <- Hnext, H2M. f_equal. lia.
Qed.

Lemma heap_cost root s pages r hs' : vm_ok root s → low_tables B K root s →
  room B K (missing root s HEAP_START + Z.to_nat pages) (fa s) → 0 < pages → 4096 * pages < 2 ^ 21 →
  KernelHeap_initialize root pages (mkHeapState KernelHeap_new s) = Done (r, hs') →
  match r with
  | Ok _ => low_tables B K root (vm hs') ∧
      KernelHeap_initialize (W:=R) root pages (mkHeapState KernelHeap_new s) = Done (r, hs')
  | Err e => e ∈ map_errors
  end.
Proof using HR HFA.
  intros Hok Hlt Hr Hp Hfit E. assert (HEAP_SIZE = 16777216) as Hhs by done. assert (HEAP_START = 0x40000000) as Hst by done.
  assert (PAGE_SIZE = 4096) as Hps by done.
  unfold KernelHeap_initialize in E. apply bind_inv in E as (? & ? & [= <- <-] & E).
  cbn [heap KernelHeap_new initialized heap_size heap_start] in E.
  rewrite (proj2 (Z.eqb_neq pages 0)) in E by lia.
  unfold checked_mul in E. rewrite (proj2 (Z.ltb_lt (pages * PAGE_SIZE) _)) in E by lia.
  rewrite (proj2 (Z.ltb_ge HEAP_SIZE _)) in E by lia.
  apply bind_inv in E as (r1 & hs & E & E').
  apply initialize_loop_with_room in E; [|done|done|done|done|lia|lia|].
  2:{ assert ((HEAP_START + 4096 * Z.of_nat (Z.to_nat pages)) / 2 ^ 21 = 512) as ->; [|done].
      symmetry. apply (Z.div_unique _ _ _ (4096 * pages)); lia. }
  destruct r1 as [m|e']; [|by injection E' as <- <-].
  apply bind_inv in E' as ([] & hs1 & E1 & E'). injection E' as <- <-.
  injection E1 as <-. destruct E as [Hlt' E]. split; [exact Hlt'|]. unfold KernelHeap_initialize.
  rewrite (bind_run _ _ _ _ _ (eq_refl : get (mkHeapState KernelHeap_new s) = Done (_, _))).
  cbn [heap KernelHeap_new initialized heap_size heap_start]. rewrite (proj2 (Z.eqb_neq pages 0)) by lia.
  unfold checked_mul. rewrite (proj2 (Z.ltb_lt (pages * PAGE_SIZE) _)), (proj2 (Z.ltb_ge HEAP_SIZE _)) by lia.
  by rewrite (bind_run _ _ _ _ _ E).
Qed.

(** [initialize] of four heap pages that are not mapped. *)
Lemma heap_with_room root s pages : vm_ok root s → low_tables B K root s →
  room B K (missing root s HEAP_START + Z.to_nat pages) (fa s) → 0 < pages → 4096 * pages < 2 ^ 21 →
  (∀ k, 0 ≤ k < pages → translation root s (HEAP_START + 4096 * k) = None) →
  ∃ s' fs, KernelHeap_initialize root pages (mkHeapState KernelHeap_new s)
      = Done (Ok (), mkHeapState (mkKernelHeap HEAP_START HEAP_SIZE pages true) s') ∧
    KernelHeap_initialize (W:=R) root pages (mkHeapState KernelHeap_new s)
      = Done (Ok (), mkHeapState (mkKernelHeap HEAP_START HEAP_SIZE pages true) s') ∧ vm_ok root s' ∧ low_tables B K root s' ∧
    Z.of_nat (length fs) = pages ∧ NoDup fs ∧
    (∀ k f off, fs !! k = Some f → 0 ≤ off < 4096 →
       translation root s' (HEAP_START + 4096 * Z.of_nat k + off) = Some (f + off)) ∧
    (∀ x, in_u 64 x → ¬ (HEAP_START ≤ x < HEAP_START + 4096 * pages) → translation root s' x = translation root s x).
Proof.
  intros Hok Hlt Hr Hp Hfit Hn. assert (HEAP_SIZE = 16777216) as Hhs by done. assert (HEAP_START = 0x40000000) as Hst by done.
  destruct (heap_initialize_run root s pages Hok Hp) as (r & h' & s' & E & HH); [unfold PAGE_SIZE; lia|].
  pose proof (heap_cost root s pages r _ Hok Hlt Hr Hp Hfit E) as Hq.
  destruct r as [[]|e].
  - destruct Hq as [Hlt' ER]. destruct HH as (-> & fs & Hlen & HG). exists s', fs. split; [done|]. split; [done|].
    split; [apply HG|]. split; [exact Hlt'|]. split; [done|].
    pose proof (rg_nodup _ _ _ _ _ HG) as Hnd. simpl in Hnd. rewrite region_pages_frames in Hnd. split; [done|]. split.
    + intros k f off Hk Hoff. pose proof (lookup_lt_Some _ _ _ Hk).
      destruct (region_translates root s s' HEAP_START fs k f Hok HG) as [_ HT]; [done|lia|unfold PAGE_SIZE in *; lia|done|].
      symmetry. apply translates_iff; [apply HG|]. by apply HT.
    + intros x Hx Hout. unfold translation. destruct (is_canonical x) eqn:Hc; [|done]. f_equal.
      apply (rg_rest _ _ _ _ _ HG); [apply path4_ok|done|]. intros (v & Hv & Hin)%list_elem_of_fmap.
      apply region_pages_paths in Hin as (k & Hk & ->). unfold PAGE_SIZE in *.
      apply path4_inj in Hv; [|done|split; lia|done|apply canonical_arith; [split; lia|lia]].
      pose proof (Z.div_mod x 4096 ltac:(lia)). pose proof (Z.mod_pos_bound x 4096 ltac:(lia)).
      rewrite Hst in *. replace (0x40000000 + 4096 * Z.of_nat k) with ((0x40000 + Z.of_nat k) * 4096) in Hv by lia.
      rewrite Z.div_mul in Hv by lia. lia.
  - exfalso. destruct HH as (_ & _ & He).
    destruct He as [->|[->|[_ (k & Hk & Hl)]]].
    + by apply heap_oom_not_error in Hq.
    + by apply oom_not_error in Hq.
    + unfold PAGE_SIZE in *. apply Hl.
      rewrite <- translation_page; [apply Hn; lia|apply canonical_arith; [split|]; lia|].
      by rewrite Hst, Z.mul_comm, Z.mod_add by lia.
Qed.
End specs.

(** ** The room a memory map gives *)

(** [n] consecutive frames from frame [b]: inside a usable entry of the map,
    above the first MiB, in the first 4 GiB and clear of the kernel. *)
Definition free_region (mm : list MemoryMapEntry) (kernel_start kernel_end b : Z) (n : nat) : Prop :=
  (∃ e, e ∈ mm ∧ entry_type e = 1 ∧ base_addr e + entry_length e < 2 ^ 64 ∧
     base_addr e ≤ b * FRAME_SIZE ∧ (b + Z.of_nat n) * FRAME_SIZE ≤ base_addr e + entry_length e) ∧
  0x100000 ≤ b * FRAME_SIZE ∧ b + Z.of_nat n ≤ MAX_FRAMES ∧
  (kernel_end ≤ b * FRAME_SIZE ∨ (b + Z.of_nat n) * FRAME_SIZE ≤ kernel_start).

(** The frames that hold the kernel. *)
Definition kernel_frame (kernel_start kernel_end f : Z) : Prop := kernel_start < f + FRAME_SIZE ∧ f < kernel_end.

(** Frames that are in use after [initialize] stay so: none is handed out yet. *)
Lemma boot_reserved mm kernel_start kernel_end (K : Z → Prop) s U n : view s U (λ _, false) n →
  (∀ f, 0 ≤ f < MAX_FRAMES → U f = boot_used mm kernel_start kernel_end f) →
  (∀ f, 0 ≤ f < MAX_FRAMES → K (f * FRAME_SIZE) → boot_used mm kernel_start kernel_end f = true) → reserved K s.
Proof.
  intros HV HU HK f Hf. cbn [fa_used fa_owned FrameAllocator_spec]. unfold FrameAllocator_used, FrameAllocator_owned.
  case_decide as Hd; [|done]. pose proof (frame_addr_div f Hd) as [Hr Hfeq].
  rewrite (view_used _ _ _ _ _ HV), (view_alloced _ _ _ _ _ HV), HU by done. split; [|done].
  apply HK; [done|]. by rewrite <- Hfeq.
Qed.
Lemma kernel_used mm kernel_start kernel_end f : kernel_frame kernel_start kernel_end (f * FRAME_SIZE) →
  boot_used mm kernel_start kernel_end f = true.
Proof.
  intros [Hf1 Hf2]. apply not_false_is_true. intros (_ & _ & Hk)%boot_used_false. unfold FRAME_SIZE in *. lia.
Qed.

Lemma initialize_room mm kernel_start kernel_end (K : Z → Prop) b n s : Forall entry_ok mm → 0 ≤ kernel_start →
  0 ≤ kernel_end ≤ 2 ^ 64 - FRAME_SIZE → free_region mm kernel_start kernel_end b n →
  (∀ f, 0 ≤ f < MAX_FRAMES → K (f * FRAME_SIZE) → boot_used mm kernel_start kernel_end f = true) →
  ∃ s', FrameAllocator_initialize mm kernel_start kernel_end s = Done ((), s') ∧ fa_ok s' ∧
    room ((b + Z.of_nat n) * FRAME_SIZE) K n s'.
Proof.
  intros Hmm Hks Hke ((e & He & Ht & Hlen & Hb1 & Hb2) & Hlow & Hmax & Hk) HK.
  destruct (initialize_run mm kernel_start kernel_end s Hmm Hks Hke) as (s' & U & E & HI & HU).
  exists s'. split; [done|]. split; [by eapply fa_inv_ok|]. destruct HI as [HV _].
  split; [by eapply boot_reserved|]. unfold FRAME_SIZE in *.
  exists (list_to_set ((λ i, (b + Z.of_nat i) * 4096) <$> seq 0 n)). split.
  - rewrite size_list_to_set, length_fmap, length_seq; [done|].
    apply NoDup_fmap_2_strong; [|apply NoDup_seq]. intros i j _ _ Hij. lia.
  - intros f (i & -> & Hi%elem_of_seq)%elem_of_list_to_set%list_elem_of_fmap.
    pose proof MAX_FRAMES_val as Hm. split; [lia|]. split; [lia|]. split; [by apply Z.mod_mul|].
    change (FrameAllocator_used s' ((b + Z.of_nat i) * 4096) = false). unfold FrameAllocator_used.
    rewrite decide_True by (apply frame_addr_frame; lia). unfold FRAME_SIZE. rewrite Z.div_mul by lia.
    rewrite (view_used _ _ _ _ _ HV), HU by lia. apply boot_used_false. unfold FRAME_SIZE.
    split; [|lia]. exists e. split; [done|]. split; [done|]. split; [done|]. lia.
Qed.
