(* ===== verification/SpinLock.v ===== *)
(** * Spin locks (kernel/src/sync/spinlock.rs)

    The lock word and the data it protects, the operations of [SpinLock] and
    of its guard, and two views of them: [with_lock] runs a critical section
    when nobody else runs, which is how the object table and the IPC manager
    use the lock; [cstep] interleaves any number of threads, each access to
    the lock word or the data being one step. *)

From S2P Require Import Prelude.
Local Open Scope Z_scope.

Record SpinLock (T : Type) := mkSpinLock { locked : bool; data : T }.
Arguments mkSpinLock {T}.
Arguments locked {T}.
Arguments data {T}.

Section ops.
Context {T : Type}.

Definition SpinLock_new (value : T) : SpinLock T := mkSpinLock false value.

(** [locked.compare_exchange(current, new, ..).is_ok()]. *)
Definition compare_exchange (current new : bool) : M (SpinLock T) bool := λ s,
  if Bool.eqb (locked s) current then Done (true, mkSpinLock new (data s)) else Done (false, s).

(** [n] rounds of the loop of [lock] with nobody else running. *)
Fixpoint lock_spin (n : nat) : M (SpinLock T) bool :=
  match n with
  | O => mret false
  | S k => ok ← compare_exchange false true; if (ok : bool) then mret true else lock_spin k
  end.

(** [lock] when nobody else runs: the first attempt decides ([lock_spin_first]). *)
Definition SpinLock_lock : M (SpinLock T) unit :=
  ok ← compare_exchange false true;
  if (ok : bool) then mret () else panic SpinForever.

Definition SpinLock_try_lock : M (SpinLock T) bool := compare_exchange false true.
Definition SpinLock_is_locked (self : SpinLock T) : bool := locked self.

(** The guard: [*guard], [*guard = value] and its drop. *)
Definition guard_deref : M (SpinLock T) T := λ s, Done (data s, s).
Definition guard_deref_mut (value : T) : M (SpinLock T) unit := λ s,
  Done ((), mkSpinLock (locked s) value).
Definition guard_drop : M (SpinLock T) unit := λ s, Done ((), mkSpinLock false (data s)).

(** [let guard = self.lock(); body]: the guard is dropped when the function
    returns, on whichever path. *)
Definition with_lock {B} (body : M T B) : M (SpinLock T) B :=
  SpinLock_lock ;;
  b ← zoom data (λ d s, mkSpinLock (locked s) d) body;
  guard_drop ;;
  mret b.

Lemma lock_spin_first n s : lock_spin (S n) s = Done (negb (locked s), mkSpinLock true (data s)).
Proof.
  destruct s as [[] d]; [|done]. induction n as [|n IH]; [done|].
  by change (lock_spin (S (S n)) (mkSpinLock true d)) with (lock_spin (S n) (mkSpinLock true d)).
Qed.

Lemma with_lock_run {B} (body : M T B) s b d' : locked s = false →
  body (data s) = Done (b, d') → with_lock body s = Done (b, mkSpinLock false d').
Proof.
  destruct s as [l d]. simpl. intros -> E. unfold with_lock.
  rewrite (bind_run _ _ _ () (mkSpinLock true d)) by done.
  rewrite (bind_run _ _ _ b (mkSpinLock true d')); [done|].
  unfold zoom. simpl. by rewrite E.
Qed.

Lemma with_lock_held {B} (body : M T B) s : locked s = true →
  with_lock body s = Panicked SpinForever.
Proof. destruct s as [l d]. simpl. by intros ->. Qed.
End ops.

(** ** Interleaved threads

    A thread runs commands: take the lock with [lock] or with [try_lock],
    read the data through the guard, write it back changed, drop the guard.
    A failed [compare_exchange] leaves a [lock] spinning and makes a
    [try_lock] give up its command.  The log is ghost state: the operations
    whose write has happened, with their threads. *)

Section threads.
Context {T : Type}.

Record command := mkCommand { blocking : bool; op : T → T }.
Inductive pc := Outside | Entered | Loaded (x : T) | Stored.
Record thread := mkThread { todo : list command; at_ : pc }.
Record config := mkConfig {
  lk : SpinLock T;
  threads : list thread;
  log : list (nat * (T → T));
}.

Inductive tstep (lk : SpinLock T) : thread → SpinLock T → thread → list (T → T) → Prop :=
| step_acquire c cs lk' :
    compare_exchange false true lk = Done (true, lk') →
    tstep lk (mkThread (c :: cs) Outside) lk' (mkThread (c :: cs) Entered) []
| step_spin c cs lk' :
    blocking c = true → compare_exchange false true lk = Done (false, lk') →
    tstep lk (mkThread (c :: cs) Outside) lk' (mkThread (c :: cs) Outside) []
| step_give_up c cs lk' :
    blocking c = false → SpinLock_try_lock lk = Done (false, lk') →
    tstep lk (mkThread (c :: cs) Outside) lk' (mkThread cs Outside) []
| step_load c cs x lk' :
    guard_deref lk = Done (x, lk') →
    tstep lk (mkThread (c :: cs) Entered) lk' (mkThread (c :: cs) (Loaded x)) []
| step_store c cs x lk' :
    guard_deref_mut (op c x) lk = Done ((), lk') →
    tstep lk (mkThread (c :: cs) (Loaded x)) lk' (mkThread (c :: cs) Stored) [op c]
| step_drop c cs lk' :
    guard_drop lk = Done ((), lk') →
    tstep lk (mkThread (c :: cs) Stored) lk' (mkThread cs Outside) [].

Inductive cstep : config → config → Prop :=
| cstep_thread k ts l i t k' t' w :
    ts !! i = Some t → tstep k t k' t' w →
    cstep (mkConfig k ts l) (mkConfig k' (<[i := t']> ts) (l ++ ((i,.) <$> w))).

Definition start (d : T) (progs : list (list command)) : config :=
  mkConfig (SpinLock_new d) ((λ cs, mkThread cs Outside) <$> progs) [].
Definition finished (c : config) : Prop := Forall (λ t, todo t = []) (threads c).

(** ** Invariant *)

Definition inside (t : thread) : bool := match at_ t with Outside => false | _ => true end.
Definition pending (t : thread) : list command :=
  match at_ t with Stored => tail (todo t) | _ => todo t end.

(** [executed cs ops]: the commands [cs] were run in order; a [try_lock] may
    have been given up, a [lock] never. *)
Inductive executed : list command → list (T → T) → Prop :=
| executed_nil : executed [] []
| executed_run cs ops c : executed cs ops → executed (cs ++ [c]) (ops ++ [op c])
| executed_skip cs ops c : blocking c = false → executed cs ops → executed (cs ++ [c]) ops.

(** The operations of thread [i] in the log. *)
Definition log_of (i : nat) (l : list (nat * (T → T))) : list (T → T) :=
  snd <$> filter (λ e, e.1 = i) l.

Record inv (d : T) (progs : list (list command)) (c : config) : Prop := {
  iv_excl i j t u : threads c !! i = Some t → threads c !! j = Some u →
    inside t = true → inside u = true → i = j;
  iv_locked : locked (lk c) = true ↔ ∃ i t, threads c !! i = Some t ∧ inside t = true;
  iv_todo i t : threads c !! i = Some t → inside t = true → todo t ≠ [];
  iv_loaded i t x : threads c !! i = Some t → at_ t = Loaded x → x = data (lk c);
  iv_data : data (lk c) = foldl (λ d e, e.2 d) d (log c);
  iv_prog i t : threads c !! i = Some t → ∃ cs, progs !! i = Some (cs ++ pending t) ∧
    executed cs (log_of i (log c));
  iv_length : length (threads c) = length progs;
}.

Lemma inv_start d progs : inv d progs (start d progs).
Proof.
  assert (∀ i t, threads (start d progs) !! i = Some t →
    ∃ cs, progs !! i = Some cs ∧ t = mkThread cs Outside) as H.
  { intros i t. simpl. rewrite list_lookup_fmap. destruct (progs !! i) as [cs|]; simpl; [|done].
    intros [= <-]. by exists cs. }
  split.
  - intros i j t u Ht Hu Hi. by destruct (H i t Ht) as (cs & _ & ->).
  - split; [done|]. intros (i & t & Ht & Hi). by destruct (H i t Ht) as (cs & _ & ->).
  - intros i t Ht Hi. by destruct (H i t Ht) as (cs & _ & ->).
  - intros i t x Ht Hi. by destruct (H i t Ht) as (cs & _ & ->).
  - done.
  - intros i t Ht. destruct (H i t Ht) as (cs & Hcs & ->). exists []. split; [done|constructor].
  - simpl. by rewrite length_fmap.
Qed.

Lemma cas_inv (k : SpinLock T) b k' : compare_exchange false true k = Done (b, k') →
  b = negb (locked k) ∧ k' = mkSpinLock true (data k).
Proof. destruct k as [[] x]; unfold compare_exchange; simpl; by intros [= <- <-]. Qed.

(** How a step changes the lock word and who is inside. *)
Lemma tstep_inside k t k' t' w : tstep k t k' t' w →
  (inside t = false ∧ inside t' = true ∧ locked k = false ∧ locked k' = true) ∨
  (inside t' = inside t ∧ locked k' = locked k) ∨
  (inside t = true ∧ inside t' = false ∧ locked k' = false).
Proof.
  intros H. inversion H as [c cs k2 E|c cs k2 Hb E|c cs k2 Hb E|c cs x k2 E|c cs x k2 E|c cs k2 E];
    subst; unfold SpinLock_try_lock in *; try (apply cas_inv in E as [E ->]);
    try (unfold guard_deref, guard_deref_mut, guard_drop in E; injection E; intros; subst); simpl.
  - left. by destruct (locked k).
  - right; left. by destruct (locked k).
  - right; left. by destruct (locked k).
  - right; by left.
  - right; by left.
  - right; by right.
Qed.

(** How it changes the data, the value in hand and the remaining commands. *)
Lemma tstep_data k t k' t' w : tstep k t k' t' w →
  (∀ x, at_ t = Loaded x → x = data k) →
  data k' = foldl (λ d f, f d) (data k) w ∧ (∀ x, at_ t' = Loaded x → x = data k') ∧
  (inside t' = true → todo t' ≠ []) ∧ (w ≠ [] → inside t = true).
Proof.
  intros H Hx. inversion H as [c cs k2 E|c cs k2 Hb E|c cs k2 Hb E|c cs x k2 E|c cs x k2 E|c cs k2 E];
    subst; unfold SpinLock_try_lock in *; try (apply cas_inv in E as [E ->]);
    try (unfold guard_deref, guard_deref_mut, guard_drop in E; injection E; intros; subst);
    simpl in *; try done.
  - split; [done|]. split; [by intros x [= <-]|done].
  - by rewrite (Hx x eq_refl).
Qed.

Lemma tstep_pending k t k' t' w : tstep k t k' t' w → ∃ cs, pending t = cs ++ pending t' ∧
  ∀ cs0 l, executed cs0 l → executed (cs0 ++ cs) (l ++ w).
Proof.
  intros H. inversion H; subst; simpl; unfold pending; simpl;
    try (exists []; split; [done|]; intros; by rewrite !app_nil_r).
  - exists [c]. split; [done|]. intros cs0 l He. rewrite app_nil_r. by apply executed_skip.
  - exists [c]. split; [done|]. intros cs0 l He. by apply executed_run.
Qed.

Lemma log_of_app i j l w : log_of i (l ++ ((j,.) <$> w)) =
  log_of i l ++ (if decide (j = i) then w else []).
Proof.
  unfold log_of. rewrite filter_app, fmap_app. f_equal.
  destruct (decide (j = i)) as [Hd|Hd]; induction w as [|f w IH]; try done.
  - rewrite fmap_cons, filter_cons_True, fmap_cons, IH by done. done.
  - rewrite fmap_cons, filter_cons_False, IH by done. done.
Qed.

Lemma foldl_log d (l : list (nat * (T → T))) i w :
  foldl (λ d e, e.2 d) d (l ++ ((i,.) <$> w)) = foldl (λ d f, f d) (foldl (λ d e, e.2 d) d l) w.
Proof.
  rewrite foldl_app. generalize (foldl (λ d e, e.2 d) d l). clear.
  induction w as [|f w IH]; intros d; [done|]. simpl. apply IH.
Qed.

(** The lock word says whether somebody is inside, before and after a step. *)
Lemma lock_word (k k' : SpinLock T) (ts : list thread) i t t' :
  (locked k = true ↔ ∃ i t, ts !! i = Some t ∧ inside t = true) → ts !! i = Some t →
  (∀ a b u v, ts !! a = Some u → ts !! b = Some v → inside u = true → inside v = true → a = b) →
  (inside t = false ∧ inside t' = true ∧ locked k = false ∧ locked k' = true) ∨
  (inside t' = inside t ∧ locked k' = locked k) ∨
  (inside t = true ∧ inside t' = false ∧ locked k' = false) →
  locked k' = true ↔ ∃ j u, <[i := t']> ts !! j = Some u ∧ inside u = true.
Proof.
  intros Hlk Hi Hex Hin. assert (i < length ts)%nat as Hb by (by eapply lookup_lt_Some).
  assert (<[i := t']> ts !! i = Some t') as Hself by (by apply list_lookup_insert_eq).
  destruct Hin as [(_ & Ht' & _ & ->)|[[Hsame ->]|(Ht & Ht' & ->)]].
  - split; [|done]. by exists i, t'.
  - rewrite Hlk. split; intros (j & u & Hj & Hu).
    + destruct (decide (j = i)) as [->|Hne]; [exists i, t'; split; congruence|].
      exists j, u. by rewrite list_lookup_insert_ne.
    + destruct (decide (j = i)) as [->|Hne]; [exists i, t; split; congruence|].
      exists j, u. by rewrite list_lookup_insert_ne in Hj.
  - split; [done|]. intros (j & u & Hj & Hu). destruct (decide (j = i)) as [->|Hne]; [congruence|].
    rewrite list_lookup_insert_ne in Hj by done. by destruct Hne; apply (Hex j i u t).
Qed.

Lemma inv_step d progs c c' : inv d progs c → cstep c c' → inv d progs c'.
Proof.
  intros HI Hs. destruct Hs as [k ts l i t k' t' w Hi Hst].
  destruct HI as [Hex Hlk Htd Hld Hda Hpr Hlen]. simpl in *.
  assert (i < length ts)%nat as Hib by (by eapply lookup_lt_Some).
  pose proof (tstep_inside _ _ _ _ _ Hst) as Hin.
  destruct (tstep_data _ _ _ _ _ Hst) as (Hd' & Hx' & Ht' & Hw); [exact (λ x, Hld i t x Hi)|].
  assert (∀ j u, <[i := t']> ts !! j = Some u → (j = i ∧ u = t') ∨ (j ≠ i ∧ ts !! j = Some u)) as Hcase.
  { intros j u Hj. destruct (decide (j = i)) as [->|Hne]; [left|right].
    - rewrite list_lookup_insert_eq in Hj by done. by simplify_eq.
    - by rewrite list_lookup_insert_ne in Hj by done. }
  assert (∀ j u, j ≠ i → ts !! j = Some u → inside u = true → inside t' = true → False) as Hother.
  { intros j u Hne Hj Hu Ht. destruct Hin as [(Hto & _ & Hfree & _)|[[Hsame _]|(_ & Hout & _)]].
    - assert (locked k = true) by (apply Hlk; eauto). congruence.
    - apply Hne, (Hex j i u t); congruence.
    - congruence. }
  split; simpl.
  - intros a b u v Ha Hb Hu Hv.
    destruct (Hcase _ _ Ha) as [[-> ->]|[Hna Ha']], (Hcase _ _ Hb) as [[-> ->]|[Hnb Hb']]; eauto.
  - exact (lock_word k k' ts i t t' Hlk Hi Hex Hin).
  - intros a u Ha Hu. destruct (Hcase _ _ Ha) as [[-> ->]|[Hna Ha']]; eauto.
  - intros a u x Ha Hu. destruct (Hcase _ _ Ha) as [[-> ->]|[Hna Ha']]; [by apply Hx'|].
    rewrite Hd'. destruct w as [|f w]; [by apply (Hld a u)|]. exfalso.
    specialize (Hw ltac:(done)). apply Hna, (Hex a i u t); try done. unfold inside. by rewrite Hu.
  - by rewrite Hd', Hda, foldl_log.
  - intros a u Ha. destruct (Hcase _ _ Ha) as [[-> ->]|[Hna Ha']].
    + destruct (Hpr i t Hi) as (cs & Hcs & He). destruct (tstep_pending _ _ _ _ _ Hst) as (cs' & Hp & Hrun).
      exists (cs ++ cs'). rewrite <- app_assoc, <- Hp. split; [done|].
      rewrite log_of_app, decide_True by done. by apply Hrun.
    + destruct (Hpr a u Ha') as (cs & Hcs & He). exists cs. split; [done|].
      rewrite log_of_app, decide_False, app_nil_r by done. done.
  - by rewrite length_insert.
Qed.

Lemma inv_steps d progs c : rtc cstep (start d progs) c → inv d progs c.
Proof.
  intros Hr. pose proof (inv_start d progs) as HI. revert HI.
  induction Hr as [|x y z Hxy _ IH]; [done|]. intros HI. apply IH. by eapply inv_step.
Qed.

(** ** Progress *)

(** The work a thread has left: four steps a command, less those taken. *)
Definition work (t : thread) : nat :=
  4 * length (todo t) -
  match at_ t with Outside => 0 | Entered => 1 | Loaded _ => 2 | Stored => 3 end.

Lemma inside_works k t : inside t = true → todo t ≠ [] →
  ∃ k' t' w, tstep k t k' t' w ∧ (work t' < work t)%nat.
Proof.
  destruct t as [[|c cs] p]; [done|]. intros Hin _. unfold work.
  destruct p as [| |x|]; [done|..].
  - eexists _, _, _. split; [by eapply step_load|]. simpl. lia.
  - eexists _, _, _. split; [by eapply step_store|]. simpl. lia.
  - eexists _, _, _. split; [by eapply step_drop|]. simpl. lia.
Qed.

Lemma outside_works k t : locked k = false → at_ t = Outside → todo t ≠ [] →
  ∃ k' t' w, tstep k t k' t' w ∧ (work t' < work t)%nat.
Proof.
  destruct t as [[|c cs] p], k as [lw x]; [done|]. simpl. intros -> -> _.
  eexists _, _, _. split; [by eapply step_acquire|]. unfold work. simpl. lia.
Qed.

Lemma sum_insert (ts : list thread) i t t' : ts !! i = Some t → (work t' < work t)%nat →
  (sum_list (work <$> <[i := t']> ts) < sum_list (work <$> ts))%nat.
Proof.
  revert i. induction ts as [|u ts IH]; intros [|i] Hi Hw; simplify_eq/=; [lia|].
  specialize (IH i Hi Hw). lia.
Qed.

Lemma inv_progress d progs c : inv d progs c → ¬ finished c →
  ∃ c', cstep c c' ∧ (sum_list (work <$> threads c') < sum_list (work <$> threads c))%nat.
Proof.
  intros HI Hn. destruct c as [k ts l].
  assert (∃ i t k' t' w, ts !! i = Some t ∧ tstep k t k' t' w ∧ (work t' < work t)%nat)
    as (i & t & k' & t' & w & Hi & Hs & Hw).
  2:{ eexists. split; [by econstructor|]. simpl. by eapply sum_insert. }
  destruct (locked k) eqn:Hk.
  - destruct (proj1 (iv_locked _ _ _ HI) Hk) as (i & t & Hi & Hin). simpl in Hi.
    destruct (inside_works k t Hin (iv_todo _ _ _ HI i t Hi Hin)) as (k' & t' & w & Hs & Hw).
    exists i, t, k', t', w. done.
  - unfold finished in Hn. simpl in Hn. apply not_Forall_Exists in Hn; [|apply _].
    apply Exists_exists in Hn as (t & Ht & Hne). apply list_elem_of_lookup in Ht as [i Hi].
    assert (at_ t = Outside) as Ho.
    { destruct (inside t) eqn:E; [|by unfold inside in E; destruct (at_ t)].
      assert (locked k = true); [|congruence]. apply (iv_locked _ _ _ HI). eauto. }
    destruct (outside_works k t Hk Ho Hne) as (k' & t' & w & Hs & Hw).
    exists i, t, k', t', w. done.
Qed.

Lemma executed_blocking cs ops : executed cs ops → Forall (λ c, blocking c = true) cs →
  ops = op <$> cs.
Proof.
  induction 1 as [|cs ops c _ IH|cs ops c Hb _ IH]; [done|..]; intros HF;
    apply Forall_app in HF as [HF Hc]; apply Forall_cons in Hc as [Hc _].
  - rewrite fmap_app, IH by done. done.
  - congruence.
Qed.

(** C22: Mutual exclusion and no lost update.  Any number of threads run
    commands that take the lock, read the data, write it back changed and drop
    the guard, in any interleaving.  In every reachable state at most one
    thread holds a guard, and the lock word is set exactly when one does; the
    data is the initial value with the logged operations applied in the order
    of their writes; and the log holds, for each thread, the operations of the
    commands it has completed, in program order, where only a [try_lock] may
    have been given up. *)
Theorem spinlock_mutual_exclusion d progs c : rtc cstep (start d progs) c →
  (∀ i j t u, threads c !! i = Some t → threads c !! j = Some u →
     inside t = true → inside u = true → i = j) ∧
  (SpinLock_is_locked (lk c) = true ↔ ∃ i t, threads c !! i = Some t ∧ inside t = true) ∧
  data (lk c) = foldl (λ d e, e.2 d) d (log c) ∧
  (∀ i t, threads c !! i = Some t →
     ∃ cs, progs !! i = Some (cs ++ pending t) ∧ executed cs (log_of i (log c)) ∧
       (Forall (λ x, blocking x = true) cs → log_of i (log c) = op <$> cs)).
Proof.
  intros Hr. pose proof (inv_steps d progs c Hr) as HI.
  split; [apply HI|]. split; [apply HI|]. split; [apply HI|].
  intros i t Ht. destruct (iv_prog _ _ _ HI i t Ht) as (cs & Hcs & He).
  exists cs. split; [done|]. split; [done|]. by apply executed_blocking.
Qed.

(** Deadlock freedom: from every reachable state some continuation lets
    every thread finish all its commands, and then the lock is free. *)
Theorem spinlock_deadlock_free d progs c : rtc cstep (start d progs) c →
  ∃ c', rtc cstep c c' ∧ finished c' ∧ SpinLock_is_locked (lk c') = false.
Proof.
  intros Hr. pose proof (inv_steps d progs c Hr) as HI. clear Hr.
  remember (sum_list (work <$> threads c)) as n eqn:Hn. revert c Hn HI.
  induction n as [n IH] using lt_wf_ind. intros c -> HI.
  destruct (decide (finished c)) as [Hf|Hf].
  - exists c. split; [constructor|]. split; [done|]. unfold SpinLock_is_locked.
    destruct (locked (lk c)) eqn:E; [|done].
    apply (iv_locked _ _ _ HI) in E as (i & t & Hi & Hin).
    destruct (iv_todo _ _ _ HI i t Hi Hin). by eapply (Forall_lookup_1 _ _ _ _ Hf).
  - destruct (inv_progress _ _ _ HI Hf) as (c1 & Hs & Hlt).
    destruct (IH _ Hlt c1 eq_refl (inv_step _ _ _ _ HI Hs)) as (c' & Hr & HH).
    exists c'. split; [by eapply rtc_l|done].
Qed.
End threads.

(** Two threads adding one and two: a state in the middle of the first
    thread's update, which the second cannot enter. *)
Definition two_adders : list (list (command (T:=Z))) :=
  [[mkCommand true (Z.add 1)]; [mkCommand true (Z.add 2)]].
Definition adders_mid : config (T:=Z) :=
  mkConfig (mkSpinLock true 0)
    [mkThread [mkCommand true (Z.add 1)] (Loaded 0); mkThread [mkCommand true (Z.add 2)] Outside] [].

Lemma adders_mid_reachable : rtc cstep (start 0 two_adders) adders_mid.
Proof.
  eapply rtc_l; [eapply (cstep_thread _ _ _ 0%nat); [done|by eapply step_acquire]|].
  eapply rtc_l; [eapply (cstep_thread _ _ _ 1%nat); [done|by eapply step_spin]|].
  eapply rtc_l; [eapply (cstep_thread _ _ _ 0%nat); [done|by eapply step_load]|].
  simpl. constructor.
Qed.

Lemma spinlock_mutual_exclusion_witness :
  SpinLock_is_locked (lk adders_mid) = true ↔
  ∃ i t, threads adders_mid !! i = Some t ∧ inside t = true.
Proof. apply (spinlock_mutual_exclusion 0 two_adders adders_mid adders_mid_reachable). Defined.

Lemma spinlock_deadlock_free_witness :
  ∃ c', rtc cstep adders_mid c' ∧ finished c' ∧ SpinLock_is_locked (lk c') = false.
Proof. apply (spinlock_deadlock_free 0 two_adders adders_mid adders_mid_reachable). Defined.
