(* ===== verification/SlotTable.v ===== *)
(** * Tables of slots with generations

    The object table and the IPC manager keep their objects in a fixed array of
    slots behind a spin lock and name them by a handle that packs the slot's
    index and its generation.  This file holds what the two share: the packing,
    the finite map a slot array represents, the effect on it of filling and of
    clearing a slot, the guards every handle operation makes, and the cycle of
    generations. *)

From S2P Require Import Prelude SpinLock.
Local Open Scope Z_scope.

(** ** Handles *)

Record handle_codec (new : Z → Z → Z) (index gen_of : Z → Z) (valid : Z → bool) : Prop := {
  hc_index i g : in_u 32 i → index (new i g) = i;
  hc_gen i g : in_u 32 i → in_u 32 g → gen_of (new i g) = g;
  hc_in_u i g : in_u 32 i → in_u 32 g → in_u 64 (new i g);
  hc_eta h : in_u 64 h → new (index h) (gen_of h) = h;
  hc_nonneg h : 0 ≤ index h;
  hc_valid h : valid h = negb (h =? 0);
  hc_gen_0 : gen_of 0 = 0;
}.

(** [((generation as u64) << 32) | index as u64] and its two halves. *)
Lemma word_arith i g : in_u 32 i → Z.lor (Z.shiftl g 32) i = g * 2 ^ 32 + i.
Proof. intros Hi. rewrite Z.lor_comm, lor_shiftl by (done || lia). lia. Qed.

Lemma word_codec : handle_codec (λ i g, Z.lor (Z.shiftl g 32) i) (cast 32)
  (λ h, cast 32 (Z.shiftr h 32)) (λ h, negb (h =? 0)).
Proof.
  unfold cast. split; try done; unfold in_u.
  - intros i g Hi. rewrite word_arith, Z.add_comm, Z.mod_add by (done || lia). by apply Z.mod_small.
  - intros i g Hi Hg. rewrite word_arith, Z.shiftr_div_pow2, Z.add_comm, Z.div_add by (done || lia).
    rewrite Z.div_small, Z.add_0_l by done. by apply Z.mod_small.
  - intros i g Hi Hg. rewrite word_arith by done. lia.
  - intros h Hh. rewrite word_arith by (apply Z.mod_pos_bound; lia).
    rewrite Z.shiftr_div_pow2, (Z.mod_small (h / 2 ^ 32)) by
      (lia || (split; [apply Z.div_pos; lia|apply Z.div_lt_upper_bound; lia])).
    pose proof (Z.div_mod h (2 ^ 32)). lia.
  - intros h. apply Z.mod_pos_bound. lia.
Qed.

(** ** Generations

    [generation.wrapping_add(1)], with zero skipped: generations run through
    [1 .. 2^32 - 1] in a cycle. *)

Definition U32_MAX : Z := 2 ^ 32 - 1.
Definition next_generation (g : Z) : Z :=
  let g' := wrapping_add 32 g 1 in if g' =? 0 then 1 else g'.
Definition generation_after (g n : Z) : Z := (g - 1 + n) mod U32_MAX + 1.

Lemma next_generation_ok g : 1 ≤ next_generation g < 2 ^ 32.
Proof.
  unfold next_generation, wrapping_add. cbv zeta.
  pose proof (Z.mod_pos_bound (g + 1) (2 ^ 32)). zcases.
Qed.

Lemma generation_after_0 g : 1 ≤ g < 2 ^ 32 → generation_after g 0 = g.
Proof.
  intros Hg. unfold generation_after, U32_MAX. rewrite Z.add_0_r, Z.mod_small by lia. lia.
Qed.

Lemma next_generation_after g n : 0 ≤ n →
  next_generation (generation_after g n) = generation_after g (n + 1).
Proof.
  intros Hn. unfold next_generation, generation_after, U32_MAX, wrapping_add. cbv zeta.
  set (x := (g - 1 + n) mod (2 ^ 32 - 1)).
  assert (0 ≤ x < 2 ^ 32 - 1) as Hx by (apply Z.mod_pos_bound; lia).
  replace (g - 1 + (n + 1)) with (g - 1 + n + 1) by lia.
  rewrite <- (Z.add_mod_idemp_l (g - 1 + n)) by lia. fold x.
  destruct (decide (x = 2 ^ 32 - 2)) as [->|]; [done|].
  rewrite (Z.mod_small (x + 1) (2 ^ 32 - 1)), (Z.mod_small (x + 1 + 1) (2 ^ 32)) by lia.
  by rewrite (proj2 (Z.eqb_neq _ _)) by lia.
Qed.

Lemma generation_after_ne g n : 1 ≤ g < 2 ^ 32 → 1 ≤ n < U32_MAX → generation_after g n ≠ g.
Proof.
  unfold generation_after, U32_MAX. intros Hg Hn Heq.
  assert ((g - 1 + n) mod (2 ^ 32 - 1) = g - 1) as Heq' by lia.
  destruct (Z.lt_ge_cases (g - 1 + n) (2 ^ 32 - 1)).
  - rewrite Z.mod_small in Heq' by lia. lia.
  - replace (g - 1 + n) with ((g - 1 + n - (2 ^ 32 - 1)) + 1 * (2 ^ 32 - 1)) in Heq' by lia.
    rewrite Z.mod_add, Z.mod_small in Heq' by lia. lia.
Qed.

(** ** Slot arrays *)

Section slots.
Context {S C : Type} (new : Z → Z → Z) (index gen_of : Z → Z) (valid : Z → bool).
Context (HC : handle_codec new index gen_of valid).
(** A slot's flag, its generation and what it holds when occupied; the size of
    the array. *)
Context (occ : S → bool) (gen : S → Z) (content : S → option C) (N : Z) (HN : 0 ≤ N ≤ 2 ^ 16).
Implicit Types (l : list S) (s : S).

Definition slot_inv s : Prop :=
  1 ≤ gen s < 2 ^ 32 ∧ (occ s = true ↔ is_Some (content s)).
Definition slots_inv l : Prop := Z.of_nat (length l) = N ∧ Forall slot_inv l.

(** The live entries of the slots from index [i]. *)
Fixpoint entries (i : Z) (l : list S) : list (Z * C) :=
  match l with
  | [] => []
  | s :: rest =>
      match content s with
      | Some c => [(new i (gen s), c)]
      | None => []
      end ++ entries (i + 1) rest
  end.
Definition table l : gmap Z C := list_to_map (entries 0 l).

(** What a handle refers to. *)
Definition entry_at l (h : Z) : option C :=
  s ← l !! Z.to_nat (index h);
  if gen s =? gen_of h then content s else None.

Lemma entries_elem i l h c : (h, c) ∈ entries i l ↔
  ∃ k s, l !! k = Some s ∧ content s = Some c ∧ h = new (i + Z.of_nat k) (gen s).
Proof.
  revert i. induction l as [|s l IH]; intros i; simpl entries.
  { split; [by intros ?%not_elem_of_nil|]. intros (k & s & Hk & _). done. }
  rewrite elem_of_app, IH. split.
  - intros [Hin|(k & s' & Hk & Hr & ->)].
    + destruct (content s) as [r'|] eqn:E; [|by apply not_elem_of_nil in Hin].
      apply list_elem_of_singleton in Hin. simplify_eq. exists O, s.
      split; [done|]. split; [done|]. f_equal. lia.
    + exists (Datatypes.S k), s'. split; [done|]. split; [done|]. f_equal. lia.
  - intros ([|k] & s' & Hk & Hr & ->); simplify_eq/=.
    + left. rewrite Hr. apply list_elem_of_singleton. do 2 f_equal. lia.
    + right. exists k, s'. split; [done|]. split; [done|]. f_equal. lia.
Qed.

Lemma entries_nodup i l : 0 ≤ i → i + Z.of_nat (length l) ≤ 2 ^ 32 → NoDup (entries i l).*1.
Proof.
  revert i. induction l as [|s l IH]; intros i Hi Hl; simpl entries; [constructor|].
  rewrite fmap_app. simpl in Hl.
  apply NoDup_app. split; [|split; [|apply IH; lia]].
  - destruct (content s); [apply NoDup_singleton|constructor].
  - intros h Hh Hin. destruct (content s) as [r|]; [|by apply not_elem_of_nil in Hh].
    apply list_elem_of_singleton in Hh as ->.
    apply list_elem_of_fmap in Hin as ([h r'] & Heq & Hin). simpl in Heq. subst h.
    apply entries_elem in Hin as (k & s' & Hk & _ & Heq). apply lookup_lt_Some in Hk.
    apply (f_equal index) in Heq.
    rewrite !(hc_index _ _ _ _ HC) in Heq by (unfold in_u; lia). lia.
Qed.

Lemma table_lookup l h : slots_inv l →
  table l !! h = if decide (in_u 64 h) then entry_at l h else None.
Proof.
  intros [Hlen HF]. unfold table.
  assert (NoDup (entries 0 l).*1) as Hnd by (apply entries_nodup; lia).
  apply option_eq. intros r. rewrite <- elem_of_list_to_map by done.
  rewrite entries_elem. unfold entry_at. split.
  - intros (k & s & Hk & Hr & ->). pose proof (lookup_lt_Some _ _ _ Hk).
    destruct (Forall_lookup_1 _ _ _ _ HF Hk) as [Hg _].
    rewrite decide_True by (apply (hc_in_u _ _ _ _ HC); unfold in_u; lia).
    rewrite (hc_index _ _ _ _ HC), (hc_gen _ _ _ _ HC) by (unfold in_u; lia).
    rewrite Z.add_0_l, Nat2Z.id, Hk. simpl. by rewrite Z.eqb_refl.
  - case_decide as Hh; [|done]. intros (s & Hk & Hs)%bind_Some.
    destruct (Z.eqb_spec (gen s) (gen_of h)) as [Hg|]; [|done].
    eexists _, s. split; [exact Hk|]. split; [done|].
    rewrite Hg, Z2Nat.id, Z.add_0_l by apply (hc_nonneg _ _ _ _ HC).
    by rewrite (hc_eta _ _ _ _ HC).
Qed.

Lemma filter_id {B} (P : B → Prop) `{!∀ x, Decision (P x)} (k : list B) :
  Forall P k → filter P k = k.
Proof. induction 1; [done|]. rewrite filter_cons_True by done. by f_equal. Qed.

Lemma table_size l : slots_inv l → size (table l) = length (filter (λ s, occ s = true) l).
Proof.
  intros [Hlen HF]. unfold table.
  rewrite map_size_list_to_map by (apply entries_nodup; lia).
  clear Hlen. generalize 0. induction HF as [|s l [Hg Hs] HF IH]; intros i; [done|].
  simpl entries. rewrite length_app, IH. rewrite filter_cons.
  destruct (content s) as [c|]; case_decide as Ho; simpl; [done|..|done].
  - destruct Ho. apply Hs. eauto.
  - apply Hs in Ho as [? ?]. done.
Qed.

Lemma table_full l : slots_inv l → Forall (λ s, occ s = true) l → Z.of_nat (size (table l)) = N.
Proof. intros Hl Hall. rewrite table_size, filter_id by done. apply Hl. Qed.

(** Slots that advanced by at most one generation. *)
Definition slots_adv l l' : Prop := ∀ k s, l !! k = Some s →
  ∃ s', l' !! k = Some s' ∧ (gen s' = gen s ∨ gen s' = next_generation (gen s)).

Lemma slots_adv_refl l : slots_adv l l.
Proof. intros k s Hk. eauto. Qed.

Lemma slots_adv_update l k s s' : l !! k = Some s →
  (gen s' = gen s ∨ gen s' = next_generation (gen s)) → slots_adv l (<[k := s']> l).
Proof.
  intros Hk Hs' j u Hj. destruct (decide (j = k)) as [->|Hne].
  - exists s'. rewrite list_lookup_insert_eq by (by eapply lookup_lt_Some). split; congruence.
  - exists u. rewrite list_lookup_insert_ne by done. auto.
Qed.

(** ** Updates of one slot *)

Section updates.
Context (l : list S) (Hl : slots_inv l) (i : Z) (s : S).
Context (Hi : 0 ≤ i) (Hs : l !! Z.to_nat i = Some s).

Lemma slot_bound : i < N.
Proof. pose proof (lookup_lt_Some _ _ _ Hs). destruct Hl. lia. Qed.

Lemma slot_at_inv : slot_inv s.
Proof. destruct Hl as [_ HF]. by apply (Forall_lookup_1 _ _ _ _ HF Hs). Qed.

Lemma slots_inv_update s' : slot_inv s' → slots_inv (<[Z.to_nat i := s']> l).
Proof.
  intros Hs'. destruct Hl as [Hlen HF]. split; [by rewrite length_insert|].
  by apply Forall_insert.
Qed.

Lemma slot_handle_ok : in_u 64 (new i (gen s)).
Proof.
  pose proof slot_bound. destruct slot_at_inv. apply (hc_in_u _ _ _ _ HC); unfold in_u; lia.
Qed.

Lemma slot_handle_ne0 : new i (gen s) ≠ 0.
Proof.
  pose proof slot_bound. destruct slot_at_inv. intros Heq. apply (f_equal gen_of) in Heq.
  rewrite (hc_gen _ _ _ _ HC), (hc_gen_0 _ _ _ _ HC) in Heq by (unfold in_u; lia). lia.
Qed.

(** The entry of slot [i] under its own handle. *)
Lemma table_self : table l !! new i (gen s) = content s.
Proof.
  pose proof slot_bound. destruct slot_at_inv as [Hg _].
  rewrite table_lookup, decide_True by (exact Hl || apply slot_handle_ok). unfold entry_at.
  rewrite (hc_index _ _ _ _ HC), (hc_gen _ _ _ _ HC), Hs by (unfold in_u; lia).
  simpl. by rewrite Z.eqb_refl.
Qed.

(** An update of slot [i] only concerns handles with index [i]. *)
Lemma entry_at_update s' h : entry_at (<[Z.to_nat i := s']> l) h =
  if decide (index h = i)
  then (if gen s' =? gen_of h then content s' else None)
  else entry_at l h.
Proof.
  unfold entry_at. pose proof slot_bound. destruct Hl as [Hlen _].
  pose proof (hc_nonneg _ _ _ _ HC h).
  rewrite vec_lookup_set by lia. by case_decide.
Qed.

(** The two ways the tables change a slot: fill it, keeping the generation, and
    clear it. *)
Lemma table_set s' c : slot_inv s' → gen s' = gen s → content s' = Some c →
  slots_inv (<[Z.to_nat i := s']> l) ∧ slots_adv l (<[Z.to_nat i := s']> l) ∧
  table (<[Z.to_nat i := s']> l) = <[new i (gen s) := c]> (table l).
Proof.
  intros Hs' Hg' Hc. pose proof slot_bound. destruct slot_at_inv as [Hg _].
  pose proof (slots_inv_update s' Hs') as Hl'.
  split; [done|]. split; [apply (slots_adv_update l _ s); auto|].
  apply map_eq. intros h. rewrite table_lookup, lookup_insert, table_lookup by done.
  destruct (decide (new i (gen s) = h)) as [<-|Hne].
  - rewrite decide_True by apply slot_handle_ok. rewrite entry_at_update.
    rewrite (hc_index _ _ _ _ HC), (hc_gen _ _ _ _ HC) by (unfold in_u; lia).
    rewrite decide_True by done. by rewrite Hg', Z.eqb_refl.
  - case_decide as Hh; [|done]. rewrite entry_at_update. case_decide as Hi'; [|done].
    unfold entry_at. rewrite Hi', Hs. simpl. rewrite Hg'.
    destruct (Z.eqb_spec (gen s) (gen_of h)) as [Hgh|]; [|done].
    destruct Hne. by rewrite <- Hi', Hgh, (hc_eta _ _ _ _ HC).
Qed.

Lemma table_clear s' : slot_inv s' → content s' = None → gen s' = next_generation (gen s) →
  slots_inv (<[Z.to_nat i := s']> l) ∧ slots_adv l (<[Z.to_nat i := s']> l) ∧
  table (<[Z.to_nat i := s']> l) = delete (new i (gen s)) (table l).
Proof.
  intros Hs' Hc Hg'. pose proof slot_bound. destruct slot_at_inv as [Hg _].
  pose proof (slots_inv_update s' Hs') as Hl'.
  split; [done|]. split; [apply (slots_adv_update l _ s); auto|].
  apply map_eq. intros h. rewrite table_lookup, lookup_delete, table_lookup by done.
  case_decide as Hh; [|by case_decide]. rewrite entry_at_update, Hc.
  destruct (decide (new i (gen s) = h)) as [<-|Hne].
  - rewrite (hc_index _ _ _ _ HC), decide_True by (done || (unfold in_u; lia)).
    by destruct (_ =? _).
  - case_decide as Hi'; [|done]. unfold entry_at. rewrite Hi', Hs. simpl.
    destruct (Z.eqb_spec (gen s) (gen_of h)) as [Hgh|].
    + destruct Hne. by rewrite <- Hi', Hgh, (hc_eta _ _ _ _ HC).
    + by destruct (_ =? _).
Qed.
End updates.

(** ** The guards

    Every handle operation checks the handle, takes the lock and compares the
    slot: either the handle is stale and nothing happens, or the body runs on
    its slot. *)
Lemma guarded_run {B} (stale : B) (body : S → M (list S) B) h (t : SpinLock (list S)) :
  locked t = false → slots_inv (data t) → in_u 64 h →
  let run :=
    (if negb (valid h) then mret stale
     else if N <=? index h then mret stale
     else with_lock (
       slot ← vec_get (index h);
       if negb (occ slot) || negb (gen slot =? gen_of h)
       then mret stale else body slot)) t in
  (table (data t) !! h = None ∧ run = Done (stale, t)) ∨
  (∃ s c, table (data t) !! h = Some c ∧ data t !! Z.to_nat (index h) = Some s ∧
     content s = Some c ∧ occ s = true ∧ h = new (index h) (gen s) ∧ 0 ≤ index h < N ∧
     ∀ b l', body s (data t) = Done (b, l') → run = Done (b, mkSpinLock false l')).
Proof.
  destruct t as [lw l]. intros Hlk Hl Hh run. simpl in *. subst lw.
  rewrite table_lookup, decide_True by done. unfold entry_at.
  pose proof (hc_nonneg _ _ _ _ HC h) as Hi.
  pose proof Hl as [Hlen HF]. unfold run. clear run. rewrite (hc_valid _ _ _ _ HC).
  destruct (Z.eqb_spec h 0) as [->|_]; cbn [negb].
  { left. split; [|done].
    destruct (l !! Z.to_nat (index 0)) as [s|] eqn:Hs; [|done]. simpl.
    destruct (Forall_lookup_1 _ _ _ _ HF Hs) as [Hg _].
    by rewrite (hc_gen_0 _ _ _ _ HC), (proj2 (Z.eqb_neq _ _)) by lia. }
  destruct (Z.leb_spec N (index h)) as [Hge|Hlt].
  { left. split; [|done]. rewrite lookup_ge_None_2 by lia. done. }
  destruct (vec_lookup l (index h)) as [s Hs]; [lia|]. rewrite Hs. simpl.
  destruct (Forall_lookup_1 _ _ _ _ HF Hs) as [Hg Hrec].
  destruct (negb (occ s) || negb (gen s =? gen_of h)) eqn:Hcond.
  - left. split.
    + destruct (content s) as [c|]; [|by destruct (_ =? _)].
      rewrite (proj2 Hrec) in Hcond by eauto. by destruct (gen s =? gen_of h).
    + apply with_lock_run; [done|]. rewrite (bind_run _ _ _ _ _ (vec_get_run _ _ _ Hi Hs)).
      by rewrite Hcond.
  - right. apply orb_false_iff in Hcond as [Ho%negb_false_iff Hgen%negb_false_iff].
    rewrite Hgen. apply Z.eqb_eq in Hgen. destruct (proj1 Hrec Ho) as [c Hc].
    exists s, c. do 4 (split; [done|]). split; [by rewrite Hgen, (hc_eta _ _ _ _ HC)|].
    split; [lia|]. intros b l' Hb. apply with_lock_run; [done|].
    rewrite (bind_run _ _ _ _ _ (vec_get_run _ _ _ Hi Hs)).
    rewrite Ho, Hgen, Z.eqb_refl. exact Hb.
Qed.

(** [slot.occupied && slot.generation == handle.generation()] is the same check. *)
Lemma valid_guarded h (t : SpinLock (list S)) :
  (if negb (valid h) then mret false
   else if N <=? index h then mret false
   else with_lock (slot ← vec_get (index h); mret (occ slot && (gen slot =? gen_of h)))) t =
  (if negb (valid h) then mret false
   else if N <=? index h then mret false
   else with_lock (
     slot ← vec_get (index h);
     if negb (occ slot) || negb (gen slot =? gen_of h) then mret false else mret true)) t.
Proof.
  destruct (negb _); [done|]. destruct (_ <=? _); [done|]. unfold with_lock, mbind, M_bind, zoom.
  destruct (SpinLock_lock t) as [[[] [lw l]]|]; [|done]. simpl.
  destruct (vec_get (index h) l) as [[s l']|]; [|done].
  by destruct (occ s), (gen s =? gen_of h).
Qed.

(** ** Stale handles *)

(** Slot [k] has seen [n] clears since generation [g]. *)
Definition cleared (g : Z) (k : nat) l (n : Z) : Prop :=
  ∃ s, l !! k = Some s ∧ gen s = generation_after g n.

Lemma cleared_adv g k l l' n : 0 ≤ n → cleared g k l n → slots_adv l l' →
  ∃ n', n ≤ n' ≤ n + 1 ∧ cleared g k l' n'.
Proof.
  intros Hn (s & Hs & Hg) Had. destruct (Had k s Hs) as (s1 & Hs1 & [Hg1|Hg1]);
    [exists n|exists (n + 1)]; (split; [lia|]); exists s1; (split; [done|]); rewrite Hg1, Hg;
    [done|by apply next_generation_after].
Qed.

Lemma cleared_stale h l n : slots_inv l → in_u 64 h → 1 ≤ gen_of h < 2 ^ 32 →
  cleared (gen_of h) (Z.to_nat (index h)) l n → 1 ≤ n < U32_MAX → table l !! h = None.
Proof.
  intros Hl Hh Hg (s & Hs & Hgs) Hn. rewrite table_lookup, decide_True by done. unfold entry_at.
  rewrite Hs. simpl. rewrite (proj2 (Z.eqb_neq _ _)); [done|]. rewrite Hgs.
  by apply generation_after_ne.
Qed.
End slots.
