(* ===== verification/Objects.v ===== *)
(** * Kernel objects (kernel/src/objects/object.rs, table.rs)

    Handles, records and slots, and the operations of the object table, which
    keeps 64 slots behind a spin lock.  The abstract specification is a finite
    map from handles to records; the main theorem is that every operation of
    the table refines its abstract counterpart. *)

From S2P Require Import Prelude SpinLock SlotTable.
From stdpp Require Import pretty.
Local Open Scope Z_scope.

(** ** object.rs *)

Module ObjectType.
Inductive t := Process | Thread | AddressSpace | IpcEndpoint | File | Device | Event.

#[export] Instance eq_dec : EqDecision t.
Proof. solve_decision. Defined.

Definition name (self : t) : string :=
  match self with
  | Process => "PROCESS"
  | Thread => "THREAD"
  | AddressSpace => "ADDRESS SPACE"
  | IpcEndpoint => "IPC ENDPOINT"
  | File => "FILE"
  | Device => "DEVICE"
  | Event => "EVENT"
  end.
End ObjectType.

(** [ObjectHandle(u64)], transparent. *)
Definition ObjectHandle_INVALID : Z := 0.
Definition ObjectHandle_new (index generation : Z) : Z := Z.lor (Z.shiftl generation 32) index.
Definition ObjectHandle_index (self : Z) : Z := cast 32 self.
Definition ObjectHandle_generation (self : Z) : Z := cast 32 (Z.shiftr self 32).
Definition ObjectHandle_is_valid (self : Z) : bool := negb (self =? 0).
Definition ObjectHandle_raw (self : Z) : Z := self.

(** The [Debug] texts; [{:#018x}] is 0x and sixteen digits. *)
Definition hex_digit (d : Z) : Ascii.ascii := Ascii.ascii_of_N (Z.to_N (if d <? 10 then 48 + d else 87 + d)).
Fixpoint hex_digits (n : nat) (v : Z) : string :=
  match n with
  | O => EmptyString
  | S k => String (hex_digit (v / 16 ^ Z.of_nat k mod 16)) (hex_digits k v)
  end.
Definition ObjectType_fmt (self : ObjectType.t) : string := ObjectType.name self.
Definition ObjectHandle_fmt (self : Z) : string :=
  "ObjectHandle(0x" +:+ hex_digits 16 self +:+ ", index=" +:+ pretty (ObjectHandle_index self) +:+
  ", generation=" +:+ pretty (ObjectHandle_generation self) +:+ ")".

Record ObjectRecord := mkObjectRecord { object_type : ObjectType.t; references : Z }.
Definition ObjectRecord_new (object_type : ObjectType.t) : ObjectRecord :=
  mkObjectRecord object_type 1.

Record ObjectSlot := mkObjectSlot {
  occupied : bool;
  generation : Z;
  record : option ObjectRecord;
}.
Definition ObjectSlot_empty : ObjectSlot := mkObjectSlot false 1 None.
Definition ObjectSlot_is_free (self : ObjectSlot) : bool := negb (occupied self).
Definition ObjectSlot_clear (self : ObjectSlot) : ObjectSlot :=
  let g := wrapping_add 32 (generation self) 1 in
  mkObjectSlot false (if g =? 0 then 1 else g) None.

(** ** table.rs *)

Definition MAX_KERNEL_OBJECTS : Z := 64.

Abbreviation Slots := (list ObjectSlot).
(** The table is its lock with the slots inside. *)
Abbreviation ObjectTable := (SpinLock Slots).

Definition ObjectTable_new : ObjectTable := SpinLock_new (replicate 64 ObjectSlot_empty).

Fixpoint create_loop (n : nat) (index : Z) (ty : ObjectType.t) : M Slots (option Z) :=
  match n with
  | O => mret None
  | S k =>
      slot ← vec_get index;
      if ObjectSlot_is_free slot then
        vec_set index (mkObjectSlot true (generation slot) (Some (ObjectRecord_new ty))) ;;
        mret (Some (ObjectHandle_new index (generation slot)))
      else create_loop k (index + 1) ty
  end.

Definition ObjectTable_create (ty : ObjectType.t) : M ObjectTable (option Z) :=
  with_lock (create_loop (Z.to_nat MAX_KERNEL_OBJECTS) 0 ty).

Definition ObjectTable_is_valid (handle : Z) : M ObjectTable bool :=
  if negb (ObjectHandle_is_valid handle) then mret false
  else let index := ObjectHandle_index handle in
  if MAX_KERNEL_OBJECTS <=? index then mret false
  else with_lock (
    slot ← vec_get index;
    mret (occupied slot && (generation slot =? ObjectHandle_generation handle))).

Definition ObjectTable_get_type (handle : Z) : M ObjectTable (option ObjectType.t) :=
  if negb (ObjectHandle_is_valid handle) then mret None
  else let index := ObjectHandle_index handle in
  if MAX_KERNEL_OBJECTS <=? index then mret None
  else with_lock (
    slot ← vec_get index;
    if negb (occupied slot) || negb (generation slot =? ObjectHandle_generation handle)
    then mret None
    else mret (object_type <$> record slot)).

Definition ObjectTable_retain (handle : Z) : M ObjectTable bool :=
  if negb (ObjectHandle_is_valid handle) then mret false
  else let index := ObjectHandle_index handle in
  if MAX_KERNEL_OBJECTS <=? index then mret false
  else with_lock (
    slot ← vec_get index;
    if negb (occupied slot) || negb (generation slot =? ObjectHandle_generation handle)
    then mret false
    else match record slot with
    | Some r =>
        if references r =? U32_MAX then mret false
        else
          n ← lift (add_u 32 (references r) 1);
          vec_set index (mkObjectSlot (occupied slot) (generation slot)
                           (Some (mkObjectRecord (object_type r) n))) ;;
          mret true
    | None => mret false
    end).

Definition ObjectTable_release (handle : Z) : M ObjectTable bool :=
  if negb (ObjectHandle_is_valid handle) then mret false
  else let index := ObjectHandle_index handle in
  if MAX_KERNEL_OBJECTS <=? index then mret false
  else with_lock (
    slot ← vec_get index;
    if negb (occupied slot) || negb (generation slot =? ObjectHandle_generation handle)
    then mret false
    else match record slot with
    | Some r =>
        if references r =? 0 then mret false
        else
          n ← lift (sub_u (references r) 1);
          let slot' := mkObjectSlot (occupied slot) (generation slot)
                         (Some (mkObjectRecord (object_type r) n)) in
          vec_set index (if n =? 0 then ObjectSlot_clear slot' else slot') ;;
          mret true
    | None => mret true
    end).

Definition ObjectTable_destroy (handle : Z) : M ObjectTable bool :=
  if negb (ObjectHandle_is_valid handle) then mret false
  else let index := ObjectHandle_index handle in
  if MAX_KERNEL_OBJECTS <=? index then mret false
  else with_lock (
    slot ← vec_get index;
    if negb (occupied slot) || negb (generation slot =? ObjectHandle_generation handle)
    then mret false
    else vec_set index (ObjectSlot_clear slot) ;; mret true).

Definition ObjectTable_count : M ObjectTable Z :=
  with_lock (λ slots, Done (Z.of_nat (length (filter (λ s, occupied s = true) slots)), slots)).

(** ** The invariant and the abstraction *)

Lemma ObjectHandle_codec : handle_codec ObjectHandle_new ObjectHandle_index
  ObjectHandle_generation ObjectHandle_is_valid.
Proof. exact word_codec. Qed.

(** Every record counts at least one reference. *)
Definition record_ok (s : ObjectSlot) : Prop :=
  match record s with Some r => 1 ≤ references r < 2 ^ 32 | None => True end.
Definition slots_ok (l : Slots) : Prop :=
  slots_inv occupied generation record MAX_KERNEL_OBJECTS l ∧ Forall record_ok l.
(** Between operations the lock is free. *)
Definition table_ok (t : ObjectTable) : Prop := locked t = false ∧ slots_ok (data t).

(** The live objects. *)
Definition objects (l : Slots) : gmap Z ObjectRecord :=
  table ObjectHandle_new generation record l.

Lemma MAX_range : 0 ≤ MAX_KERNEL_OBJECTS ≤ 2 ^ 16.
Proof. unfold MAX_KERNEL_OBJECTS. lia. Qed.

Section updates.
Context (l : Slots) (Hl : slots_ok l) (i : Z) (s : ObjectSlot).
Context (Hi : 0 ≤ i) (Hs : l !! Z.to_nat i = Some s).

Lemma objects_set r' : 1 ≤ references r' < 2 ^ 32 →
  let s' := mkObjectSlot true (generation s) (Some r') in
  slots_ok (<[Z.to_nat i := s']> l) ∧ slots_adv generation l (<[Z.to_nat i := s']> l) ∧
  objects (<[Z.to_nat i := s']> l) = <[ObjectHandle_new i (generation s) := r']> (objects l).
Proof.
  intros Hr s'. destruct Hl as [Hinv Hrec].
  destruct (slot_at_inv _ _ _ _ _ Hinv _ _ Hs) as [Hg _].
  destruct (table_set _ _ _ _ ObjectHandle_codec _ _ _ _ MAX_range l Hinv i s Hi Hs s' r')
    as (Hinv' & Had & Ht); [by split|done|done|].
  split; [|done]. split; [done|]. by apply Forall_insert.
Qed.

Lemma objects_clear :
  slots_ok (<[Z.to_nat i := ObjectSlot_clear s]> l) ∧
  slots_adv generation l (<[Z.to_nat i := ObjectSlot_clear s]> l) ∧
  objects (<[Z.to_nat i := ObjectSlot_clear s]> l)
  = delete (ObjectHandle_new i (generation s)) (objects l).
Proof.
  destruct Hl as [Hinv Hrec].
  destruct (table_clear _ _ _ _ ObjectHandle_codec _ _ _ _ MAX_range l Hinv i s Hi Hs
    (ObjectSlot_clear s)) as (Hinv' & Had & Ht); [|done|done|].
  - split; [apply next_generation_ok|]. simpl. split; [done|by intros [? ?]].
  - split; [|done]. split; [done|]. by apply Forall_insert.
Qed.
End updates.

(** ** The abstract table *)

Inductive object_op :=
| Create (ty : ObjectType.t)
| IsValid (h : Z)
| GetType (h : Z)
| Retain (h : Z)
| Release (h : Z)
| Destroy (h : Z)
| Count.

Inductive object_res :=
| RHandle (h : option Z)
| RBool (b : bool)
| RType (ty : option ObjectType.t)
| RCount (n : Z).

Definition object_op_ok (op : object_op) : Prop :=
  match op with
  | IsValid h | GetType h | Retain h | Release h | Destroy h => in_u 64 h
  | _ => True
  end.

(** The operation of the code. *)
Definition table_op (op : object_op) : M ObjectTable object_res :=
  match op with
  | Create ty => r ← ObjectTable_create ty; mret (RHandle r)
  | IsValid h => r ← ObjectTable_is_valid h; mret (RBool r)
  | GetType h => r ← ObjectTable_get_type h; mret (RType r)
  | Retain h => r ← ObjectTable_retain h; mret (RBool r)
  | Release h => r ← ObjectTable_release h; mret (RBool r)
  | Destroy h => r ← ObjectTable_destroy h; mret (RBool r)
  | Count => r ← ObjectTable_count; mret (RCount r)
  end.

(** What it promises, on the map from live handles to records. *)
Inductive spec_op (m : gmap Z ObjectRecord) : object_op → object_res → gmap Z ObjectRecord → Prop :=
| spec_create ty h :
    m !! h = None → h ≠ ObjectHandle_INVALID →
    spec_op m (Create ty) (RHandle (Some h)) (<[h := mkObjectRecord ty 1]> m)
| spec_create_full ty :
    Z.of_nat (size m) = MAX_KERNEL_OBJECTS → spec_op m (Create ty) (RHandle None) m
| spec_is_valid h : spec_op m (IsValid h) (RBool (bool_decide (is_Some (m !! h)))) m
| spec_get_type h : spec_op m (GetType h) (RType (object_type <$> m !! h)) m
| spec_retain h r : m !! h = Some r → references r < U32_MAX →
    spec_op m (Retain h) (RBool true) (<[h := mkObjectRecord (object_type r) (references r + 1)]> m)
| spec_retain_max h r : m !! h = Some r → references r = U32_MAX →
    spec_op m (Retain h) (RBool false) m
| spec_retain_stale h : m !! h = None → spec_op m (Retain h) (RBool false) m
| spec_release h r : m !! h = Some r → 1 < references r →
    spec_op m (Release h) (RBool true) (<[h := mkObjectRecord (object_type r) (references r - 1)]> m)
| spec_release_last h r : m !! h = Some r → references r = 1 →
    spec_op m (Release h) (RBool true) (delete h m)
| spec_release_stale h : m !! h = None → spec_op m (Release h) (RBool false) m
| spec_destroy h r : m !! h = Some r → spec_op m (Destroy h) (RBool true) (delete h m)
| spec_destroy_stale h : m !! h = None → spec_op m (Destroy h) (RBool false) m
| spec_count : spec_op m Count (RCount (Z.of_nat (size m))) m.

(** ** Refinement *)

(** The guards of the handle operations: either the handle is stale and
    nothing happens, or the body runs on its slot. *)
Lemma object_guard {B} (stale : B) (body : ObjectSlot → M Slots B) h t :
  table_ok t → in_u 64 h →
  let run :=
    (if negb (ObjectHandle_is_valid h) then mret stale
     else if MAX_KERNEL_OBJECTS <=? ObjectHandle_index h then mret stale
     else with_lock (
       slot ← vec_get (ObjectHandle_index h);
       if negb (occupied slot) || negb (generation slot =? ObjectHandle_generation h)
       then mret stale else body slot)) t in
  (objects (data t) !! h = None ∧ run = Done (stale, t)) ∨
  (∃ s r, objects (data t) !! h = Some r ∧ data t !! Z.to_nat (ObjectHandle_index h) = Some s ∧
     record s = Some r ∧ occupied s = true ∧ h = ObjectHandle_new (ObjectHandle_index h) (generation s) ∧
     0 ≤ ObjectHandle_index h < Z.of_nat (length (data t)) ∧ 1 ≤ references r < 2 ^ 32 ∧
     ∀ b l', body s (data t) = Done (b, l') → run = Done (b, mkSpinLock false l')).
Proof.
  intros [Hlk [Hinv Hrec]] Hh run.
  destruct (guarded_run _ _ _ _ ObjectHandle_codec _ _ _ _ MAX_range stale body h t Hlk Hinv Hh)
    as [?|(s & r & Hm & Hs & Hr & Ho & Heta & Hi & E)]; [by left|].
  right. exists s, r. do 5 (split; [done|]). destruct Hinv as [-> _]. split; [done|].
  split; [|done]. pose proof (Forall_lookup_1 _ _ _ _ Hrec Hs) as HR. unfold record_ok in HR.
  by rewrite Hr in HR.
Qed.

Lemma create_loop_run l ty n i : slots_ok l → Z.of_nat n + i = 64 → 0 ≤ i →
  (∀ k s, l !! k = Some s → Z.of_nat k < i → occupied s = true) →
  (∃ h l', create_loop n i ty l = Done (Some h, l') ∧ slots_ok l' ∧ slots_adv generation l l' ∧
     objects l !! h = None ∧ h ≠ ObjectHandle_INVALID ∧
     objects l' = <[h := mkObjectRecord ty 1]> (objects l)) ∨
  (create_loop n i ty l = Done (None, l) ∧ Forall (λ s, occupied s = true) l).
Proof.
  intros Hl. pose proof Hl as [[Hlen HF] Hrec]. unfold MAX_KERNEL_OBJECTS in Hlen.
  revert i. induction n as [|n IH]; intros i Hn Hi Hbefore.
  { right. split; [done|]. apply Forall_lookup_2. intros k s Hk. apply (Hbefore k); [done|].
    pose proof (lookup_lt_Some _ _ _ Hk). lia. }
  destruct (vec_lookup l i) as [s Hs]; [lia|].
  cbn [create_loop]. rewrite (bind_run _ _ _ _ _ (vec_get_run _ _ _ Hi Hs)).
  unfold ObjectSlot_is_free. destruct (occupied s) eqn:Ho; cbn [negb].
  - apply IH; [lia|lia|]. intros k s' Hk Hlt. destruct (decide (Z.of_nat k = i)) as [<-|].
    + rewrite Nat2Z.id in Hs. congruence.
    + apply (Hbefore k); [done|lia].
  - left. destruct (objects_set l Hl i s Hi Hs (ObjectRecord_new ty)) as (Hl' & Had & Ho'); [simpl; lia|].
    destruct Hl as [Hinv _]. destruct (slot_at_inv _ _ _ _ _ Hinv _ _ Hs) as [_ Hocc].
    eexists _, _. split.
    { rewrite (bind_run _ _ _ _ _ (vec_set_run l i _ ltac:(lia))). done. }
    split; [exact Hl'|]. split; [exact Had|]. split; [|split; [|exact Ho']].
    + unfold objects. rewrite (table_self _ _ _ _ ObjectHandle_codec _ _ _ _ MAX_range l Hinv i s Hi Hs).
      destruct (record s); [|done]. rewrite (proj2 Hocc) in Ho by eauto. done.
    + exact (slot_handle_ne0 _ _ _ _ ObjectHandle_codec _ _ _ _ MAX_range l Hinv i s Hi Hs).
Qed.

Lemma res_run {B} (m : M ObjectTable B) (f : B → object_res) t b t' :
  m t = Done (b, t') → (r ← m; mret (f r)) t = Done (f b, t').
Proof. intros E. by rewrite (bind_run _ _ _ _ _ E). Qed.

(** The operation [op], from the table [t], does what [spec_op] says. *)
Definition refines (t : ObjectTable) (op : object_op) : Prop :=
  ∃ res t', table_op op t = Done (res, t') ∧ table_ok t' ∧
    slots_adv generation (data t) (data t') ∧ spec_op (objects (data t)) op res (objects (data t')).

Lemma create_refines t ty : table_ok t → refines t (Create ty).
Proof.
  intros [Hlk Hl]. destruct (create_loop_run (data t) ty 64 0 Hl)
    as [(h & l' & E & Hl' & Had & Hn & Hne & Ho)|[E Hall]]; [done|done|lia|..].
  - exists (RHandle (Some h)), (mkSpinLock false l').
    split; [apply (res_run _ RHandle); by apply with_lock_run|].
    split; [done|]. split; [done|]. simpl. rewrite Ho. by constructor.
  - exists (RHandle None), (mkSpinLock false (data t)).
    split; [apply (res_run _ RHandle); by apply with_lock_run|].
    split; [done|]. split; [apply slots_adv_refl|]. constructor.
    exact (table_full _ _ _ _ ObjectHandle_codec _ _ _ _ MAX_range _ (proj1 Hl) Hall).
Qed.

Lemma is_valid_refines t h : table_ok t → in_u 64 h → refines t (IsValid h).
Proof.
  intros Hok Hh.
  destruct (object_guard false (λ _, mret true) h t Hok Hh)
    as [[Hn E]|(s & r & Hm & _ & _ & _ & _ & _ & _ & E)].
  - exists (RBool false), t. split; [apply (res_run _ RBool); etrans; [apply (valid_guarded _ _ _ _ _ _)|]; exact E|].
    split; [done|]. split; [apply slots_adv_refl|].
    rewrite <- (bool_decide_eq_false_2 (is_Some (objects (data t) !! h))); [constructor|].
    rewrite Hn. by intros [? ?].
  - exists (RBool true), (mkSpinLock false (data t)).
    split; [apply (res_run _ RBool); etrans; [apply (valid_guarded _ _ _ _ _ _)|]; by apply E|]. split; [by destruct Hok|].
    split; [apply slots_adv_refl|].
    rewrite <- (bool_decide_eq_true_2 (is_Some (objects (data t) !! h))); [constructor|]. by exists r.
Qed.

Lemma get_type_refines t h : table_ok t → in_u 64 h → refines t (GetType h).
Proof.
  intros Hok Hh.
  destruct (object_guard None (λ s, mret (object_type <$> record s)) h t Hok Hh)
    as [[Hn E]|(s & r & Hm & _ & Hr & _ & _ & _ & _ & E)].
  - exists (RType None), t. split; [apply (res_run _ RType); exact E|]. split; [done|].
    split; [apply slots_adv_refl|].
    replace None with (object_type <$> objects (data t) !! h) by (by rewrite Hn). constructor.
  - exists (RType (Some (object_type r))), (mkSpinLock false (data t)).
    split; [apply (res_run _ RType), E; by rewrite Hr|]. split; [by destruct Hok|].
    split; [apply slots_adv_refl|].
    replace (Some (object_type r)) with (object_type <$> objects (data t) !! h) by (by rewrite Hm).
    constructor.
Qed.

Lemma retain_refines t h : table_ok t → in_u 64 h → refines t (Retain h).
Proof.
  intros Hok Hh. pose proof Hok as [Hlk Hl].
  destruct (object_guard false (λ slot, match record slot with
    | Some r =>
        if references r =? U32_MAX then mret false
        else
          n ← lift (add_u 32 (references r) 1);
          vec_set (ObjectHandle_index h) (mkObjectSlot (occupied slot) (generation slot)
                           (Some (mkObjectRecord (object_type r) n))) ;;
          mret true
    | None => mret false
    end) h t Hok Hh) as [[Hn E]|(s & r & Hm & Hs & Hr & Ho & Heta & Hi & Href & E)].
  - exists (RBool false), t. split; [apply (res_run _ RBool); exact E|]. split; [done|].
    split; [apply slots_adv_refl|].
    by apply spec_retain_stale.
  - rewrite Hr in E. destruct (Z.eqb_spec (references r) U32_MAX) as [Hmax|Hmax].
    + exists (RBool false), (mkSpinLock false (data t)).
      split; [apply (res_run _ RBool); by apply E|]. split; [done|].
      split; [apply slots_adv_refl|]. by eapply spec_retain_max.
    + assert (references r < U32_MAX) by (unfold U32_MAX in *; lia).
      destruct (objects_set (data t) Hl (ObjectHandle_index h) s (proj1 Hi) Hs
        (mkObjectRecord (object_type r) (references r + 1))) as (Hl' & Had & Ho');
        [unfold U32_MAX in *; simpl; lia|].
      exists (RBool true), (mkSpinLock false (<[Z.to_nat (ObjectHandle_index h) :=
        mkObjectSlot true (generation s) (Some (mkObjectRecord (object_type r) (references r + 1)))]>
        (data t))).
      split; [apply (res_run _ RBool); apply E|split; [done|split; [done|]]].
      * rewrite (bind_run _ _ _ (references r + 1) (data t))
          by (unfold lift; by rewrite add_u_Done by (unfold U32_MAX in *; lia)).
        rewrite Ho, (bind_run _ _ _ _ _ (vec_set_run (data t) (ObjectHandle_index h) _ ltac:(lia))). done.
      * simpl data. rewrite Ho', <- Heta. by constructor.
Qed.

Lemma release_refines t h : table_ok t → in_u 64 h → refines t (Release h).
Proof.
  intros Hok Hh. pose proof Hok as [Hlk Hl].
  destruct (object_guard false (λ slot, match record slot with
    | Some r =>
        if references r =? 0 then mret false
        else
          n ← lift (sub_u (references r) 1);
          let slot' := mkObjectSlot (occupied slot) (generation slot)
                         (Some (mkObjectRecord (object_type r) n)) in
          vec_set (ObjectHandle_index h) (if n =? 0 then ObjectSlot_clear slot' else slot') ;;
          mret true
    | None => mret true
    end) h t Hok Hh) as [[Hn E]|(s & r & Hm & Hs & Hr & Ho & Heta & Hi & Href & E)].
  { exists (RBool false), t. split; [apply (res_run _ RBool); exact E|]. split; [done|].
    split; [apply slots_adv_refl|].
    by apply spec_release_stale. }
  rewrite Hr, (proj2 (Z.eqb_neq (references r) 0)) in E by lia.
  assert (∀ l : Slots, lift (sub_u (references r) 1) l = Done (references r - 1, l)) as Esub.
  { intros l. unfold lift. by rewrite sub_u_Done by lia. }
  rewrite (bind_run _ _ _ _ _ (Esub _)), Ho in E. cbv zeta in E.
  destruct (Z.eqb_spec (references r - 1) 0) as [Hlast|Hmore].
  - destruct (objects_clear (data t) Hl (ObjectHandle_index h) s (proj1 Hi) Hs) as (Hl' & Had & Ho').
    exists (RBool true), (mkSpinLock false (<[Z.to_nat (ObjectHandle_index h) := ObjectSlot_clear s]> (data t))).
    split; [apply (res_run _ RBool), E|split; [done|split; [done|]]].
    + by rewrite (bind_run _ _ _ _ _ (vec_set_run (data t) (ObjectHandle_index h) _ ltac:(lia))).
    + simpl data. rewrite Ho', <- Heta. apply (spec_release_last _ _ r); [done|lia].
  - destruct (objects_set (data t) Hl (ObjectHandle_index h) s (proj1 Hi) Hs
      (mkObjectRecord (object_type r) (references r - 1))) as (Hl' & Had & Ho'); [simpl; lia|].
    exists (RBool true), (mkSpinLock false (<[Z.to_nat (ObjectHandle_index h) :=
      mkObjectSlot true (generation s) (Some (mkObjectRecord (object_type r) (references r - 1)))]>
      (data t))).
    split; [apply (res_run _ RBool), E|split; [done|split; [done|]]].
    + by rewrite (bind_run _ _ _ _ _ (vec_set_run (data t) (ObjectHandle_index h) _ ltac:(lia))).
    + simpl data. rewrite Ho', <- Heta. apply spec_release; [done|lia].
Qed.

Lemma destroy_refines t h : table_ok t → in_u 64 h → refines t (Destroy h).
Proof.
  intros Hok Hh. pose proof Hok as [Hlk Hl].
  destruct (object_guard false (λ slot,
    vec_set (ObjectHandle_index h) (ObjectSlot_clear slot) ;; mret true) h t Hok Hh)
    as [[Hn E]|(s & r & Hm & Hs & Hr & Ho & Heta & Hi & Href & E)].
  { exists (RBool false), t. split; [apply (res_run _ RBool); exact E|]. split; [done|].
    split; [apply slots_adv_refl|].
    by apply spec_destroy_stale. }
  destruct (objects_clear (data t) Hl (ObjectHandle_index h) s (proj1 Hi) Hs) as (Hl' & Had & Ho').
  exists (RBool true), (mkSpinLock false (<[Z.to_nat (ObjectHandle_index h) := ObjectSlot_clear s]> (data t))).
  split; [apply (res_run _ RBool), E|split; [done|split; [done|]]].
  - by rewrite (bind_run _ _ _ _ _ (vec_set_run (data t) (ObjectHandle_index h) _ ltac:(lia))).
  - simpl data. rewrite Ho', <- Heta. by eapply spec_destroy.
Qed.

Lemma table_op_refines t op : table_ok t → object_op_ok op → refines t op.
Proof.
  intros Hok Hop. destruct op as [ty|h|h|h|h|h|]; simpl in Hop;
    auto using create_refines, is_valid_refines, get_type_refines, retain_refines,
      release_refines, destroy_refines.
  eexists _, (mkSpinLock false (data t)). split; [|split; [by destruct Hok|split; [apply slots_adv_refl|]]].
  - apply (res_run _ RCount), with_lock_run; [apply Hok|done].
  - destruct Hok as [_ [Hinv _]].
    rewrite <- (table_size _ _ _ _ ObjectHandle_codec _ _ _ _ MAX_range _ Hinv). constructor.
Qed.

(** ** Sequences of operations *)

Fixpoint run_ops (ops : list object_op) : M ObjectTable (list object_res) :=
  match ops with
  | [] => mret []
  | op :: rest => r ← table_op op; rs ← run_ops rest; mret (r :: rs)
  end.

Inductive spec_ops : gmap Z ObjectRecord → list object_op → list object_res →
    gmap Z ObjectRecord → Prop :=
| spec_ops_nil m : spec_ops m [] [] m
| spec_ops_cons m m1 m2 op ops r rs :
    spec_op m op r m1 → spec_ops m1 ops rs m2 → spec_ops m (op :: ops) (r :: rs) m2.

Lemma run_ops_cons op ops t r t1 rs t2 : table_op op t = Done (r, t1) →
  run_ops ops t1 = Done (rs, t2) → run_ops (op :: ops) t = Done (r :: rs, t2).
Proof. intros E1 E2. cbn [run_ops]. by rewrite (bind_run _ _ _ _ _ E1), (bind_run _ _ _ _ _ E2). Qed.

Lemma run_ops_refine ops t : table_ok t → Forall object_op_ok ops →
  ∃ rs t', run_ops ops t = Done (rs, t') ∧ table_ok t' ∧
    spec_ops (objects (data t)) ops rs (objects (data t')).
Proof.
  intros Hok HF. revert t Hok. induction HF as [|op ops Hop HF IH]; intros t Hok.
  - exists [], t. split; [done|]. split; [done|constructor].
  - destruct (table_op_refines t op Hok Hop) as (r & t1 & E1 & Hok1 & _ & Hs1).
    destruct (IH t1 Hok1) as (rs & t2 & E2 & Hok2 & Hs2). exists (r :: rs), t2.
    split; [by eapply run_ops_cons|]. split; [done|]. by econstructor.
Qed.

Lemma table_new_ok : table_ok ObjectTable_new.
Proof.
  split; [done|]. split; [split; [done|]|].
  - apply Forall_replicate. split; [simpl; lia|]. simpl. split; [done|by intros [? ?]].
  - by apply Forall_replicate.
Qed.

Lemma objects_new : objects (data ObjectTable_new) = ∅.
Proof. vm_compute. reflexivity. Qed.

(** C19: The object table implements its specification: whatever sequence of
    create, is_valid, get_type, retain, release, destroy and count calls is
    made on a new table with 64-bit handles, no call panics or blocks, the
    lock is free after each, and the results are those of the abstract table,
    a finite map from live handles to records in which create returns a handle
    that is not live, fails exactly when 64 objects are live, the last release
    and destroy remove the object, a retain at the maximal count is refused,
    and every operation on a handle that is not live fails and changes
    nothing. *)
Theorem object_table_refines ops : Forall object_op_ok ops →
  ∃ rs t', run_ops ops ObjectTable_new = Done (rs, t') ∧ table_ok t' ∧
    spec_ops ∅ ops rs (objects (data t')).
Proof. intros HF. rewrite <- objects_new. apply run_ops_refine; [apply table_new_ok|done]. Qed.

Lemma object_table_refines_witness : ∃ rs t',
  run_ops [Create ObjectType.Process; Retain 0x100000000; Release 0x100000000;
           Release 0x100000000; IsValid 0x100000000; Create ObjectType.File; Count]
    ObjectTable_new = Done (rs, t') ∧
  rs = [RHandle (Some 0x100000000); RBool true; RBool true; RBool true; RBool false;
        RHandle (Some 0x200000000); RCount 1].
Proof.
  destruct (object_table_refines [Create ObjectType.Process; Retain 0x100000000;
    Release 0x100000000; Release 0x100000000; IsValid 0x100000000; Create ObjectType.File; Count])
    as (rs & t' & E & _).
  { repeat constructor; simpl; unfold in_u; lia. }
  exists rs, t'. split; [exact E|]. vm_compute in E. injection E as <- _. reflexivity.
Defined.

(** A handle and its parts determine each other: the index and generation
    read back from a handle built from 32-bit parts are those parts, and a
    64-bit handle is the one built from its index and generation. *)
Theorem handle_roundtrip i g h : in_u 32 i → in_u 32 g → in_u 64 h →
  ObjectHandle_index (ObjectHandle_new i g) = i ∧
  ObjectHandle_generation (ObjectHandle_new i g) = g ∧
  ObjectHandle_new (ObjectHandle_index h) (ObjectHandle_generation h) = h.
Proof. intros. destruct ObjectHandle_codec. auto. Qed.

Lemma handle_roundtrip_witness : ObjectHandle_index (ObjectHandle_new 63 7) = 63.
Proof. apply (handle_roundtrip 63 7 0x700000003f); unfold in_u; lia. Defined.

(** ** Debug texts *)

(** Reading hexadecimal digits back. *)
Definition digit_value (a : Ascii.ascii) : Z :=
  let n := Z.of_N (Ascii.N_of_ascii a) in if n <? 58 then n - 48 else n - 87.
Fixpoint hex_value (n : nat) (acc : Z) (s : string) : Z :=
  match n, s with
  | S k, String a rest => hex_value k (16 * acc + digit_value a) rest
  | _, _ => acc
  end.
Lemma digit_value_digit d : 0 ≤ d < 16 → digit_value (hex_digit d) = d.
Proof.
  intros Hd. assert (d ∈ seqZ 0 16) as Hin by (apply elem_of_seqZ; lia). revert Hin. generalize d. apply Forall_forall.
  repeat constructor.
Qed.
Lemma hex_value_digits n v acc rest : 0 ≤ v →
  hex_value n acc (hex_digits n v +:+ rest) = acc * 16 ^ Z.of_nat n + v mod 16 ^ Z.of_nat n.
Proof.
  intros Hv. revert acc. induction n as [|n IH]; intros acc.
  - cbn [hex_value hex_digits]. change (16 ^ Z.of_nat 0) with 1. rewrite Z.mod_1_r. destruct rest; simpl; lia.
  - cbn [hex_digits]. change (String ?a ?s +:+ rest) with (String a (s +:+ rest)). cbn [hex_value].
    rewrite IH, digit_value_digit by (apply Z.mod_pos_bound; lia).
    rewrite Nat2Z.inj_succ, Z.pow_succ_r by lia. rewrite (Z.mul_comm 16 (16 ^ _)), Z.rem_mul_r by lia. nia.
Qed.
(** The text of a handle determines the handle. *)
Lemma handle_text_roundtrip h : in_u 64 h →
  ∃ rest, ObjectHandle_fmt h = "ObjectHandle(0x" +:+ rest ∧ hex_value 16 0 rest = h.
Proof.
  intros Hh. eexists. split; [reflexivity|]. rewrite hex_value_digits by (unfold in_u in Hh; lia).
  change (16 ^ Z.of_nat 16) with (2 ^ 64). rewrite Z.mod_small by exact Hh. lia.
Qed.

(** ** Stale handles *)

Lemma cleared_run ops t g k n : table_ok t → Forall object_op_ok ops → 0 ≤ n →
  cleared generation g k (data t) n →
  ∃ rs t' n', run_ops ops t = Done (rs, t') ∧ table_ok t' ∧ cleared generation g k (data t') n' ∧
    n ≤ n' ≤ n + Z.of_nat (length ops).
Proof.
  intros Hok HF. revert t n Hok. induction HF as [|op ops Hop HF IH]; intros t n Hok Hn Hc.
  - exists [], t, n. split; [done|]. split; [done|]. split; [done|simpl; lia].
  - destruct (table_op_refines t op Hok Hop) as (r & t1 & E1 & Hok1 & Had & _).
    destruct (cleared_adv _ _ _ _ _ _ Hn Hc Had) as (n1 & Hn1 & Hc1).
    destruct (IH t1 n1 Hok1) as (rs & t2 & n2 & E2 & Hok2 & Hc2 & Hn2); [lia|done|].
    exists (r :: rs), t2, n2. split; [by eapply run_ops_cons|]. split; [done|].
    split; [done|simpl length; lia].
Qed.

(** The state right after [destroy]. *)
Lemma destroy_cleared t h r : table_ok t → in_u 64 h → objects (data t) !! h = Some r →
  ∃ t', table_op (Destroy h) t = Done (RBool true, t') ∧ table_ok t' ∧
    1 ≤ ObjectHandle_generation h < 2 ^ 32 ∧
    cleared generation (ObjectHandle_generation h) (Z.to_nat (ObjectHandle_index h)) (data t') 1.
Proof.
  intros Hok Hh Hm. pose proof Hok as [_ Hl].
  destruct (object_guard false (λ slot,
    vec_set (ObjectHandle_index h) (ObjectSlot_clear slot) ;; mret true) h t Hok Hh)
    as [[Hn _]|(s & _ & _ & Hs & _ & _ & Heta & Hi & _ & E)]; [congruence|].
  destruct (objects_clear (data t) Hl _ s (proj1 Hi) Hs) as (Hl' & _ & _).
  destruct Hl as [Hinv _]. destruct (slot_at_inv _ _ _ _ _ Hinv _ _ Hs) as [Hg _].
  assert (ObjectHandle_generation h = generation s) as ->.
  { rewrite Heta. pose proof (slot_bound _ _ _ _ _ Hinv _ _ Hs).
    apply (hc_gen _ _ _ _ ObjectHandle_codec); unfold in_u, MAX_KERNEL_OBJECTS in *; lia. }
  eexists. split; [apply (res_run _ RBool), E|].
  { by rewrite (bind_run _ _ _ _ _ (vec_set_run (data t) (ObjectHandle_index h) _ ltac:(lia))). }
  split; [done|]. split; [done|]. exists (ObjectSlot_clear s).
  split; [apply list_lookup_insert_eq; by eapply lookup_lt_Some|].
  change 1 with (0 + 1). rewrite <- next_generation_after, generation_after_0 by lia. done.
Qed.

(** C20: A handle does not outlive its object: once [destroy] has removed the
    object of a live handle, the handle stays invalid through every sequence of
    fewer than 2^32 - 2 further calls on the table, however often its slot is
    used again.  (The bound is that of the 32-bit generation, which skips zero
    and comes back to the handle's after 2^32 - 1 clears.) *)
Theorem stale_handle t h r ops : table_ok t → in_u 64 h → objects (data t) !! h = Some r →
  Forall object_op_ok ops → Z.of_nat (length ops) < U32_MAX - 1 →
  ∃ rs t', run_ops (Destroy h :: ops) t = Done (RBool true :: rs, t') ∧
    objects (data t') !! h = None ∧ ObjectTable_is_valid h t' = Done (false, t').
Proof.
  intros Hok Hh Hm HF Hlen.
  destruct (destroy_cleared t h r Hok Hh Hm) as (t1 & E1 & Hok1 & Hg & Hc).
  destruct (cleared_run ops t1 _ _ 1 Hok1 HF ltac:(lia) Hc) as (rs & t' & n & E & Hok' & Hc' & Hn).
  assert (objects (data t') !! h = None) as Hnone.
  { destruct Hok' as [_ [Hinv' _]].
    eapply (cleared_stale _ _ _ _ ObjectHandle_codec _ _ _ _ MAX_range); [done|done|done|done|].
    unfold U32_MAX in *. lia. }
  exists rs, t'. split; [by eapply run_ops_cons|]. split; [done|].
  destruct (object_guard false (λ _, mret true) h t' Hok' Hh) as [[_ E']|(? & ? & Hx & _)]; [|congruence].
  etrans; [apply (valid_guarded _ _ _ _ _ _)|exact E'].
Qed.

Definition sample_table : ObjectTable := exec (ObjectTable_create ObjectType.Process) ObjectTable_new.

Lemma sample_table_ok : table_ok sample_table.
Proof.
  destruct (table_op_refines ObjectTable_new (Create ObjectType.Process) table_new_ok I)
    as (r & t' & E & Hok & _).
  apply bind_inv in E as (a & s & E1 & E2). injection E2 as _ <-.
  unfold sample_table, exec. by rewrite E1.
Qed.

Lemma stale_handle_witness : ∃ rs t',
  run_ops [Destroy 0x100000000; Create ObjectType.File; Create ObjectType.Event] sample_table
  = Done (RBool true :: rs, t') ∧ ObjectTable_is_valid 0x100000000 t' = Done (false, t').
Proof.
  destruct (stale_handle sample_table 0x100000000 (mkObjectRecord ObjectType.Process 1)
    [Create ObjectType.File; Create ObjectType.Event] sample_table_ok)
    as (rs & t' & E & _ & Hv); [unfold in_u; lia|vm_compute; reflexivity|repeat constructor|simpl; unfold U32_MAX; lia|].
  exists rs, t'. split; [exact E|exact Hv].
Defined.
