(* ===== verification/Ipc.v ===== *)
(** * Inter-process communication (kernel/src/ipc/message.rs, endpoint.rs)

    Messages of up to 256 bytes, a ring buffer of 16 messages per endpoint, and
    the manager of 16 endpoints.  The ring buffer refines a bounded FIFO queue;
    the manager refines a finite map from endpoint handles to such queues. *)

From S2P Require Import Prelude SpinLock SlotTable Objects.
Local Open Scope Z_scope.

(** ** message.rs *)

Definition IPC_MESSAGE_SIZE : Z := 256.

Record IpcMessage := mkIpcMessage {
  sender : Z;
  len : Z;
  msg_reserved : Z;
  msg_data : list Z;
}.

Definition IpcMessage_empty : IpcMessage :=
  mkIpcMessage ObjectHandle_INVALID 0 0 (replicate 256 0).

(** [while index < data.len() { message.data[index] = data[index]; index += 1 }],
    with [bytes] the part of [data] from [index] on. *)
Fixpoint copy_loop (index : Z) (bytes : list Z) : M (list Z) unit :=
  match bytes with
  | [] => mret ()
  | x :: rest => vec_set index x ;; copy_loop (index + 1) rest
  end.

Definition IpcMessage_new (sender : Z) (bytes : list Z) : outcome (option IpcMessage) :=
  if IPC_MESSAGE_SIZE <? Z.of_nat (length bytes) then Done None
  else match copy_loop 0 bytes (msg_data IpcMessage_empty) with
  | Done ((), d) =>
      Done (Some (mkIpcMessage sender (cast 16 (Z.of_nat (length bytes))) 0 d))
  | Panicked f => Panicked f
  end.

(** [&self.data[..self.len as usize]]. *)
Definition IpcMessage_payload (self : IpcMessage) : outcome (list Z) :=
  if Z.of_nat (length (msg_data self)) <? len self then Panicked OutOfBounds
  else Done (take (Z.to_nat (len self)) (msg_data self)).

(** [payload_mut]: what [use] does to the slice it is lent happens to the buffer. *)
Definition IpcMessage_payload_mut {B} (use : M (list Z) B) : M IpcMessage B := λ self,
  slice ← IpcMessage_payload self;
  '(b, slice') ← use slice;
  Done (b, mkIpcMessage (sender self) (len self) (msg_reserved self)
    (slice' ++ drop (Z.to_nat (len self)) (msg_data self))).

(** ** endpoint.rs *)

Definition MAX_IPC_ENDPOINTS : Z := 16.
Definition IPC_QUEUE_CAPACITY : Z := 16.

Definition IpcHandle_INVALID : Z := 0.
Definition IpcHandle_new (index generation : Z) : Z := Z.lor (Z.shiftl generation 32) index.
Definition IpcHandle_index (self : Z) : Z := cast 32 self.
Definition IpcHandle_generation (self : Z) : Z := cast 32 (Z.shiftr self 32).
Definition IpcHandle_is_valid (self : Z) : bool := negb (self =? 0).
Definition IpcHandle_raw (self : Z) : Z := self.

Record IpcQueue := mkIpcQueue {
  messages : list IpcMessage;
  head : Z;
  tail : Z;
  qcount : Z;
}.

Definition IpcQueue_new : IpcQueue := mkIpcQueue (replicate 16 IpcMessage_empty) 0 0 0.
Definition IpcQueue_is_empty (self : IpcQueue) : bool := qcount self =? 0.
Definition IpcQueue_is_full (self : IpcQueue) : bool := qcount self =? IPC_QUEUE_CAPACITY.
Definition IpcQueue_len (self : IpcQueue) : Z := qcount self.

(** [self.messages[i]] and [self.messages[i] = m]. *)
Definition on_messages {B} (m : M (list IpcMessage) B) : M IpcQueue B :=
  zoom messages (λ l q, mkIpcQueue l (head q) (tail q) (qcount q)) m.

Definition IpcQueue_send (message : IpcMessage) : M IpcQueue bool :=
  self ← get;
  if IpcQueue_is_full self then mret false
  else
    on_messages (vec_set (tail self) message) ;;
    t ← lift (add_u 64 (tail self) 1);
    let t' := if t =? IPC_QUEUE_CAPACITY then 0 else t in
    c ← lift (add_u 64 (qcount self) 1);
    self ← get;
    put (mkIpcQueue (messages self) (head self) t' c) ;;
    mret true.

Definition IpcQueue_receive : M IpcQueue (option IpcMessage) :=
  self ← get;
  if IpcQueue_is_empty self then mret None
  else
    message ← on_messages (vec_get (head self));
    on_messages (vec_set (head self) IpcMessage_empty) ;;
    h ← lift (add_u 64 (head self) 1);
    let h' := if h =? IPC_QUEUE_CAPACITY then 0 else h in
    c ← lift (sub_u (qcount self) 1);
    self ← get;
    put (mkIpcQueue (messages self) h' (tail self) c) ;;
    mret (Some message).

Record IpcEndpointSlot := mkIpcEndpointSlot {
  ep_occupied : bool;
  ep_generation : Z;
  endpoint : SpinLock IpcQueue;
}.

Definition IpcEndpoint_new : SpinLock IpcQueue := SpinLock_new IpcQueue_new.
Definition IpcEndpointSlot_empty : IpcEndpointSlot := mkIpcEndpointSlot false 1 IpcEndpoint_new.
Definition IpcEndpointSlot_clear (self : IpcEndpointSlot) : IpcEndpointSlot :=
  let g := wrapping_add 32 (ep_generation self) 1 in
  mkIpcEndpointSlot false (if g =? 0 then 1 else g) (endpoint self).

Abbreviation EndpointSlots := (list IpcEndpointSlot).
Abbreviation IpcManager := (SpinLock EndpointSlots).

Definition IpcManager_new : IpcManager := SpinLock_new (replicate 16 IpcEndpointSlot_empty).

Fixpoint endpoint_create_loop (n : nat) (index : Z) : M EndpointSlots (option Z) :=
  match n with
  | O => mret None
  | S k =>
      slot ← vec_get index;
      if negb (ep_occupied slot) then
        vec_set index (mkIpcEndpointSlot true (ep_generation slot) (endpoint slot)) ;;
        mret (Some (IpcHandle_new index (ep_generation slot)))
      else endpoint_create_loop k (index + 1)
  end.

Definition IpcManager_create : M IpcManager (option Z) :=
  with_lock (endpoint_create_loop (Z.to_nat MAX_IPC_ENDPOINTS) 0).

Definition IpcManager_is_valid (handle : Z) : M IpcManager bool :=
  if negb (IpcHandle_is_valid handle) then mret false
  else if MAX_IPC_ENDPOINTS <=? IpcHandle_index handle then mret false
  else with_lock (
    slot ← vec_get (IpcHandle_index handle);
    mret (ep_occupied slot && (ep_generation slot =? IpcHandle_generation handle))).

(** [let queue = slot.endpoint.queue.lock(); body]: the queue is reached
    through the shared reference [slot = &endpoints[index]]. *)
Definition on_queue {B} (index : Z) (slot : IpcEndpointSlot) (body : M IpcQueue B) :
    M EndpointSlots B := λ l,
  match with_lock body (endpoint slot) with
  | Done (b, q) =>
      (vec_set index (mkIpcEndpointSlot (ep_occupied slot) (ep_generation slot) q) ;; mret b) l
  | Panicked f => Panicked f
  end.

Definition IpcManager_send (handle sender : Z) (bytes : list Z) : M IpcManager bool :=
  m ← lift (IpcMessage_new sender bytes);
  match m with
  | None => mret false
  | Some message =>
      if negb (IpcHandle_is_valid handle) then mret false
      else if MAX_IPC_ENDPOINTS <=? IpcHandle_index handle then mret false
      else with_lock (
        slot ← vec_get (IpcHandle_index handle);
        if negb (ep_occupied slot) || negb (ep_generation slot =? IpcHandle_generation handle)
        then mret false
        else on_queue (IpcHandle_index handle) slot (IpcQueue_send message))
  end.

Definition IpcManager_receive (handle : Z) : M IpcManager (option IpcMessage) :=
  if negb (IpcHandle_is_valid handle) then mret None
  else if MAX_IPC_ENDPOINTS <=? IpcHandle_index handle then mret None
  else with_lock (
    slot ← vec_get (IpcHandle_index handle);
    if negb (ep_occupied slot) || negb (ep_generation slot =? IpcHandle_generation handle)
    then mret None
    else on_queue (IpcHandle_index handle) slot IpcQueue_receive).

Definition IpcManager_queue_len (handle : Z) : M IpcManager (option Z) :=
  if negb (IpcHandle_is_valid handle) then mret None
  else if MAX_IPC_ENDPOINTS <=? IpcHandle_index handle then mret None
  else with_lock (
    slot ← vec_get (IpcHandle_index handle);
    if negb (ep_occupied slot) || negb (ep_generation slot =? IpcHandle_generation handle)
    then mret None
    else on_queue (IpcHandle_index handle) slot (q ← get; mret (Some (IpcQueue_len q)))).

Definition IpcManager_destroy (handle : Z) : M IpcManager bool :=
  if negb (IpcHandle_is_valid handle) then mret false
  else if MAX_IPC_ENDPOINTS <=? IpcHandle_index handle then mret false
  else with_lock (
    slot ← vec_get (IpcHandle_index handle);
    if negb (ep_occupied slot) || negb (ep_generation slot =? IpcHandle_generation handle)
    then mret false
    else
      empty ← on_queue (IpcHandle_index handle) slot (q ← get; mret (IpcQueue_is_empty q));
      if negb empty then mret false
      else
        slot ← vec_get (IpcHandle_index handle);
        vec_set (IpcHandle_index handle) (IpcEndpointSlot_clear slot) ;;
        mret true).

Definition IpcManager_count : M IpcManager Z :=
  with_lock (λ l, Done (Z.of_nat (length (filter (λ s, ep_occupied s = true) l)), l)).

(** ** Messages *)

Definition bytes_ok (bytes : list Z) : Prop := Forall (in_u 8) bytes.

Lemma copy_loop_run bytes index d : 0 ≤ index → index + Z.of_nat (length bytes) ≤ Z.of_nat (length d) →
  copy_loop index bytes d =
  Done ((), take (Z.to_nat index) d ++ bytes ++ drop (Z.to_nat index + length bytes) d).
Proof.
  revert index d. induction bytes as [|x bytes IH]; intros index d Hi Hl; cbn [copy_loop length] in *.
  - by rewrite Nat.add_0_r, app_nil_l, (take_drop (Z.to_nat index) d).
  - rewrite (bind_run _ _ _ _ _ (vec_set_run d index x ltac:(lia))).
    rewrite IH by (rewrite ?length_insert; lia). do 2 f_equal.
    replace (Z.to_nat (index + 1)) with (S (Z.to_nat index)) by lia.
    rewrite (take_S_r _ _ x) by (apply list_lookup_insert_eq; lia).
    rewrite take_insert_ge, drop_insert_lt, <- !app_assoc by lia. simpl.
    do 4 f_equal. lia.
Qed.

(** A message carries its payload: [IpcMessage::new] of at most 256 bytes
    returns a message from the given sender whose payload is exactly those
    bytes, whose length field is their number and whose buffer is 256 bytes,
    zero after the payload; more than 256 bytes are refused.  Neither panics. *)
Theorem message_roundtrip from bytes :
  match IpcMessage_new from bytes with
  | Done (Some m) => Z.of_nat (length bytes) ≤ IPC_MESSAGE_SIZE ∧ sender m = from ∧
      len m = Z.of_nat (length bytes) ∧ IpcMessage_payload m = Done bytes ∧
      msg_data m = bytes ++ replicate (256 - length bytes) 0
  | Done None => IPC_MESSAGE_SIZE < Z.of_nat (length bytes)
  | Panicked _ => False
  end.
Proof.
  unfold IpcMessage_new. destruct (Z.ltb_spec IPC_MESSAGE_SIZE (Z.of_nat (length bytes))); [done|].
  unfold IPC_MESSAGE_SIZE in *. unfold IpcMessage_empty. cbn [msg_data].
  rewrite copy_loop_run by (rewrite ?length_replicate; lia). cbn [take Z.to_nat app Nat.add].
  rewrite drop_replicate. unfold IpcMessage_payload. cbn [len msg_data sender].
  unfold cast. rewrite Z.mod_small by lia. rewrite take_0. simpl app.
  rewrite length_app, length_replicate.
  rewrite (proj2 (Z.ltb_ge _ _)) by lia. split; [done|]. split; [done|]. split; [done|].
  split; [|done]. rewrite Nat2Z.id, take_app_length. done.
Qed.

(** A write through [payload_mut] is what [payload] then reads; the rest of the message
    stays as it was. *)
Lemma payload_mut_run {B} (use : M (list Z) B) m slice b slice' : 0 ≤ len m →
  IpcMessage_payload m = Done slice → use slice = Done (b, slice') → length slice' = length slice →
  ∃ m', IpcMessage_payload_mut use m = Done (b, m') ∧ IpcMessage_payload m' = Done slice' ∧
    sender m' = sender m ∧ len m' = len m ∧
    drop (Z.to_nat (len m)) (msg_data m') = drop (Z.to_nat (len m)) (msg_data m).
Proof.
  unfold IpcMessage_payload_mut. intros Hlen Hp Hu Hl. rewrite Hp. cbn [mbind outcome_bind]. rewrite Hu. cbn [mbind outcome_bind].
  revert Hp. unfold IpcMessage_payload at 1. destruct (Z.ltb_spec (Z.of_nat (length (msg_data m))) (len m)); [done|]. intros [= <-].
  rewrite length_take_le in Hl by lia. eexists. split; [reflexivity|]. unfold IpcMessage_payload. cbn [len msg_data sender].
  rewrite length_app, length_drop, (proj2 (Z.ltb_ge _ _)) by lia.
  split; [by rewrite take_app_length' by lia|]. split; [done|]. split; [done|]. by rewrite drop_app_length' by lia.
Qed.

(** ** The ring buffer *)

Record queue_ok (q : IpcQueue) : Prop := {
  qo_length : length (messages q) = 16%nat;
  qo_head : 0 ≤ head q < 16;
  qo_count : 0 ≤ qcount q ≤ 16;
  qo_tail : tail q = (head q + qcount q) mod 16;
}.

(** The [k]-th message from the head, and the messages in order. *)
Definition message_at (q : IpcQueue) (k : nat) : IpcMessage :=
  default IpcMessage_empty (messages q !! Z.to_nat ((head q + Z.of_nat k) mod 16)).
Definition contents (q : IpcQueue) : list IpcMessage :=
  message_at q <$> seq 0 (Z.to_nat (qcount q)).

Lemma length_contents q : length (contents q) = Z.to_nat (qcount q).
Proof. unfold contents. by rewrite length_fmap, length_seq. Qed.

Lemma queue_new_ok : queue_ok IpcQueue_new.
Proof. split; simpl; done || lia. Qed.

(** [x + 1] wrapped at the capacity is [(x + 1) mod 16]. *)
Lemma ring_next x : 0 ≤ x < 16 → (if x + 1 =? 16 then 0 else x + 1) = (x + 1) mod 16.
Proof. intros. zcases; Z.to_euclidean_division_equations; lia. Qed.

Lemma queue_send_full q m : queue_ok q → length (contents q) = 16%nat →
  IpcQueue_send m q = Done (false, q).
Proof.
  intros [_ _ Hc _] Hl. rewrite length_contents in Hl.
  unfold IpcQueue_send, IpcQueue_is_full, IPC_QUEUE_CAPACITY.
  rewrite (bind_run _ _ _ _ _ (eq_refl : get _ = Done _)).
  by rewrite (proj2 (Z.eqb_eq _ _)) by lia.
Qed.

Lemma queue_send_run q m : queue_ok q → (length (contents q) < 16)%nat →
  ∃ q', IpcQueue_send m q = Done (true, q') ∧ queue_ok q' ∧ contents q' = contents q ++ [m].
Proof.
  intros [Hlen Hh Hc Ht] Hl. rewrite length_contents in Hl.
  assert (0 ≤ tail q < 16) as Htr by (rewrite Ht; apply Z.mod_pos_bound; lia).
  set (q' := mkIpcQueue (<[Z.to_nat (tail q) := m]> (messages q)) (head q)
               ((tail q + 1) mod 16) (qcount q + 1)).
  exists q'. split; [|split].
  - unfold IpcQueue_send, IpcQueue_is_full, IPC_QUEUE_CAPACITY.
    rewrite (bind_run _ _ _ _ _ (eq_refl : get _ = Done _)).
    rewrite (proj2 (Z.eqb_neq _ _)) by lia.
    erewrite bind_run; [|unfold on_messages, zoom; by rewrite vec_set_run by lia].
    erewrite bind_run; [|unfold lift; by rewrite add_u_Done by lia].
    cbv zeta. rewrite ring_next by done.
    erewrite bind_run; [|unfold lift; by rewrite add_u_Done by lia]. done.
  - split; simpl; [by rewrite length_insert|done|lia|].
    rewrite Ht. Z.to_euclidean_division_equations; lia.
  - unfold contents. cbn [qcount q'].
    replace (Z.to_nat (qcount q + 1)) with (S (Z.to_nat (qcount q))) by lia.
    rewrite seq_S, fmap_app. f_equal.
    + apply list_fmap_ext. intros i k Hk. apply lookup_seq in Hk as [-> Hk]. unfold message_at.
      cbn [head messages q']. rewrite vec_lookup_set by (try (apply Z.mod_pos_bound); lia).
      rewrite decide_False; [done|]. rewrite Ht. Z.to_euclidean_division_equations; lia.
    + simpl. unfold message_at. cbn [head messages q'].
      rewrite vec_lookup_set, decide_True by (try (apply Z.mod_pos_bound); try lia;
        rewrite Ht; do 2 f_equal; lia). done.
Qed.

Lemma queue_receive_empty q : queue_ok q → contents q = [] → IpcQueue_receive q = Done (None, q).
Proof.
  intros [_ _ Hc _] Hl. apply (f_equal length) in Hl. rewrite length_contents in Hl. simpl in Hl.
  unfold IpcQueue_receive, IpcQueue_is_empty.
  rewrite (bind_run _ _ _ _ _ (eq_refl : get _ = Done _)).
  by rewrite (proj2 (Z.eqb_eq _ _)) by lia.
Qed.

Lemma queue_receive_run q m l : queue_ok q → contents q = m :: l →
  ∃ q', IpcQueue_receive q = Done (Some m, q') ∧ queue_ok q' ∧ contents q' = l.
Proof.
  intros [Hlen Hh Hc Ht] Hq. pose proof (f_equal length Hq) as Hl. rewrite length_contents in Hl.
  simpl in Hl. destruct (vec_lookup (messages q) (head q)) as [x Hx]; [lia|].
  set (q' := mkIpcQueue (<[Z.to_nat (head q) := IpcMessage_empty]> (messages q))
               ((head q + 1) mod 16) (tail q) (qcount q - 1)).
  unfold contents in Hq. replace (Z.to_nat (qcount q)) with (S (Z.to_nat (qcount q - 1))) in Hq by lia.
  rewrite <- cons_seq, fmap_cons in Hq. injection Hq as Hm Hq.
  assert (x = m) as ->.
  { rewrite <- Hm. unfold message_at. rewrite Z.add_0_r, Z.mod_small, Hx by done. done. }
  exists q'. split; [|split].
  - unfold IpcQueue_receive, IpcQueue_is_empty, IPC_QUEUE_CAPACITY.
    rewrite (bind_run _ _ _ _ _ (eq_refl : get _ = Done _)).
    rewrite (proj2 (Z.eqb_neq _ _)) by lia.
    erewrite bind_run; [|unfold on_messages, zoom; rewrite (vec_get_run _ _ m) by (done || lia); done].
    erewrite bind_run; [|unfold on_messages, zoom; by rewrite vec_set_run by (simpl; lia)].
    erewrite bind_run; [|unfold lift; by rewrite add_u_Done by lia].
    cbv zeta. rewrite ring_next by done.
    erewrite bind_run; [|unfold lift; by rewrite sub_u_Done by lia]. done.
  - split; simpl; [by rewrite length_insert|apply Z.mod_pos_bound; lia|lia|].
    rewrite Ht. Z.to_euclidean_division_equations; lia.
  - rewrite <- Hq. unfold contents. cbn [qcount q']. rewrite <- (fmap_S_seq 0), <- list_fmap_compose.
    apply list_fmap_ext. intros i k Hk. apply lookup_seq in Hk as [-> Hk]. simpl.
    unfold message_at. cbn [head messages q'].
    rewrite vec_lookup_set by (try (apply Z.mod_pos_bound); lia).
    rewrite decide_False by (Z.to_euclidean_division_equations; lia).
    do 3 f_equal. rewrite Z.add_mod_idemp_l by lia. f_equal. lia.
Qed.

(** The bounded FIFO queue. *)
Inductive queue_op := QSend (m : IpcMessage) | QReceive.
Inductive queue_res := QSent (b : bool) | QReceived (m : option IpcMessage).

Definition fifo_op (op : queue_op) (l : list IpcMessage) : queue_res * list IpcMessage :=
  match op with
  | QSend m => if Z.of_nat (length l) <? IPC_QUEUE_CAPACITY then (QSent true, l ++ [m]) else (QSent false, l)
  | QReceive => match l with [] => (QReceived None, []) | m :: l' => (QReceived (Some m), l') end
  end.
Fixpoint fifo_ops (ops : list queue_op) (l : list IpcMessage) : list queue_res * list IpcMessage :=
  match ops with
  | [] => ([], l)
  | op :: rest =>
      let '(r, l1) := fifo_op op l in let '(rs, l2) := fifo_ops rest l1 in (r :: rs, l2)
  end.

Definition ring_op (op : queue_op) : M IpcQueue queue_res :=
  match op with
  | QSend m => b ← IpcQueue_send m; mret (QSent b)
  | QReceive => m ← IpcQueue_receive; mret (QReceived m)
  end.
Fixpoint ring_ops (ops : list queue_op) : M IpcQueue (list queue_res) :=
  match ops with
  | [] => mret []
  | op :: rest => r ← ring_op op; rs ← ring_ops rest; mret (r :: rs)
  end.

Lemma ring_op_run op q : queue_ok q → ∃ q', ring_op op q = Done ((fifo_op op (contents q)).1, q') ∧
  queue_ok q' ∧ contents q' = (fifo_op op (contents q)).2.
Proof.
  intros Hq. pose proof (qo_count _ Hq) as Hc. pose proof (length_contents q) as Hl.
  destruct op as [m|]; simpl.
  - unfold IPC_QUEUE_CAPACITY. destruct (Z.ltb_spec (Z.of_nat (length (contents q))) 16).
    + destruct (queue_send_run q m Hq) as (q' & E & Hq' & Hc'); [lia|].
      exists q'. by rewrite (bind_run _ _ _ _ _ E).
    + exists q. rewrite (bind_run _ _ _ _ _ (queue_send_full q m Hq ltac:(lia))). done.
  - destruct (contents q) as [|m l] eqn:E.
    + exists q. rewrite (bind_run _ _ _ _ _ (queue_receive_empty q Hq E)). done.
    + destruct (queue_receive_run q m l Hq E) as (q' & E' & Hq' & Hc').
      exists q'. by rewrite (bind_run _ _ _ _ _ E').
Qed.

(** The ring buffer is a FIFO queue of capacity 16: on a new queue every
    sequence of sends and receives gives, without panicking, the results of
    the same sequence on a list that appends at the end while it is shorter
    than 16 and takes from the front, and ends with the same contents. *)
Theorem ipc_queue_fifo ops : ∃ q,
  ring_ops ops IpcQueue_new = Done ((fifo_ops ops []).1, q) ∧ queue_ok q ∧
  contents q = (fifo_ops ops []).2.
Proof.
  change [] with (contents IpcQueue_new) at 1 2. generalize queue_new_ok.
  generalize IpcQueue_new. induction ops as [|op ops IH]; intros q0 Hq0; [by exists q0|].
  destruct (ring_op_run op q0 Hq0) as (q1 & E1 & Hq1 & Hc1).
  destruct (IH q1 Hq1) as (q2 & E2 & Hq2 & Hc2). exists q2.
  cbn [ring_ops fifo_ops]. rewrite (bind_run _ _ _ _ _ E1), (bind_run _ _ _ _ _ E2).
  rewrite Hc1 in *. destruct (fifo_op op (contents q0)) as [r l1]. simpl in *.
  by destruct (fifo_ops ops l1) as [rs l2].
Qed.

(** ** The manager *)

Lemma IpcHandle_codec : handle_codec IpcHandle_new IpcHandle_index IpcHandle_generation
  IpcHandle_is_valid.
Proof. exact word_codec. Qed.

Lemma endpoints_range : 0 ≤ MAX_IPC_ENDPOINTS ≤ 2 ^ 16.
Proof. unfold MAX_IPC_ENDPOINTS. lia. Qed.

(** An occupied slot holds the messages of its queue. *)
Definition ep_content (s : IpcEndpointSlot) : option (list IpcMessage) :=
  if ep_occupied s then Some (contents (data (endpoint s))) else None.
(** The queue of a slot is well formed and its lock free; a free slot has an
    empty queue, so that a new endpoint starts with none. *)
Definition ep_ok (s : IpcEndpointSlot) : Prop :=
  locked (endpoint s) = false ∧ queue_ok (data (endpoint s)) ∧
  (ep_occupied s = false → contents (data (endpoint s)) = []).
Definition endpoints_ok (l : EndpointSlots) : Prop :=
  slots_inv ep_occupied ep_generation ep_content MAX_IPC_ENDPOINTS l ∧ Forall ep_ok l.
Definition manager_ok (t : IpcManager) : Prop := locked t = false ∧ endpoints_ok (data t).

Definition endpoints (l : EndpointSlots) : gmap Z (list IpcMessage) :=
  table IpcHandle_new ep_generation ep_content l.

Lemma ep_slot_inv o g e : 1 ≤ g < 2 ^ 32 →
  slot_inv ep_occupied ep_generation ep_content (mkIpcEndpointSlot o g e).
Proof.
  intros Hg. split; [done|]. unfold ep_content. simpl. destruct o; split; try done; eauto.
Qed.

Section updates.
Context (l : EndpointSlots) (Hl : endpoints_ok l) (i : Z) (s : IpcEndpointSlot).
Context (Hi : 0 ≤ i) (Hs : l !! Z.to_nat i = Some s).

Lemma endpoint_at_ok : ep_ok s.
Proof. destruct Hl as [_ HF]. exact (Forall_lookup_1 _ _ _ _ HF Hs). Qed.

(** An occupied slot with queue [q]. *)
Lemma endpoints_set q : queue_ok q →
  let s' := mkIpcEndpointSlot true (ep_generation s) (mkSpinLock false q) in
  endpoints_ok (<[Z.to_nat i := s']> l) ∧
  slots_adv ep_generation l (<[Z.to_nat i := s']> l) ∧
  endpoints (<[Z.to_nat i := s']> l)
  = <[IpcHandle_new i (ep_generation s) := contents q]> (endpoints l).
Proof.
  intros Hq s'. destruct Hl as [Hinv Hrec].
  destruct (slot_at_inv _ _ _ _ _ Hinv _ _ Hs) as [Hg _].
  destruct (table_set _ _ _ _ IpcHandle_codec _ _ _ _ endpoints_range l Hinv i s Hi Hs s' (contents q))
    as (Hinv' & Had & Ht); [by apply ep_slot_inv|done|done|].
  split; [|done]. split; [done|]. apply Forall_insert; done.
Qed.

Lemma endpoints_clear s' : s' = IpcEndpointSlot_clear s → contents (data (endpoint s)) = [] →
  endpoints_ok (<[Z.to_nat i := s']> l) ∧
  slots_adv ep_generation l (<[Z.to_nat i := s']> l) ∧
  endpoints (<[Z.to_nat i := s']> l) = delete (IpcHandle_new i (ep_generation s)) (endpoints l).
Proof.
  intros -> Hnil. pose proof endpoint_at_ok as (Hlk & Hq & _). destruct Hl as [Hinv Hrec].
  destruct (table_clear _ _ _ _ IpcHandle_codec _ _ _ _ endpoints_range l Hinv i s Hi Hs
    (IpcEndpointSlot_clear s)) as (Hinv' & Had & Ht); [|done|done|].
  - apply ep_slot_inv, next_generation_ok.
  - split; [|done]. split; [done|]. by apply Forall_insert.
Qed.

(** Running queue code on the slot. *)
Lemma on_queue_run {B} (body : M IpcQueue B) b q : ep_occupied s = true →
  body (data (endpoint s)) = Done (b, q) →
  on_queue i s body l
  = Done (b, <[Z.to_nat i := mkIpcEndpointSlot true (ep_generation s) (mkSpinLock false q)]> l).
Proof.
  intros Ho E. destruct endpoint_at_ok as (Hlk & _ & _). unfold on_queue.
  rewrite (with_lock_run _ _ _ _ Hlk E), Ho. pose proof (lookup_lt_Some _ _ _ Hs).
  by rewrite (bind_run _ _ _ _ _ (vec_set_run l i _ ltac:(lia))).
Qed.
End updates.

(** *** The abstract manager *)

Inductive ipc_op :=
| ICreate
| IIsValid (h : Z)
| ISend (h from : Z) (bytes : list Z)
| IReceive (h : Z)
| IQueueLen (h : Z)
| IDestroy (h : Z)
| ICount.

Inductive ipc_res :=
| IHandle (h : option Z)
| IBool (b : bool)
| IMessage (m : option IpcMessage)
| ILen (n : option Z)
| INum (n : Z).

Definition ipc_op_ok (op : ipc_op) : Prop :=
  match op with
  | IIsValid h | ISend h _ _ | IReceive h | IQueueLen h | IDestroy h => in_u 64 h
  | _ => True
  end.

Definition manager_op (op : ipc_op) : M IpcManager ipc_res :=
  match op with
  | ICreate => r ← IpcManager_create; mret (IHandle r)
  | IIsValid h => r ← IpcManager_is_valid h; mret (IBool r)
  | ISend h from bytes => r ← IpcManager_send h from bytes; mret (IBool r)
  | IReceive h => r ← IpcManager_receive h; mret (IMessage r)
  | IQueueLen h => r ← IpcManager_queue_len h; mret (ILen r)
  | IDestroy h => r ← IpcManager_destroy h; mret (IBool r)
  | ICount => r ← IpcManager_count; mret (INum r)
  end.

Inductive ipc_spec (m : gmap Z (list IpcMessage)) :
    ipc_op → ipc_res → gmap Z (list IpcMessage) → Prop :=
| is_create h : m !! h = None → h ≠ IpcHandle_INVALID →
    ipc_spec m ICreate (IHandle (Some h)) (<[h := []]> m)
| is_create_full : Z.of_nat (size m) = MAX_IPC_ENDPOINTS → ipc_spec m ICreate (IHandle None) m
| is_valid h : ipc_spec m (IIsValid h) (IBool (bool_decide (is_Some (m !! h)))) m
| is_send h from bytes msg q : m !! h = Some q → Z.of_nat (length q) < IPC_QUEUE_CAPACITY →
    IpcMessage_new from bytes = Done (Some msg) →
    ipc_spec m (ISend h from bytes) (IBool true) (<[h := q ++ [msg]]> m)
| is_send_full h from bytes q : m !! h = Some q → Z.of_nat (length q) = IPC_QUEUE_CAPACITY →
    ipc_spec m (ISend h from bytes) (IBool false) m
| is_send_long h from bytes : IPC_MESSAGE_SIZE < Z.of_nat (length bytes) →
    ipc_spec m (ISend h from bytes) (IBool false) m
| is_send_stale h from bytes : m !! h = None → ipc_spec m (ISend h from bytes) (IBool false) m
| is_receive h msg q : m !! h = Some (msg :: q) →
    ipc_spec m (IReceive h) (IMessage (Some msg)) (<[h := q]> m)
| is_receive_none h : default [] (m !! h) = [] → ipc_spec m (IReceive h) (IMessage None) m
| is_len h : ipc_spec m (IQueueLen h) (ILen ((λ q, Z.of_nat (length q)) <$> m !! h)) m
| is_destroy h : m !! h = Some [] → ipc_spec m (IDestroy h) (IBool true) (delete h m)
| is_destroy_refused h : m !! h ≠ Some [] → ipc_spec m (IDestroy h) (IBool false) m
| is_count : ipc_spec m ICount (INum (Z.of_nat (size m))) m.

Definition ipc_refines (t : IpcManager) (op : ipc_op) : Prop :=
  ∃ res t', manager_op op t = Done (res, t') ∧ manager_ok t' ∧
    ipc_spec (endpoints (data t)) op res (endpoints (data t')).

Lemma ipc_run {B} (m : M IpcManager B) (f : B → ipc_res) t b t' :
  m t = Done (b, t') → (r ← m; mret (f r)) t = Done (f b, t').
Proof. intros E. by rewrite (bind_run _ _ _ _ _ E). Qed.

(** The guards of the handle operations. *)
Lemma ipc_guard {B} (stale : B) (body : IpcEndpointSlot → M EndpointSlots B) h t :
  manager_ok t → in_u 64 h →
  let run :=
    (if negb (IpcHandle_is_valid h) then mret stale
     else if MAX_IPC_ENDPOINTS <=? IpcHandle_index h then mret stale
     else with_lock (
       slot ← vec_get (IpcHandle_index h);
       if negb (ep_occupied slot) || negb (ep_generation slot =? IpcHandle_generation h)
       then mret stale else body slot)) t in
  (endpoints (data t) !! h = None ∧ run = Done (stale, t)) ∨
  (∃ s, let q := data (endpoint s) in
     endpoints (data t) !! h = Some (contents q) ∧ queue_ok q ∧
     data t !! Z.to_nat (IpcHandle_index h) = Some s ∧ ep_occupied s = true ∧
     0 ≤ IpcHandle_index h ∧ h = IpcHandle_new (IpcHandle_index h) (ep_generation s) ∧
     ∀ b l', body s (data t) = Done (b, l') → run = Done (b, mkSpinLock false l')).
Proof.
  intros [Hlk [Hinv Hep]] Hh run.
  destruct (guarded_run _ _ _ _ IpcHandle_codec _ _ _ _ endpoints_range stale body h t Hlk Hinv Hh)
    as [?|(s & c & Hm & Hs & Hc & Ho & Heta & Hi & E)]; [by left|].
  right. exists s. cbv zeta. unfold ep_content in Hc. rewrite Ho in Hc. injection Hc as <-.
  destruct (Forall_lookup_1 _ _ _ _ Hep Hs) as (_ & Hq & _).
  do 4 (split; [done|]). split; [lia|]. done.
Qed.

(** Queue code run on the slot of a live handle. *)
Lemma on_handle_run {B} t h s (body : M IpcQueue B) b q : manager_ok t →
  endpoints (data t) !! h = Some (contents (data (endpoint s))) →
  data t !! Z.to_nat (IpcHandle_index h) = Some s → ep_occupied s = true →
  0 ≤ IpcHandle_index h → h = IpcHandle_new (IpcHandle_index h) (ep_generation s) →
  body (data (endpoint s)) = Done (b, q) → queue_ok q →
  ∃ l', on_queue (IpcHandle_index h) s body (data t) = Done (b, l') ∧ endpoints_ok l' ∧
    endpoints l' = <[h := contents q]> (endpoints (data t)).
Proof.
  intros [_ Hl] Hm Hs Ho Hi Heta E Hq.
  destruct (endpoints_set _ Hl _ _ Hi Hs q Hq) as (Hl' & _ & Ht). rewrite <- Heta in Ht.
  eexists. split; [exact (on_queue_run _ Hl _ _ Hi Hs body b q Ho E)|]. done.
Qed.

Lemma icreate_loop_run l n i : endpoints_ok l → Z.of_nat n + i = 16 → 0 ≤ i →
  (∀ k s, l !! k = Some s → Z.of_nat k < i → ep_occupied s = true) →
  (∃ h l', endpoint_create_loop n i l = Done (Some h, l') ∧ endpoints_ok l' ∧
     endpoints l !! h = None ∧ h ≠ IpcHandle_INVALID ∧ endpoints l' = <[h := []]> (endpoints l)) ∨
  (endpoint_create_loop n i l = Done (None, l) ∧ Forall (λ s, ep_occupied s = true) l).
Proof.
  intros Hl. pose proof Hl as [[Hlen HF] Hep]. unfold MAX_IPC_ENDPOINTS in Hlen.
  revert i. induction n as [|n IH]; intros i Hn Hi Hbefore.
  { right. split; [done|]. apply Forall_lookup_2. intros k s Hk. apply (Hbefore k); [done|].
    pose proof (lookup_lt_Some _ _ _ Hk). lia. }
  destruct (vec_lookup l i) as [s Hs]; [lia|].
  cbn [endpoint_create_loop]. rewrite (bind_run _ _ _ _ _ (vec_get_run _ _ _ Hi Hs)).
  destruct (ep_occupied s) eqn:Ho; cbn [negb].
  - apply IH; [lia|lia|]. intros k s' Hk Hlt. destruct (decide (Z.of_nat k = i)) as [<-|].
    + rewrite Nat2Z.id in Hs. congruence.
    + apply (Hbefore k); [done|lia].
  - left. destruct (endpoint_at_ok l Hl i s Hs) as (Hlk & Hq & Hnil). specialize (Hnil Ho).
    destruct (endpoint s) as [lw q] eqn:Eq. simpl in *. subst lw.
    destruct (endpoints_set l Hl i s Hi Hs q Hq) as (Hl' & _ & Ht). rewrite Hnil in Ht.
    eexists _, _. split.
    { rewrite (bind_run _ _ _ _ _ (vec_set_run l i _ ltac:(lia))). done. }
    split; [exact Hl'|]. destruct Hl as [Hinv _]. split; [|split; [|exact Ht]].
    + unfold endpoints. rewrite (table_self _ _ _ _ IpcHandle_codec _ _ _ _ endpoints_range l Hinv i s Hi Hs).
      unfold ep_content. by rewrite Ho.
    + exact (slot_handle_ne0 _ _ _ _ IpcHandle_codec _ _ _ _ endpoints_range l Hinv i s Hi Hs).
Qed.

Lemma icreate_refines t : manager_ok t → ipc_refines t ICreate.
Proof.
  intros [Hlk Hl]. destruct (icreate_loop_run (data t) 16 0 Hl)
    as [(h & l' & E & Hl' & Hn & Hne & Ho)|[E Hall]]; [done|done|lia|..].
  - exists (IHandle (Some h)), (mkSpinLock false l').
    split; [apply (ipc_run _ IHandle); by apply with_lock_run|].
    split; [done|]. simpl. rewrite Ho. by constructor.
  - exists (IHandle None), (mkSpinLock false (data t)).
    split; [apply (ipc_run _ IHandle); by apply with_lock_run|].
    split; [done|]. constructor.
    exact (table_full _ _ _ _ IpcHandle_codec _ _ _ _ endpoints_range _ (proj1 Hl) Hall).
Qed.

Lemma iis_valid_refines t h : manager_ok t → in_u 64 h → ipc_refines t (IIsValid h).
Proof.
  intros Hok Hh.
  destruct (ipc_guard false (λ _, mret true) h t Hok Hh) as [[Hn E]|(s & Hm & _ & _ & _ & _ & _ & E)].
  - exists (IBool false), t.
    split; [apply (ipc_run _ IBool); etrans; [apply (valid_guarded _ _ _ _ _ _)|exact E]|].
    split; [done|]. rewrite <- (bool_decide_eq_false_2 (is_Some (endpoints (data t) !! h))); [constructor|].
    rewrite Hn. by intros [? ?].
  - exists (IBool true), (mkSpinLock false (data t)).
    split; [apply (ipc_run _ IBool); etrans; [apply (valid_guarded _ _ _ _ _ _)|by apply E]|].
    split; [by destruct Hok|].
    rewrite <- (bool_decide_eq_true_2 (is_Some (endpoints (data t) !! h))); [constructor|]. eauto.
Qed.

Lemma ireceive_refines t h : manager_ok t → in_u 64 h → ipc_refines t (IReceive h).
Proof.
  intros Hok Hh.
  destruct (ipc_guard None (λ slot, on_queue (IpcHandle_index h) slot IpcQueue_receive) h t Hok Hh)
    as [[Hn E]|(s & Hm & Hq & Hs & Ho & Hi & Heta & E)].
  { exists (IMessage None), t. split; [apply (ipc_run _ IMessage); exact E|]. split; [done|].
    apply is_receive_none. by rewrite Hn. }
  destruct (contents (data (endpoint s))) as [|msg q] eqn:Hc; rewrite <- Hc in Hm.
  - destruct (on_handle_run t h s IpcQueue_receive None _ Hok Hm Hs Ho Hi Heta
      (queue_receive_empty _ Hq Hc) Hq) as (l' & E' & Hl' & Ht).
    exists (IMessage None), (mkSpinLock false l'). split; [by apply (ipc_run _ IMessage), E|].
    split; [done|]. simpl data. rewrite Ht, insert_id by done. apply is_receive_none.
    by rewrite Hm, Hc.
  - destruct (queue_receive_run _ msg q Hq Hc) as (q' & Er & Hq' & Hc').
    destruct (on_handle_run t h s IpcQueue_receive _ q' Hok Hm Hs Ho Hi Heta Er Hq')
      as (l' & E' & Hl' & Ht).
    exists (IMessage (Some msg)), (mkSpinLock false l'). split; [by apply (ipc_run _ IMessage), E|].
    split; [done|]. simpl data. rewrite Ht, Hc'. apply is_receive. congruence.
Qed.

Lemma isend_refines t h from bytes : manager_ok t → in_u 64 h → ipc_refines t (ISend h from bytes).
Proof.
  intros Hok Hh. unfold ipc_refines. cbn [manager_op]. unfold IpcManager_send.
  destruct (IpcMessage_new from bytes) as [[msg|]|f] eqn:Em.
  - destruct (ipc_guard false (λ slot, on_queue (IpcHandle_index h) slot (IpcQueue_send msg)) h t Hok Hh)
      as [[Hn E]|(s & Hm & Hq & Hs & Ho & Hi & Heta & E)].
    { exists (IBool false), t. split; [apply (ipc_run _ IBool); exact E|]. split; [done|].
      by apply is_send_stale. }
    pose proof (length_contents (data (endpoint s))) as Hl. pose proof (qo_count _ Hq) as Hc.
    destruct (decide (length (contents (data (endpoint s))) = 16)%nat) as [Hfull|Hfull].
    + destruct (on_handle_run t h s (IpcQueue_send msg) _ _ Hok Hm Hs Ho Hi Heta
        (queue_send_full _ msg Hq Hfull) Hq) as (l' & E' & Hl' & Ht).
      exists (IBool false), (mkSpinLock false l'). split; [by apply (ipc_run _ IBool), E|].
      split; [done|]. simpl data. rewrite Ht, insert_id by done.
      eapply is_send_full; [done|]. by rewrite Hfull.
    + destruct (queue_send_run _ msg Hq) as (q' & Er & Hq' & Hc'); [lia|].
      destruct (on_handle_run t h s (IpcQueue_send msg) _ q' Hok Hm Hs Ho Hi Heta Er Hq')
        as (l' & E' & Hl' & Ht).
      exists (IBool true), (mkSpinLock false l'). split; [by apply (ipc_run _ IBool), E|].
      split; [done|]. simpl data. rewrite Ht, Hc'.
      apply is_send; [done|unfold IPC_QUEUE_CAPACITY; lia|done].
  - exists (IBool false), t. split; [done|]. split; [done|]. apply is_send_long.
    unfold IpcMessage_new in Em. destruct (Z.ltb_spec IPC_MESSAGE_SIZE (Z.of_nat (length bytes))); [done|].
    by destruct (copy_loop 0 bytes _) as [[[] ?]|].
  - exfalso. unfold IpcMessage_new in Em.
    destruct (Z.ltb_spec IPC_MESSAGE_SIZE (Z.of_nat (length bytes))); [done|].
    rewrite copy_loop_run in Em; [done|lia|unfold IPC_MESSAGE_SIZE in *; simpl; lia].
Qed.

Lemma iqueue_len_refines t h : manager_ok t → in_u 64 h → ipc_refines t (IQueueLen h).
Proof.
  intros Hok Hh.
  destruct (ipc_guard None (λ slot, on_queue (IpcHandle_index h) slot
      (q ← get; mret (Some (IpcQueue_len q)))) h t Hok Hh)
    as [[Hn E]|(s & Hm & Hq & Hs & Ho & Hi & Heta & E)].
  - exists (ILen None), t. split; [apply (ipc_run _ ILen); exact E|]. split; [done|].
    replace None with ((λ q, Z.of_nat (length q)) <$> endpoints (data t) !! h) by (by rewrite Hn).
    constructor.
  - destruct (on_handle_run t h s (q ← get; mret (Some (IpcQueue_len q))) _ _ Hok Hm Hs Ho Hi Heta
      eq_refl Hq) as (l' & E' & Hl' & Ht).
    eexists _, (mkSpinLock false l'). split; [by apply (ipc_run _ ILen), E|]. split; [done|].
    simpl data. rewrite Ht, insert_id by done.
    replace (Some (IpcQueue_len (data (endpoint s))))
      with ((λ q, Z.of_nat (length q)) <$> endpoints (data t) !! h); [constructor|].
    rewrite Hm. simpl. rewrite length_contents. pose proof (qo_count _ Hq). unfold IpcQueue_len.
    f_equal. lia.
Qed.

Lemma idestroy_refines t h : manager_ok t → in_u 64 h → ipc_refines t (IDestroy h).
Proof.
  intros Hok Hh.
  destruct (ipc_guard false (λ slot,
      empty ← on_queue (IpcHandle_index h) slot (q ← get; mret (IpcQueue_is_empty q));
      if negb empty then mret false
      else
        slot ← vec_get (IpcHandle_index h);
        vec_set (IpcHandle_index h) (IpcEndpointSlot_clear slot) ;;
        mret true) h t Hok Hh)
    as [[Hn E]|(s & Hm & Hq & Hs & Ho & Hi & Heta & E)].
  { exists (IBool false), t. split; [apply (ipc_run _ IBool); exact E|]. split; [done|].
    apply is_destroy_refused. by rewrite Hn. }
  pose proof Hok as [_ Hl]. pose proof (qo_count _ Hq) as Hcnt. pose proof (length_contents (data (endpoint s))) as Hlen.
  pose proof (on_queue_run _ Hl _ _ Hi Hs (q ← get; mret (IpcQueue_is_empty q)) _ _ Ho eq_refl) as Eq.
  destruct (endpoints_set _ Hl _ _ Hi Hs _ Hq) as (Hl1 & _ & Ht1). rewrite <- Heta in Ht1.
  rewrite insert_id in Ht1 by done. rewrite (bind_run _ _ _ _ _ Eq) in E.
  set (s1 := mkIpcEndpointSlot true (ep_generation s) (mkSpinLock false (data (endpoint s)))) in *.
  pose proof (lookup_lt_Some _ _ _ Hs) as Hb.
  assert (<[Z.to_nat (IpcHandle_index h) := s1]> (data t) !! Z.to_nat (IpcHandle_index h) = Some s1)
    as Hs1 by (by apply list_lookup_insert_eq).
  unfold IpcQueue_is_empty in E. destruct (Z.eqb_spec (qcount (data (endpoint s))) 0) as [H0|H0].
  - destruct (endpoints_clear _ Hl1 _ _ Hi Hs1 _ eq_refl) as (Hl2 & _ & Ht2).
    { apply nil_length_inv. simpl. lia. }
    eexists (IBool true), (mkSpinLock false _). split; [apply (ipc_run _ IBool), E|].
    { cbn [negb]. rewrite (bind_run _ _ _ _ _ (vec_get_run _ _ _ Hi Hs1)).
      by rewrite (bind_run _ _ _ _ _ (vec_set_run (<[Z.to_nat (IpcHandle_index h) := s1]> (data t))
        (IpcHandle_index h) _ ltac:(rewrite length_insert; lia))). }
    split; [done|]. simpl data. rewrite Ht2, Ht1. simpl ep_generation. rewrite <- Heta.
    apply is_destroy. rewrite Hm. f_equal. apply nil_length_inv. lia.
  - eexists (IBool false), (mkSpinLock false _). split; [apply (ipc_run _ IBool), E; by cbn [negb]|].
    split; [done|]. simpl data. rewrite Ht1. apply is_destroy_refused. rewrite Hm. intros [= Hnil].
    rewrite Hnil in Hlen. simpl in Hlen. lia.
Qed.

Lemma ipc_op_refines t op : manager_ok t → ipc_op_ok op → ipc_refines t op.
Proof.
  intros Hok Hop. destruct op as [|h|h from bytes|h|h|h|]; simpl in Hop;
    auto using icreate_refines, iis_valid_refines, isend_refines, ireceive_refines,
      iqueue_len_refines, idestroy_refines.
  eexists _, (mkSpinLock false (data t)). split; [|split; [by destruct Hok|]].
  - apply (ipc_run _ INum), with_lock_run; [apply Hok|done].
  - destruct Hok as [_ [Hinv _]].
    rewrite <- (table_size _ _ _ _ IpcHandle_codec _ _ _ _ endpoints_range _ Hinv). constructor.
Qed.

Fixpoint run_ipc (ops : list ipc_op) : M IpcManager (list ipc_res) :=
  match ops with
  | [] => mret []
  | op :: rest => r ← manager_op op; rs ← run_ipc rest; mret (r :: rs)
  end.

Inductive ipc_specs : gmap Z (list IpcMessage) → list ipc_op → list ipc_res →
    gmap Z (list IpcMessage) → Prop :=
| ipc_specs_nil m : ipc_specs m [] [] m
| ipc_specs_cons m m1 m2 op ops r rs :
    ipc_spec m op r m1 → ipc_specs m1 ops rs m2 → ipc_specs m (op :: ops) (r :: rs) m2.

Lemma manager_new_ok : manager_ok IpcManager_new.
Proof.
  split; [done|]. split; [split; [done|]|].
  - apply Forall_replicate, ep_slot_inv. lia.
  - apply Forall_replicate. split; [done|]. split; [apply queue_new_ok|done].
Qed.

Lemma endpoints_new : endpoints (data IpcManager_new) = ∅.
Proof. vm_compute. reflexivity. Qed.

Lemma run_ipc_refine ops t : manager_ok t → Forall ipc_op_ok ops →
  ∃ rs t', run_ipc ops t = Done (rs, t') ∧ manager_ok t' ∧ ipc_specs (endpoints (data t)) ops rs (endpoints (data t')).
Proof.
  intros Hok HF. revert t Hok. induction HF as [|op ops Hop HF IH]; intros t Hok.
  - exists [], t. split; [done|]. split; [done|constructor].
  - destruct (ipc_op_refines t op Hok Hop) as (r & t1 & E1 & Hok1 & Hs1).
    destruct (IH t1 Hok1) as (rs & t2 & E2 & Hok2 & Hs2). exists (r :: rs), t2.
    cbn [run_ipc]. rewrite (bind_run _ _ _ _ _ E1), (bind_run _ _ _ _ _ E2).
    split; [done|]. split; [done|]. by econstructor.
Qed.

(** C21: The IPC manager implements its specification: every sequence of calls
    on a new manager returns without panicking or blocking, with all locks free
    afterwards, and with the results of a finite map from endpoint handles to
    message queues, in which create gives a handle that is not live with no
    messages waiting (or none when 16 endpoints are live), send appends at most
    16 messages of at most 256 bytes, receive takes the oldest, destroy removes
    only an endpoint whose queue is empty, and an operation on one endpoint
    leaves the others alone. *)
Theorem ipc_manager_refines ops : Forall ipc_op_ok ops →
  ∃ rs t, run_ipc ops IpcManager_new = Done (rs, t) ∧ manager_ok t ∧
    ipc_specs ∅ ops rs (endpoints (data t)).
Proof. intros HF. rewrite <- endpoints_new. apply run_ipc_refine; [apply manager_new_ok|done]. Qed.

Lemma ipc_manager_refines_witness : ∃ rs t,
  run_ipc [ICreate; ISend 0x100000000 7 [72; 105]; IDestroy 0x100000000; IQueueLen 0x100000000;
           IReceive 0x100000000; IDestroy 0x100000000; IIsValid 0x100000000; ICreate]
    IpcManager_new = Done (rs, t) ∧
  (rs !! 0%nat, rs !! 1%nat, rs !! 2%nat, rs !! 3%nat, rs !! 5%nat, rs !! 6%nat, rs !! 7%nat)
  = (Some (IHandle (Some 0x100000000)), Some (IBool true), Some (IBool false), Some (ILen (Some 1)),
     Some (IBool true), Some (IBool false), Some (IHandle (Some 0x200000000))).
Proof.
  destruct (ipc_manager_refines [ICreate; ISend 0x100000000 7 [72; 105]; IDestroy 0x100000000;
    IQueueLen 0x100000000; IReceive 0x100000000; IDestroy 0x100000000; IIsValid 0x100000000; ICreate])
    as (rs & t & E & _).
  { repeat constructor; simpl; unfold in_u; lia. }
  exists rs, t. split; [exact E|]. vm_compute in E. injection E as <- _. reflexivity.
Defined.
