(* ===== verification/Linearizability.v ===== *)
(** * Concurrent calls (kernel/src/sync/spinlock.rs with objects/table.rs, ipc/endpoint.rs)

    The object table and the message manager are statics that any number of processors
    call.  Every operation of theirs either returns before it takes the lock or runs
    under it.  Here clients make such calls in any interleaving, and an operation under
    the lock is not one step: it may be cut into accesses to the data at any point
    where the code is a sequence of two parts, and other clients run in between.  The
    result is linearizability: the answers are those of the same calls made one after
    the other, in an order that respects each client's and the real time. *)

From S2P Require Import Prelude SpinLock SlotTable Objects Ipc.
Local Open Scope Z_scope.

(** Equality of computations, state by state. *)
Definition same {S A} (f g : M S A) : Prop := ∀ s, f s = g s.
Definition returns {S A} (f : M S A) (a : A) : Prop := ∀ s, f s = Done (a, s).

(** An operation that returns before it takes the lock, or runs under it. *)
Definition lock_shaped {T R} (f : M (SpinLock T) R) : Prop := (∃ r, returns f r) ∨ (∃ m, same f (with_lock m)).

(** What the operations [code] of an object behind a lock promise for the calls [ok]
    and the states [Φ]: the shape, and that a call made alone succeeds. *)
Class LockedObject {T R Op} (code : Op → M (SpinLock T) R) (Φ : T → Prop) (ok : Op → Prop) : Prop := {
  lo_shape op : ok op → lock_shaped (code op);
  lo_safe op d : ok op → Φ d → ∃ r d', code op (mkSpinLock false d) = Done (r, mkSpinLock false d') ∧ Φ d';
}.

Section clients.
Context {T R Op : Type} (code : Op → M (SpinLock T) R).

(** A client is between calls, or holds the guard with [rest] of the operation still to
    run, or has panicked. *)
Inductive phase := Idle | Critical (rest : M T R) | Crashed.
Record client := mkClient { calls : list Op; phase_of : phase; answers : list R }.
(** The history is ghost state: the calls that have returned, in order. *)
Record world := mkWorld { shared : SpinLock T; clients : list client; history : list (nat * (Op * R)) }.

Inductive client_step (k : SpinLock T) : client → SpinLock T → client → list (Op * R) → Prop :=
| step_direct op ops rs r :
    returns (code op) r →
    client_step k (mkClient (op :: ops) Idle rs) k (mkClient ops Idle (rs ++ [r])) [(op, r)]
| step_enter op ops rs m k' :
    same (code op) (with_lock m) → compare_exchange false true k = Done (true, k') →
    client_step k (mkClient (op :: ops) Idle rs) k' (mkClient (op :: ops) (Critical m) rs) []
| step_wait op ops rs m k' :
    same (code op) (with_lock m) → compare_exchange false true k = Done (false, k') →
    client_step k (mkClient (op :: ops) Idle rs) k' (mkClient (op :: ops) Idle rs) []
| step_access op ops rs m A (f : M T A) (g : A → M T R) a d :
    same m (f ≫= g) → f (data k) = Done (a, d) →
    client_step k (mkClient (op :: ops) (Critical m) rs) (mkSpinLock (locked k) d)
      (mkClient (op :: ops) (Critical (g a)) rs) []
| step_panic op ops rs m A (f : M T A) (g : A → M T R) e :
    same m (f ≫= g) → f (data k) = Panicked e →
    client_step k (mkClient (op :: ops) (Critical m) rs) k (mkClient (op :: ops) Crashed rs) []
| step_leave op ops rs m r k' :
    returns m r → guard_drop k = Done ((), k') →
    client_step k (mkClient (op :: ops) (Critical m) rs) k' (mkClient ops Idle (rs ++ [r])) [(op, r)].

Inductive world_step : world → world → Prop :=
| world_client k cs h i c k' c' w :
    cs !! i = Some c → client_step k c k' c' w →
    world_step (mkWorld k cs h) (mkWorld k' (<[i := c']> cs) (h ++ ((i,.) <$> w))).

Definition begin (d : T) (progs : list (list Op)) : world :=
  mkWorld (SpinLock_new d) ((λ ops, mkClient ops Idle []) <$> progs) [].
(** The calls of one client in a history; the calls and the answers of a history. *)
Definition history_of (i : nat) (h : list (nat * (Op * R))) : list (Op * R) := snd <$> filter (λ e, e.1 = i) h.
Definition calls_in (h : list (nat * (Op * R))) : list Op := (λ e, e.2.1) <$> h.
Definition answers_in (h : list (nat * (Op * R))) : list R := (λ e, e.2.2) <$> h.

(** The calls one after the other. *)
Fixpoint replay (ops : list Op) : M (SpinLock T) (list R) :=
  match ops with
  | [] => mret []
  | op :: rest => r ← code op; rs ← replay rest; mret (r :: rs)
  end.

(** ** Linearizability

    [spec ops answers d]: the calls [ops], made one after the other from the start, are
    answered by [answers] and leave the data [d]. *)

Definition finished_all (w : world) : Prop := Forall (λ c, calls c = []) (clients w).

Record linearizable (spec : list Op → list R → T → Prop) (progs : list (list Op)) (w : world) : Prop := {
  (** the history is a sequential run, and a free lock protects its outcome *)
  lz_history : ∃ d, spec (calls_in (history w)) (answers_in (history w)) d ∧
    (SpinLock_is_locked (shared w) = false → data (shared w) = d);
  (** no client has panicked; what it called and was answered is in the history, in its order *)
  lz_client i c : clients w !! i = Some c → phase_of c ≠ Crashed ∧
    progs !! i = Some ((history_of i (history w)).*1 ++ calls c) ∧ answers c = (history_of i (history w)).*2;
  (** at most one client is in an operation *)
  lz_exclusive i j c c' m m' : clients w !! i = Some c → clients w !! j = Some c' →
    phase_of c = Critical m → phase_of c' = Critical m' → i = j;
  (** a call that has returned comes before one that has not *)
  lz_real_time w' : rtc world_step w w' → history w `prefix_of` history w';
  (** every client can still finish all its calls *)
  lz_progress : ∃ w', rtc world_step w w' ∧ finished_all w' ∧ SpinLock_is_locked (shared w') = false;
}.

(** ** Lemmas *)

Lemma with_lock_free {B} (m : M T B) d :
  with_lock m (mkSpinLock false d) = match m d with Done (b, d') => Done (b, mkSpinLock false d') | Panicked e => Panicked e end.
Proof.
  destruct (m d) as [[b d']|e] eqn:E; [by apply with_lock_run|].
  unfold with_lock. rewrite (bind_run _ _ _ () (mkSpinLock true d)) by done. apply bind_run_panic. unfold zoom. simpl. by rewrite E.
Qed.

Lemma replay_snoc ops op rs r k k1 k2 : replay ops k = Done (rs, k1) → code op k1 = Done (r, k2) →
  replay (ops ++ [op]) k = Done (rs ++ [r], k2).
Proof.
  revert rs k. induction ops as [|o ops IH]; intros rs k E1 E2; cbn [replay app] in *.
  - injection E1 as <- <-. by rewrite (bind_run _ _ _ _ _ E2).
  - apply bind_inv in E1 as (r1 & k3 & Ea & E1). apply bind_inv in E1 as (rs1 & k4 & Eb & E1). injection E1 as <- <-.
    rewrite (bind_run _ _ _ _ _ Ea). by rewrite (bind_run _ _ _ _ _ (IH _ _ Eb E2)).
Qed.

Lemma history_of_app i j h w : history_of i (h ++ ((j,.) <$> w)) = history_of i h ++ (if decide (j = i) then w else []).
Proof.
  unfold history_of. rewrite filter_app, fmap_app. f_equal.
  destruct (decide (j = i)) as [Hd|Hd]; induction w as [|e w IH]; try done; rewrite fmap_cons.
  - by rewrite filter_cons_True, fmap_cons, IH.
  - by rewrite filter_cons_False, IH.
Qed.
Lemma calls_in_app i h w : calls_in (h ++ ((i,.) <$> w)) = calls_in h ++ w.*1.
Proof. unfold calls_in. by rewrite fmap_app, <- list_fmap_compose. Qed.
Lemma answers_in_app i h w : answers_in (h ++ ((i,.) <$> w)) = answers_in h ++ w.*2.
Proof. unfold answers_in. by rewrite fmap_app, <- list_fmap_compose. Qed.

Lemma history_grows w w' : rtc world_step w w' → history w `prefix_of` history w'.
Proof.
  induction 1 as [|x y z Hs _ IH]; [done|]. etrans; [|exact IH]. destruct Hs. by apply prefix_app_r.
Qed.

(** ** The invariant *)

Context (Φ : T → Prop) (ok : Op → Prop) {HL : LockedObject code Φ ok}.
Context (d0 : T) (HΦ : Φ d0) (progs : list (list Op)) (Hprogs : Forall (Forall ok) progs).

(** Nobody is in a call, and the data is [d]. *)
Definition resting (d : T) (w : world) : Prop :=
  shared w = mkSpinLock false d ∧ ∀ i c, clients w !! i = Some c → phase_of c = Idle.
(** One client holds the guard: what is left of its operation does to the data as it is
    now what the whole operation does to [d]. *)
Definition busy (d : T) (w : world) : Prop :=
  locked (shared w) = true ∧ ∃ i c op ops m m0, clients w !! i = Some c ∧ phase_of c = Critical m ∧
    calls c = op :: ops ∧ same (code op) (with_lock m0) ∧ m (data (shared w)) = m0 d ∧
    ∀ j c', j ≠ i → clients w !! j = Some c' → phase_of c' = Idle.
Definition replayed (h : list (nat * (Op * R))) (d : T) : Prop :=
  replay (calls_in h) (SpinLock_new d0) = Done (answers_in h, mkSpinLock false d) ∧ Forall ok (calls_in h) ∧ Φ d.

Record linear (w : world) : Prop := {
  ln_replay : ∃ d, replayed (history w) d ∧ (resting d w ∨ busy d w);
  ln_client i c : clients w !! i = Some c →
    progs !! i = Some ((history_of i (history w)).*1 ++ calls c) ∧ answers c = (history_of i (history w)).*2;
}.

Lemma linear_begin : linear (begin d0 progs).
Proof using HΦ.
  assert (∀ i c, clients (begin d0 progs) !! i = Some c → ∃ ops, progs !! i = Some ops ∧ c = mkClient ops Idle []) as H.
  { intros i c. simpl. rewrite list_lookup_fmap. destruct (progs !! i) as [ops|]; [|done]. intros [= <-]. by exists ops. }
  split.
  - exists d0. split; [split; [done|]; by split; [constructor|]|]. left. split; [done|]. intros i c Hc. by destruct (H i c Hc) as (ops & _ & ->).
  - intros i c Hc. destruct (H i c Hc) as (ops & Ho & ->). by split.
Qed.

Lemma client_books k c k' c' w : client_step k c k' c' w → calls c = w.*1 ++ calls c' ∧ answers c' = answers c ++ w.*2.
Proof using. intros H. destruct H; simpl; by rewrite ?app_nil_r. Qed.

Lemma pending_ok w i c op ops : linear w → clients w !! i = Some c → calls c = op :: ops → ok op.
Proof using Hprogs.
  intros HI Hc Ho. destruct (ln_client _ HI i c Hc) as [Hp _]. pose proof (Forall_lookup_1 _ _ _ _ Hprogs Hp) as HF.
  rewrite Ho in HF. apply Forall_app in HF as [_ HF]. by apply Forall_cons in HF as [? _].
Qed.

(** A finished call is one more call of the replay. *)
Lemma replay_call h d i op r d' : replayed h d → ok op → Φ d' → code op (mkSpinLock false d) = Done (r, mkSpinLock false d') →
  replayed (h ++ ((i,.) <$> [(op, r)])) d'.
Proof using.
  intros (E & HF & _) Hop HP Ec. unfold replayed. rewrite calls_in_app, answers_in_app. split; [by eapply replay_snoc|].
  split; [|done]. apply Forall_app. split; [done|by apply Forall_singleton].
Qed.
Lemma critical_result op m0 d : ok op → Φ d → same (code op) (with_lock m0) →
  ∃ r d', m0 d = Done (r, d') ∧ code op (mkSpinLock false d) = Done (r, mkSpinLock false d') ∧ Φ d'.
Proof using HL.
  intros Hop HP Hs. destruct (lo_safe op d Hop HP) as (r & d' & E & HP'). exists r, d'. split; [|by split].
  rewrite Hs, with_lock_free in E. destruct (m0 d) as [[b d2]|]; [|done]. by injection E as -> ->.
Qed.

Lemma insert_cases {A} (l : list A) i x x' j y : l !! i = Some x → <[i := x']> l !! j = Some y →
  (j = i ∧ y = x') ∨ (j ≠ i ∧ l !! j = Some y).
Proof using.
  intros Hi Hj. destruct (decide (j = i)) as [->|Hne]; [left|right].
  - rewrite list_lookup_insert_eq in Hj by (by eapply lookup_lt_Some). split; congruence.
  - by rewrite list_lookup_insert_ne in Hj.
Qed.

(** A client that takes no part in the lock: it stays idle. *)
Lemma bystander d k cs h i c c' h' : cs !! i = Some c → phase_of c = Idle → phase_of c' = Idle →
  resting d (mkWorld k cs h) ∨ busy d (mkWorld k cs h) →
  resting d (mkWorld k (<[i := c']> cs) h') ∨ busy d (mkWorld k (<[i := c']> cs) h').
Proof using.
  intros Hi Hp Hp' [[Hk Hid]|(Hk & j & cj & op & ops & m & m0 & Hj & Hpj & Hcj & Hs & Hm & Hid)]; [left|right].
  - split; [done|]. intros j x Hj. destruct (insert_cases _ _ _ _ _ _ Hi Hj) as [[-> ->]|[_ Hx]]; [done|by apply (Hid j)].
  - assert (j ≠ i) as Hne by (intros ->; simpl in Hj; congruence).
    split; [done|]. exists j, cj, op, ops, m, m0. split; [simpl; by rewrite list_lookup_insert_ne|]. do 4 (split; [done|]).
    intros a x Ha Hx. destruct (insert_cases _ _ _ _ _ _ Hi Hx) as [[-> ->]|[_ Hx']]; [done|by apply (Hid a)].
Qed.

(** The client in a call is the one that holds the guard. *)
Lemma holder d k cs h i c m : cs !! i = Some c → phase_of c = Critical m →
  resting d (mkWorld k cs h) ∨ busy d (mkWorld k cs h) →
  locked k = true ∧ ∃ op ops m0, calls c = op :: ops ∧ same (code op) (with_lock m0) ∧ m (data k) = m0 d ∧
    ∀ j c', j ≠ i → cs !! j = Some c' → phase_of c' = Idle.
Proof using.
  intros Hi Hp [[_ Hid]|(Hk & j & cj & op & ops & m' & m0 & Hj & Hpj & Hcj & Hs & Hm & Hid)].
  - rewrite (Hid i c Hi) in Hp. done.
  - destruct (decide (i = j)) as [->|Hne]; [|rewrite (Hid i c Hne Hi) in Hp; done].
    simpl in *. assert (cj = c) as -> by congruence. assert (m' = m) as -> by congruence. split; [done|]. by exists op, ops, m0.
Qed.

Lemma replay_step k cs h i c k' c' w d : cs !! i = Some c → client_step k c k' c' w →
  (∀ op ops, calls c = op :: ops → ok op) → replayed h d → resting d (mkWorld k cs h) ∨ busy d (mkWorld k cs h) →
  ∃ d', replayed (h ++ ((i,.) <$> w)) d' ∧
    (resting d' (mkWorld k' (<[i := c']> cs) (h ++ ((i,.) <$> w))) ∨ busy d' (mkWorld k' (<[i := c']> cs) (h ++ ((i,.) <$> w)))).
Proof using HL.
  intros Hi Hst Hok Hr Hw.
  assert (<[i := c']> cs !! i = Some c') as Hself by (apply list_lookup_insert_eq; by eapply lookup_lt_Some).
  destruct Hst as [op ops rs r Hret|op ops rs m k' Hs Hc|op ops rs m k' Hs Hc|op ops rs m A f g a d1 Hm Hf|op ops rs m A f g e Hm Hf
    |op ops rs m r k' Hret Hd]; specialize (Hok op ops eq_refl); rewrite ?app_nil_r.
  - exists d. split; [by eapply replay_call; [|done|apply Hr|apply Hret]|]. by eapply bystander.
  - apply cas_inv in Hc as [Hf ->]. exists d. split; [done|]. right. destruct Hw as [[Hk Hid]|[Hk _]]; [|simpl in Hk; by rewrite Hk in Hf].
    simpl in Hk. subst k. split; [done|]. exists i, (mkClient (op :: ops) (Critical m) rs), op, ops, m, m. do 5 (split; [done|]).
    intros j x Hj Hx. destruct (insert_cases _ _ _ _ _ _ Hi Hx) as [[-> _]|[_ Hx']]; [done|by apply (Hid j)].
  - apply cas_inv in Hc as [Hf ->]. exists d. split; [done|].
    assert (mkSpinLock true (data k) = k) as -> by (destruct k as [[] x]; done). by eapply bystander.
  - destruct (holder _ _ _ _ _ _ m Hi eq_refl Hw) as (Hk & op' & ops' & m0 & [= <- <-] & Hs & E & Hid). exists d. split; [done|]. right.
    split; [done|]. exists i, (mkClient (op :: ops) (Critical (g a)) rs), op, ops, (g a), m0. do 4 (split; [done|]). split.
    + rewrite <- E, Hm. by rewrite (bind_run _ _ _ _ _ Hf).
    + intros j x Hj Hx. destruct (insert_cases _ _ _ _ _ _ Hi Hx) as [[-> _]|[_ Hx']]; [done|by apply (Hid j)].
  - destruct (holder _ _ _ _ _ _ m Hi eq_refl Hw) as (_ & op' & ops' & m0 & [= <- <-] & Hs & E & _). exfalso.
    destruct (critical_result op m0 d Hok (proj2 (proj2 Hr)) Hs) as (r & d' & E' & _).
    rewrite Hm, (bind_run_panic _ _ _ _ Hf) in E. congruence.
  - destruct (holder _ _ _ _ _ _ m Hi eq_refl Hw) as (_ & op' & ops' & m0 & [= <- <-] & Hs & E & Hid).
    destruct (critical_result op m0 d Hok (proj2 (proj2 Hr)) Hs) as (r' & d' & E' & Ec & HP'). rewrite Hret in E.
    assert (r' = r ∧ d' = data k) as [-> ->] by (split; congruence). unfold guard_drop in Hd. injection Hd as <-.
    exists (data k). split; [by eapply replay_call|]. left. split; [done|]. intros j x Hx.
    destruct (insert_cases _ _ _ _ _ _ Hi Hx) as [[-> ->]|[Hj Hx']]; [done|by apply (Hid j)].
Qed.

Lemma linear_step w w' : linear w → world_step w w' → linear w'.
Proof using HL Hprogs.
  intros HI Hs. destruct Hs as [k cs h i c k' c' ev Hi Hst]. pose proof HI as [(d & Hr & Hw) Hcl]. simpl in *. split; simpl.
  - eapply replay_step; [done|done| |done|done]. intros op ops. by apply (pending_ok _ i c op ops HI).
  - destruct (client_books _ _ _ _ _ Hst) as [Hb1 Hb2]. intros j x Hx. rewrite history_of_app.
    destruct (insert_cases _ _ _ _ _ _ Hi Hx) as [[-> ->]|[Hne Hx']].
    + destruct (Hcl i c Hi) as [H1 H2]. rewrite decide_True by done. rewrite !fmap_app, <- app_assoc, <- Hb1, Hb2, H2. by split.
    + rewrite decide_False, app_nil_r by done. by apply Hcl.
Qed.

Lemma linear_steps w : rtc world_step (begin d0 progs) w → linear w.
Proof using HL Hprogs HΦ.
  intros Hr. pose proof linear_begin as HI. revert HI. induction Hr as [|x y z Hs _ IH]; [done|]. intros HI. apply IH. by eapply linear_step.
Qed.

(** ** Progress *)

Definition remaining (cs : list client) : nat := sum_list (length <$> (calls <$> cs)).
Lemma remaining_insert cs i c c' : cs !! i = Some c → (length (calls c') < length (calls c))%nat →
  (remaining (<[i := c']> cs) < remaining cs)%nat.
Proof using.
  unfold remaining. revert i. induction cs as [|x cs IH]; intros [|i] Hi Hl; simplify_eq/=; [lia|]. specialize (IH i Hi Hl). lia.
Qed.

(** The holder of the guard can finish its call. *)
Lemma finish_call k cs h i op ops rs m r d : cs !! i = Some (mkClient (op :: ops) (Critical m) rs) → m (data k) = Done (r, d) →
  rtc world_step (mkWorld k cs h) (mkWorld (mkSpinLock false d) (<[i := mkClient ops Idle (rs ++ [r])]> cs) (h ++ [(i, (op, r))])).
Proof using.
  intros Hi E. assert (i < length cs)%nat as Hlt by (by eapply lookup_lt_Some).
  eapply rtc_l; [eapply world_client; [exact Hi|]; apply (step_access k op ops rs m R m mret r d); [|exact E]|].
  { intros s. unfold mbind, M_bind. by destruct (m s) as [[? ?]|]. }
  eapply rtc_l; [eapply world_client; [by apply list_lookup_insert_eq|]; by apply (step_leave _ op ops rs (mret r) r)|].
  rewrite list_insert_insert_eq, app_nil_r. constructor.
Qed.

Lemma one_call w : linear w → ¬ finished_all w →
  ∃ w', rtc world_step w w' ∧ (remaining (clients w') < remaining (clients w))%nat.
Proof using HL Hprogs.
  intros HI Hn. destruct w as [k cs h]. pose proof HI as [(d & (_ & _ & HP) & Hw) _]. simpl in *.
  assert (∀ i c op ops, cs !! i = Some c → calls c = op :: ops → ok op) as Hok.
  { intros i c op ops Hi. by apply (pending_ok _ i c op ops HI). }
  destruct Hw as [[Hk Hid]|(Hk & i & c & op & ops & m & m0 & Hi & Hp & Hc & Hs & E & _)]; simpl in *.
  - apply not_Forall_Exists in Hn; [|apply _]. apply Exists_exists in Hn as (c & Hc & Hne).
    apply list_elem_of_lookup in Hc as [i Hi]. pose proof (Hid i c Hi) as Hp.
    destruct c as [[|op ops] p rs]; simpl in *; subst p k; [by destruct Hne|].
    pose proof (Hok i _ op ops Hi eq_refl) as Hop. destruct (lo_shape op Hop) as [[r Hr]|[m Hm]].
    + eexists. split; [apply rtc_once; eapply world_client; [exact Hi|]; by apply (step_direct _ op ops rs r)|].
      eapply remaining_insert; [exact Hi|simpl; lia].
    + destruct (critical_result op m d Hop HP Hm) as (r & d' & E & _ & _). eexists. split.
      * eapply rtc_l; [eapply world_client; [exact Hi|]; by apply (step_enter _ op ops rs m)|].
        apply (finish_call _ _ _ i op ops rs m r d'); [|exact E]. apply list_lookup_insert_eq. by eapply lookup_lt_Some.
      * simpl. rewrite list_insert_insert_eq. eapply remaining_insert; [exact Hi|simpl; lia].
  - destruct c as [cl p rs]; simpl in *; subst cl p.
    destruct (critical_result op m0 d (Hok i _ op ops Hi eq_refl) HP Hs) as (r & d' & E' & _ & _). eexists. split.
    + eapply (finish_call _ _ _ i op ops rs m r d'); [exact Hi|congruence].
    + eapply remaining_insert; [exact Hi|simpl; lia].
Qed.

Lemma all_finish w : linear w → ∃ w', rtc world_step w w' ∧ linear w' ∧ finished_all w'.
Proof using HL Hprogs.
  remember (remaining (clients w)) as n eqn:Hn. revert w Hn. induction n as [n IH] using lt_wf_ind. intros w -> HI.
  destruct (decide (finished_all w)) as [Hf|Hf]; [by exists w|].
  destruct (one_call w HI Hf) as (w1 & Hr & Hlt).
  assert (linear w1) as HI1 by (revert HI; clear -Hr HL Hprogs; induction Hr as [|x y z Hs _ IH]; [done|]; intros; by eapply IH, linear_step).
  destruct (IH _ Hlt w1 eq_refl HI1) as (w' & Hr' & HH). exists w'. split; [by etrans|done].
Qed.

Lemma finished_resting w d : finished_all w → resting d w ∨ busy d w → locked (shared w) = false.
Proof using.
  intros Hf [[-> _]|(_ & i & c & op & ops & _ & _ & Hi & _ & Hc & _)]; [done|].
  pose proof (Forall_lookup_1 _ _ _ _ Hf Hi). simpl in *. congruence.
Qed.

(** What holds of any object behind a lock, with the code itself as the specification. *)
Lemma locked_object_linearizable w : rtc world_step (begin d0 progs) w →
  linearizable (λ ops rs d, replay ops (SpinLock_new d0) = Done (rs, mkSpinLock false d) ∧ Forall ok ops) progs w.
Proof using All.
  intros Hr. pose proof (linear_steps w Hr) as HI. pose proof HI as [(d & (E & HF & _) & Hw) Hcl]. destruct w as [k cs h]. simpl in *. split.
  - exists d. split; [done|]. simpl. destruct Hw as [[Hk _]|[Hk _]]; simpl in Hk; [by rewrite Hk|].
    unfold SpinLock_is_locked. congruence.
  - intros i c Hi. split; [|by apply Hcl]. simpl in Hi.
    destruct Hw as [[_ Hid]|(_ & j & cj & _ & _ & m & _ & Hj & Hp & _ & _ & _ & Hid)]; simpl in *; [by rewrite (Hid i c Hi)|].
    destruct (decide (i = j)) as [->|Hne]; [|by rewrite (Hid i c Hne Hi)]. congruence.
  - intros i j c c' m m' Hi Hj Hp Hp'. simpl in *. destruct (decide (i = j)) as [|Hne]; [done|].
    destruct (holder _ _ _ _ _ _ _ Hi Hp Hw) as (_ & _ & _ & _ & _ & _ & _ & Hid).
    rewrite (Hid j c' ltac:(congruence) Hj) in Hp'. done.
  - intros w' Hw'. by apply history_grows.
  - destruct (all_finish _ HI) as (w' & Hr' & [(d' & _ & Hw') _] & Hf). exists w'. split; [done|]. split; [done|].
    by eapply finished_resting.
Qed.
End clients.

Lemma linearizable_mono {T R Op} (code : Op → M (SpinLock T) R) (spec spec' : list Op → list R → T → Prop) progs w :
  (∀ ops rs d, spec ops rs d → spec' ops rs d) → linearizable code spec progs w → linearizable code spec' progs w.
Proof. intros H [(d & Hs & Hd) ? ? ? ?]. split; try done. exists d. eauto. Qed.

(** ** The object table *)

(** Wrapping the answer of an operation under the lock. *)
Lemma with_lock_map {T B C} (m : M T B) (f : B → C) : same (r ← with_lock m; mret (f r)) (with_lock (r ← m; mret (f r))).
Proof.
  intros [[] d].
  - rewrite (with_lock_held _ (mkSpinLock true d) eq_refl). by rewrite (bind_run_panic _ _ _ _ (with_lock_held m (mkSpinLock true d) eq_refl)).
  - rewrite with_lock_free. unfold mbind, M_bind. rewrite with_lock_free. by destruct (m d) as [[b d']|].
Qed.

(** A computation before the guards. *)
Lemma lift_shaped {T B C D} (x : B) (f : B → M (SpinLock T) C) (g : C → D) :
  lock_shaped (r ← f x; mret (g r)) → lock_shaped (r ← (lift (Done x) ≫= f); mret (g r)).
Proof. done. Qed.

(** An operation with guards before the lock. *)
Ltac lock_shape :=
  first [left; eexists; intros s; reflexivity | right; eexists; apply with_lock_map | case_match; lock_shape].

#[export] Instance object_table_locked : LockedObject table_op slots_ok object_op_ok.
Proof.
  split.
  - intros op _. destruct op; cbn [table_op]; unfold ObjectTable_create, ObjectTable_is_valid, ObjectTable_get_type, ObjectTable_retain,
      ObjectTable_release, ObjectTable_destroy, ObjectTable_count; cbv zeta; lock_shape.
  - intros op d Hop Hd. destruct (table_op_refines (mkSpinLock false d) op (conj eq_refl Hd) Hop) as (r & [l d'] & E & [Hl Hd'] & _).
    simpl in Hl. subst l. by exists r, d'.
Qed.

(** C12: The object table under concurrent calls.  Any number of clients call create,
    is_valid, get_type, retain, release, destroy and count of a new table in any
    interleaving, the operations cut into accesses wherever the code is a sequence.
    Then the table is linearizable with respect to the abstract table: the answers are
    those of the calls made one after the other on a finite map from live handles to
    records, in an order that respects the order of each client and of real time; when
    the lock is free the slots represent the outcome; at most one client is inside an
    operation, none panics, and all can finish. *)
Theorem object_table_linearizable progs w : Forall (Forall object_op_ok) progs →
  rtc (world_step table_op) (begin (data ObjectTable_new) progs) w →
  linearizable table_op (λ ops rs d, spec_ops ∅ ops rs (objects d)) progs w.
Proof.
  intros Hp Hr. eapply linearizable_mono; [|by eapply (locked_object_linearizable table_op slots_ok object_op_ok _ (proj2 table_new_ok))].
  intros ops rs d [E HF]. destruct (run_ops_refine ops ObjectTable_new table_new_ok HF) as (rs' & t & E' & _ & Hs).
  change (replay table_op ops (SpinLock_new (data ObjectTable_new))) with (run_ops ops ObjectTable_new) in E.
  rewrite E in E'. injection E' as <- <-. by rewrite objects_new in Hs.
Qed.

(** ** The message manager *)

#[export] Instance ipc_manager_locked : LockedObject manager_op endpoints_ok ipc_op_ok.
Proof.
  split.
  - intros op _. destruct op as [|h|h from bytes|h|h|h|]; cbn [manager_op]; unfold IpcManager_create, IpcManager_is_valid, IpcManager_receive,
      IpcManager_queue_len, IpcManager_destroy, IpcManager_count; cbv zeta; try lock_shape.
    pose proof (message_roundtrip from bytes) as Hm. unfold IpcManager_send.
    destruct (IpcMessage_new from bytes) as [[m|]|]; [| |done]; apply lift_shaped; lock_shape.
  - intros op d Hop Hd. destruct (ipc_op_refines (mkSpinLock false d) op (conj eq_refl Hd) Hop) as (r & [l d'] & E & [Hl Hd'] & _).
    simpl in Hl. subst l. by exists r, d'.
Qed.

(** C13: The message manager under concurrent calls.  Any number of clients call create,
    is_valid, send, receive, queue_len, destroy and count of a new manager in any
    interleaving, the operations cut into accesses wherever the code is a sequence, with
    the locks of the queues nested in the manager's.  Then the manager is linearizable
    with respect to a finite map from endpoint handles to bounded FIFO queues: no message
    is lost, duplicated or reordered, no client panics or waits for a lock nobody will
    release, and all can finish. *)
Theorem ipc_manager_linearizable progs w : Forall (Forall ipc_op_ok) progs →
  rtc (world_step manager_op) (begin (data IpcManager_new) progs) w →
  linearizable manager_op (λ ops rs d, ipc_specs ∅ ops rs (endpoints d)) progs w.
Proof.
  intros Hp Hr. eapply linearizable_mono; [|by eapply (locked_object_linearizable manager_op endpoints_ok ipc_op_ok _ (proj2 manager_new_ok))].
  intros ops rs d [E HF]. destruct (run_ipc_refine ops IpcManager_new manager_new_ok HF) as (rs' & t & E' & _ & Hs).
  change (replay manager_op ops (SpinLock_new (data IpcManager_new))) with (run_ipc ops IpcManager_new) in E.
  rewrite E in E'. injection E' as <- <-. by rewrite endpoints_new in Hs.
Qed.

(** ** Two clients

    The first has read a slot of its call; the second finds the lock taken. *)

Lemma two_clients_objects : ∃ w,
  rtc (world_step table_op) (begin (data ObjectTable_new) [[Create ObjectType.Process; Count]; [Create ObjectType.File]]) w ∧
  locked (shared w) = true.
Proof.
  eexists. split.
  - eapply rtc_l; [eapply (world_client _ _ _ _ 0%nat); [reflexivity|]; eapply step_enter; [apply with_lock_map|reflexivity]|].
    eapply rtc_l; [eapply (world_client _ _ _ _ 1%nat); [reflexivity|]; eapply step_wait; [apply with_lock_map|reflexivity]|].
    eapply rtc_l; [eapply (world_client _ _ _ _ 0%nat); [reflexivity|]; eapply (step_access _ _ _ _ _ _ _ (vec_get 0)); [|reflexivity]|constructor].
    intros s. apply (bind_assoc (vec_get 0) _ _ s).
  - reflexivity.
Qed.
Lemma two_clients_ipc : ∃ w,
  rtc (world_step manager_op) (begin (data IpcManager_new) [[ICreate; ISend 0x100000000 7 [72; 105]]; [IReceive 0x100000000]]) w ∧
  locked (shared w) = true.
Proof.
  eexists. split.
  - eapply rtc_l; [eapply (world_client _ _ _ _ 0%nat); [reflexivity|]; eapply step_enter; [apply with_lock_map|reflexivity]|].
    eapply rtc_l; [eapply (world_client _ _ _ _ 1%nat); [reflexivity|]; eapply step_wait; [apply with_lock_map|reflexivity]|].
    eapply rtc_l; [eapply (world_client _ _ _ _ 0%nat); [reflexivity|]; eapply (step_access _ _ _ _ _ _ _ (vec_get 0)); [|reflexivity]|constructor].
    intros s. apply (bind_assoc (vec_get 0) _ _ s).
  - reflexivity.
Qed.

Lemma object_table_linearizable_witness : ∃ w w',
  locked (shared w) = true ∧ rtc (world_step table_op) w w' ∧ finished_all w' ∧ SpinLock_is_locked (shared w') = false.
Proof.
  destruct two_clients_objects as (w & Hr & Hl).
  assert (Forall (Forall object_op_ok) [[Create ObjectType.Process; Count]; [Create ObjectType.File]]) as HF by (repeat constructor).
  destruct (lz_progress _ _ _ _ (object_table_linearizable _ w HF Hr)) as (w' & H).
  exists w, w'. split; [exact Hl|exact H].
Defined.
Lemma ipc_manager_linearizable_witness : ∃ w w',
  locked (shared w) = true ∧ rtc (world_step manager_op) w w' ∧ finished_all w' ∧ SpinLock_is_locked (shared w') = false.
Proof.
  destruct two_clients_ipc as (w & Hr & Hl).
  assert (Forall (Forall ipc_op_ok) [[ICreate; ISend 0x100000000 7 [72; 105]]; [IReceive 0x100000000]]) as HF.
  { repeat constructor; simpl; unfold in_u; lia. }
  destruct (lz_progress _ _ _ _ (ipc_manager_linearizable _ w HF Hr)) as (w' & H).
  exists w, w'. split; [exact Hl|exact H].
Defined.
