(* ===== verification/WeakMemory.v ===== *)
(** * Memory orderings of the spin lock (kernel/src/sync/spinlock.rs)

    The lock takes its word with [compare_exchange(.., Acquire, Relaxed)] and gives it
    back with [store(.., Release)]; the data is accessed without synchronisation.  On a
    machine with weak memory a location holds the messages written to it, each with a
    timestamp, and a thread has a view: the oldest message of each location it may
    still read.  An acquiring read takes over the view of the message it reads, a
    releasing write puts the writer's view in its message.  A thread may read any
    message its view allows, stale ones included, and write at any free timestamp
    beyond its view.

    The theorem is that the orderings the code uses are enough: whoever holds the lock
    sees the last message of every cell of the data, and every execution is one of the
    interleavings of Linearizability.v. *)

From S2P Require Import Prelude SpinLock Linearizability.
Local Open Scope Z_scope.

Inductive ordering := Relaxed | Acquire | Release.

(** The orderings in the source. *)
Definition lock_success : ordering := Acquire.
Definition lock_failure : ordering := Relaxed.
Definition drop_store : ordering := Release.

(** ** Views and messages *)

Record view := mkView { at_lock : nat; at_cell : Z → nat }.
Definition view_bot : view := mkView 0 (λ _, 0%nat).
Definition view_join (V W : view) : view :=
  mkView (Nat.max (at_lock V) (at_lock W)) (λ c, Nat.max (at_cell V c) (at_cell W c)).
Definition lock_at (t : nat) : view := mkView t (λ _, 0%nat).
Definition cell_at (c : Z) (t : nat) : view := mkView 0 (λ c', if c' =? c then t else 0%nat).

Record message := mkMessage { word : bool; released : view }.

(** The reader's view, and the view a write puts in its message. *)
Definition read_view (o : ordering) (V : view) (t : nat) (m : message) : view :=
  view_join (view_join V (lock_at t)) (match o with Acquire => released m | _ => view_bot end).
Definition write_view (o : ordering) (V : view) (t : nat) : view :=
  match o with Release => view_join V (lock_at t) | _ => lock_at t end.

Section weak.
Context {Val R Op : Type}.

(** A critical section: accesses to the cells of the data. *)
Inductive accesses :=
| Return (r : R)
| Read (c : Z) (k : Val → accesses)
| Write (c : Z) (v : Val) (k : accesses).

(** What a call does: return at once, or run under the lock. *)
Context (body : Op → R + accesses).

(** The same on a memory of cells, for an interleaving machine. *)
Definition load (c : Z) : M (Z → Val) Val := λ d, Done (d c, d).
Definition store (c : Z) (v : Val) : M (Z → Val) unit := λ d, Done ((), λ c', if c' =? c then v else d c').
Fixpoint denote (p : accesses) : M (Z → Val) R :=
  match p with
  | Return r => mret r
  | Read c k => v ← load c; denote (k v)
  | Write c v k => store c v ;; denote k
  end.
Definition code_of (op : Op) : M (SpinLock (Z → Val)) R :=
  match body op with inl r => mret r | inr p => with_lock (denote p) end.

(** ** The machine *)

Inductive stage := Away | Holding (p : accesses).
Record thread := mkThread { to_call : list Op; stage_of : stage; replies : list R; seen : view }.
Record memory := mkMemory { words : gmap nat message; cells : Z → gmap nat Val }.
Record machine := mkMachine { memory_of : memory; threads : list thread; returned : list (nat * (Op * R)) }.

Definition put_word (t : nat) (m : message) (mem : memory) : memory := mkMemory (<[t := m]> (words mem)) (cells mem).
Definition put_cell (c : Z) (t : nat) (v : Val) (mem : memory) : memory :=
  mkMemory (words mem) (λ c', if c' =? c then <[t := v]> (cells mem c) else cells mem c').

Inductive thread_step (mem : memory) : thread → memory → thread → list (Op * R) → Prop :=
| weak_direct op ops rs V r :
    body op = inl r → thread_step mem (mkThread (op :: ops) Away rs V) mem (mkThread ops Away (rs ++ [r]) V) [(op, r)]
(** [compare_exchange] that succeeds: it reads [false] and writes [true] right after it,
    in a message that carries on what the message it read had released. *)
| weak_lock op ops rs V p t m :
    body op = inr p → (at_lock V ≤ t)%nat → words mem !! t = Some m → word m = false → words mem !! S t = None →
    thread_step mem (mkThread (op :: ops) Away rs V)
      (put_word (S t) (mkMessage true (view_join (released m) (lock_at (S t)))) mem)
      (mkThread (op :: ops) (Holding p) rs (view_join (read_view lock_success V t m) (lock_at (S t)))) []
(** One that fails. *)
| weak_spin op ops rs V p t m :
    body op = inr p → (at_lock V ≤ t)%nat → words mem !! t = Some m → word m = true →
    thread_step mem (mkThread (op :: ops) Away rs V) mem (mkThread (op :: ops) Away rs (read_view lock_failure V t m)) []
(** Accesses through the guard. *)
| weak_read op ops rs V c k t v :
    (at_cell V c ≤ t)%nat → cells mem c !! t = Some v →
    thread_step mem (mkThread (op :: ops) (Holding (Read c k)) rs V) mem
      (mkThread (op :: ops) (Holding (k v)) rs (view_join V (cell_at c t))) []
| weak_write op ops rs V c v k t :
    (at_cell V c < t)%nat → cells mem c !! t = None →
    thread_step mem (mkThread (op :: ops) (Holding (Write c v k)) rs V) (put_cell c t v mem)
      (mkThread (op :: ops) (Holding k) rs (view_join V (cell_at c t))) []
(** The drop of the guard. *)
| weak_drop op ops rs V r t :
    (at_lock V < t)%nat → words mem !! t = None →
    thread_step mem (mkThread (op :: ops) (Holding (Return r)) rs V)
      (put_word t (mkMessage false (write_view drop_store V t)) mem)
      (mkThread ops Away (rs ++ [r]) (view_join V (lock_at t))) [(op, r)].

Inductive machine_step : machine → machine → Prop :=
| machine_thread mem ts h i t mem' t' w :
    ts !! i = Some t → thread_step mem t mem' t' w →
    machine_step (mkMachine mem ts h) (mkMachine mem' (<[i := t']> ts) (h ++ ((i,.) <$> w))).

Definition power_on (d : Z → Val) (progs : list (list Op)) : machine :=
  mkMachine (mkMemory {[0%nat := mkMessage false view_bot]} (λ c, {[0%nat := d c]}))
    ((λ ops, mkThread ops Away [] view_bot) <$> progs) [].

(** The thread as a client of the interleaving machine. *)
Definition erase (t : thread) : client (T := Z → Val) :=
  mkClient (to_call t) (match stage_of t with Away => Idle | Holding p => Critical (denote p) end) (replies t).

(** The last message of a location. *)
Definition latest {A} (h : gmap nat A) (t : nat) : Prop := is_Some (h !! t) ∧ ∀ t', is_Some (h !! t') → (t' ≤ t)%nat.

Lemma latest_insert {A} (h : gmap nat A) t t' x : latest h t → (t < t')%nat → latest (<[t' := x]> h) t'.
Proof using.
  intros [_ Hl] Ht. split; [rewrite lookup_insert_eq; eauto|]. intros u Hu. destruct (decide (u = t')) as [->|Hne]; [done|].
  rewrite lookup_insert_ne in Hu by done. specialize (Hl u Hu). lia.
Qed.

(** ** The invariant *)

(** [D] and [L] are the last timestamps; [w] is the interleaving machine's state. *)
Definition unlocked (D : Z → nat) (L : nat) (s : machine) : Prop :=
  (∃ m, words (memory_of s) !! L = Some m ∧ word m = false ∧ (at_lock (released m) ≤ L)%nat ∧ ∀ c, at_cell (released m) c = D c) ∧
  ∀ i t, threads s !! i = Some t → stage_of t = Away.
Definition held (D : Z → nat) (L : nat) (s : machine) : Prop :=
  (∃ m, words (memory_of s) !! L = Some m ∧ word m = true) ∧
  ∃ i t p, threads s !! i = Some t ∧ stage_of t = Holding p ∧ at_lock (seen t) = L ∧ (∀ c, at_cell (seen t) c = D c) ∧
    ∀ j t', j ≠ i → threads s !! j = Some t' → stage_of t' = Away.

Record weak_ok (D : Z → nat) (L : nat) (s : machine) (w : world (T := Z → Val) (R := R) (Op := Op)) : Prop := {
  wk_cells c : latest (cells (memory_of s) c) (D c);
  wk_words : latest (words (memory_of s)) L;
  wk_taken t m : words (memory_of s) !! t = Some m → word m = false → t ≠ L → is_Some (words (memory_of s) !! S t);
  wk_seen i t c : threads s !! i = Some t → (at_cell (seen t) c ≤ D c)%nat;
  wk_lock : (locked (shared w) = false ∧ unlocked D L s) ∨ (locked (shared w) = true ∧ held D L s);
  wk_data c : cells (memory_of s) c !! D c = Some (data (shared w) c);
  wk_clients : clients w = erase <$> threads s;
  wk_history : history w = returned s;
}.

Lemma weak_holder D L mem ts h w i t p : weak_ok D L (mkMachine mem ts h) w → ts !! i = Some t → stage_of t = Holding p →
  locked (shared w) = true ∧ (∃ m, words mem !! L = Some m ∧ word m = true) ∧ at_lock (seen t) = L ∧ (∀ c, at_cell (seen t) c = D c) ∧
  ∀ j t', j ≠ i → ts !! j = Some t' → stage_of t' = Away.
Proof using.
  intros HI Hi Hp. destruct (wk_lock _ _ _ _ HI) as [[_ [_ Hid]]|[Hl [Hm (j & u & q & Hj & Hq & H1 & H2 & Hid)]]]; simpl in *.
  - rewrite (Hid i t Hi) in Hp. done.
  - destruct (decide (i = j)) as [->|Hne]; [|by rewrite (Hid i t Hne Hi) in Hp]. assert (u = t) as -> by congruence. done.
Qed.

(** The interleaving machine takes the step of the thread. *)
Lemma follow w ts i t t' k' ev h : clients w = erase <$> ts → history w = h → ts !! i = Some t →
  client_step code_of (shared w) (erase t) k' (erase t') ev →
  rtc (world_step code_of) w (mkWorld k' (erase <$> <[i := t']> ts) (h ++ ((i,.) <$> ev))).
Proof using.
  destruct w as [k cs hw]. simpl. intros -> -> Hi Hs. apply rtc_once. rewrite list_fmap_insert.
  econstructor; [|exact Hs]. rewrite list_lookup_fmap. by rewrite Hi.
Qed.
Lemma follow_silent w ts i t t' k' h : clients w = erase <$> ts → history w = h → ts !! i = Some t →
  client_step code_of (shared w) (erase t) k' (erase t') [] →
  rtc (world_step code_of) w (mkWorld k' (erase <$> <[i := t']> ts) h).
Proof using. intros Hc Hh Hi Hs. pose proof (follow _ _ _ _ _ _ _ _ Hc Hh Hi Hs) as H. by rewrite app_nil_r in H. Qed.

(** A thread that stays away, with a view that has not grown beyond the messages. *)
Lemma away_ok D L mem ts h w i t t' h' k w' : weak_ok D L (mkMachine mem ts h) w → ts !! i = Some t →
  stage_of t = Away → stage_of t' = Away → (∀ c, (at_cell (seen t') c ≤ D c)%nat) →
  k = shared w → w' = mkWorld k (erase <$> <[i := t']> ts) h' → weak_ok D L (mkMachine mem (<[i := t']> ts) h') w'.
Proof using.
  intros HI Hi Hs Hs' Hv -> ->. destruct HI as [Hc Hw Ht Hse Hlk Hda Hcl Hh]. simpl in *. split; simpl; try done.
  - intros j u c Hj. destruct (insert_cases _ _ _ _ _ _ Hi Hj) as [[-> ->]|[_ Hu]]; [done|by eapply Hse].
  - destruct Hlk as [[Hl [Hm Hid]]|[Hl [Hm (j & u & q & Hj & Hq & H1 & H2 & Hid)]]]; [left|right]; (split; [done|]); (split; [done|]); simpl in *.
    + intros j u Hj. destruct (insert_cases _ _ _ _ _ _ Hi Hj) as [[-> ->]|[_ Hu]]; [done|by eapply Hid].
    + assert (j ≠ i) as Hne by (intros ->; congruence). exists j, u, q. rewrite list_lookup_insert_ne by done. do 4 (split; [done|]).
      intros a x Ha Hx. destruct (insert_cases _ _ _ _ _ _ Hi Hx) as [[-> ->]|[_ Hx']]; [done|by eapply Hid].
Qed.

(** The holder goes on to [t'], having perhaps written the cells up to [D']. *)
Lemma holding_ok D D' L mem mem' ts h w i t t' p d : weak_ok D L (mkMachine mem ts h) w → ts !! i = Some t →
  (∀ j u, j ≠ i → ts !! j = Some u → stage_of u = Away) → (∃ m, words mem !! L = Some m ∧ word m = true) →
  stage_of t' = Holding p → at_lock (seen t') = L → (∀ c, at_cell (seen t') c = D' c) → (∀ c, (D c ≤ D' c)%nat) →
  words mem' = words mem → (∀ c, latest (cells mem' c) (D' c)) → (∀ c, cells mem' c !! D' c = Some (d c)) →
  weak_ok D' L (mkMachine mem' (<[i := t']> ts) h) (mkWorld (mkSpinLock true d) (erase <$> <[i := t']> ts) h).
Proof using.
  intros HI Hi Hid Hm Hp HL Hv HD Hwd Hce Hda. destruct HI as [_ Hw Ht Hse _ _ _ _]. simpl in *.
  split; simpl; rewrite ?Hwd; try done.
  - intros j u c Hj. destruct (insert_cases _ _ _ _ _ _ Hi Hj) as [[-> ->]|[_ Hu]]; [by rewrite Hv|]. etrans; [by eapply Hse|done].
  - right. split; [done|]. split; simpl; [by rewrite Hwd|]. exists i, t', p.
    split; [apply list_lookup_insert_eq; by eapply lookup_lt_Some|]. do 3 (split; [done|]).
    intros j u Hj Hu. destruct (insert_cases _ _ _ _ _ _ Hi Hu) as [[-> _]|[_ Hu']]; [done|by eapply Hid].
Qed.

(** Taking the lock: only the last message can be read, so the word was free, and the
    thread has now seen all that the message's writer had. *)
Lemma lock_ok D L mem ts h w i op ops rs V p t m : weak_ok D L (mkMachine mem ts h) w →
  ts !! i = Some (mkThread (op :: ops) Away rs V) → body op = inr p → (at_lock V ≤ t)%nat →
  words mem !! t = Some m → word m = false → words mem !! S t = None →
  let t' := mkThread (op :: ops) (Holding p) rs (view_join (read_view lock_success V t m) (lock_at (S t))) in
  let mem' := put_word (S t) (mkMessage true (view_join (released m) (lock_at (S t)))) mem in
  ∃ w', rtc (world_step code_of) w w' ∧ weak_ok D (S L) (mkMachine mem' (<[i := t']> ts) h) w'.
Proof using.
  intros HI Hi Hb Hv Ht Hf Hn. cbv zeta. pose proof HI as [Hce Hwd Htk Hse Hlk Hda Hcl Hh]. simpl in *.
  assert (t = L) as ->. { destruct (decide (t = L)) as [|Hne]; [done|]. destruct (Htk t m Ht Hf Hne) as [x Hx]. congruence. }
  destruct Hlk as [[Hl [(m' & Hm' & _ & Hrl & Hrel) Hid]]|[_ [(m' & Hm' & Htrue) _]]]; simpl in *; [|congruence].
  assert (m' = m) as -> by congruence. clear Hm'.
  set (t' := mkThread _ (Holding p) _ _). exists (mkWorld (mkSpinLock true (data (shared w))) (erase <$> <[i := t']> ts) h). split.
  { eapply follow_silent; [done|done|exact Hi|]. apply step_enter.
    - intros s. unfold code_of. by rewrite Hb.
    - unfold compare_exchange. by rewrite Hl. }
  split; simpl.
  - done.
  - apply (latest_insert _ L); [done|lia].
  - intros u x Hu Hx Hne. destruct (decide (u = S L)) as [->|Hne']; [done|]. rewrite lookup_insert_ne in Hu by done.
    destruct (decide (u = L)) as [->|Hul]; [rewrite lookup_insert_eq; eauto|].
    destruct (decide (S u = S L)) as [[= ->]|Hsu]; [done|]. rewrite lookup_insert_ne by done. by eapply Htk.
  - intros j u c Hj. destruct (insert_cases _ _ _ _ _ _ Hi Hj) as [[-> ->]|[_ Hu]]; [|by eapply Hse].
    simpl. rewrite Hrel. pose proof (Hse i _ c Hi). simpl in *. lia.
  - right. split; [done|]. split; simpl.
    + eexists. by rewrite lookup_insert_eq.
    + exists i, t', p. split; [apply list_lookup_insert_eq; by eapply lookup_lt_Some|]. split; [done|]. split; [|split].
      * simpl. lia.
      * intros c. simpl. rewrite Hrel. pose proof (Hse i _ c Hi). simpl in *. lia.
      * intros j u Hj Hu. destruct (insert_cases _ _ _ _ _ _ Hi Hu) as [[-> _]|[_ Hu']]; [done|by eapply Hid].
  - done.
  - done.
  - done.
Qed.

(** Reading a cell: the holder has seen the last message, so that is what it reads. *)
Lemma read_ok D L mem ts h w i op ops rs V c k t v : weak_ok D L (mkMachine mem ts h) w →
  ts !! i = Some (mkThread (op :: ops) (Holding (Read c k)) rs V) → (at_cell V c ≤ t)%nat → cells mem c !! t = Some v →
  let t' := mkThread (op :: ops) (Holding (k v)) rs (view_join V (cell_at c t)) in
  ∃ w', rtc (world_step code_of) w w' ∧ weak_ok D L (mkMachine mem (<[i := t']> ts) h) w'.
Proof using.
  intros HI Hi Hv Ht. cbv zeta. destruct (weak_holder _ _ _ _ _ _ _ _ _ HI Hi eq_refl) as (Hl & Hm & HL & HD & Hid). simpl in HL, HD.
  pose proof HI as [Hce _ _ _ _ Hda Hcl Hh]. simpl in *.
  assert (t = D c) as ->. { rewrite HD in Hv. pose proof (proj2 (Hce c) t ltac:(eauto)). lia. }
  assert (v = data (shared w) c) as -> by (specialize (Hda c); congruence).
  set (t' := mkThread _ _ _ _). exists (mkWorld (mkSpinLock true (data (shared w))) (erase <$> <[i := t']> ts) h). split.
  - eapply follow_silent; [done|done|exact Hi|]. rewrite <- Hl.
    apply (step_access _ _ _ _ _ (denote (Read c k)) _ (load c) (λ v, denote (k v)) (data (shared w) c) (data (shared w))); done.
  - eapply holding_ok; try done.
    + simpl. lia.
    + intros c'. simpl. rewrite HD. destruct (Z.eqb_spec c' c) as [->|]; lia.
Qed.

(** Writing a cell: the new message is the last. *)
Lemma write_ok D L mem ts h w i op ops rs V c v k t : weak_ok D L (mkMachine mem ts h) w →
  ts !! i = Some (mkThread (op :: ops) (Holding (Write c v k)) rs V) → (at_cell V c < t)%nat →
  let t' := mkThread (op :: ops) (Holding k) rs (view_join V (cell_at c t)) in
  ∃ D' w', rtc (world_step code_of) w w' ∧ weak_ok D' L (mkMachine (put_cell c t v mem) (<[i := t']> ts) h) w'.
Proof using.
  intros HI Hi Hv. cbv zeta. destruct (weak_holder _ _ _ _ _ _ _ _ _ HI Hi eq_refl) as (Hl & Hm & HL & HD & Hid). simpl in HL, HD.
  pose proof HI as [Hce _ _ _ _ Hda Hcl Hh]. simpl in *. rewrite HD in Hv.
  set (d := λ c', if c' =? c then v else data (shared w) c'). set (t' := mkThread _ _ _ _).
  exists (λ c', if c' =? c then t else D c'), (mkWorld (mkSpinLock true d) (erase <$> <[i := t']> ts) h). split.
  - eapply follow_silent; [done|done|exact Hi|]. rewrite <- Hl.
    apply (step_access _ _ _ _ _ (denote (Write c v k)) _ (store c v) (λ _, denote k) () d); done.
  - eapply holding_ok; try done; simpl.
    + lia.
    + intros c'. rewrite HD. destruct (Z.eqb_spec c' c) as [->|]; lia.
    + intros c'. destruct (Z.eqb_spec c' c) as [->|]; lia.
    + intros c'. destruct (Z.eqb_spec c' c) as [->|]; [by apply (latest_insert _ (D c))|done].
    + intros c'. unfold d. destruct (Z.eqb_spec c' c) as [->|]; [by rewrite lookup_insert_eq|done].
Qed.

(** Dropping the guard: the message releases all that the holder has seen. *)
Lemma drop_ok D L mem ts h w i op ops rs V r t : weak_ok D L (mkMachine mem ts h) w →
  ts !! i = Some (mkThread (op :: ops) (Holding (Return r)) rs V) → (at_lock V < t)%nat →
  let t' := mkThread ops Away (rs ++ [r]) (view_join V (lock_at t)) in
  let mem' := put_word t (mkMessage false (write_view drop_store V t)) mem in
  ∃ w', rtc (world_step code_of) w w' ∧ weak_ok D t (mkMachine mem' (<[i := t']> ts) (h ++ [(i, (op, r))])) w'.
Proof using.
  intros HI Hi Hv. cbv zeta. destruct (weak_holder _ _ _ _ _ _ _ _ _ HI Hi eq_refl) as (Hl & (m & Hm & Htrue) & HL & HD & Hid). simpl in HL, HD.
  pose proof HI as [Hce Hwd Htk Hse _ Hda Hcl Hh]. simpl in *. rewrite HL in Hv.
  eexists. split.
  { eapply (follow w ts i _ (mkThread ops Away (rs ++ [r]) (view_join V (lock_at t))) _ [(op, r)]); [done|done|exact Hi|]. by apply (step_leave _ _ _ _ _ (denote (Return r)) r). }
  split; simpl; try done.
  - by apply (latest_insert _ L).
  - intros u x Hu Hx Hne. rewrite lookup_insert_ne in Hu by done. assert (u ≠ L) as Hul by congruence.
    destruct (Htk u x Hu Hx Hul) as [y Hy]. destruct (decide (S u = t)) as [->|Hsu]; [rewrite lookup_insert_eq; eauto|].
    rewrite lookup_insert_ne by done. eauto.
  - intros j u c Hj. destruct (insert_cases _ _ _ _ _ _ Hi Hj) as [[-> ->]|[_ Hu]]; [simpl; rewrite HD; lia|by eapply Hse].
  - left. split; [done|]. split; simpl.
    + eexists. rewrite lookup_insert_eq. split; [done|]. split; [done|]. split; [simpl; lia|]. intros c. simpl. rewrite HD. lia.
    + intros j u Hu. destruct (insert_cases _ _ _ _ _ _ Hi Hu) as [[-> ->]|[Hj Hu']]; [done|by eapply Hid].
Qed.

Lemma weak_step D L s s' w : weak_ok D L s w → machine_step s s' →
  ∃ D' L' w', rtc (world_step code_of) w w' ∧ weak_ok D' L' s' w'.
Proof using.
  intros HI Hs. destruct Hs as [mem ts h i t mem' t' ev Hi Hst].
  destruct Hst as [op ops rs V r Hb|op ops rs V p u m Hb Hv Hu Hf Hn|op ops rs V p u m Hb Hv Hu Hf|op ops rs V c k u v Hv Hu
    |op ops rs V c v k u Hv Hu|op ops rs V r u Hv Hu]; cbn [fmap list_fmap]; rewrite ?app_nil_r.
  - exists D, L. eexists. split.
    + eapply (follow w ts i _ (mkThread ops Away (rs ++ [r]) V) _ [(op, r)]); [apply HI|apply HI|exact Hi|].
      apply step_direct. intros s. unfold code_of. by rewrite Hb.
    + eapply away_ok; [exact HI|exact Hi|done|done| |done|done]. intros c. exact (wk_seen _ _ _ _ HI i _ c Hi).
  - exists D, (S L). by eapply lock_ok.
  - exists D, L, (mkWorld (shared w) (erase <$> <[i := mkThread (op :: ops) Away rs (read_view lock_failure V u m)]> ts) h). split.
    + rewrite list_fmap_insert, list_insert_id by (rewrite list_lookup_fmap, Hi; done).
      pose proof (wk_clients _ _ _ _ HI) as Hc. pose proof (wk_history _ _ _ _ HI) as Hh. destruct w. simpl in *. subst. constructor.
    + eapply away_ok; [exact HI|exact Hi|done|done| |done|done]. intros c. simpl.
      pose proof (wk_seen _ _ _ _ HI i _ c Hi). simpl in *. lia.
  - exists D, L. by eapply read_ok.
  - edestruct write_ok as (D' & w' & H); [exact HI|exact Hi|exact Hv|]. by exists D', L, w'.
  - exists D, u. by eapply drop_ok.
Qed.

Lemma weak_start d progs : weak_ok (λ _, 0%nat) 0 (power_on d progs) (begin d progs).
Proof using.
  assert (∀ i t, threads (power_on d progs) !! i = Some t → ∃ ops, t = mkThread ops Away [] view_bot) as H.
  { intros i t. simpl. rewrite list_lookup_fmap. destruct (progs !! i) as [ops|]; [|done]. intros [= <-]. by exists ops. }
  assert (∀ A (x : A), latest {[0%nat := x]} 0) as Hl.
  { intros A x. split; [by exists x|]. intros t [y Hy]. by apply lookup_singleton_Some in Hy as [<- _]. }
  split; simpl; try done.
  - intros t m Ht _ Hne. apply lookup_singleton_Some in Ht as [<- _]. done.
  - intros i t c Ht. by destruct (H i t Ht) as [ops ->].
  - left. split; [done|]. split; [by eexists|]. intros i t Ht. by destruct (H i t Ht) as [ops ->].
  - by rewrite <- list_fmap_compose.
Qed.

Lemma weak_steps s s' : rtc machine_step s s' → ∀ D L w, weak_ok D L s w →
  ∃ D' L' w', rtc (world_step code_of) w w' ∧ weak_ok D' L' s' w'.
Proof using.
  induction 1 as [s|s s1 s2 Hs _ IH]; intros D L w HI; [by exists D, L, w|].
  destruct (weak_step D L s s1 w HI Hs) as (D1 & L1 & w1 & Hw & HI1). destruct (IH D1 L1 w1 HI1) as (D2 & L2 & w2 & Hw2 & HI2).
  exists D2, L2, w2. split; [by etrans|done].
Qed.

Lemma latest_unique {A} (h : gmap nat A) t t' : latest h t → latest h t' → t = t'.
Proof using. intros [H1 H2] [H3 H4]. specialize (H2 _ H3). specialize (H4 _ H1). lia. Qed.

(** C14: The memory orderings of the spin lock are enough.  On a machine where reads may
    return stale messages and writes may be placed anywhere beyond the writer's view,
    threads make calls that return at once or access the data under the lock, taken
    with an acquiring [compare_exchange] and given back with a releasing store.  Then in
    every reachable state at most one thread holds the guard, and that thread has seen
    the last write to every cell, so there is no data race; and the state is one the
    interleaving machine reaches with the same calls, answers and data, so what holds
    there under sequential consistency holds here. *)
Theorem orderings_suffice d progs s : rtc machine_step (power_on d progs) s →
  (∀ i j t u p q, threads s !! i = Some t → threads s !! j = Some u →
     stage_of t = Holding p → stage_of u = Holding q → i = j) ∧
  (∀ i t p c, threads s !! i = Some t → stage_of t = Holding p → latest (cells (memory_of s) c) (at_cell (seen t) c)) ∧
  ∃ w, rtc (world_step code_of) (begin d progs) w ∧ clients w = erase <$> threads s ∧ history w = returned s ∧
    ∀ c t, latest (cells (memory_of s) c) t → cells (memory_of s) c !! t = Some (data (shared w) c).
Proof using.
  intros Hr. destruct (weak_steps _ _ Hr _ _ _ (weak_start d progs)) as (D & L & w & Hw & HI). destruct s as [mem ts h]. split; [|split].
  - intros i j t u p q Hi Hj Hp Hq. destruct (decide (i = j)) as [|Hne]; [done|].
    destruct (weak_holder _ _ _ _ _ _ _ _ _ HI Hi Hp) as (_ & _ & _ & _ & Hid). by rewrite (Hid j u ltac:(congruence) Hj) in Hq.
  - intros i t p c Hi Hp. destruct (weak_holder _ _ _ _ _ _ _ _ _ HI Hi Hp) as (_ & _ & _ & HD & _). rewrite HD. apply HI.
  - exists w. split; [done|]. split; [apply HI|]. split; [apply HI|]. intros c t Ht.
    rewrite (latest_unique _ _ _ Ht (wk_cells _ _ _ _ HI c)). apply HI.
Qed.

(** An object behind the lock is linearizable on this machine too. *)
Lemma weak_linearizable Φ ok d progs s : LockedObject code_of Φ ok → Φ d → Forall (Forall ok) progs →
  rtc machine_step (power_on d progs) s → ∃ w, history w = returned s ∧ clients w = erase <$> threads s ∧
    linearizable code_of (λ ops rs d', replay code_of ops (SpinLock_new d) = Done (rs, mkSpinLock false d') ∧ Forall ok ops) progs w.
Proof using.
  intros HL HP HF Hr. destruct (weak_steps _ _ Hr _ _ _ (weak_start d progs)) as (D & L & w & Hw & HI).
  exists w. split; [apply HI|]. split; [apply HI|]. by eapply (locked_object_linearizable code_of Φ ok d HP progs HF).
Qed.
End weak.

(** ** Two counters

    Each call adds one to a cell; the second thread holds the lock after the first has
    given it back. *)

Definition add_one (op : unit) : Z + accesses (Val := Z) (R := Z) :=
  inr (Read 0 (λ v, Write 0 (v + 1) (Return v))).

Lemma two_counters_reach : ∃ s, rtc (machine_step add_one) (power_on (λ _, 0) [[()]; [()]]) s ∧
  (∃ t p, threads s !! 1%nat = Some t ∧ stage_of t = Holding p) ∧ returned s = [(0%nat, ((), 0))].
Proof.
  eexists. split.
  - eapply rtc_l; [eapply (machine_thread _ _ _ _ 0%nat); [reflexivity|]; eapply (weak_lock _ _ _ _ _ _ _ 0); [reflexivity|simpl; lia|reflexivity..]|].
    eapply rtc_l; [eapply (machine_thread _ _ _ _ 1%nat); [reflexivity|]; eapply (weak_spin _ _ _ _ _ _ _ 1); [reflexivity|simpl; lia|reflexivity..]|].
    eapply rtc_l; [eapply (machine_thread _ _ _ _ 0%nat); [reflexivity|]; eapply (weak_read _ _ _ _ _ _ _ _ 0); [simpl; lia|reflexivity]|].
    eapply rtc_l; [eapply (machine_thread _ _ _ _ 0%nat); [reflexivity|]; eapply (weak_write _ _ _ _ _ _ _ _ _ 3); [simpl; lia|reflexivity]|].
    eapply rtc_l; [eapply (machine_thread _ _ _ _ 0%nat); [reflexivity|]; eapply (weak_drop _ _ _ _ _ _ _ 5); [simpl; lia|reflexivity]|].
    eapply rtc_l; [eapply (machine_thread _ _ _ _ 1%nat); [reflexivity|]; eapply (weak_lock _ _ _ _ _ _ _ 5); [reflexivity|simpl; lia|reflexivity..]|].
    constructor.
  - split; [eexists _, _; split; reflexivity|reflexivity].
Qed.

Lemma orderings_suffice_witness : ∃ (s : machine (Val := Z) (R := Z) (Op := unit)) t, threads s !! 1%nat = Some t ∧ latest (cells (memory_of s) 0) (at_cell (seen t) 0) ∧
  ∃ w, rtc (world_step (code_of add_one)) (begin (λ _, 0) [[()]; [()]]) w ∧ history w = [(0%nat, ((), 0))].
Proof.
  destruct two_counters_reach as (s & Hr & (t & p & Ht & Hp) & Hh).
  destruct (orderings_suffice add_one (λ _, 0) [[()]; [()]] s Hr) as (_ & Hl & w & Hw & _ & Hhw & _).
  exists s, t. split; [exact Ht|]. split; [exact (Hl 1%nat t p 0 Ht Hp)|]. exists w. split; [exact Hw|]. rewrite Hhw. exact Hh.
Defined.
