(* ===== verification/Descriptors.v ===== *)
(** * Segment, task-state and interrupt descriptors

    kernel/src/arch/x86_64/gdt.rs, tss.rs and the tables of idt.rs.  The state
    has the three static tables and the processor's table and segment
    registers; the addresses the linker gives the tables are arguments.  The
    [seg_] and [gate_] functions decode descriptors the way the processor does;
    the theorems say what it finds in the tables the kernel builds. *)

From S2P Require Import Prelude.
Local Open Scope Z_scope.

(** ** The task state segment *)

Record TaskStateSegment := mkTSS {
  reserved1 : Z; tss_rsp0 : Z; tss_rsp1 : Z; tss_rsp2 : Z; reserved2 : Z;
  tss_ist1 : Z; tss_ist2 : Z; tss_ist3 : Z; tss_ist4 : Z; tss_ist5 : Z; tss_ist6 : Z; tss_ist7 : Z;
  reserved3 : Z; reserved4 : Z; iomap_base : Z;
}.
(** [repr(C, packed)]: the sizes of the fields, each with alignment one. *)
Definition TaskStateSegment_fields : list (Z * Z) :=
  (λ size, (size, 1)) <$> [4; 8; 8; 8; 8; 8; 8; 8; 8; 8; 8; 8; 8; 2; 2].
Definition TSS_SIZE : Z := size_of TaskStateSegment_fields.
Definition DOUBLE_FAULT_STACK_SIZE : Z := 4096 * 4.
Definition RING3_KERNEL_STACK_SIZE : Z := 16 * 1024.

Definition TaskStateSegment_new : TaskStateSegment := mkTSS 0 0 0 0 0 0 0 0 0 0 0 0 0 0 0.
(** [double_fault_stack] is the address of the static [DOUBLE_FAULT_STACK]. *)
Definition TaskStateSegment_init (double_fault_stack : Z) : M TaskStateSegment unit :=
  self ← get;
  stack_end ← lift (add_u 64 double_fault_stack DOUBLE_FAULT_STACK_SIZE);
  put (mkTSS (reserved1 self) (tss_rsp0 self) (tss_rsp1 self) (tss_rsp2 self) (reserved2 self)
    stack_end (tss_ist2 self) (tss_ist3 self) (tss_ist4 self) (tss_ist5 self) (tss_ist6 self)
    (tss_ist7 self) (reserved3 self) (reserved4 self) (cast 16 TSS_SIZE)).
Definition TaskStateSegment_rsp0 (self : TaskStateSegment) : Z := tss_rsp0 self.
Definition TaskStateSegment_set_rsp0 (stack_top : Z) : M TaskStateSegment unit := λ self,
  Done ((), mkTSS (reserved1 self) stack_top (tss_rsp1 self) (tss_rsp2 self) (reserved2 self)
    (tss_ist1 self) (tss_ist2 self) (tss_ist3 self) (tss_ist4 self) (tss_ist5 self) (tss_ist6 self)
    (tss_ist7 self) (reserved3 self) (reserved4 self) (iomap_base self)).
Definition ring3_kernel_stack_top (ring3_stack : Z) : outcome Z :=
  add_u 64 ring3_stack RING3_KERNEL_STACK_SIZE.

(** ** Interrupt gates *)

Record IdtEntry := mkIdtEntry {
  offset_low : Z; selector : Z; ist : Z; attributes : Z; offset_mid : Z; offset_high : Z; reserved : Z;
}.
Definition IDT_KERNEL_CODE_SELECTOR : Z := 0x08.
Definition INTERRUPT_GATE : Z := 0x8E.
Definition IDT_ENTRIES : nat := 256.

Definition IdtEntry_missing : IdtEntry := mkIdtEntry 0 0 0 0 0 0 0.
Definition IdtEntry_set_handler_with_ist (handler ist : Z) : IdtEntry :=
  mkIdtEntry (cast 16 handler) IDT_KERNEL_CODE_SELECTOR (Z.land ist 0x07) INTERRUPT_GATE
    (cast 16 (Z.shiftr handler 16)) (cast 32 (Z.shiftr handler 32)) 0.
Definition IdtEntry_set_handler (handler : Z) : IdtEntry := IdtEntry_set_handler_with_ist handler 0.

(** ** The machine *)

Record machine := mkMachine {
  gdt : list Z;
  tss : TaskStateSegment;
  idt : list IdtEntry;
  (** limit and base *)
  gdtr : Z * Z;
  idtr : Z * Z;
  tr : Z;
  seg_regs : list Z;
}.
Definition set_gdt (l : list Z) (m : machine) : machine :=
  mkMachine l (tss m) (idt m) (gdtr m) (idtr m) (tr m) (seg_regs m).
Definition set_tss (t : TaskStateSegment) (m : machine) : machine :=
  mkMachine (gdt m) t (idt m) (gdtr m) (idtr m) (tr m) (seg_regs m).
Definition set_idt (l : list IdtEntry) (m : machine) : machine :=
  mkMachine (gdt m) (tss m) l (gdtr m) (idtr m) (tr m) (seg_regs m).

Definition KERNEL_CODE_SELECTOR : Z := 0x08.
Definition KERNEL_DATA_SELECTOR : Z := 0x10.
Definition TSS_SELECTOR : Z := 0x18.
Definition USER_DATA_SELECTOR : Z := 0x28.
Definition USER_CODE_SELECTOR : Z := 0x30.
Definition USER_DATA_SELECTOR_R3 : Z := Z.lor USER_DATA_SELECTOR 0x03.
Definition USER_CODE_SELECTOR_R3 : Z := Z.lor USER_CODE_SELECTOR 0x03.

Definition GDT_NULL : Z := 0x0000000000000000.
Definition GDT_KERNEL_CODE : Z := 0x00AF9A000000FFFF.
Definition GDT_KERNEL_DATA : Z := 0x00CF92000000FFFF.
Definition GDT_USER_DATA : Z := 0x00CFF2000000FFFF.
Definition GDT_USER_CODE : Z := 0x00AFFA000000FFFF.
Definition GDT_SIZE : Z := 7 * 8.

(** The two words of the TSS descriptor. *)
Definition tss_descriptor_low (base limit : Z) : Z :=
  let low := Z.lor 0 (Z.land limit 0xFFFF) in
  let low := Z.lor low (Z.shiftl (Z.land base 0xFFFF) 16) in
  let low := Z.lor low (Z.shiftl (Z.land (Z.shiftr base 16) 0xFF) 32) in
  let low := Z.lor low (Z.shiftl 0x89 40) in
  let low := Z.lor low (Z.shiftl (Z.land (Z.shiftr limit 16) 0x0F) 48) in
  Z.lor low (Z.shiftl (Z.land (Z.shiftr base 24) 0xFF) 56).
Definition tss_descriptor_high (base : Z) : Z := Z.land (Z.shiftr base 32) 0xFFFFFFFF.

Section tables.
(** The addresses of the statics [GDT], [TSS], [IDT] and [DOUBLE_FAULT_STACK],
    and of the interrupt stubs. *)
Context (gdt_addr tss_addr idt_addr double_fault_stack : Z) (unbound_isr : Z → Z) (unbound_irq0 : Z).

Definition install_tss : M (list Z) unit :=
  limit ← lift (sub_u TSS_SIZE 1);
  let limit := cast 32 limit in
  vec_set 3 (tss_descriptor_low tss_addr limit) ;;
  vec_set 4 (tss_descriptor_high tss_addr).

(** [lgdt], [lidt], [ltr] (which marks the descriptor busy) and the reload of
    the segment registers. *)
Definition lgdt (limit base : Z) : M machine unit := λ m,
  Done ((), mkMachine (gdt m) (tss m) (idt m) (limit, base) (idtr m) (tr m) (seg_regs m)).
Definition lidt (limit base : Z) : M machine unit := λ m,
  Done ((), mkMachine (gdt m) (tss m) (idt m) (gdtr m) (limit, base) (tr m) (seg_regs m)).
Definition load_task_register (sel : Z) : M machine unit := λ m,
  Done ((), mkMachine (alter (λ e, Z.lor e (Z.shiftl 2 40)) (Z.to_nat (sel / 8)) (gdt m)) (tss m) (idt m)
    (gdtr m) (idtr m) sel (seg_regs m)).
(** CS by the far return, then DS, ES and SS. *)
Definition unbound_reload_segments : M machine unit := λ m,
  Done ((), mkMachine (gdt m) (tss m) (idt m) (gdtr m) (idtr m) (tr m) [0x08; 0x10; 0x10; 0x10]).

(** [gdt.entries[0] = ..] to [gdt.entries[6] = ..]. *)
Definition gdt_set_entries : M (list Z) unit :=
  vec_set 0 GDT_NULL ;; vec_set 1 GDT_KERNEL_CODE ;; vec_set 2 GDT_KERNEL_DATA ;;
  vec_set 3 0 ;; vec_set 4 0 ;; vec_set 5 GDT_USER_DATA ;; vec_set 6 GDT_USER_CODE.
Definition tss_init : M machine unit := zoom tss set_tss (TaskStateSegment_init double_fault_stack).

(** What [init] does, without what it prints. *)
Definition gdt_init : M machine unit :=
  lift (add_u 64 gdt_addr GDT_SIZE) ;;
  zoom gdt set_gdt gdt_set_entries ;;
  tss_init ;;
  lift (add_u 64 tss_addr TSS_SIZE) ;;
  zoom gdt set_gdt install_tss ;;
  limit ← lift (sub_u GDT_SIZE 1);
  lgdt (cast 16 limit) gdt_addr ;;
  unbound_reload_segments ;;
  load_task_register TSS_SELECTOR.

(** [sgdt], [sidt] and what the code reads of them. *)
Definition read_gdtr (m : machine) : Z * Z := gdtr m.
Definition gdt_current_base (m : machine) : Z := (read_gdtr m).2.
Definition gdt_current_limit (m : machine) : Z := (read_gdtr m).1.
Definition read_idtr (m : machine) : Z * Z := idtr m.
Definition idt_current_base (m : machine) : Z := (read_idtr m).2.
Definition idt_current_limit (m : machine) : Z := (read_idtr m).1.
(** tss.rs *)
Definition tss_address : Z := tss_addr.
Definition tss_size : Z := TSS_SIZE.
Definition ist1_top (m : machine) : Z := tss_ist1 (tss m).
Definition debug_ist1 (m : machine) : Z := ist1_top m.
Definition set_rsp0 (stack_top : Z) : M machine unit := zoom tss set_tss (TaskStateSegment_set_rsp0 stack_top).
Definition rsp0 (m : machine) : Z := TaskStateSegment_rsp0 (tss m).

Definition gdt_verify (m : machine) : bool :=
  let actual := read_gdtr m in (actual.2 =? gdt_addr) && (actual.1 =? cast 16 (GDT_SIZE - 1)).
Definition task_register (m : machine) : Z := tr m.
Definition verify_task_register (m : machine) : bool := task_register m =? TSS_SELECTOR.
Definition verify_user_segments : M machine bool :=
  zoom gdt set_gdt (
    user_data ← vec_get 5;
    user_code ← vec_get 6;
    mret ((user_data =? GDT_USER_DATA) && (user_code =? GDT_USER_CODE))).

(** ** The interrupt descriptor table *)

Definition idt_set_handler (vector handler : Z) : M (list IdtEntry) unit :=
  vec_get vector ;; vec_set vector (IdtEntry_set_handler handler).
Definition idt_set_handler_with_ist (vector handler ist : Z) : M (list IdtEntry) unit :=
  vec_get vector ;; vec_set vector (IdtEntry_set_handler_with_ist handler ist).
Definition IDT_SIZE : Z := 16 * Z.of_nat IDT_ENTRIES.

(** The vectors 0 to 7, 8 on the first interrupt stack, 9 to 31, and the timer. *)
Definition idt_init : M machine unit :=
  zoom idt set_idt (
    for_range 8 0 (λ v, idt_set_handler v (unbound_isr v)) ;;
    idt_set_handler_with_ist 8 (unbound_isr 8) 1 ;;
    for_range 23 9 (λ v, idt_set_handler v (unbound_isr v)) ;;
    idt_set_handler 32 unbound_irq0) ;;
  limit ← lift (sub_u IDT_SIZE 1);
  lidt (cast 16 limit) idt_addr.
Definition idt_verify (m : machine) : bool :=
  let actual := read_idtr m in (actual.2 =? idt_addr) && (actual.1 =? cast 16 (IDT_SIZE - 1)).
End tables.

(** ** What the processor reads *)

Definition bits (x lo n : Z) : Z := Z.shiftr x lo mod 2 ^ n.
Definition seg_type (d : Z) : Z := bits d 40 4.
Definition seg_user_type (d : Z) : bool := Z.testbit d 44.
Definition seg_dpl (d : Z) : Z := bits d 45 2.
Definition seg_present (d : Z) : bool := Z.testbit d 47.
Definition seg_long (d : Z) : bool := Z.testbit d 53.
Definition seg_limit (d : Z) : Z := bits d 0 16 + bits d 48 4 * 2 ^ 16.
Definition seg_base (low high : Z) : Z :=
  bits low 16 24 + bits low 56 8 * 2 ^ 24 + bits high 0 32 * 2 ^ 32.

Definition gate_offset (g : IdtEntry) : Z :=
  offset_low g + offset_mid g * 2 ^ 16 + offset_high g * 2 ^ 32.
Definition gate_present (g : IdtEntry) : bool := Z.testbit (attributes g) 7.
Definition gate_type (g : IdtEntry) : Z := bits (attributes g) 0 4.

(** ** The TSS descriptor *)

Lemma tss_low_arith base : in_u 64 base → tss_descriptor_low base 103 =
  103 + base mod 2 ^ 16 * 2 ^ 16 + base / 2 ^ 16 mod 2 ^ 8 * 2 ^ 32 + 0x89 * 2 ^ 40
  + base / 2 ^ 24 mod 2 ^ 8 * 2 ^ 56.
Proof.
  intros Hb. unfold tss_descriptor_low. cbv zeta.
  change (Z.land 103 0xFFFF) with 103. change (Z.land (Z.shiftr 103 16) 0x0F) with 0.
  change 0xFFFF with (Z.ones 16). change 0xFF with (Z.ones 8).
  rewrite !Z.land_ones, !Z.shiftr_div_pow2, Z.lor_0_l, Z.shiftl_0_l, Z.lor_0_r by lia.
  pose proof (Z.mod_pos_bound base (2 ^ 16)). pose proof (Z.mod_pos_bound (base / 2 ^ 16) (2 ^ 8)).
  pose proof (Z.mod_pos_bound (base / 2 ^ 24) (2 ^ 8)).
  rewrite (lor_shiftl 16) by (unfold in_u; lia). rewrite (lor_shiftl 32) by (unfold in_u; lia).
  rewrite (lor_shiftl 40) by (unfold in_u; lia). rewrite (lor_shiftl 56) by (unfold in_u; lia). lia.
Qed.

Ltac field_lia := unfold seg_base, seg_limit, seg_type, seg_dpl, bits;
  rewrite ?Z.shiftr_div_pow2 by lia; Z.div_mod_to_equations; lia.

Lemma tss_descriptor_decode base : in_u 64 base →
  let low := tss_descriptor_low base 103 in let high := tss_descriptor_high base in
  seg_base low high = base ∧ seg_limit low = 103 ∧ seg_type low = 9 ∧ seg_dpl low = 0 ∧
  bits low 47 1 = 1 ∧ bits low 44 1 = 0 ∧ in_u 64 low.
Proof.
  intros Hb. cbv zeta. unfold tss_descriptor_high. rewrite tss_low_arith by done.
  change 0xFFFFFFFF with (Z.ones 32). rewrite Z.land_ones, Z.shiftr_div_pow2 by lia. destruct Hb as [Hb0 Hb1].
  split; [field_lia|]. split; [field_lia|]. split; [field_lia|]. split; [field_lia|].
  split; [field_lia|]. split; [field_lia|]. unfold in_u. Z.div_mod_to_equations. lia.
Qed.

(** [ltr] sets the busy bit, bit 41. *)
Lemma tss_busy base : in_u 64 base →
  Z.lor (tss_descriptor_low base 103) (Z.shiftl 2 40) = tss_descriptor_low base 103 + 2 ^ 41.
Proof.
  intros Hb. change (Z.shiftl 2 40) with (2 ^ 41). symmetry. apply Z.add_nocarry_lor.
  rewrite <- (Z.shiftl_1_l 41). apply Z.eqb_eq. rewrite <- (negb_involutive (_ =? 0)).
  rewrite land_pow2_ne0 by lia. apply negb_true_iff, Z.testbit_false; [lia|].
  rewrite tss_low_arith by done. destruct Hb. Z.div_mod_to_equations. lia.
Qed.

(** ** What the tables mean to the processor *)

Definition descriptor (m : machine) (sel : Z) : option Z := gdt m !! Z.to_nat (sel / 8).
(** A present code segment in long mode, or writable data segment, at a
    privilege level. *)
Definition code64 (dpl d : Z) : bool :=
  seg_present d && seg_user_type d && Z.testbit d 43 && seg_long d && (seg_dpl d =? dpl).
Definition data (dpl d : Z) : bool :=
  seg_present d && seg_user_type d && negb (Z.testbit d 43) && Z.testbit d 41 && (seg_dpl d =? dpl).

(** ** Selectors the processor refuses

    What [iretq] checks of the code and stack selectors it pops, in 64-bit mode
    and at privilege level 0: the exception, as its vector and error code, or
    none.  There is no local table, and a return to a segment of 32-bit code,
    which the tables here do not have, is refused. *)
Definition error_code (sel : Z) : Z := Z.land sel 0xFFFC.
Definition rpl (sel : Z) : Z := Z.land sel 3.
Definition table_entry (table : list Z) (sel : Z) : option Z :=
  if Z.testbit sel 2 then None else table !! Z.to_nat (sel / 8).

Definition code_fault (table : list Z) (sel : Z) : option (Z * Z) :=
  if error_code sel =? 0 then Some (13, 0)
  else match table_entry table sel with
  | None => Some (13, error_code sel)
  | Some d =>
      if negb (seg_user_type d && Z.testbit d 43 && seg_long d) then Some (13, error_code sel)
      else if negb (if Z.testbit d 42 then seg_dpl d <=? rpl sel else seg_dpl d =? rpl sel)
      then Some (13, error_code sel)
      else if seg_present d then None else Some (11, error_code sel)
  end.
(** A null stack selector is accepted below level 3. *)
Definition stack_fault (table : list Z) (level sel : Z) : option (Z * Z) :=
  if error_code sel =? 0 then (if level =? 3 then Some (13, 0) else None)
  else match table_entry table sel with
  | None => Some (13, error_code sel)
  | Some d =>
      if negb ((rpl sel =? level) && seg_user_type d && negb (Z.testbit d 43) && Z.testbit d 41 && (seg_dpl d =? level))
      then Some (13, error_code sel)
      else if seg_present d then None else Some (12, error_code sel)
  end.
Definition iret_fault (table : list Z) (code stack : Z) : option (Z * Z) :=
  match code_fault table code with
  | Some e => Some e
  | None => stack_fault table (rpl code) stack
  end.

(** The table [gdt::init] leaves, for a task state segment at [tss_addr]. *)
Definition kernel_table (tss_addr : Z) : list Z :=
  [GDT_NULL; GDT_KERNEL_CODE; GDT_KERNEL_DATA; Z.lor (tss_descriptor_low tss_addr 103) (Z.shiftl 2 40);
   tss_descriptor_high tss_addr; GDT_USER_DATA; GDT_USER_CODE].

(** Neither half of the descriptor of the task state segment is a code or data
    segment, so the checks do not depend on where that segment is. *)
Lemma tss_not_user base : in_u 64 base →
  seg_user_type (Z.lor (tss_descriptor_low base 103) (Z.shiftl 2 40)) = false ∧
  seg_user_type (tss_descriptor_high base) = false.
Proof.
  intros Hb. unfold seg_user_type. rewrite tss_busy by done. split.
  - apply Z.testbit_false; [lia|]. rewrite tss_low_arith by done. destruct Hb. Z.div_mod_to_equations. lia.
  - unfold tss_descriptor_high. rewrite Z.land_spec. change (Z.testbit 0xFFFFFFFF 44) with false. apply andb_false_r.
Qed.
Lemma table_entry_cases base sel : in_u 16 sel → in_u 64 base →
  table_entry (kernel_table base) sel = table_entry (kernel_table 0) sel ∨
  ∃ d d', table_entry (kernel_table base) sel = Some d ∧ table_entry (kernel_table 0) sel = Some d' ∧
    seg_user_type d = false ∧ seg_user_type d' = false.
Proof.
  intros [H0 H1] Hb. unfold table_entry. destruct (Z.testbit sel 2); [by left|].
  destruct (tss_not_user base Hb) as [N1 N2]. destruct (tss_not_user 0) as [M1 M2]; [unfold in_u; lia|].
  destruct (Z.to_nat (sel / 8)) as [|[|[|[|[|n]]]]]; [by left|by left|by left| | |by left].
  - right. eexists _, _. split; [reflexivity|]. split; [reflexivity|]. by split.
  - right. eexists _, _. split; [reflexivity|]. split; [reflexivity|]. by split.
Qed.
Lemma iret_fault_table base code stack : in_u 16 code → in_u 16 stack → in_u 64 base →
  iret_fault (kernel_table base) code stack = iret_fault (kernel_table 0) code stack.
Proof.
  intros Hc Hs Hb. unfold iret_fault.
  assert (code_fault (kernel_table base) code = code_fault (kernel_table 0) code) as ->.
  { unfold code_fault. destruct (table_entry_cases base code Hc Hb) as [->|(d & d' & -> & -> & -> & ->)]; done. }
  destruct (code_fault _ _); [done|]. unfold stack_fault.
  destruct (table_entry_cases base stack Hs Hb) as [->|(d & d' & -> & -> & -> & ->)]; [done|].
  by rewrite !andb_false_r.
Qed.

(** The selectors that are accepted as a code selector. *)
Lemma code_fault_kernel sel : in_u 16 sel →
  code_fault (kernel_table 0) sel = if (sel =? 0x08) || (sel =? 0x33) then None else Some (13, error_code sel).
Proof.
  intros [H0 H1]. destruct (Z.eqb_spec sel 0x08) as [->|H8]; [by vm_compute|].
  destruct (Z.eqb_spec sel 0x33) as [->|H33]; [by vm_compute|]. cbn [orb].
  destruct (decide (sel < 64)) as [Hlt|Hge].
  - assert (sel ∈ Z.of_nat <$> seq 0 64) as Hin.
    { apply list_elem_of_fmap. exists (Z.to_nat sel). split; [lia|]. apply elem_of_seq. lia. }
    assert (Forall (λ x, x ≠ 0x08 → x ≠ 0x33 → code_fault (kernel_table 0) x = Some (13, error_code x))
      (Z.of_nat <$> seq 0 64)) as HF by (apply (bool_decide_unpack _); vm_compute; exact I).
    rewrite Forall_forall in HF. by apply HF.
  - unfold code_fault, table_entry. destruct (Z.eqb_spec (error_code sel) 0) as [->|_]; [done|].
    destruct (Z.testbit sel 2); [done|]. rewrite lookup_ge_None_2; [done|].
    change (length (kernel_table 0)) with 7%nat. assert (8 ≤ sel / 8) by (Z.div_mod_to_equations; lia). lia.
Qed.

(** The four segments of the kernel and of user code, where STAR and the gates
    refer to them. *)
Definition segments_ok (m : machine) : Prop :=
  (∃ d, descriptor m KERNEL_CODE_SELECTOR = Some d ∧ code64 0 d = true) ∧
  (∃ d, descriptor m KERNEL_DATA_SELECTOR = Some d ∧ data 0 d = true) ∧
  (∃ d, descriptor m USER_DATA_SELECTOR = Some d ∧ data 3 d = true) ∧
  (∃ d, descriptor m USER_CODE_SELECTOR = Some d ∧ code64 3 d = true).

Lemma gdt_list l : length l = 7%nat → ∃ a b c d e f g : Z, l = [a; b; c; d; e; f; g].
Proof. intros Hl. do 7 (destruct l as [|? l]; [done|]). destruct l; [|done]. eauto 10. Qed.

(** The state [gdt::init] leaves. *)
Definition after_gdt_init (gdt_addr tss_addr df : Z) (m : machine) : machine :=
  let ts := tss m in
  mkMachine (kernel_table tss_addr)
    (mkTSS (reserved1 ts) (tss_rsp0 ts) (tss_rsp1 ts) (tss_rsp2 ts) (reserved2 ts) (df + 16384)
      (tss_ist2 ts) (tss_ist3 ts) (tss_ist4 ts) (tss_ist5 ts) (tss_ist6 ts) (tss_ist7 ts)
      (reserved3 ts) (reserved4 ts) 104)
    (idt m) (55, gdt_addr) (idtr m) 0x18 [0x08; 0x10; 0x10; 0x10].
Lemma gdt_init_run gdt_addr tss_addr df m : 0 ≤ gdt_addr → gdt_addr + GDT_SIZE < 2 ^ 64 →
  0 ≤ tss_addr → tss_addr + TSS_SIZE < 2 ^ 64 → 0 ≤ df → df + DOUBLE_FAULT_STACK_SIZE < 2 ^ 64 →
  length (gdt m) = 7%nat → gdt_init gdt_addr tss_addr df m = Done ((), after_gdt_init gdt_addr tss_addr df m).
Proof.
  change TSS_SIZE with 104. change GDT_SIZE with 56. change DOUBLE_FAULT_STACK_SIZE with 16384.
  intros Hg0 Hg Ht0 Ht Hd0 Hd Hl. destruct m as [l ts id gd idr t sr]. cbn [gdt] in Hl.
  destruct (gdt_list l Hl) as (a & b & c & d & e & f & g & ->).
  unfold gdt_init. erewrite bind_run; [|unfold lift; by rewrite add_u_Done by (change GDT_SIZE with 56; lia)].
  erewrite bind_run; [|reflexivity].
  erewrite bind_run; [|unfold tss_init, zoom, TaskStateSegment_init; erewrite bind_run; [|reflexivity];
    erewrite bind_run; [|unfold lift; by rewrite add_u_Done by (change DOUBLE_FAULT_STACK_SIZE with 16384; lia)];
    reflexivity].
  erewrite bind_run; [|unfold lift; by rewrite add_u_Done by (change TSS_SIZE with 104; lia)].
  reflexivity.
Qed.

(** After [gdt::init] the checks [verify], [verify_task_register] and
    [verify_user_segments] succeed, and the processor finds a 64-bit kernel code
    segment, a kernel data segment and user segments at level 3 under their
    selectors, a busy 64-bit TSS descriptor that covers exactly the task state
    segment at its address, the segment registers reloaded, and the end of the
    double-fault stack as the first interrupt stack. *)
Theorem gdt_init_spec gdt_addr tss_addr df m :
  0 ≤ gdt_addr → gdt_addr + GDT_SIZE < 2 ^ 64 → 0 ≤ tss_addr → tss_addr + TSS_SIZE < 2 ^ 64 →
  0 ≤ df → df + DOUBLE_FAULT_STACK_SIZE < 2 ^ 64 → length (gdt m) = 7%nat →
  ∃ m', gdt_init gdt_addr tss_addr df m = Done ((), m') ∧
    gdt_verify gdt_addr m' = true ∧ verify_task_register m' = true ∧
    verify_user_segments m' = Done (true, m') ∧ segments_ok m' ∧
    (∃ low high, descriptor m' TSS_SELECTOR = Some low ∧ descriptor m' (TSS_SELECTOR + 8) = Some high ∧
       seg_base low high = tss_addr ∧ seg_limit low = TSS_SIZE - 1 ∧ seg_type low = 11) ∧
    seg_regs m' = [KERNEL_CODE_SELECTOR; KERNEL_DATA_SELECTOR; KERNEL_DATA_SELECTOR; KERNEL_DATA_SELECTOR] ∧
    tss_ist1 (tss m') = df + DOUBLE_FAULT_STACK_SIZE ∧ iomap_base (tss m') = TSS_SIZE ∧ idt m' = idt m.
Proof.
  intros Hg0 Hg Ht0 Ht Hd0 Hd Hl. exists (after_gdt_init gdt_addr tss_addr df m).
  split; [by apply gdt_init_run|]. change TSS_SIZE with 104 in *.
  assert (in_u 64 tss_addr) as Hb by (unfold in_u; lia).
  split; [unfold gdt_verify; cbn; by rewrite Z.eqb_refl|]. split; [done|]. split; [done|].
  split; [split; [by eexists|]; split; [by eexists|]; split; by eexists|].
  split; [|done]. eexists _, _. split; [reflexivity|]. split; [reflexivity|].
  rewrite tss_busy by done. unfold tss_descriptor_high. change 0xFFFFFFFF with (Z.ones 32).
  rewrite Z.land_ones, Z.shiftr_div_pow2, tss_low_arith by (done || lia).
  split; [field_lia|]. split; field_lia.
Qed.

Definition blank_machine : machine :=
  mkMachine (replicate 7 0) TaskStateSegment_new (replicate IDT_ENTRIES IdtEntry_missing) (0, 0) (0, 0) 0 [].

Lemma gdt_init_spec_witness : ∃ m', gdt_init 0x110000 0x111000 0x120000 blank_machine = Done ((), m') ∧
  gdt_verify 0x110000 m' = true ∧ tss_ist1 (tss m') = 0x124000.
Proof.
  destruct (gdt_init_spec 0x110000 0x111000 0x120000 blank_machine) as (m' & E & Hv & _ & _ & _ & _ & _ & Hi & _);
    [lia|reflexivity|lia|reflexivity|lia|reflexivity|reflexivity|].
  exists m'. split; [exact E|]. split; [exact Hv|exact Hi].
Defined.

(** The processor reads RSP0 at offset 4, the first interrupt stack at 36 and
    the I/O map base at 102. *)
Lemma tss_layout : c_offsets 0 TaskStateSegment_fields
  = [0; 4; 12; 20; 28; 36; 44; 52; 60; 68; 76; 84; 92; 100; 102] ∧ TSS_SIZE = 104.
Proof. done. Qed.

(** ** Gates *)

Lemma gate_roundtrip handler i : in_u 64 handler → 0 ≤ i < 8 →
  let g := IdtEntry_set_handler_with_ist handler i in
  gate_offset g = handler ∧ ist g = i ∧ gate_present g = true ∧ gate_type g = 14 ∧
  selector g = KERNEL_CODE_SELECTOR.
Proof.
  intros [H0 H1] Hi. cbv zeta. unfold gate_offset. cbn [offset_low offset_mid offset_high IdtEntry_set_handler_with_ist].
  split; [unfold cast; rewrite !Z.shiftr_div_pow2 by lia; Z.div_mod_to_equations; lia|].
  split; [|done]. change (Z.land i (Z.ones 3) = i). rewrite Z.land_ones by lia. by apply Z.mod_small.
Qed.

(** [entries[vector].set_handler(handler)] over a range of vectors. *)
Lemma idt_range_run h n v l : 0 ≤ v → v + Z.of_nat n ≤ Z.of_nat (length l) → ∃ l',
  for_range n v (λ v, idt_set_handler v (h v)) l = Done ((), l') ∧ length l' = length l ∧
  ∀ i, 0 ≤ i → l' !! Z.to_nat i =
    if (v <=? i) && (i <? v + Z.of_nat n) then Some (IdtEntry_set_handler (h i)) else l !! Z.to_nat i.
Proof.
  revert v l. induction n as [|n IH]; intros v l Hv Hn.
  { exists l. split; [done|]. split; [done|]. intros i Hi.
    destruct (Z.leb_spec v i), (Z.ltb_spec i (v + Z.of_nat 0)); cbn [andb]; done || lia. }
  rewrite Nat2Z.inj_succ in Hn. cbn [for_range].
  destruct (vec_lookup l v ltac:(lia)) as [e He].
  destruct (IH (v + 1) (<[Z.to_nat v := IdtEntry_set_handler (h v)]> l)) as (l' & E & Hl & Hf);
    [lia|rewrite length_insert; lia|].
  exists l'. rewrite length_insert in Hl. split; [|split; [done|]].
  - erewrite bind_run; [exact E|]. unfold idt_set_handler.
    rewrite (bind_run _ _ _ _ _ (vec_get_run l v e Hv He)). apply vec_set_run. lia.
  - intros i Hi. rewrite Hf, vec_lookup_set by lia. rewrite Nat2Z.inj_succ. case_decide as Hd.
    + subst i. rewrite (proj2 (Z.leb_gt (v + 1) v)) by lia. cbn [andb].
      by rewrite (proj2 (Z.leb_le v v)), (proj2 (Z.ltb_lt v (v + Z.succ (Z.of_nat n)))) by lia.
    + destruct (Z.leb_spec (v + 1) i), (Z.leb_spec v i), (Z.ltb_spec i (v + 1 + Z.of_nat n)),
        (Z.ltb_spec i (v + Z.succ (Z.of_nat n))); cbn [andb]; done || lia.
Qed.

Lemma idt_one_run h i l v : 0 ≤ v < Z.of_nat (length l) →
  idt_set_handler_with_ist v h i l = Done ((), <[Z.to_nat v := IdtEntry_set_handler_with_ist h i]> l).
Proof.
  intros Hv. destruct (vec_lookup l v Hv) as [e He]. unfold idt_set_handler_with_ist.
  rewrite (bind_run _ _ _ _ _ (vec_get_run l v e ltac:(lia) He)). by apply vec_set_run.
Qed.

(** After [idt::init] the check [verify] succeeds and the processor finds
    for each exception vector a present interrupt gate to that vector's stub in
    the kernel code segment, on the first interrupt stack for the double fault
    and on the current stack for the others, and for vector 32 a gate to the
    timer entry; every other gate, and the segment tables, are unchanged. *)
Theorem idt_init_spec idt_addr isr irq0 m :
  (∀ v, in_u 64 (isr v)) → in_u 64 irq0 → length (idt m) = IDT_ENTRIES →
  ∃ m', idt_init idt_addr isr irq0 m = Done ((), m') ∧ idt_verify idt_addr m' = true ∧
    gdt m' = gdt m ∧ tss m' = tss m ∧
    (∀ v, 0 ≤ v ≤ 32 → ∃ g, idt m' !! Z.to_nat v = Some g ∧
       gate_offset g = (if v =? 32 then irq0 else isr v) ∧ ist g = (if v =? 8 then 1 else 0) ∧
       gate_present g = true ∧ gate_type g = 14 ∧ selector g = KERNEL_CODE_SELECTOR) ∧
    (∀ v, 32 < v → idt m' !! Z.to_nat v = idt m !! Z.to_nat v).
Proof.
  intros Hisr Hirq Hl. destruct m as [gd ts l gdr idr t sr]. cbn [idt] in *. unfold IDT_ENTRIES in *.
  destruct (idt_range_run isr 8 0 l) as (l1 & E1 & Hl1 & Hf1); [lia|rewrite Hl; lia|]. rewrite Hl in Hl1.
  set (l2 := <[Z.to_nat 8 := IdtEntry_set_handler_with_ist (isr 8) 1]> l1).
  assert (length l2 = 256%nat) as Hl2 by (unfold l2; by rewrite length_insert).
  destruct (idt_range_run isr 23 9 l2) as (l3 & E3 & Hl3 & Hf3); [lia|rewrite Hl2; lia|]. rewrite Hl2 in Hl3.
  exists (mkMachine gd ts (<[Z.to_nat 32 := IdtEntry_set_handler_with_ist irq0 0]> l3) gdr (4095, idt_addr) t sr).
  split.
  { unfold idt_init. erewrite bind_run; [|unfold zoom; cbn [idt]; rewrite (bind_run _ _ _ _ _ E1),
      (bind_run _ _ _ _ _ (idt_one_run (isr 8) 1 l1 8 ltac:(lia)));
      fold l2; rewrite (bind_run _ _ _ _ _ E3); unfold idt_set_handler, IdtEntry_set_handler;
      fold (idt_set_handler_with_ist 32 irq0 0); rewrite (idt_one_run irq0 0 l3 32 ltac:(lia)); reflexivity].
    reflexivity. }
  split; [unfold idt_verify; cbn; by rewrite Z.eqb_refl|]. do 2 (split; [done|]). cbn [idt]. split.
  - intros v Hv. rewrite vec_lookup_set by lia. destruct (Z.eqb_spec v 32) as [->|H32].
    { rewrite decide_True by done. eexists. split; [done|]. by apply gate_roundtrip. }
    rewrite decide_False, Hf3 by lia. destruct (Z.eqb_spec v 8) as [->|H8].
    { eexists. split; [cbn; unfold l2; by rewrite list_lookup_insert_eq by (cbn; lia)|]. by apply gate_roundtrip. }
    exists (IdtEntry_set_handler (isr v)). split; [|by apply gate_roundtrip].
    unfold l2. rewrite vec_lookup_set, decide_False, Hf1 by lia.
    destruct (Z.leb_spec 9 v), (Z.ltb_spec v (9 + Z.of_nat 23)), (Z.leb_spec 0 v), (Z.ltb_spec v (0 + Z.of_nat 8));
      cbn [andb]; done || lia.
  - intros v Hv. unfold l2. rewrite vec_lookup_set, decide_False, Hf3 by lia.
    rewrite (proj2 (Z.ltb_ge v (9 + Z.of_nat 23))), andb_false_r by lia. unfold l2.
    rewrite vec_lookup_set, decide_False, Hf1 by lia.
    by rewrite (proj2 (Z.ltb_ge v (0 + Z.of_nat 8))), andb_false_r by lia.
Qed.

Lemma idt_init_spec_witness : ∃ m' g,
  idt_init 0x115000 (λ v, 0x130000 + 16 * (v mod 32)) 0x131000 blank_machine = Done ((), m') ∧
  idt m' !! 8%nat = Some g ∧ gate_offset g = 0x130080 ∧ ist g = 1.
Proof.
  destruct (idt_init_spec 0x115000 (λ v, 0x130000 + 16 * (v mod 32)) 0x131000 blank_machine)
    as (m' & E & _ & _ & _ & Hg & _).
  - intros v. pose proof (Z.mod_pos_bound v 32 eq_refl). unfold in_u. lia.
  - unfold in_u. lia.
  - reflexivity.
  - destruct (Hg 8 ltac:(lia)) as (g & Hl & Ho & Hi & _). exists m', g.
    split; [exact E|]. split; [exact Hl|]. split; [exact Ho|exact Hi].
Defined.
