(* ===== verification/Cpu.v ===== *)
(** * A small x86-64 machine

    The registers, flags and memory the kernel's assembly routines touch, and
    one function per instruction they use (scheduler/context.rs,
    arch/x86_64/idt.rs, syscall.asm, user.rs).  A straight-line routine is a
    composition of these functions.  In 64-bit mode an interrupt pushes SS, RSP,
    RFLAGS, CS and RIP, and [iretq] pops all five.  Where the processor refuses an
    instruction, the state keeps the exception it raises, [raised]; code that runs
    on from there is not the program's, so a theorem about such code also says
    that nothing is raised.  [iretq] checks the selectors it pops against the
    segments [gdt::init] sets up (Descriptors.v). *)

From S2P Require Import Prelude Descriptors.
Local Open Scope Z_scope.

Inductive reg :=
| RAX | RCX | RDX | RBX | RSP | RBP | RSI | RDI
| R8 | R9 | R10 | R11 | R12 | R13 | R14 | R15.
#[export] Instance reg_eq_dec : EqDecision reg.
Proof. solve_decision. Defined.

Record cpu := mkCpu {
  gpr : reg → Z;
  rip : Z;
  cs : Z;
  ss : Z;
  rflags : Z;
  cmem : bytemem;
  (** The vector and error code of an exception. *)
  raised : option (Z * Z);
}.

Definition set_reg (r : reg) (x : Z) (c : cpu) : cpu :=
  mkCpu (λ r', if decide (r' = r) then x else gpr c r') (rip c) (cs c) (ss c) (rflags c) (cmem c) (raised c).
Definition set_mem (m : bytemem) (c : cpu) : cpu :=
  mkCpu (gpr c) (rip c) (cs c) (ss c) (rflags c) m (raised c).
Definition set_rip (x : Z) (c : cpu) : cpu :=
  mkCpu (gpr c) x (cs c) (ss c) (rflags c) (cmem c) (raised c).
(** The exception replaces the instruction's effect; the first one stands. *)
Definition raise (e : Z * Z) (c : cpu) : cpu :=
  mkCpu (gpr c) (rip c) (cs c) (ss c) (rflags c) (cmem c)
    (match raised c with Some e0 => Some e0 | None => Some e end).

(** A 64-bit word of memory. *)
Definition word (c : cpu) (a : Z) : Z := le_load (cmem c) a 8.
Definition set_word (a x : Z) (c : cpu) : cpu := set_mem (le_store (cmem c) a 8 x) c.

(** [mov d, [b + off]]; [mov [b + off], s]; [mov d, s]; [lea d, [b + off]]. *)
Definition mov_load (d b : reg) (off : Z) (c : cpu) : cpu :=
  set_reg d (word c (cast 64 (gpr c b + off))) c.
Definition mov_store (b : reg) (off : Z) (s : reg) (c : cpu) : cpu :=
  set_word (cast 64 (gpr c b + off)) (gpr c s) c.
Definition mov (d s : reg) (c : cpu) : cpu := set_reg d (gpr c s) c.
Definition lea (d b : reg) (off : Z) (c : cpu) : cpu := set_reg d (cast 64 (gpr c b + off)) c.
Definition add_imm (d : reg) (n : Z) (c : cpu) : cpu := set_reg d (cast 64 (gpr c d + n)) c.
(** [and rsp, -16]. *)
Definition align_rsp (c : cpu) : cpu := set_reg RSP (gpr c RSP / 16 * 16) c.

Definition push_val (x : Z) (c : cpu) : cpu :=
  let sp := cast 64 (gpr c RSP - 8) in set_reg RSP sp (set_word sp x c).
Definition push (r : reg) (c : cpu) : cpu := push_val (gpr c r) c.
Definition pop_val (c : cpu) : Z * cpu := (word c (gpr c RSP), add_imm RSP 8 c).
Definition pop (r : reg) (c : cpu) : cpu := let '(x, c') := pop_val c in set_reg r x c'.
Definition push_vals (xs : list Z) (c : cpu) : cpu := foldl (λ c x, push_val x c) c xs.
Definition push_all (rs : list reg) (c : cpu) : cpu := foldl (λ c r, push r c) c rs.
Definition pop_all (rs : list reg) (c : cpu) : cpu := foldl (λ c r, pop r c) c rs.

Definition jmp (r : reg) (c : cpu) : cpu := set_rip (gpr c r) c.

(** [call f], where the called code runs as [f] and returns to [ret]. *)
Definition call (ret : Z) (f : cpu → cpu) (c : cpu) : cpu := f (push_val ret c).

(** Delivery of an interrupt without a stack switch, and [iretq]: selectors are
    the low sixteen bits of the words popped, and a selector that is refused
    leaves everything as it was. *)
Definition interrupt_enter (c : cpu) : cpu :=
  push_vals [ss c; gpr c RSP; rflags c; cs c; rip c] (align_rsp c).
Definition iretq (c : cpu) : cpu :=
  let '(ip, c1) := pop_val c in
  let '(code, c2) := pop_val c1 in
  let '(fl, c3) := pop_val c2 in
  let '(sp, c4) := pop_val c3 in
  let '(seg, c5) := pop_val c4 in
  match iret_fault (kernel_table 0) (cast 16 code) (cast 16 seg) with
  | Some e => raise e c
  | None => mkCpu (gpr (set_reg RSP sp c5)) ip (cast 16 code) (cast 16 seg) fl (cmem c5) (raised c)
  end.

(** ** Reading registers and memory *)

Definition regs_ok (c : cpu) : Prop := ∀ r, in_u 64 (gpr c r).
(** Registers of their width; the segment registers hold selectors the processor
    has accepted; nothing raised. *)
Definition cpu_ok (c : cpu) : Prop :=
  regs_ok c ∧ in_u 64 (rip c) ∧ in_u 16 (cs c) ∧ in_u 16 (ss c) ∧ in_u 64 (rflags c) ∧
  iret_fault (kernel_table 0) (cs c) (ss c) = None ∧ raised c = None.

Lemma cast_small x : 0 ≤ x < 2 ^ 64 → cast 64 x = x.
Proof. intros. unfold cast. by apply Z.mod_small. Qed.

Lemma cast16_small x : in_u 16 x → cast 16 x = x.
Proof. intros Hx. unfold cast. by apply Z.mod_small. Qed.
Lemma in_u_16_64 x : in_u 16 x → in_u 64 x.
Proof. unfold in_u. lia. Qed.

(** What only moves data raises nothing. *)
Lemma raised_push_vals xs c : raised (push_vals xs c) = raised c.
Proof. revert c. induction xs as [|x xs IH]; intros c; [done|]. exact (IH (push_val x c)). Qed.
Lemma raised_push_all rs c : raised (push_all rs c) = raised c.
Proof. revert c. induction rs as [|r rs IH]; intros c; [done|]. exact (IH (push r c)). Qed.
Lemma raised_pop_all rs c : raised (pop_all rs c) = raised c.
Proof. revert c. induction rs as [|r rs IH]; intros c; [done|]. exact (IH (pop r c)). Qed.

Lemma gpr_set_reg r x c r' : gpr (set_reg r x c) r' = if decide (r' = r) then x else gpr c r'.
Proof. done. Qed.

Lemma word_set_same a x c : in_u 64 x → word (set_word a x c) a = x.
Proof. intros Hx. unfold word, set_word. simpl. by apply le_load_store_same. Qed.

Lemma word_set_other a x c b : b + 8 ≤ a ∨ a + 8 ≤ b → word (set_word a x c) b = word c b.
Proof. intros Hb. unfold word, set_word. simpl. by apply le_load_store_other. Qed.

(** What the routines leave alone below and above a stack range: [c'] agrees
    with [c] outside [lo, hi). *)
Definition same_outside (lo hi : Z) (c c' : cpu) : Prop :=
  ∀ b, b + 8 ≤ lo ∨ hi ≤ b → word c' b = word c b.

Lemma push_val_run x c : in_u 64 x → 8 ≤ gpr c RSP < 2 ^ 64 →
  let c' := push_val x c in
  gpr c' RSP = gpr c RSP - 8 ∧ (∀ r, r ≠ RSP → gpr c' r = gpr c r) ∧
  word c' (gpr c RSP - 8) = x ∧ same_outside (gpr c RSP - 8) (gpr c RSP) c c' ∧
  rip c' = rip c ∧ cs c' = cs c ∧ ss c' = ss c ∧ rflags c' = rflags c.
Proof.
  intros Hx Hs. unfold push_val. rewrite cast_small by lia. cbv zeta.
  split; [done|]. split; [intros r Hr; simpl; by rewrite decide_False|].
  split; [by apply word_set_same|]. split; [|done].
  intros b Hb. apply word_set_other. lia.
Qed.

(** Pushing a list of values: the [i]-th is at [rsp - 8 (i + 1)]. *)
Lemma push_vals_run xs c : regs_ok c → Forall (in_u 64) xs → 8 * Z.of_nat (length xs) ≤ gpr c RSP →
  let c' := push_vals xs c in
  gpr c' RSP = gpr c RSP - 8 * Z.of_nat (length xs) ∧ (∀ r, r ≠ RSP → gpr c' r = gpr c r) ∧
  (∀ i x, xs !! i = Some x → word c' (gpr c RSP - 8 * Z.of_nat (S i)) = x) ∧
  same_outside (gpr c RSP - 8 * Z.of_nat (length xs)) (gpr c RSP) c c' ∧ regs_ok c'.
Proof.
  intros Hok HF. revert c Hok. induction HF as [|x xs Hx HF IH]; intros c Hok Hsp; cbv zeta.
  { simpl. split; [lia|]. done. }
  simpl length in *. rewrite Nat2Z.inj_succ in *. pose proof (Hok RSP) as [Hs0 Hs1].
  destruct (push_val_run x c Hx) as (S1 & G1 & W1 & O1 & _); [lia|].
  assert (regs_ok (push_val x c)) as Hok1.
  { intros r. destruct (decide (r = RSP)) as [->|Hne]; [rewrite S1; unfold in_u; lia|by rewrite G1]. }
  destruct (IH (push_val x c) Hok1) as (S2 & G2 & W2 & O2 & Hok2); [lia|].
  change (push_vals (x :: xs) c) with (push_vals xs (push_val x c)).
  split; [lia|]. split; [intros r' Hr'; by rewrite G2, G1|]. split; [|split; [|done]].
  - intros [|i] y Hi; simpl in Hi.
    + injection Hi as <-. rewrite O2 by lia.
      by replace (gpr c RSP - 8 * Z.of_nat 1) with (gpr c RSP - 8) by lia.
    + rewrite <- (W2 i y Hi). f_equal. lia.
  - intros b Hb. rewrite O2, O1 by lia. done.
Qed.

Lemma push_all_vals rs c : RSP ∉ rs → push_all rs c = push_vals (gpr c <$> rs) c.
Proof.
  revert c. induction rs as [|r rs IH]; intros c Hn; [done|].
  apply not_elem_of_cons in Hn as [Hr Hn].
  change (push_all (r :: rs) c) with (push_all rs (push r c)). rewrite IH by done.
  change (push_vals (gpr c <$> r :: rs) c) with (push_vals (gpr c <$> rs) (push r c)).
  f_equal. apply list_fmap_ext. intros i x Hi. cbn. rewrite decide_False; [done|].
  intros ->. apply Hn. by eapply list_elem_of_lookup_2.
Qed.

(** Pushing a list of registers. *)
Lemma push_all_run rs c : regs_ok c → RSP ∉ rs → 8 * Z.of_nat (length rs) ≤ gpr c RSP →
  let c' := push_all rs c in
  gpr c' RSP = gpr c RSP - 8 * Z.of_nat (length rs) ∧ (∀ r, r ≠ RSP → gpr c' r = gpr c r) ∧
  (∀ i r, rs !! i = Some r → word c' (gpr c RSP - 8 * Z.of_nat (S i)) = gpr c r) ∧
  same_outside (gpr c RSP - 8 * Z.of_nat (length rs)) (gpr c RSP) c c' ∧ regs_ok c'.
Proof.
  intros Hok Hn Hsp. cbv zeta. rewrite push_all_vals by done.
  destruct (push_vals_run (gpr c <$> rs) c Hok) as (S1 & G1 & W1 & O1 & Hok1);
    [apply Forall_fmap, Forall_true; intros; apply Hok|by rewrite length_fmap|].
  rewrite length_fmap in *. split; [done|]. split; [done|]. split; [|done].
  intros i r Hi. apply W1. by rewrite list_lookup_fmap, Hi.
Qed.

(** Popping a list of distinct registers: the [i]-th is the word at [rsp + 8 i]. *)
Lemma pop_all_run rs c : NoDup rs → RSP ∉ rs → 0 ≤ gpr c RSP →
  gpr c RSP + 8 * Z.of_nat (length rs) < 2 ^ 64 →
  let c' := pop_all rs c in
  gpr c' RSP = gpr c RSP + 8 * Z.of_nat (length rs) ∧
  (∀ i r, rs !! i = Some r → gpr c' r = word c (gpr c RSP + 8 * Z.of_nat i)) ∧
  (∀ r, r ∉ rs → r ≠ RSP → gpr c' r = gpr c r) ∧
  (∀ b, word c' b = word c b) ∧
  rip c' = rip c ∧ cs c' = cs c ∧ ss c' = ss c ∧ rflags c' = rflags c.
Proof.
  revert c. induction rs as [|r rs IH]; intros c Hnd Hn Hs0 Hsp; cbv zeta.
  { simpl. split; [lia|]. done. }
  apply not_elem_of_cons in Hn as [Hr Hn]. apply NoDup_cons in Hnd as [Hr2 Hnd].
  simpl length in *. rewrite Nat2Z.inj_succ in *.
  change (pop_all (r :: rs) c) with (pop_all rs (pop r c)).
  assert (gpr (pop r c) RSP = gpr c RSP + 8) as S1.
  { simpl. rewrite decide_False by done. by rewrite cast_small by lia. }
  destruct (IH (pop r c) Hnd Hn) as (S2 & G2 & K2 & W2 & F2); [lia|lia|].
  split; [lia|]. split; [|split; [|split]].
  - intros [|i] r' Hi; simpl in Hi.
    + injection Hi as <-. rewrite K2 by done. simpl. rewrite decide_True by done. f_equal. lia.
    + rewrite (G2 i r' Hi), S1. change (word (pop r c)) with (word c). f_equal. lia.
  - intros r' Hr' Hne. apply not_elem_of_cons in Hr' as [Hr1 Hr']. rewrite K2 by done.
    simpl. by rewrite !decide_False.
  - intros b. rewrite W2. done.
  - exact F2.
Qed.

(** [mov [b + off + 8 i], rs_i] and [mov rs_i, [b + off + 8 i]], in order. *)
Fixpoint store_seq (b : reg) (off : Z) (rs : list reg) (c : cpu) : cpu :=
  match rs with
  | [] => c
  | r :: rest => store_seq b (off + 8) rest (mov_store b off r c)
  end.
Fixpoint load_seq (b : reg) (off : Z) (rs : list reg) (c : cpu) : cpu :=
  match rs with
  | [] => c
  | r :: rest => load_seq b (off + 8) rest (mov_load r b off c)
  end.

Lemma store_seq_run b off rs c : regs_ok c → 0 ≤ off →
  gpr c b + off + 8 * Z.of_nat (length rs) < 2 ^ 64 →
  let c' := store_seq b off rs c in
  gpr c' = gpr c ∧ rip c' = rip c ∧
  (∀ i r, rs !! i = Some r → word c' (gpr c b + off + 8 * Z.of_nat i) = gpr c r) ∧
  same_outside (gpr c b + off) (gpr c b + off + 8 * Z.of_nat (length rs)) c c'.
Proof.
  revert off c. induction rs as [|r rs IH]; intros off c Hr Hoff Hb; cbv zeta.
  { done. }
  simpl length in *. rewrite Nat2Z.inj_succ in *. cbn [store_seq].
  pose proof (Hr b) as [Hb0 _]. unfold mov_store. rewrite cast_small by lia.
  set (c1 := set_word (gpr c b + off) (gpr c r) c).
  destruct (IH (off + 8) c1 Hr) as (G & I & W & O); [lia|cbn; lia|]. cbn [gpr c1 set_word set_mem] in *.
  split; [done|]. split; [done|]. split.
  - intros [|i] r' Hi; simpl in Hi.
    + injection Hi as <-. rewrite Z.mul_0_r, Z.add_0_r, O by lia. by apply word_set_same.
    + rewrite <- (W i r' Hi). f_equal. lia.
  - intros d Hd. rewrite O by lia. apply word_set_other. lia.
Qed.

Lemma load_seq_run b off rs c : NoDup rs → b ∉ rs → 0 ≤ gpr c b → 0 ≤ off →
  gpr c b + off + 8 * Z.of_nat (length rs) < 2 ^ 64 →
  let c' := load_seq b off rs c in
  (∀ i r, rs !! i = Some r → gpr c' r = word c (gpr c b + off + 8 * Z.of_nat i)) ∧
  (∀ r, r ∉ rs → gpr c' r = gpr c r) ∧ cmem c' = cmem c ∧ rip c' = rip c.
Proof.
  revert off c. induction rs as [|r rs IH]; intros off c Hnd Hn Hb0 Hoff Hb; cbv zeta.
  { done. }
  apply not_elem_of_cons in Hn as [Hne Hn]. apply NoDup_cons in Hnd as [Hr Hnd].
  simpl length in *. rewrite Nat2Z.inj_succ in *. cbn [load_seq].
  unfold mov_load. rewrite cast_small by lia.
  set (c1 := set_reg r (word c (gpr c b + off)) c).
  assert (gpr c1 b = gpr c b) as Hc1 by (cbn; by rewrite decide_False).
  destruct (IH (off + 8) c1 Hnd Hn) as (G & K & Mm & I); [lia|lia|lia|].
  split; [|split; [|done]].
  - intros [|i] r' Hi; simpl in Hi.
    + injection Hi as <-. rewrite K by done. cbn. rewrite decide_True by done.
      f_equal. lia.
    + rewrite (G i r' Hi), Hc1. change (word c1) with (word c). f_equal. lia.
  - intros r' Hr'. apply not_elem_of_cons in Hr' as [H1 H2]. rewrite K by done.
    cbn. by rewrite decide_False.
Qed.

(** The two ways [iretq] goes. *)
Lemma iretq_run c : 0 ≤ gpr c RSP → gpr c RSP + 40 < 2 ^ 64 →
  let c' := iretq c in let sp := gpr c RSP in
  match iret_fault (kernel_table 0) (cast 16 (word c (sp + 8))) (cast 16 (word c (sp + 32))) with
  | Some e => c' = raise e c
  | None =>
      rip c' = word c sp ∧ cs c' = cast 16 (word c (sp + 8)) ∧ rflags c' = word c (sp + 16) ∧
      gpr c' RSP = word c (sp + 24) ∧ ss c' = cast 16 (word c (sp + 32)) ∧
      (∀ r, r ≠ RSP → gpr c' r = gpr c r) ∧ (∀ b, word c' b = word c b) ∧ raised c' = raised c
  end.
Proof.
  intros Hs0 Hs. unfold iretq, pop_val, add_imm. cbn [fst snd]. cbv beta iota zeta.
  assert (∀ r x d b, word (set_reg r x d) b = word d b) as Hw by done.
  assert (∀ x d, gpr (set_reg RSP x d) RSP = x) as Hg by done.
  rewrite !Hg, !Hw. rewrite !(cast_small (gpr c RSP + 8)) by lia.
  rewrite !(cast_small (gpr c RSP + 8 + 8)) by lia.
  rewrite !(cast_small (gpr c RSP + 8 + 8 + 8)) by lia.
  rewrite !(cast_small (gpr c RSP + 8 + 8 + 8 + 8)) by lia.
  replace (gpr c RSP + 8 + 8 + 8 + 8) with (gpr c RSP + 32) by lia.
  replace (gpr c RSP + 8 + 8 + 8) with (gpr c RSP + 24) by lia.
  replace (gpr c RSP + 8 + 8) with (gpr c RSP + 16) by lia.
  destruct (iret_fault _ _ _) as [e|]; [done|].
  do 5 (split; [done|]). split; [|done].
  intros r Hr. cbn -[cast]. by rewrite !decide_False by done.
Qed.
