(* ===== verification/Task.v ===== *)
(** * Tasks and their contexts (kernel/src/scheduler/task.rs, context.rs)

    The task structure, the two ways of preparing a task's first run, and the
    assembly that switches between contexts.  A task's private stack is the
    16 KiB of memory at the address of its [kernel_stack] field; the addresses
    of code ([task_exit], the trampoline) are chosen by the linker and are
    arguments here. *)

From S2P Require Import Prelude Descriptors Cpu.
Local Open Scope Z_scope.

Abbreviation TaskId := Z.

Inductive TaskState := Ready | Running | Blocked | Terminated.
#[export] Instance TaskState_eq_dec : EqDecision TaskState.
Proof. solve_decision. Defined.

Definition TaskState_name (self : TaskState) : string :=
  match self with
  | Ready => "READY"
  | Running => "RUNNING"
  | Blocked => "BLOCKED"
  | Terminated => "TERMINATED"
  end.

Definition KERNEL_STACK_SIZE : Z := 16 * 1024.
(** [KernelStack::top], from the address of the stack. *)
Definition KernelStack_top (data : Z) : outcome Z := add_u 64 data KERNEL_STACK_SIZE.

Record TaskContext := mkTaskContext {
  ctx_rsp : Z; ctx_rbp : Z; ctx_rbx : Z; ctx_r12 : Z;
  ctx_r13 : Z; ctx_r14 : Z; ctx_r15 : Z; ctx_rip : Z;
}.
Definition TaskContext_empty : TaskContext := mkTaskContext 0 0 0 0 0 0 0 0.
Definition TaskContext_fields : list (Z * Z) := replicate 8 (8, 8).
Definition TASK_CONTEXT_SIZE : Z := size_of TaskContext_fields.

Definition INTERRUPT_CONTEXT_SIZE : Z := 19 * 8.
Definition INITIAL_STACK_RESERVE : Z := 2048.

Record Task := mkTask {
  id : TaskId;
  state : TaskState;
  priority : Z;
  time_slice_ticks : Z;
  total_ticks : Z;
  context : TaskContext;
  interrupt_rsp : Z;
}.

Definition Task_new (id priority : Z) : Task :=
  mkTask id Ready priority 0 0 TaskContext_empty 0.
Definition Task_set_state (s : TaskState) (self : Task) : Task :=
  mkTask (id self) s (priority self) (time_slice_ticks self) (total_ticks self)
    (context self) (interrupt_rsp self).
Definition Task_is_runnable (self : Task) : bool :=
  match state self with Ready | Running => true | _ => false end.

Definition set_context (x : TaskContext) (self : Task) : Task :=
  mkTask (id self) (state self) (priority self) (time_slice_ticks self) (total_ticks self)
    x (interrupt_rsp self).
Definition set_interrupt_rsp (x : Z) (self : Task) : Task :=
  mkTask (id self) (state self) (priority self) (time_slice_ticks self) (total_ticks self)
    (context self) x.
Definition set_ticks (slice total : Z) (self : Task) : Task :=
  mkTask (id self) (state self) (priority self) slice total (context self) (interrupt_rsp self).

Section init.
(** The address of [self.kernel_stack] and of the code the contexts refer to. *)
Context (stack task_exit unbound_start_interrupt_context : Z).

Definition Task_initialize_context (entry : Z) : M (Task * bytemem) unit := λ '(self, m),
  stack_top ← KernelStack_top stack;
  initial_rsp ← sub_u stack_top 8;
  Done ((), (set_context (mkTaskContext initial_rsp 0 0 0 0 0 0 entry) self,
             le_store m initial_rsp 8 task_exit)).

(** The nineteen words of the synthetic frame, from [frame.add(0)] on. *)
Definition interrupt_frame (entry : Z) : list Z :=
  replicate 15 0 ++ [0x20; entry; 0x08; 0x202].
Fixpoint write_words (m : bytemem) (a : Z) (ws : list Z) : bytemem :=
  match ws with
  | [] => m
  | w :: rest => write_words (le_store m a 8 w) (a + 8) rest
  end.

Definition Task_initialize_interrupt_context (entry : Z) : M (Task * bytemem) unit := λ '(self, m),
  stack_top ← KernelStack_top stack;
  a ← sub_u stack_top INITIAL_STACK_RESERVE;
  context_rsp ← sub_u a INTERRUPT_CONTEXT_SIZE;
  Done ((), (set_interrupt_rsp context_rsp self, write_words m context_rsp (interrupt_frame entry))).

Definition Task_prepare_preemptive_start : M (Task * bytemem) unit := λ '(self, m),
  if interrupt_rsp self =? 0 then Panicked AssertFailed
  else Done ((), (set_context (mkTaskContext (interrupt_rsp self) 0 0 0 0 0 0
                     unbound_start_interrupt_context) self, m)).
End init.

(** [NEXT_TASK_ID.fetch_add(1)]: the state is the next id. *)
Definition allocate_task_id : M Z TaskId := λ next, Done (next, wrapping_add 64 next 1).

(** ** The context switch *)

Definition run (code : list (cpu → cpu)) (c : cpu) : cpu := foldl (λ c f, f c) c code.

Definition unbound_context_switch : cpu → cpu := run [
  mov_load RAX RSP 0;
  mov_store RDI 56 RAX;
  lea RAX RSP 8;
  mov_store RDI 0 RAX;
  mov_store RDI 8 RBP;
  mov_store RDI 16 RBX;
  mov_store RDI 24 R12;
  mov_store RDI 32 R13;
  mov_store RDI 40 R14;
  mov_store RDI 48 R15;
  mov_load RSP RSI 0;
  mov_load RBP RSI 8;
  mov_load RBX RSI 16;
  mov_load R12 RSI 24;
  mov_load R13 RSI 32;
  mov_load R14 RSI 40;
  mov_load R15 RSI 48;
  mov_load RAX RSI 56;
  jmp RAX].

(** The order in which the trampoline and the interrupt return pop. *)
Definition frame_regs : list reg :=
  [R15; R14; R13; R12; R11; R10; R9; R8; RDI; RSI; RBP; RBX; RDX; RCX; RAX].

Definition unbound_start_interrupt_context_code : cpu → cpu := run [
  pop_all frame_regs;
  add_imm RSP 8;
  iretq].

(** The [TaskContext] in memory at [a]. *)
Definition read_context (c : cpu) (a : Z) : TaskContext :=
  mkTaskContext (word c a) (word c (a + 8)) (word c (a + 16)) (word c (a + 24))
    (word c (a + 32)) (word c (a + 40)) (word c (a + 48)) (word c (a + 56)).

(** The part of the processor a context describes. *)
Definition cpu_context (c : cpu) : TaskContext :=
  mkTaskContext (gpr c RSP) (gpr c RBP) (gpr c RBX) (gpr c R12) (gpr c R13) (gpr c R14)
    (gpr c R15) (rip c).

(** What [ret] would make of the caller's context: the return address popped. *)
Definition return_context (c : cpu) : TaskContext :=
  mkTaskContext (gpr c RSP + 8) (gpr c RBP) (gpr c RBX) (gpr c R12) (gpr c R13) (gpr c R14)
    (gpr c R15) (word c (gpr c RSP)).

Lemma le_load_range m a n : (∀ b, in_u 8 (default 0 (m !! b))) → in_u (8 * Z.of_nat n) (le_load m a n).
Proof.
  intros Hm. revert a. induction n as [|n IH]; intros a; [done|].
  change (le_load m a (S n)) with (default 0 (m !! a) + 256 * le_load m (a + 1) n).
  specialize (IH (a + 1)). specialize (Hm a). unfold in_u in *.
  replace (8 * Z.of_nat (S n)) with (8 + 8 * Z.of_nat n) by lia.
  rewrite Z.pow_add_r by lia. change (2 ^ 8) with 256 in *. lia.
Qed.

(** Memory holds bytes. *)
Definition mem_ok (c : cpu) : Prop := ∀ b, in_u 8 (default 0 (cmem c !! b)).

Lemma word_range c a : mem_ok c → in_u 64 (word c a).
Proof. intros Hm. exact (le_load_range (cmem c) a 8 Hm). Qed.

(** The saves of the switch, and its loads. *)
Definition saved_regs : list reg := [RAX; RBP; RBX; R12; R13; R14; R15].
Definition loaded_regs : list reg := [RSP; RBP; RBX; R12; R13; R14; R15; RAX].

Lemma context_switch_blocks c : unbound_context_switch c =
  jmp RAX (load_seq RSI 0 loaded_regs (store_seq RDI 0 saved_regs
    (lea RAX RSP 8 (mov_store RDI 56 RAX (mov_load RAX RSP 0 c))))).
Proof. reflexivity. Qed.
#[local] Opaque store_seq load_seq le_load le_store unbound_context_switch.

(** The first three instructions save the return address and leave the
    caller's stack pointer in RAX. *)
Lemma switch_prologue c : regs_ok c → mem_ok c → gpr c RSP + 8 < 2 ^ 64 → gpr c RDI + 64 < 2 ^ 64 →
  let c3 := lea RAX RSP 8 (mov_store RDI 56 RAX (mov_load RAX RSP 0 c)) in
  regs_ok c3 ∧ gpr c3 RAX = gpr c RSP + 8 ∧ (∀ r, r ≠ RAX → gpr c3 r = gpr c r) ∧
  word c3 (gpr c RDI + 56) = word c (gpr c RSP) ∧
  same_outside (gpr c RDI + 56) (gpr c RDI + 64) c c3.
Proof.
  intros Hr Hm Hsp Hold c3. pose proof (Hr RSP) as [Hsp0 _]. pose proof (Hr RDI) as [Hold0 _].
  assert (mov_load RAX RSP 0 c = set_reg RAX (word c (gpr c RSP)) c) as E1.
  { unfold mov_load. by rewrite Z.add_0_r, cast_small by lia. }
  assert (c3 = set_reg RAX (gpr c RSP + 8)
    (set_word (gpr c RDI + 56) (word c (gpr c RSP)) (set_reg RAX (word c (gpr c RSP)) c))) as E3.
  { unfold c3. rewrite E1. unfold mov_store, lea. cbn [gpr set_reg set_word set_mem].
    rewrite !decide_False, decide_True by done. by rewrite !cast_small by lia. }
  assert (∀ r, r ≠ RAX → gpr c3 r = gpr c r) as G.
  { intros r Hne. rewrite E3. cbn. by rewrite !decide_False. }
  assert (∀ b, word c3 b = word (set_word (gpr c RDI + 56) (word c (gpr c RSP)) c) b) as W.
  { intros b. by rewrite E3. }
  assert (gpr c3 RAX = gpr c RSP + 8) as A3 by (by rewrite E3).
  split; [|split; [done|split; [done|split]]].
  - intros r. destruct (decide (r = RAX)) as [->|Hne]; [rewrite A3; unfold in_u; lia|by rewrite G].
  - rewrite W. by apply word_set_same, word_range.
  - intros b Hb. rewrite W. apply word_set_other. lia.
Qed.

Lemma loaded_nodup : NoDup loaded_regs.
Proof. apply (bool_decide_unpack _). vm_compute. exact I. Qed.
Lemma loaded_no_rsi : RSI ∉ loaded_regs.
Proof. apply (bool_decide_unpack _). vm_compute. exact I. Qed.

(** The three parts put together: [c3] after the prologue, [c4] after the
    saves, [c5] after the loads. *)
Lemma switch_join c c3 c4 c5 old new :
  old + 64 ≤ new ∨ new + 64 ≤ old →
  gpr c3 RAX = gpr c RSP + 8 → (∀ r, r ≠ RAX → gpr c3 r = gpr c r) →
  word c3 (old + 56) = word c (gpr c RSP) → same_outside (old + 56) (old + 64) c c3 →
  (∀ i r, saved_regs !! i = Some r → word c4 (old + 8 * Z.of_nat i) = gpr c3 r) →
  same_outside old (old + 56) c3 c4 →
  (∀ i r, loaded_regs !! i = Some r → gpr c5 r = word c4 (new + 8 * Z.of_nat i)) →
  (∀ b, word c5 b = word c4 b) →
  read_context (jmp RAX c5) old = return_context c ∧
  cpu_context (jmp RAX c5) = read_context c new ∧ same_outside old (old + 64) c (jmp RAX c5).
Proof.
  intros Hdis A3 G3 S3 O3 W4 O4 G5 W5.
  assert (∀ b, word (jmp RAX c5) b = word c4 b) as W5' by exact W5.
  assert (∀ b, b + 8 ≤ old ∨ old + 64 ≤ b → word c4 b = word c b) as W6.
  { intros b Hb. rewrite O4, O3 by lia. done. }
  split; [|split; [|intros b Hb; rewrite W5'; by apply W6]].
  - assert (word c4 (old + 56) = word c (gpr c RSP)) as W56 by (by rewrite O4 by lia).
    unfold read_context, return_context. rewrite !W5', W56, <- A3.
    rewrite <- (G3 RBP), <- (G3 RBX), <- (G3 R12), <- (G3 R13), <- (G3 R14), <- (G3 R15) by done.
    rewrite <- (W4 0%nat RAX eq_refl), <- (W4 1%nat RBP eq_refl), <- (W4 2%nat RBX eq_refl),
      <- (W4 3%nat R12 eq_refl), <- (W4 4%nat R13 eq_refl), <- (W4 5%nat R14 eq_refl),
      <- (W4 6%nat R15 eq_refl).
    f_equal; f_equal; lia.
  - unfold read_context, cpu_context, jmp. cbn [gpr rip set_rip].
    rewrite (G5 0%nat RSP eq_refl), (G5 1%nat RBP eq_refl), (G5 2%nat RBX eq_refl),
      (G5 3%nat R12 eq_refl), (G5 4%nat R13 eq_refl), (G5 5%nat R14 eq_refl),
      (G5 6%nat R15 eq_refl), (G5 7%nat RAX eq_refl).
    rewrite !W6 by lia. f_equal; f_equal; lia.
Qed.

Lemma context_switch_run c : regs_ok c → mem_ok c → gpr c RSP + 8 < 2 ^ 64 →
  gpr c RDI + 64 < 2 ^ 64 → gpr c RSI + 64 < 2 ^ 64 →
  gpr c RDI + 64 ≤ gpr c RSI ∨ gpr c RSI + 64 ≤ gpr c RDI →
  read_context (unbound_context_switch c) (gpr c RDI) = return_context c ∧
  cpu_context (unbound_context_switch c) = read_context c (gpr c RSI) ∧
  same_outside (gpr c RDI) (gpr c RDI + 64) c (unbound_context_switch c).
Proof.
  intros Hr Hm Hsp Hold Hnew Hdis. rewrite context_switch_blocks.
  pose proof (Hr RSI) as [Hnew0 _].
  destruct (switch_prologue c Hr Hm Hsp Hold) as (Hr3 & A3 & G3 & S3 & O3).
  revert Hr3 A3 G3 S3 O3. generalize (lea RAX RSP 8 (mov_store RDI 56 RAX (mov_load RAX RSP 0 c))).
  intros c3 Hr3 A3 G3 S3 O3.
  pose proof (store_seq_run RDI 0 saved_regs c3 Hr3) as H4. cbv zeta in H4.
  rewrite (G3 RDI), Z.add_0_r in H4 by done.
  destruct H4 as (G4 & _ & W4 & O4); [lia|change (length saved_regs) with 7%nat; lia|].
  revert G4 W4 O4. generalize (store_seq RDI 0 saved_regs c3). intros c4 G4 W4 O4.
  pose proof (load_seq_run RSI 0 loaded_regs c4 loaded_nodup loaded_no_rsi) as H5. cbv zeta in H5.
  rewrite G4, (G3 RSI), Z.add_0_r in H5 by done.
  destruct H5 as (G5 & _ & M5 & _); [lia|lia|change (length loaded_regs) with 8%nat; lia|].
  revert G5 M5. generalize (load_seq RSI 0 loaded_regs c4). intros c5 G5 M5.
  apply (switch_join c c3 c4 c5); try done.
  intros b. unfold word. by rewrite M5.
Qed.

(** C25: A switch away from a task and back is a plain return.  A task calls
    [switch(a, b)] in state [c]; whatever runs afterwards, when some code calls
    [switch(x, a)] with the saved context at [a] untouched, the task goes on
    after its call with its stack pointer, its callee-saved registers and its
    return address as a [ret] would leave them. *)
Theorem context_switch_roundtrip c d : regs_ok c → mem_ok c → regs_ok d → mem_ok d →
  gpr c RSP + 8 < 2 ^ 64 → gpr d RSP + 8 < 2 ^ 64 →
  gpr c RDI + 64 < 2 ^ 64 → gpr c RSI + 64 < 2 ^ 64 →
  gpr c RDI + 64 ≤ gpr c RSI ∨ gpr c RSI + 64 ≤ gpr c RDI →
  gpr d RSI = gpr c RDI → gpr d RDI + 64 < 2 ^ 64 →
  gpr d RDI + 64 ≤ gpr d RSI ∨ gpr d RSI + 64 ≤ gpr d RDI →
  (∀ k, 0 ≤ k < 8 →
     word d (gpr c RDI + 8 * k) = word (unbound_context_switch c) (gpr c RDI + 8 * k)) →
  cpu_context (unbound_context_switch d) = return_context c.
Proof.
  intros Hc Hmc Hd Hmd Hspc Hspd Ha Hb Hdis Hsi Hdi Hdis2 Hkeep.
  destruct (context_switch_run c Hc Hmc Hspc Ha Hb Hdis) as (Hsave & _ & _).
  destruct (context_switch_run d Hd Hmd Hspd Hdi ltac:(rewrite Hsi; exact Ha) Hdis2)
    as (_ & Hload & _).
  rewrite Hload, <- Hsave, Hsi. unfold read_context.
  pose proof (Hkeep 0) as K0. rewrite Z.mul_0_r, Z.add_0_r in K0. rewrite K0 by lia.
  f_equal; [apply (Hkeep 1)|apply (Hkeep 2)|apply (Hkeep 3)|apply (Hkeep 4)|apply (Hkeep 5)
           |apply (Hkeep 6)|apply (Hkeep 7)]; lia.
Qed.

(** A task with its context at 0x1000 switches to the one at 0x2000. *)
Definition sample_cpu : cpu :=
  mkCpu (λ r, match r with RSP => 0x9000 | RDI => 0x1000 | RSI => 0x2000 | RBX => 7 | _ => 0 end)
    0x100000 8 16 0x202 (le_store ∅ 0x9000 8 0x100123) None.
(** The other task, later, switching back: the saved context is still there. *)
Definition sample_back : cpu :=
  mkCpu (λ r, match r with RSP => 0xA000 | RDI => 0x2000 | RSI => 0x1000 | _ => 5 end)
    0x100200 8 16 0x202
    (le_store (le_store (le_store ∅ 0x1000 8 0x9008) 0x1010 8 7) 0x1038 8 0x100123) None.

Lemma byte_mem_ok c : map_Forall (λ _ x, in_u 8 x) (cmem c) → mem_ok c.
Proof.
  intros Hm b. destruct (cmem c !! b) as [x|] eqn:E; [exact (Hm b x E)|]. split; simpl; lia.
Qed.

Lemma sample_cpu_ok : cpu_ok sample_cpu ∧ mem_ok sample_cpu.
Proof.
  split; [split; [intros []; vm_compute; split; congruence|vm_compute; intuition congruence]|].
  apply byte_mem_ok. apply (bool_decide_unpack _). vm_compute. exact I.
Qed.
Lemma sample_back_ok : cpu_ok sample_back ∧ mem_ok sample_back.
Proof.
  split; [split; [intros []; vm_compute; split; congruence|vm_compute; intuition congruence]|].
  apply byte_mem_ok. apply (bool_decide_unpack _). vm_compute. exact I.
Qed.
Lemma sample_back_mem k : 0 ≤ k < 8 →
  word sample_back (0x1000 + 8 * k) = word (unbound_context_switch sample_cpu) (0x1000 + 8 * k).
Proof.
  intros Hk.
  assert (k = 0 ∨ k = 1 ∨ k = 2 ∨ k = 3 ∨ k = 4 ∨ k = 5 ∨ k = 6 ∨ k = 7) as Hc by lia.
  clear Hk. destruct_or! Hc; subst k; vm_compute; reflexivity.
Qed.

Lemma context_switch_roundtrip_witness :
  cpu_context (unbound_context_switch sample_back)
  = mkTaskContext 0x9008 0 7 0 0 0 0 0x100123.
Proof.
  rewrite (context_switch_roundtrip sample_cpu sample_back (proj1 (proj1 sample_cpu_ok))
    (proj2 sample_cpu_ok) (proj1 (proj1 sample_back_ok)) (proj2 sample_back_ok)).
  - vm_compute. reflexivity.
  - vm_compute. reflexivity.
  - vm_compute. reflexivity.
  - vm_compute. reflexivity.
  - vm_compute. reflexivity.
  - left. vm_compute. discriminate.
  - vm_compute. reflexivity.
  - vm_compute. reflexivity.
  - right. vm_compute. discriminate.
  - exact sample_back_mem.
Defined.

(** ** The first run of a task *)

Lemma write_words_run ws m a : Forall (in_u 64) ws →
  (∀ i w, ws !! i = Some w → le_load (write_words m a ws) (a + 8 * Z.of_nat i) 8 = w) ∧
  (∀ b, b + 8 ≤ a ∨ a + 8 * Z.of_nat (length ws) ≤ b →
     le_load (write_words m a ws) b 8 = le_load m b 8).
Proof.
  intros HF. revert m a. induction HF as [|w ws Hw HF IH]; intros m a; [done|].
  cbn [write_words length]. rewrite Nat2Z.inj_succ.
  destruct (IH (le_store m a 8 w) (a + 8)) as [R K]. split.
  - intros [|i] w' Hi; simpl in Hi.
    + injection Hi as <-. rewrite Z.mul_0_r, Z.add_0_r, K by lia. by apply le_load_store_same.
    + rewrite <- (R i w' Hi). f_equal. lia.
  - intros b Hb. rewrite K by lia. apply le_load_store_other. lia.
Qed.

Lemma frame_regs_ok : NoDup frame_regs ∧ RSP ∉ frame_regs.
Proof. split; apply (bool_decide_unpack _); vm_compute; exact I. Qed.

Lemma frame_regs_all r : r ≠ RSP → ∃ i, frame_regs !! i = Some r ∧ (i < 15)%nat.
Proof.
  intros Hr. destruct r; [exists 14%nat|exists 13%nat|exists 12%nat|exists 11%nat|done|exists 10%nat
    |exists 9%nat|exists 8%nat|exists 7%nat|exists 6%nat|exists 5%nat|exists 4%nat|exists 3%nat
    |exists 2%nat|exists 1%nat|exists 0%nat]; (split; [reflexivity|lia]).
Qed.

Lemma start_code_eq c : unbound_start_interrupt_context_code c = iretq (add_imm RSP 8 (pop_all frame_regs c)).
Proof. done. Qed.
(** The return from an interrupt frame at RSP: fifteen registers, the vector,
    and the five words of [iretq], whose selectors may be refused. *)
Lemma frame_return_run c : 0 ≤ gpr c RSP → gpr c RSP + 168 < 2 ^ 64 →
  let c' := unbound_start_interrupt_context_code c in let f := gpr c RSP in
  (∀ i r, frame_regs !! i = Some r → gpr c' r = word c (f + 8 * Z.of_nat i)) ∧
  (∀ b, word c' b = word c b) ∧
  match iret_fault (kernel_table 0) (cast 16 (word c (f + 136))) (cast 16 (word c (f + 160))) with
  | Some e => raised c' = raised (raise e c) ∧ gpr c' RSP = f + 128 ∧
      rip c' = rip c ∧ cs c' = cs c ∧ ss c' = ss c ∧ rflags c' = rflags c
  | None => rip c' = word c (f + 128) ∧ cs c' = cast 16 (word c (f + 136)) ∧ rflags c' = word c (f + 144) ∧
      gpr c' RSP = word c (f + 152) ∧ ss c' = cast 16 (word c (f + 160)) ∧ raised c' = raised c
  end.
Proof.
  intros H0 H1. cbv zeta.
  rewrite start_code_eq.
  destruct frame_regs_ok as [Hnd Hn]. pose proof (raised_pop_all frame_regs c) as R1.
  destruct (pop_all_run frame_regs c Hnd Hn H0) as (S1 & G1 & _ & W1 & Ip & Cs & Ss & Fl);
    [change (length frame_regs) with 15%nat; lia|].
  change (length frame_regs) with 15%nat in S1.
  revert S1 G1 W1 R1 Ip Cs Ss Fl. generalize (pop_all frame_regs c). intros c1 S1 G1 W1 R1 Ip Cs Ss Fl.
  assert (gpr (add_imm RSP 8 c1) RSP = gpr c RSP + 128) as S2.
  { unfold add_imm. cbn [gpr set_reg]. rewrite decide_True, S1, cast_small by (done || lia). lia. }
  assert (∀ b, word (add_imm RSP 8 c1) b = word c b) as W2 by exact W1.
  assert (∀ r, r ≠ RSP → gpr (add_imm RSP 8 c1) r = gpr c1 r) as G2.
  { intros r Hr. unfold add_imm. cbn [gpr set_reg]. by rewrite decide_False. }
  assert (∀ c', (∀ r, r ≠ RSP → gpr c' r = gpr (add_imm RSP 8 c1) r) →
    ∀ i r, frame_regs !! i = Some r → gpr c' r = word c (gpr c RSP + 8 * Z.of_nat i)) as G3.
  { intros c' Hc' i r Hi. assert (r ≠ RSP) as Hr by (intros ->; apply Hn; by eapply list_elem_of_lookup_2).
    rewrite Hc', G2 by done. by apply G1. }
  pose proof (iretq_run (add_imm RSP 8 c1) ltac:(lia) ltac:(lia)) as Hi. cbv zeta in Hi.
  rewrite S2, !W2, <- !Z.add_assoc in Hi. simpl Z.add in Hi.
  destruct (iret_fault _ _ _) as [e|].
  - rewrite Hi. split; [by apply G3|]. split; [exact W2|]. split; [unfold raise; cbn; by rewrite R1|].
    split; [exact S2|]. by split_and!.
  - destruct Hi as (I & C & F & P & Sg & Hg & W3 & R3). split; [by apply G3|].
    split; [intros b; by rewrite W3|]. split_and!; try done. by rewrite R3, <- R1.
Qed.
Lemma frame_return_ok c : 0 ≤ gpr c RSP → gpr c RSP + 168 < 2 ^ 64 → let f := gpr c RSP in
  iret_fault (kernel_table 0) (cast 16 (word c (f + 136))) (cast 16 (word c (f + 160))) = None →
  let c' := unbound_start_interrupt_context_code c in
  (∀ i r, frame_regs !! i = Some r → gpr c' r = word c (f + 8 * Z.of_nat i)) ∧
  rip c' = word c (f + 128) ∧ cs c' = cast 16 (word c (f + 136)) ∧ rflags c' = word c (f + 144) ∧
  gpr c' RSP = word c (f + 152) ∧ ss c' = cast 16 (word c (f + 160)) ∧ (∀ b, word c' b = word c b) ∧
  raised c' = raised c.
Proof.
  intros H0 H1 f Hok. destruct (frame_return_run c H0 H1) as (G & W & H). fold f in G, W, H. rewrite Hok in H.
  destruct H as (I & C & F & P & Sg & R). by split_and!.
Qed.

(** Where a stack's synthetic frame is, and the task that will be started on it. *)
Definition frame_addr (stack : Z) : Z :=
  stack + KERNEL_STACK_SIZE - INITIAL_STACK_RESERVE - INTERRUPT_CONTEXT_SIZE.
Definition prepared (stack trampoline : Z) (t : Task) : Task :=
  set_context (mkTaskContext (frame_addr stack) 0 0 0 0 0 0 trampoline)
    (set_interrupt_rsp (frame_addr stack) t).

Lemma prepared_run stack trampoline entry t m :
  0 ≤ stack → stack + KERNEL_STACK_SIZE < 2 ^ 64 →
  (Task_initialize_interrupt_context stack entry ;; Task_prepare_preemptive_start trampoline) (t, m)
  = Done ((), (prepared stack trampoline t, write_words m (frame_addr stack) (interrupt_frame entry))).
Proof.
  unfold prepared, frame_addr, KERNEL_STACK_SIZE, INITIAL_STACK_RESERVE, INTERRUPT_CONTEXT_SIZE.
  intros Hs0 Hs.
  unfold Task_initialize_interrupt_context, KernelStack_top, KERNEL_STACK_SIZE,
    INITIAL_STACK_RESERVE, INTERRUPT_CONTEXT_SIZE.
  erewrite bind_run; [|rewrite add_u_Done by lia; cbn [mbind outcome_bind];
    rewrite sub_u_Done by lia; cbn [mbind outcome_bind];
    rewrite sub_u_Done by lia; cbn [mbind outcome_bind]; reflexivity].
  unfold Task_prepare_preemptive_start. cbn [interrupt_rsp set_interrupt_rsp].
  by rewrite (proj2 (Z.eqb_neq _ _)) by lia.
Qed.

Lemma interrupt_frame_u64 entry : in_u 64 entry → Forall (in_u 64) (interrupt_frame entry).
Proof. intros He. unfold interrupt_frame. repeat constructor; try (apply He); lia. Qed.

(** Running the trampoline on a synthetic frame, with a word above it that is
    accepted as a stack selector. *)
Lemma trampoline_run c f entry : 0 ≤ f → f + 168 < 2 ^ 64 → gpr c RSP = f →
  (∀ i w, interrupt_frame entry !! i = Some w → word c (f + 8 * Z.of_nat i) = w) →
  stack_fault (kernel_table 0) 0 (cast 16 (word c (f + 160))) = None →
  let c' := unbound_start_interrupt_context_code c in
  rip c' = entry ∧ cs c' = 0x08 ∧ rflags c' = 0x202 ∧ (∀ r, r ≠ RSP → gpr c' r = 0) ∧
  gpr c' RSP = word c (f + 152) ∧ ss c' = cast 16 (word c (f + 160)) ∧ raised c' = raised c.
Proof.
  intros Hf0 Hf Hsp R Hss. cbv zeta.
  pose proof (R 16%nat entry eq_refl) as R16. pose proof (R 17%nat 0x08 eq_refl) as R17.
  pose proof (R 18%nat 0x202 eq_refl) as R18.
  change (8 * Z.of_nat 16) with 128 in R16. change (8 * Z.of_nat 17) with 136 in R17.
  change (8 * Z.of_nat 18) with 144 in R18.
  destruct (frame_return_ok c) as (G & I & C & F & P & Sg & _ & Rs); [lia|lia|by rewrite Hsp, R17|].
  rewrite Hsp in *. rewrite I, C, F, P, Sg, Rs, R16, R17, R18.
  do 3 (split; [done|]). split; [|done].
  intros r Hr. destruct (frame_regs_all r Hr) as (i & Hi & Hlt). rewrite (G i r Hi).
  apply (R i 0). unfold interrupt_frame. rewrite lookup_app_l by (simpl; lia).
  by apply lookup_replicate_2.
Qed.

(** A preemptive task's first run.  After [initialize_interrupt_context] and
    [prepare_preemptive_start] the context the switch loads points at the
    synthetic frame and at the trampoline, and running the trampoline on that
    frame enters the task at its entry with the kernel code selector, interrupts
    enabled and all fifteen registers zero.  But the frame has only RIP, CS and
    RFLAGS while [iretq] pops five words: RSP and SS are the two words at the
    start of the reserve area (zero in a new stack), not the address
    [stack_top - 2048] that the code's comment promises; the second is accepted
    as SS when it is null. *)
Theorem preemptive_start stack trampoline entry t m c :
  0 ≤ stack → stack + KERNEL_STACK_SIZE < 2 ^ 64 → in_u 64 entry →
  let frame := frame_addr stack in
  let m' := write_words m frame (interrupt_frame entry) in
  ∃ t',
    (Task_initialize_interrupt_context stack entry ;; Task_prepare_preemptive_start trampoline) (t, m)
    = Done ((), (t', m')) ∧
    interrupt_rsp t' = frame ∧ ctx_rsp (context t') = frame ∧ ctx_rip (context t') = trampoline ∧
    (gpr c RSP = ctx_rsp (context t') → cmem c = m' →
     le_load m (stack + KERNEL_STACK_SIZE - INITIAL_STACK_RESERVE + 8) 8 = 0 →
     let c' := unbound_start_interrupt_context_code c in
     rip c' = entry ∧ cs c' = 0x08 ∧ rflags c' = 0x202 ∧ (∀ r, r ≠ RSP → gpr c' r = 0) ∧
     gpr c' RSP = le_load m (stack + KERNEL_STACK_SIZE - INITIAL_STACK_RESERVE) 8 ∧ ss c' = 0 ∧
     raised c' = raised c).
Proof.
  intros Hs0 Hs He. cbv zeta. eexists. split; [by apply prepared_run|].
  do 3 (split; [done|]). intros Hsp Hmem Hz. cbv zeta.
  change (ctx_rsp (context (prepared stack trampoline t))) with (frame_addr stack) in Hsp.
  destruct (write_words_run (interrupt_frame entry) m (frame_addr stack) (interrupt_frame_u64 _ He)) as [R K].
  change (length (interrupt_frame entry)) with 19%nat in K. rewrite <- Hmem in R, K.
  unfold frame_addr, KERNEL_STACK_SIZE, INITIAL_STACK_RESERVE, INTERRUPT_CONTEXT_SIZE in *.
  assert (word c (gpr c RSP + 160) = 0) as Hss.
  { rewrite <- Hz, Hsp. unfold word. rewrite K by lia. f_equal. lia. }
  destruct (trampoline_run c (gpr c RSP) entry) as (I & C & F & G & P & Sg & Rs);
    [lia|lia|done|by rewrite Hsp|by rewrite Hss|]. rewrite Hss in Sg. rewrite Hsp in *.
  do 4 (split; [done|]). split; [|done]. rewrite P. unfold word. rewrite K by lia. f_equal. lia.
Qed.

Definition start_cpu : cpu :=
  mkCpu (λ r, match r with RSP => 0x103768 | _ => 5 end) 0 8 16 0x202
    (write_words ∅ 0x103768 (interrupt_frame 0x150000)) None.

(** On a new stack at 0x100000 the task starts with a null stack pointer. *)
Lemma preemptive_start_witness : gpr (unbound_start_interrupt_context_code start_cpu) RSP = 0.
Proof.
  destruct (preemptive_start 0x100000 0x120000 0x150000 (Task_new 1 1) ∅ start_cpu)
    as (t' & _ & _ & Hrsp & _ & H); [lia|unfold KERNEL_STACK_SIZE; lia|unfold in_u; lia|].
  destruct H as (_ & _ & _ & _ & H & _); [rewrite Hrsp; reflexivity|reflexivity|reflexivity|].
  rewrite H. reflexivity.
Defined.
