(* ===== verification/Interrupts.v ===== *)
(** * Interrupt entry and return (kernel/src/arch/x86_64/idt.rs)

    The assembly of the timer interrupt and of the CPU exceptions, on the
    machine of Cpu.v.  The Rust handlers they call are arguments; what the
    assembly relies on is the calling convention, [abi_call]. *)

From S2P Require Import Prelude Descriptors Cpu Task.
Local Open Scope Z_scope.

(** The order of the pushes; [frame_regs] is its reverse. *)
Definition irq_regs : list reg :=
  [RAX; RCX; RDX; RBX; RBP; RSI; RDI; R8; R9; R10; R11; R12; R13; R14; R15].

(** ** The timer interrupt *)

Section irq.
Context (unbound_timer_handler unbound_debug_iret_frame : cpu → cpu) (ret1 ret2 : Z).

(** [test rax, rax; jz .debug_selected; mov rsp, rax]. *)
Definition select_frame (c : cpu) : cpu := if gpr c RAX =? 0 then c else mov RSP RAX c.

Definition unbound_irq_common : cpu → cpu := run [
  push_all irq_regs;
  mov RDI RSP;
  mov R12 RSP;
  align_rsp;
  call ret1 unbound_timer_handler;
  mov RSP R12;
  select_frame;
  mov RDI RSP;
  call ret2 unbound_debug_iret_frame;
  pop_all frame_regs;
  add_imm RSP 8;
  iretq].

Definition unbound_irq0 : cpu → cpu := run [push_val 32; unbound_irq_common].
End irq.

(** ** CPU exceptions *)

Section exception.
Context (unbound_exception_handler : cpu → cpu) (ret : Z).

(** Up to the call. *)
Definition unbound_exception_entry : cpu → cpu := run [
  push_all irq_regs;
  lea RDI RSP 120;
  add_imm RSP (-8)].

Definition unbound_exception_common : cpu → cpu := run [
  unbound_exception_entry;
  call ret unbound_exception_handler;
  add_imm RSP 8;
  pop_all frame_regs;
  add_imm RSP 8;
  iretq].

(** [unbound_isr<n>]: a vector without a CPU error code pushes a zero for it. *)
Definition has_error_code (vector : Z) : bool :=
  bool_decide (vector ∈ [8; 10; 11; 12; 13; 14; 17]).
Definition unbound_isr (vector : Z) : cpu → cpu :=
  if has_error_code vector then run [push_val vector; unbound_exception_common]
  else run [push_val 0; push_val vector; unbound_exception_common].
End exception.

(** ** The calling convention

    A called function returns with its return address popped, the callee-saved
    registers unchanged, and the stack of its caller, from the stack pointer up
    to [hi], unchanged; nothing is raised on the way. *)

Definition callee_saved : list reg := [RBX; RBP; R12; R13; R14; R15].

Record abi_call (hi : Z) (f : cpu → cpu) : Prop := {
  ac_regs c : regs_ok c → gpr c RSP + 8 < 2 ^ 64 → regs_ok (f c);
  ac_rsp c : regs_ok c → gpr c RSP + 8 < 2 ^ 64 → gpr (f c) RSP = gpr c RSP + 8;
  ac_saved c r : regs_ok c → gpr c RSP + 8 < 2 ^ 64 → r ∈ callee_saved → gpr (f c) r = gpr c r;
  ac_stack c b : regs_ok c → gpr c RSP + 8 < 2 ^ 64 → gpr c RSP + 8 ≤ b → b + 8 ≤ hi →
    word (f c) b = word c b;
  ac_raised c : regs_ok c → gpr c RSP + 8 < 2 ^ 64 → raised (f c) = raised c;
}.

Lemma call_run hi f ret c : abi_call hi f → regs_ok c → in_u 64 ret → 8 ≤ gpr c RSP →
  regs_ok (call ret f c) ∧ gpr (call ret f c) RSP = gpr c RSP ∧
  (∀ r, r ∈ callee_saved → gpr (call ret f c) r = gpr c r) ∧
  (∀ b, gpr c RSP ≤ b → b + 8 ≤ hi → word (call ret f c) b = word c b) ∧
  raised (call ret f c) = raised c.
Proof.
  intros Hf Hr Hret Hsp. pose proof (Hr RSP) as [_ Hsp2]. unfold call.
  destruct (push_val_run ret c Hret) as (S1 & G1 & _ & O1 & _); [lia|].
  assert (regs_ok (push_val ret c)) as Hr1.
  { intros r. destruct (decide (r = RSP)) as [->|Hne]; [rewrite S1; unfold in_u; lia|by rewrite G1]. }
  change (raised c) with (raised (push_val ret c)).
  revert S1 G1 O1 Hr1. generalize (push_val ret c). intros c1 S1 G1 O1 Hr1.
  assert (gpr c1 RSP + 8 < 2 ^ 64) as Hlt by lia. split; [by eapply ac_regs|].
  split; [rewrite (ac_rsp _ _ Hf) by done; lia|]. split_and!.
  - intros r Hin. rewrite (ac_saved _ _ Hf) by done. apply G1. intros ->.
    revert Hin. apply (bool_decide_unpack _). vm_compute. exact I.
  - intros b Hb Hhi. rewrite (ac_stack _ _ Hf) by (done || lia). apply O1. lia.
  - by apply (ac_raised _ _ Hf).
Qed.

(** The state in which the called function starts. *)
Lemma call_enter ret c : regs_ok c → in_u 64 ret → 8 ≤ gpr c RSP →
  regs_ok (push_val ret c) ∧ gpr (push_val ret c) RSP + 8 < 2 ^ 64 ∧
  (∀ r, r ≠ RSP → gpr (push_val ret c) r = gpr c r).
Proof.
  intros Hr Hret Hsp. pose proof (Hr RSP) as [_ Hsp2].
  destruct (push_val_run ret c Hret) as (S & G & _); [lia|]. split; [|split; [lia|done]].
  intros r. destruct (decide (r = RSP)) as [->|Hne]; [rewrite S; unfold in_u; lia|by rewrite G].
Qed.

(** ** The frame an interrupt builds *)

(** [c] is a state whose stack, from [f] up, holds the interrupted [c0]: its
    registers in [frame_regs] order, then one word per element of [extra],
    then RIP, CS, RFLAGS, RSP and SS. *)
Record frame_at (c0 : cpu) (extra : list Z) (f : Z) (c : cpu) : Prop := {
  fr_regs i r : frame_regs !! i = Some r → word c (f + 8 * Z.of_nat i) = gpr c0 r;
  fr_extra i w : extra !! i = Some w → word c (f + 120 + 8 * Z.of_nat i) = w;
  fr_rip : word c (f + 120 + 8 * Z.of_nat (length extra)) = rip c0;
  fr_cs : word c (f + 120 + 8 * Z.of_nat (length extra) + 8) = cs c0;
  fr_rflags : word c (f + 120 + 8 * Z.of_nat (length extra) + 16) = rflags c0;
  fr_rsp : word c (f + 120 + 8 * Z.of_nat (length extra) + 24) = gpr c0 RSP;
  fr_ss : word c (f + 120 + 8 * Z.of_nat (length extra) + 32) = ss c0;
}.

Lemma interrupt_enter_run c : cpu_ok c → 64 ≤ gpr c RSP →
  let c1 := interrupt_enter c in let a := gpr c RSP / 16 * 16 - 40 in
  regs_ok c1 ∧ gpr c1 RSP = a ∧ (∀ r, r ≠ RSP → gpr c1 r = gpr c r) ∧
  word c1 a = rip c ∧ word c1 (a + 8) = cs c ∧ word c1 (a + 16) = rflags c ∧
  word c1 (a + 24) = gpr c RSP ∧ word c1 (a + 32) = ss c ∧
  (∀ b, gpr c RSP ≤ b → word c1 b = word c b).
Proof.
  intros (Hr & Hip & Hcs & Hss & Hfl & _) Hsp. cbv zeta. pose proof (Hr RSP) as [_ Hsp2].
  assert (16 * (gpr c RSP / 16) ≤ gpr c RSP < 16 * (gpr c RSP / 16) + 16) as Hal.
  { pose proof (Z.div_mod (gpr c RSP) 16). pose proof (Z.mod_pos_bound (gpr c RSP) 16). lia. }
  assert (regs_ok (align_rsp c)) as R0.
  { intros r. unfold align_rsp. cbn. case_decide; [unfold in_u; lia|apply Hr]. }
  destruct (push_vals_run [ss c; gpr c RSP; rflags c; cs c; rip c] (align_rsp c) R0)
    as (S1 & G1 & W1 & O1 & R1).
  { rewrite !Forall_cons. split_and!; [by apply in_u_16_64|apply Hr|done|by apply in_u_16_64|done|done]. }
  { change (gpr (align_rsp c) RSP) with (gpr c RSP / 16 * 16). simpl length. lia. }
  change (gpr (align_rsp c) RSP) with (gpr c RSP / 16 * 16) in *. simpl length in *.
  fold (interrupt_enter c) in *. split; [done|]. split; [lia|].
  split; [intros r Hne; rewrite G1 by done; unfold align_rsp; cbn; by rewrite decide_False|].
  split; [etrans; [|exact (W1 4%nat (rip c) eq_refl)]; f_equal; lia|].
  split; [etrans; [|exact (W1 3%nat (cs c) eq_refl)]; f_equal; lia|].
  split; [etrans; [|exact (W1 2%nat (rflags c) eq_refl)]; f_equal; lia|].
  split; [etrans; [|exact (W1 1%nat (gpr c RSP) eq_refl)]; f_equal; lia|].
  split; [etrans; [|exact (W1 0%nat (ss c) eq_refl)]; f_equal; lia|].
  intros b Hb. rewrite O1 by lia. done.
Qed.

(** The software pushes: the extra words (last pushed first) and the registers. *)
Lemma frame_build c0 xs : cpu_ok c0 → Forall (in_u 64) xs → 256 + 8 * Z.of_nat (length xs) ≤ gpr c0 RSP →
  let f := gpr c0 RSP / 16 * 16 - 160 - 8 * Z.of_nat (length xs) in
  let c := push_all irq_regs (push_vals xs (interrupt_enter c0)) in
  regs_ok c ∧ gpr c RSP = f ∧ frame_at c0 (reverse xs) f c ∧
  (∀ b, gpr c0 RSP ≤ b → word c b = word c0 b) ∧ raised c = raised c0.
Proof.
  intros Hok HF Hsp. cbv zeta.
  assert (raised (push_all irq_regs (push_vals xs (interrupt_enter c0))) = raised c0) as Rs.
  { rewrite raised_push_all, raised_push_vals. apply (raised_push_vals _ (align_rsp c0)). }
  assert (16 * (gpr c0 RSP / 16) ≤ gpr c0 RSP < 16 * (gpr c0 RSP / 16) + 16) as Hal.
  { pose proof (Z.div_mod (gpr c0 RSP) 16). pose proof (Z.mod_pos_bound (gpr c0 RSP) 16). lia. }
  destruct (interrupt_enter_run c0 Hok) as (R1 & S1 & G1 & Vip & Vcs & Vfl & Vsp & Vss & K1); [lia|].
  revert R1 S1 G1 Vip Vcs Vfl Vsp Vss K1 Rs. generalize (interrupt_enter c0).
  set (a := gpr c0 RSP / 16 * 16 - 40). intros c1 R1 S1 G1 Vip Vcs Vfl Vsp Vss K1 Rs.
  destruct (push_vals_run xs c1 R1 HF) as (S2 & G2 & W2 & O2 & R2); [lia|].
  revert S2 G2 W2 O2 R2 Rs. generalize (push_vals xs c1). intros c2 S2 G2 W2 O2 R2 Rs.
  assert (RSP ∉ irq_regs) as Hn by (apply (bool_decide_unpack _); vm_compute; exact I).
  destruct (push_all_run irq_regs c2 R2 Hn) as (S3 & G3 & W3 & O3 & R3);
    [change (length irq_regs) with 15%nat; lia|].
  change (length irq_regs) with 15%nat in *.
  revert S3 G3 W3 O3 R3 Rs. generalize (push_all irq_regs c2). intros c3 S3 G3 W3 O3 R3 Rs.
  split; [done|]. split; [lia|]. split; [|split; [intros b Hb; rewrite O3, O2, K1 by lia; done|done]].
  split.
  - intros i r Hi. assert (i < 15)%nat by (apply lookup_lt_Some in Hi; exact Hi).
    assert (r ≠ RSP) as Hr.
    { intros ->. apply (proj2 frame_regs_ok). by eapply list_elem_of_lookup_2. }
    assert (irq_regs !! (14 - i)%nat = Some r) as Hi'.
    { change frame_regs with (reverse irq_regs) in Hi. rewrite reverse_lookup in Hi by (simpl; lia).
      rewrite <- Hi. by f_equal. }
    rewrite <- (G1 r Hr), <- (G2 r Hr), <- (W3 _ _ Hi'). f_equal. lia.
  - intros i w Hi. pose proof (lookup_lt_Some _ _ _ Hi) as Hlt. rewrite length_reverse in Hlt.
    rewrite reverse_lookup in Hi by done. rewrite O3 by lia.
    rewrite <- (W2 _ _ Hi). f_equal. lia.
  - rewrite length_reverse, O3, O2 by lia. etrans; [|exact Vip]. f_equal. lia.
  - rewrite length_reverse, O3, O2 by lia. etrans; [|exact Vcs]. f_equal. lia.
  - rewrite length_reverse, O3, O2 by lia. etrans; [|exact Vfl]. f_equal. lia.
  - rewrite length_reverse, O3, O2 by lia. etrans; [|exact Vsp]. f_equal. lia.
  - rewrite length_reverse, O3, O2 by lia. etrans; [|exact Vss]. f_equal. lia.
Qed.

(** The registers a frame restores. *)
Lemma frame_gpr c0 extra f c c' : frame_at c0 extra f c →
  (∀ i r, frame_regs !! i = Some r → gpr c' r = word c (f + 8 * Z.of_nat i)) →
  ∀ r, r ≠ RSP → gpr c' r = gpr c0 r.
Proof.
  intros Hf Hg r Hr. destruct (frame_regs_all r Hr) as (i & Hi & _).
  rewrite (Hg i r Hi). by apply (fr_regs _ _ _ _ Hf).
Qed.

(** The five words of the processor. *)
Lemma frame_at_words c0 extra f c : frame_at c0 extra f c → let n := 120 + 8 * Z.of_nat (length extra) in
  word c (f + n) = rip c0 ∧ word c (f + (n + 8)) = cs c0 ∧ word c (f + (n + 16)) = rflags c0 ∧
  word c (f + (n + 24)) = gpr c0 RSP ∧ word c (f + (n + 32)) = ss c0.
Proof. intros [_ _ H1 H2 H3 H4 H5]. cbv zeta. rewrite !Z.add_assoc. by split_and!. Qed.

Lemma frame_at_same c0 extra f c c' hi : frame_at c0 extra f c →
  f + 160 + 8 * Z.of_nat (length extra) ≤ hi →
  (∀ b, f ≤ b → b + 8 ≤ hi → word c' b = word c b) → frame_at c0 extra f c'.
Proof.
  intros [Hr He H1 H2 H3 H4 H5] Hhi Hw.
  split; try (rewrite Hw by lia; done).
  - intros i r Hi. rewrite Hw; [by apply Hr|lia|].
    apply lookup_lt_Some in Hi. change (length frame_regs) with 15%nat in Hi. lia.
  - intros i w Hi. pose proof (lookup_lt_Some _ _ _ Hi). rewrite Hw by lia. by apply He.
Qed.

(** The part of the timer interrupt between the pushes and the pops: the frame
    chosen by the handler is selected, the stack above is unchanged. *)
Lemma irq_middle hi h d ret1 ret2 c f : abi_call hi h → abi_call hi d →
  in_u 64 ret1 → in_u 64 ret2 → regs_ok c → gpr c RSP = f → 64 ≤ f → f < hi →
  (∀ e, regs_ok e → gpr e RSP + 8 < 2 ^ 64 → gpr (h e) RAX = gpr e RDI) →
  let c' := call ret2 d (mov RDI RSP (select_frame (mov RSP R12
              (call ret1 h (align_rsp (mov R12 RSP (mov RDI RSP c))))))) in
  gpr c' RSP = f ∧ (∀ b, f ≤ b → b + 8 ≤ hi → word c' b = word c b) ∧ raised c' = raised c.
Proof.
  intros Hh Hd Hr1 Hr2 Hok Hsp Hf Hhi Hres. cbv zeta.
  pose proof (Hok RSP) as [_ Hsp2]. rewrite Hsp in Hsp2.
  assert (16 * (f / 16) ≤ f < 16 * (f / 16) + 16) as Hal.
  { pose proof (Z.div_mod f 16). pose proof (Z.mod_pos_bound f 16). lia. }
  set (c1 := align_rsp (mov R12 RSP (mov RDI RSP c))).
  assert (gpr c1 RSP = f / 16 * 16) as S1 by (unfold c1; cbn; by rewrite Hsp).
  assert (gpr c1 R12 = f) as T1 by (unfold c1; cbn; done).
  assert (gpr c1 RDI = f) as D1 by (unfold c1; cbn; done).
  assert (regs_ok c1) as R1.
  { intros r. unfold c1, align_rsp, mov. cbn. rewrite !Hsp.
    repeat case_decide; try apply Hok; unfold in_u; lia. }
  assert (∀ b, word c1 b = word c b) as W1 by done. assert (raised c1 = raised c) as Q1 by done.
  clearbody c1.
  destruct (call_run hi h ret1 c1 Hh R1 Hr1) as (R2 & S2 & G2 & W2 & Q2); [lia|].
  assert (gpr (call ret1 h c1) RAX = f) as A2.
  { destruct (call_enter ret1 c1 R1 Hr1) as (Ra & Sa & Ga); [lia|]. unfold call. by rewrite Hres, Ga. }
  assert (gpr (call ret1 h c1) R12 = f) as T2.
  { rewrite G2; [done|]. apply (bool_decide_unpack _). vm_compute. exact I. }
  revert R2 S2 W2 A2 T2 Q2. clear G2. generalize (call ret1 h c1). intros c2 R2 S2 W2 A2 T2 Q2.
  set (c3 := mov RDI RSP (select_frame (mov RSP R12 c2))).
  assert (raised c3 = raised c2) as Q3 by (unfold c3, select_frame; by destruct (_ =? _)).
  assert (gpr c3 RSP = f ∧ regs_ok c3 ∧ ∀ b, word c3 b = word c2 b) as (S3 & R3 & W3).
  { unfold c3, select_frame. destruct (_ =? _); unfold mov; cbn; rewrite ?A2, ?T2;
      (split; [done|]); (split; [|done]); intros r; cbn; repeat case_decide;
      try apply R2; rewrite ?A2, ?T2; unfold in_u; lia. }
  clearbody c3. destruct (call_run hi d ret2 c3 Hd R3 Hr2) as (_ & S4 & _ & W4 & Q4); [lia|].
  split; [lia|]. split; [|congruence]. intros b Hb Hbh. rewrite W4, W3, W2, W1 by lia. done.
Qed.

(** C27: A timer interrupt is transparent to the code it interrupts: with a
    handler that keeps the calling convention and returns the frame it was
    given (as [unbound_timer_handler] does), delivery, the IRQ0 entry, the
    handler and the return restore every general register, the stack pointer,
    the flags, the segments and the instruction pointer, and leave the stack
    above the interrupted stack pointer as it was; [iretq] accepts the selectors
    it pops. *)
Theorem irq0_transparent hi h d ret1 ret2 c : abi_call hi h → abi_call hi d →
  in_u 64 ret1 → in_u 64 ret2 → cpu_ok c → 512 ≤ gpr c RSP → gpr c RSP + 256 ≤ hi → hi < 2 ^ 64 →
  (∀ e, regs_ok e → gpr e RSP + 8 < 2 ^ 64 → gpr (h e) RAX = gpr e RDI) →
  let c' := unbound_irq0 h d ret1 ret2 (interrupt_enter c) in
  (∀ r, gpr c' r = gpr c r) ∧ rip c' = rip c ∧ cs c' = cs c ∧ ss c' = ss c ∧
  rflags c' = rflags c ∧ (∀ b, gpr c RSP ≤ b → b + 8 ≤ hi → word c' b = word c b) ∧ raised c' = None.
Proof.
  intros Hh Hd Hr1 Hr2 Hok Hsp Hhi Hhi2 Hres. cbv zeta.
  assert (16 * (gpr c RSP / 16) ≤ gpr c RSP < 16 * (gpr c RSP / 16) + 16) as Hal.
  { pose proof (Z.div_mod (gpr c RSP) 16). pose proof (Z.mod_pos_bound (gpr c RSP) 16). lia. }
  destruct (frame_build c [32] Hok) as (R1 & S1 & F1 & K1 & Q1); [repeat constructor; lia|simpl; lia|].
  change (unbound_irq0 h d ret1 ret2 (interrupt_enter c)) with
    (iretq (add_imm RSP 8 (pop_all frame_regs (call ret2 d (mov RDI RSP (select_frame (mov RSP R12
       (call ret1 h (align_rsp (mov R12 RSP (mov RDI RSP
         (push_all irq_regs (push_vals [32] (interrupt_enter c)))))))))))))).
  rewrite <- start_code_eq.
  revert R1 S1 F1 K1 Q1. generalize (push_all irq_regs (push_vals [32] (interrupt_enter c))).
  change (length [32]) with 1%nat. set (f := gpr c RSP / 16 * 16 - 160 - 8 * Z.of_nat 1).
  intros c1 R1 S1 F1 K1 Q1.
  destruct (irq_middle hi h d ret1 ret2 c1 f Hh Hd Hr1 Hr2 R1 S1) as (S2 & W2 & Q2); [lia|lia|done|].
  revert S2 W2 Q2. match goal with |- gpr ?x RSP = f → _ => generalize x end. intros c2 S2 W2 Q2.
  assert (frame_at c (reverse [32]) f c2) as F2.
  { eapply frame_at_same; [done| |done]. change (length (reverse [32])) with 1%nat. lia. }
  destruct (frame_at_words c (reverse [32]) f c2 F2) as (E1 & E2 & E3 & E4 & E5).
  change (120 + 8 * Z.of_nat (length (reverse [32]))) with 128 in *.
  change (128 + 8) with 136 in E2. change (128 + 16) with 144 in E3. change (128 + 24) with 152 in E4.
  change (128 + 32) with 160 in E5.
  destruct Hok as (_ & _ & Hcs & Hss & _ & Hsel & Hraised).
  destruct (frame_return_ok c2) as (G & Ip & C & Fl & Sp & Sg & W3 & Q3); [lia|lia| |].
  { rewrite S2, E2, E5, !cast16_small by done. exact Hsel. }
  rewrite S2 in *. rewrite E1 in Ip. rewrite E2, cast16_small in C by done. rewrite E3 in Fl. rewrite E4 in Sp.
  rewrite E5, cast16_small in Sg by done.
  revert G Ip C Fl Sp Sg W3 Q3. generalize (unbound_start_interrupt_context_code c2).
  intros c3 G Ip C Fl Sp Sg W3 Q3.
  split; [intros r; destruct (decide (r = RSP)) as [->|Hne]; [done|by eapply frame_gpr]|].
  do 4 (split; [done|]). split; [|congruence].
  intros b Hb Hbh. rewrite W3, W2, K1 by lia. done.
Qed.

(** ** Exceptions *)

(** Delivery of exception [vector]: for some vectors the CPU pushes an error
    code after the five words. *)
Definition exception_enter (vector err : Z) (c : cpu) : cpu :=
  if has_error_code vector then push_val err (interrupt_enter c) else interrupt_enter c.
Definition error_word (vector err : Z) : Z := if has_error_code vector then err else 0.

Lemma unbound_isr_enter h ret vector err c :
  unbound_isr h ret vector (exception_enter vector err c) =
  unbound_exception_common h ret (push_vals [error_word vector err; vector] (interrupt_enter c)).
Proof. unfold unbound_isr, exception_enter, error_word. by destruct (has_error_code vector). Qed.

Definition exception_state (vector err : Z) (c : cpu) : cpu :=
  unbound_exception_entry (push_vals [error_word vector err; vector] (interrupt_enter c)).

Lemma exception_entry_run vector err c : cpu_ok c → 512 ≤ gpr c RSP → gpr c RSP + 256 < 2 ^ 64 →
  in_u 64 vector → in_u 64 err →
  let f := gpr c RSP / 16 * 16 - 176 in let e := exception_state vector err c in
  regs_ok e ∧ gpr e RSP = f - 8 ∧ gpr e RDI = f + 120 ∧
  frame_at c [vector; error_word vector err] f e ∧ (∀ b, gpr c RSP ≤ b → word e b = word c b) ∧
  raised e = raised c.
Proof.
  intros Hok Hsp Hsp2 Hv He. cbv zeta.
  assert (16 * (gpr c RSP / 16) ≤ gpr c RSP < 16 * (gpr c RSP / 16) + 16) as Hal.
  { pose proof (Z.div_mod (gpr c RSP) 16). pose proof (Z.mod_pos_bound (gpr c RSP) 16). lia. }
  assert (in_u 64 (error_word vector err)) as Hw.
  { unfold error_word. destruct (has_error_code vector); [done|unfold in_u; lia]. }
  destruct (frame_build c [error_word vector err; vector] Hok) as (R1 & S1 & F1 & K1 & Q1);
    [repeat constructor; apply Hw || apply Hv|simpl length; lia|].
  unfold exception_state, unbound_exception_entry, run. cbn [foldl].
  revert R1 S1 F1 K1 Q1.
  generalize (push_all irq_regs (push_vals [error_word vector err; vector] (interrupt_enter c))).
  change (length [error_word vector err; vector]) with 2%nat.
  change (reverse [error_word vector err; vector]) with [vector; error_word vector err].
  intros c1 R1 S1 F1 K1 Q1.
  assert (gpr (add_imm RSP (-8) (lea RDI RSP 120 c1)) RSP = gpr c1 RSP - 8) as S2.
  { unfold add_imm, lea. cbn [gpr set_reg]. rewrite decide_True, decide_False by done.
    by rewrite cast_small by lia. }
  assert (gpr (add_imm RSP (-8) (lea RDI RSP 120 c1)) RDI = gpr c1 RSP + 120) as D2.
  { unfold add_imm, lea. cbn [gpr set_reg]. rewrite decide_False, decide_True by done.
    by rewrite cast_small by lia. }
  split; [|split; [lia|split; [lia|split; [|done]]]].
  - intros r. destruct (decide (r = RSP)) as [->|H1]; [rewrite S2; unfold in_u; lia|].
    destruct (decide (r = RDI)) as [->|H2]; [rewrite D2; unfold in_u; lia|].
    unfold add_imm, lea. cbn [gpr set_reg]. rewrite !decide_False by done. apply R1.
  - replace (gpr c RSP / 16 * 16 - 176) with (gpr c RSP / 16 * 16 - 160 - 8 * Z.of_nat 2) by lia.
    destruct F1. by split.
Qed.

(** The exception handler is shown the truth: for every vector, at the call
    RDI points at an [InterruptFrame] that holds the vector, the CPU's error
    code (zero when it has none) and the interrupted RIP, CS and RFLAGS, and
    the registers of the interrupted code are saved below it.  The stack pointer
    at the call is 8 modulo 16, so the adjustment meant to align it for the
    call misaligns it instead. *)
Theorem exception_handler_frame vector err c : cpu_ok c → 512 ≤ gpr c RSP →
  gpr c RSP + 256 < 2 ^ 64 → in_u 64 vector → in_u 64 err →
  let e := exception_state vector err c in
  word e (gpr e RDI) = vector ∧ word e (gpr e RDI + 8) = error_word vector err ∧
  word e (gpr e RDI + 16) = rip c ∧ word e (gpr e RDI + 24) = cs c ∧
  word e (gpr e RDI + 32) = rflags c ∧
  (∀ i r, frame_regs !! i = Some r → word e (gpr e RDI - 120 + 8 * Z.of_nat i) = gpr c r) ∧
  gpr e RSP mod 16 = 8.
Proof.
  intros Hok Hsp Hsp2 Hv He. cbv zeta.
  destruct (exception_entry_run vector err c Hok Hsp Hsp2 Hv He) as (_ & S & D & F & _ & _).
  revert S D F. generalize (exception_state vector err c).
  set (f := gpr c RSP / 16 * 16 - 176). intros e S D F. rewrite D, S.
  pose proof (fr_rip _ _ _ _ F) as E1. pose proof (fr_cs _ _ _ _ F) as E2.
  pose proof (fr_rflags _ _ _ _ F) as E3.
  change (length [vector; error_word vector err]) with 2%nat in *.
  split; [rewrite <- (fr_extra _ _ _ _ F 0%nat vector eq_refl); f_equal; lia|].
  split; [rewrite <- (fr_extra _ _ _ _ F 1%nat _ eq_refl); f_equal; lia|].
  split; [rewrite <- E1; f_equal; lia|]. split; [rewrite <- E2; f_equal; lia|].
  split; [rewrite <- E3; f_equal; lia|]. split.
  - intros i r Hi. rewrite <- (fr_regs _ _ _ _ F i r Hi). f_equal. lia.
  - unfold f. replace (gpr c RSP / 16 * 16 - 176 - 8) with (8 + (gpr c RSP / 16 - 12) * 16) by lia.
    by rewrite Z.mod_add by lia.
Qed.

(** C32: The exception return is broken: the code removes one word where it
    says it removes the vector and the error code, so [iretq] takes the error
    code for the return address, the interrupted RIP for CS, the old CS for
    RFLAGS, the old RFLAGS for RSP and the old RSP for SS.  Only the fifteen
    general registers come back right.  The processor checks the low sixteen bits
    of the interrupted RIP as a code selector, and raises a general-protection
    exception with that selector as its error code unless they happen to be 0x08
    or 0x33; it never resumes the interrupted instruction: where it accepts both
    selectors it goes on at the error code. *)
Theorem exception_return_wrong hi h ret vector err c : abi_call hi h → in_u 64 ret →
  cpu_ok c → 512 ≤ gpr c RSP → gpr c RSP + 256 ≤ hi → hi < 2 ^ 64 →
  in_u 64 vector → in_u 64 err →
  let c' := unbound_isr h ret vector (exception_enter vector err c) in
  let sel := cast 16 (rip c) in
  (∀ r, r ≠ RSP → gpr c' r = gpr c r) ∧
  raised c' = iret_fault (kernel_table 0) sel (cast 16 (gpr c RSP)) ∧
  (sel ≠ 0x08 → sel ≠ 0x33 → raised c' = Some (13, error_code sel)) ∧
  (raised c' = None → rip c' = error_word vector err ∧ cs c' = sel ∧ rflags c' = cs c ∧
     gpr c' RSP = rflags c ∧ ss c' = cast 16 (gpr c RSP)).
Proof.
  intros Hh Hret Hok Hsp Hhi Hhi2 Hv He. cbv zeta. rewrite unbound_isr_enter.
  assert (16 * (gpr c RSP / 16) ≤ gpr c RSP < 16 * (gpr c RSP / 16) + 16) as Hal.
  { pose proof (Z.div_mod (gpr c RSP) 16). pose proof (Z.mod_pos_bound (gpr c RSP) 16). lia. }
  destruct (exception_entry_run vector err c Hok Hsp ltac:(lia) Hv He) as (R1 & S1 & _ & F1 & _ & Q1).
  change (unbound_exception_common h ret (push_vals [error_word vector err; vector] (interrupt_enter c)))
    with (iretq (add_imm RSP 8 (pop_all frame_regs (add_imm RSP 8
           (call ret h (exception_state vector err c)))))).
  rewrite <- start_code_eq. revert R1 S1 F1 Q1. generalize (exception_state vector err c).
  set (f := gpr c RSP / 16 * 16 - 176). intros c1 R1 S1 F1 Q1.
  destruct (call_run hi h ret c1 Hh R1 Hret) as (R2 & S2 & _ & W2 & Q2); [lia|].
  revert R2 S2 W2 Q2. generalize (call ret h c1). intros c2 R2 S2 W2 Q2.
  assert (gpr (add_imm RSP 8 c2) RSP = f) as S3.
  { unfold add_imm. cbn [gpr set_reg]. rewrite decide_True, cast_small by (done || lia). lia. }
  assert (∀ b, word (add_imm RSP 8 c2) b = word c2 b) as W3 by done.
  assert (raised (add_imm RSP 8 c2) = None) as Q3.
  { destruct Hok as (_ & _ & _ & _ & _ & _ & Hraised). change (raised c2 = None). congruence. }
  revert S3 W3 Q3. generalize (add_imm RSP 8 c2). intros c3 S3 W3 Q3.
  assert (frame_at c [vector; error_word vector err] f c3) as F3.
  { apply (frame_at_same _ _ _ c1 c3 hi); [done|simpl length; lia|].
    intros b Hb Hbh. rewrite W3, W2 by lia. done. }
  destruct (frame_at_words _ _ _ _ F3) as (E1 & E2 & E3 & E4 & _).
  pose proof (fr_extra _ _ _ _ F3 1%nat _ eq_refl) as E0. rewrite <- Z.add_assoc in E0.
  change (120 + 8 * Z.of_nat 1) with 128 in E0.
  change (120 + 8 * Z.of_nat (length [vector; error_word vector err])) with 136 in *.
  change (136 + 8) with 144 in E2. change (136 + 16) with 152 in E3. change (136 + 24) with 160 in E4.
  destruct (frame_return_run c3) as (G & _ & H); [lia|lia|].
  rewrite S3, E0, E1, E2, E3, E4 in *. split; [by eapply frame_gpr|].
  assert (raised (unbound_start_interrupt_context_code c3)
    = iret_fault (kernel_table 0) (cast 16 (rip c)) (cast 16 (gpr c RSP))) as Hr.
  { destruct (iret_fault _ _ _) as [e|].
    - destruct H as [-> _]. unfold raise. cbn [raised]. by rewrite Q3.
    - destruct H as (_ & _ & _ & _ & _ & ->). exact Q3. }
  rewrite Hr. split; [done|]. split.
  - intros H8 H33. unfold iret_fault. rewrite code_fault_kernel by (apply Z.mod_pos_bound; lia).
    by rewrite (proj2 (Z.eqb_neq _ _) H8), (proj2 (Z.eqb_neq _ _) H33).
  - intros Hn. rewrite Hn in H. destruct H as (I & C & F & P & Sg & _). by split_and!.
Qed.

(** ** Witnesses: a handler that returns at once, handing back its argument *)

Definition quick_handler (c : cpu) : cpu := add_imm RSP 8 (mov RAX RDI c).

Lemma quick_handler_abi hi : abi_call hi quick_handler.
Proof.
  assert (∀ c, regs_ok c → gpr c RSP + 8 < 2 ^ 64 → gpr (quick_handler c) RSP = gpr c RSP + 8) as S.
  { intros c Hr Hs. pose proof (Hr RSP) as [? _]. unfold quick_handler, add_imm, mov.
    cbn [gpr set_reg]. rewrite decide_True, decide_False by done. by rewrite cast_small by lia. }
  split; [|done| |done|done].
  - intros c Hr Hs r. pose proof (Hr RSP) as [? _].
    destruct (decide (r = RSP)) as [->|Hne]; [rewrite S by done; unfold in_u; lia|].
    unfold quick_handler, add_imm, mov. cbn [gpr set_reg]. rewrite decide_False by done.
    case_decide; apply Hr.
  - intros c r _ _ Hr. unfold quick_handler, add_imm, mov. cbn [gpr set_reg].
    rewrite !decide_False; [done|intros ->..]; revert Hr; apply (bool_decide_unpack _); vm_compute; exact I.
Qed.

Lemma irq0_transparent_witness :
  let c' := unbound_irq0 quick_handler quick_handler 0x100500 0x100600 (interrupt_enter sample_cpu) in
  gpr c' RSP = 0x9000 ∧ rip c' = 0x100000.
Proof.
  destruct (irq0_transparent 0xA000 quick_handler quick_handler 0x100500 0x100600 sample_cpu
    (quick_handler_abi _) (quick_handler_abi _)) as (G & Ip & _);
    [unfold in_u; lia|unfold in_u; lia|apply sample_cpu_ok|vm_compute; discriminate
    |vm_compute; discriminate|lia| |].
  - intros e _ _. reflexivity.
  - split; [exact (G RSP)|exact Ip].
Defined.

Lemma exception_handler_frame_witness :
  let e := exception_state 14 2 sample_cpu in
  word e (gpr e RDI) = 14 ∧ word e (gpr e RDI + 8) = 2.
Proof.
  destruct (exception_handler_frame 14 2 sample_cpu) as (V & E & _);
    [apply sample_cpu_ok|vm_compute; discriminate|vm_compute; reflexivity|unfold in_u; lia|unfold in_u; lia|].
  split; [exact V|exact E].
Defined.

(** The return from a breakpoint (vector 3) at 0x1010A0 raises a
    general-protection exception with error code 0x10A0. *)
Lemma exception_return_wrong_witness :
  raised (unbound_isr quick_handler 0x100500 3 (exception_enter 3 0 (set_rip 0x1010A0 sample_cpu))) = Some (13, 0x10A0).
Proof.
  destruct (exception_return_wrong 0xA000 quick_handler 0x100500 3 0 (set_rip 0x1010A0 sample_cpu) (quick_handler_abi _))
    as (_ & _ & H & _); [unfold in_u; lia| |vm_compute; discriminate
    |vm_compute; discriminate|lia|unfold in_u; lia|unfold in_u; lia|].
  - split; [intros []; vm_compute; split; congruence|vm_compute; intuition congruence].
  - apply H; vm_compute; discriminate.
Defined.
