(* ===== verification/RunQueue.v ===== *)
(** * The run queue (kernel/src/scheduler/queue.rs)

    64 slots, some of them empty, and a counter.  The queue represents the list
    of the task ids in slot order; the theorems give the effect of every
    operation on that list, and say how [rotate] shares the processor. *)

From S2P Require Import Prelude Cpu Task.
Local Open Scope Z_scope.

Definition MAX_TASKS : Z := 64.

Record RunQueue := mkRunQueue { rq_tasks : list (option Z); rq_count : Z }.

Definition RunQueue_new : RunQueue := mkRunQueue (replicate 64 None) 0.

(** [for slot in self.tasks.iter() { if *slot == Some(task_id) .. }]. *)
Fixpoint slots_contain (task_id : Z) (slots : list (option Z)) : bool :=
  match slots with
  | [] => false
  | slot :: rest => if decide (slot = Some task_id) then true else slots_contain task_id rest
  end.

(** [for slot in self.tasks.iter_mut() { if slot.is_none() .. }]: the slots with
    the first empty one taken, or nothing when there is none. *)
Fixpoint fill_free (task_id : Z) (slots : list (option Z)) : option (list (option Z)) :=
  match slots with
  | [] => None
  | None :: rest => Some (Some task_id :: rest)
  | Some x :: rest => cons (Some x) <$> fill_free task_id rest
  end.

(** The slots with the first occurrence of [task_id] emptied. *)
Fixpoint empty_slot (task_id : Z) (slots : list (option Z)) : option (list (option Z)) :=
  match slots with
  | [] => None
  | slot :: rest =>
      if decide (slot = Some task_id) then Some (None :: rest)
      else cons slot <$> empty_slot task_id rest
  end.

Fixpoint first_some (slots : list (option Z)) : option Z :=
  match slots with
  | [] => None
  | Some x :: _ => Some x
  | None :: rest => first_some rest
  end.

Definition RunQueue_push (task_id : Z) : M RunQueue bool := λ self,
  if MAX_TASKS <=? rq_count self then Done (false, self)
  else if slots_contain task_id (rq_tasks self) then Done (false, self)
  else match fill_free task_id (rq_tasks self) with
  | Some slots => (c ← lift (add_u 64 (rq_count self) 1); put (mkRunQueue slots c) ;; mret true) self
  | None => Done (false, self)
  end.

Definition RunQueue_remove (task_id : Z) : M RunQueue bool := λ self,
  match empty_slot task_id (rq_tasks self) with
  | Some slots => (c ← lift (sub_u (rq_count self) 1); put (mkRunQueue slots c) ;; mret true) self
  | None => Done (false, self)
  end.

Definition RunQueue_contains (self : RunQueue) (task_id : Z) : bool :=
  slots_contain task_id (rq_tasks self).
Definition RunQueue_len (self : RunQueue) : Z := rq_count self.
Definition RunQueue_is_empty (self : RunQueue) : bool := rq_count self =? 0.
Definition RunQueue_first (self : RunQueue) : option Z := first_some (rq_tasks self).

Definition RunQueue_state_for (self : RunQueue) (task_id : Z) : option TaskState :=
  if RunQueue_contains self task_id then Some Ready else None.

(** [for index in 0..(MAX_TASKS - 1) { tasks[index] = tasks[index + 1] }]. *)
Definition rotate_loop : M (list (option Z)) unit :=
  first ← vec_get 0;
  for_range (Z.to_nat (MAX_TASKS - 1)) 0 (λ index, x ← vec_get (index + 1); vec_set index x) ;;
  vec_set (MAX_TASKS - 1) first.

Definition RunQueue_rotate : M RunQueue unit := λ self,
  if rq_count self <=? 1 then Done ((), self)
  else zoom rq_tasks (λ l q, mkRunQueue l (rq_count q)) rotate_loop self.

(** ** The list a queue represents *)

Definition live (slots : list (option Z)) : list Z := omap Datatypes.id slots.
Definition ids (q : RunQueue) : list Z := live (rq_tasks q).

Record rq_ok (q : RunQueue) : Prop := {
  ro_length : length (rq_tasks q) = 64%nat;
  ro_nodup : NoDup (ids q);
  ro_count : rq_count q = Z.of_nat (length (ids q));
}.

Lemma live_app l k : live (l ++ k) = live l ++ live k.
Proof. apply omap_app. Qed.

Lemma live_length l : (length (live l) ≤ length l)%nat.
Proof. induction l as [|[x|] l IH]; simpl; lia. Qed.

Lemma slots_contain_iff x l : slots_contain x l = true ↔ x ∈ live l.
Proof.
  induction l as [|[y|] l IH]; simpl.
  - split; [done|by intros ?%not_elem_of_nil].
  - rewrite elem_of_cons. case_decide as Hd; simplify_eq; [by split; auto|].
    rewrite IH. split; [by auto|]. intros [->|]; done.
  - done.
Qed.

Lemma fill_free_Some x l : (length (live l) < length l)%nat →
  ∃ l1 l2, l = l1 ++ None :: l2 ∧ fill_free x l = Some (l1 ++ Some x :: l2).
Proof.
  induction l as [|[y|] l IH]; simpl; intros Hl; [lia| |].
  - destruct IH as (l1 & l2 & -> & E); [lia|]. exists (Some y :: l1), l2. by rewrite E.
  - by exists [], l.
Qed.

Lemma empty_slot_Some x l : x ∈ live l →
  ∃ l1 l2, l = l1 ++ Some x :: l2 ∧ (x ∉ live l1) ∧ empty_slot x l = Some (l1 ++ None :: l2).
Proof.
  induction l as [|s l IH]; [by intros ?%not_elem_of_nil|]. intros Hx. cbn [empty_slot].
  case_decide as Hd.
  - subst s. exists [], l. split; [done|]. split; [apply not_elem_of_nil|done].
  - destruct IH as (l1 & l2 & -> & Hn & E).
    { destruct s as [y|]; [|done]. cbn in Hx. apply elem_of_cons in Hx as [->|]; done. }
    exists (s :: l1), l2. split; [done|]. rewrite E. split; [|done].
    destruct s as [y|]; [|done]. cbn. apply not_elem_of_cons. split; [congruence|done].
Qed.

Lemma empty_slot_None x l : x ∉ live l → empty_slot x l = None.
Proof.
  induction l as [|s l IH]; [done|]. intros Hx. cbn [empty_slot]. rewrite decide_False.
  - rewrite IH; [done|]. intros Hin. apply Hx. destruct s; [by right|done].
  - intros ->. apply Hx. left.
Qed.

Lemma first_some_head l : first_some l = head (live l).
Proof. induction l as [|[x|] l IH]; [done|done|]. exact IH. Qed.

Lemma RunQueue_new_ok : rq_ok RunQueue_new.
Proof. split; [done|apply NoDup_nil_2|done]. Qed.

Lemma RunQueue_contains_iff q x : RunQueue_contains q x = true ↔ x ∈ ids q.
Proof. apply slots_contain_iff. Qed.

Lemma RunQueue_first_ids q : RunQueue_first q = head (ids q).
Proof. apply first_some_head. Qed.

Lemma push_run q x : rq_ok q →
  ((x ∉ ids q) ∧ (length (ids q) < 64)%nat ∧ ∃ l1 l2 q', ids q = l1 ++ l2 ∧ ids q' = l1 ++ x :: l2 ∧
     RunQueue_push x q = Done (true, q') ∧ rq_ok q') ∨
  ((x ∈ ids q ∨ length (ids q) = 64%nat) ∧ RunQueue_push x q = Done (false, q)).
Proof.
  intros [Hlen Hnd Hc]. unfold RunQueue_push, MAX_TASKS. pose proof (live_length (rq_tasks q)) as Hle.
  fold (ids q) in Hle. rewrite Hc. destruct (Z.leb_spec 64 (Z.of_nat (length (ids q)))).
  { right. split; [right; lia|done]. }
  destruct (slots_contain x (rq_tasks q)) eqn:Hin.
  { right. split; [left; by apply slots_contain_iff|done]. }
  left. assert (x ∉ ids q) as Hx.
  { intros Hx. apply slots_contain_iff in Hx. congruence. }
  split; [done|]. split; [lia|].
  destruct (fill_free_Some x (rq_tasks q)) as (l1 & l2 & El & E); [unfold ids in *; lia|].
  rewrite E. exists (live l1), (live l2), (mkRunQueue (l1 ++ Some x :: l2) (Z.of_nat (length (ids q)) + 1)).
  assert (ids q = live l1 ++ live l2) as Ei by (unfold ids; rewrite El, live_app; done).
  assert (live (l1 ++ Some x :: l2) = live l1 ++ x :: live l2) as Ei' by (by rewrite live_app).
  split; [done|]. split; [done|]. split.
  - rewrite (bind_run _ _ _ (Z.of_nat (length (ids q)) + 1) q); [done|].
    unfold lift. by rewrite add_u_Done by lia.
  - rewrite Ei in *. split; cbn [rq_tasks rq_count]; unfold ids; cbn [rq_tasks].
    + rewrite <- Hlen, El, !length_app. done.
    + rewrite Ei', <- Permutation_middle. by constructor.
    + rewrite Ei', !length_app. simpl. lia.
Qed.

Lemma remove_run q x : rq_ok q →
  (x ∈ ids q ∧ ∃ l1 l2 q', ids q = l1 ++ x :: l2 ∧ ids q' = l1 ++ l2 ∧
     RunQueue_remove x q = Done (true, q') ∧ rq_ok q') ∨
  ((x ∉ ids q) ∧ RunQueue_remove x q = Done (false, q)).
Proof.
  intros [Hlen Hnd Hc]. unfold RunQueue_remove.
  destruct (decide (x ∈ ids q)) as [Hin|Hin]; [left|right; by rewrite empty_slot_None].
  split; [done|]. destruct (empty_slot_Some x _ Hin) as (l1 & l2 & El & _ & E). rewrite E.
  assert (ids q = live l1 ++ x :: live l2) as Ei by (unfold ids; rewrite El, live_app; done).
  assert (live (l1 ++ None :: l2) = live l1 ++ live l2) as Ei' by (by rewrite live_app).
  exists (live l1), (live l2), (mkRunQueue (l1 ++ None :: l2) (Z.of_nat (length (ids q)) - 1)).
  split; [done|]. split; [done|]. split.
  - rewrite Hc, (bind_run _ _ _ (Z.of_nat (length (ids q)) - 1) q); [done|].
    unfold lift. rewrite sub_u_Done; [done|]. rewrite Ei, length_app. simpl. lia.
  - rewrite Ei in *. split; cbn [rq_tasks rq_count]; unfold ids; cbn [rq_tasks].
    + rewrite <- Hlen, El, !length_app. done.
    + rewrite Ei'. rewrite <- Permutation_middle in Hnd. by apply NoDup_cons in Hnd as [_ Hnd].
    + rewrite Ei', !length_app. simpl. lia.
Qed.

(** ** Rotation *)

Definition rotl {A} (l : list A) : list A := match l with [] => [] | x :: r => r ++ [x] end.

Lemma shift_loop n (pre : list (option Z)) y rest : length rest = n →
  ∃ z, for_range n (Z.of_nat (length pre)) (λ index, x ← vec_get (index + 1); vec_set index x)
         (pre ++ y :: rest) = Done ((), pre ++ rest ++ [z]).
Proof.
  revert pre y rest. induction n as [|n IH]; intros pre y rest Hn.
  - destruct rest; [|done]. by exists y.
  - destruct rest as [|z rest]; [done|]. simpl in Hn. injection Hn as Hn.
    destruct (IH (pre ++ [z]) z rest Hn) as (w & E). exists w. cbn [for_range].
    assert ((pre ++ y :: z :: rest) !! Z.to_nat (Z.of_nat (length pre) + 1) = Some z) as Hz.
    { replace (Z.to_nat (Z.of_nat (length pre) + 1)) with (length pre + 1)%nat by lia.
      by rewrite lookup_app_r, Nat.add_comm, Nat.add_sub by lia. }
    erewrite bind_run.
    2:{ rewrite (bind_run _ _ _ _ _ (vec_get_run _ (Z.of_nat (length pre) + 1) z ltac:(lia) Hz)).
        rewrite vec_set_run by (rewrite length_app; simpl; lia). rewrite Nat2Z.id. done. }
    replace (length pre) with (length pre + 0)%nat at 2 by lia. rewrite insert_app_r. simpl.
    rewrite length_app in E. simpl in E.
    replace (Z.of_nat (length pre + 1)) with (Z.of_nat (length pre) + 1) in E by lia.
    rewrite <- !app_assoc in E. exact E.
Qed.

Lemma rotate_loop_run l : length l = 64%nat → rotate_loop l = Done ((), rotl l).
Proof.
  intros Hl. destruct l as [|x l]; [done|]. injection Hl as Hl. unfold rotate_loop.
  rewrite (bind_run _ _ _ _ _ (vec_get_run (x :: l) 0 x ltac:(lia) eq_refl)).
  destruct (shift_loop 63 [] x l Hl) as (z & E). cbn [length app] in E.
  change (Z.to_nat (MAX_TASKS - 1)) with 63%nat. change 0 with (Z.of_nat 0).
  rewrite (bind_run _ _ _ _ _ E). unfold MAX_TASKS.
  rewrite vec_set_run by (rewrite length_app; simpl; lia).
  change (Z.to_nat (64 - 1)) with (63 + 0)%nat. rewrite <- Hl. by rewrite insert_app_r.
Qed.

(** What [rotate] makes of a queue. *)
Definition rotated (q : RunQueue) : RunQueue :=
  if rq_count q <=? 1 then q else mkRunQueue (rotl (rq_tasks q)) (rq_count q).

Lemma rotate_run q : rq_ok q → RunQueue_rotate q = Done ((), rotated q).
Proof.
  intros [Hlen _ _]. unfold RunQueue_rotate, rotated. destruct (_ <=? _); [done|].
  unfold zoom. by rewrite rotate_loop_run.
Qed.

Lemma rotl_perm {A} (l : list A) : rotl l ≡ₚ l.
Proof. destruct l; [done|]. simpl. by rewrite Permutation_app_comm. Qed.

Lemma live_perm l k : l ≡ₚ k → live l ≡ₚ live k.
Proof. intros E. unfold live. by rewrite E. Qed.

Lemma rotated_ok q : rq_ok q → rq_ok (rotated q) ∧ ids (rotated q) ≡ₚ ids q.
Proof.
  intros Hq. unfold rotated. destruct (_ <=? _); [done|]. destruct Hq as [Hlen Hnd Hc].
  assert (live (rotl (rq_tasks q)) ≡ₚ ids q) as Hp by apply live_perm, rotl_perm.
  split; [|done]. split; simpl; unfold ids; simpl.
  - by rewrite rotl_perm.
  - by rewrite Hp.
  - by rewrite Hp.
Qed.

(** [picks n q]: the first task after each of [n] rotations. *)
Fixpoint picks (n : nat) : M RunQueue (list (option Z)) :=
  match n with
  | O => mret []
  | S k => RunQueue_rotate ;; q ← get; rest ← picks k; mret (RunQueue_first q :: rest)
  end.

Lemma picks_run n q : rq_ok q → 2 ≤ rq_count q →
  picks n q = Done ((λ k, first_some (Nat.iter (S k) rotl (rq_tasks q))) <$> seq 0 n,
                    mkRunQueue (Nat.iter n rotl (rq_tasks q)) (rq_count q)).
Proof.
  revert q. induction n as [|n IH]; intros q Hq Hc; [by destruct q|].
  cbn [picks]. destruct (rotated_ok q Hq) as [Hq1 _].
  rewrite (bind_run _ _ _ _ _ (rotate_run q Hq)).
  unfold rotated in *. rewrite (proj2 (Z.leb_gt _ _)) in * by lia.
  rewrite (bind_run _ _ _ _ _ (eq_refl : get _ = Done _)).
  rewrite (bind_run _ _ _ _ _ (IH _ Hq1 Hc)). cbn [rq_tasks rq_count].
  rewrite Nat.iter_succ_r. rewrite <- cons_seq, fmap_cons, <- fmap_S_seq, <- list_fmap_compose.
  unfold mret, M_ret. do 3 f_equal. apply list_fmap_ext. intros i k _.
  unfold compose. by rewrite (Nat.iter_succ_r (S k)).
Qed.

Lemma iter_rotl {A} (l : list A) k : (k ≤ length l)%nat → Nat.iter k rotl l = drop k l ++ take k l.
Proof.
  induction k as [|k IH]; intros Hk; [by rewrite app_nil_r|].
  rewrite Nat.iter_succ, IH by lia.
  destruct (lookup_lt_is_Some_2 l k) as [x Hx]; [lia|].
  rewrite (drop_S l x k Hx). simpl. rewrite <- app_assoc. by rewrite <- (take_S_r l k x Hx).
Qed.

(** C31: Every task in the queue gets its turn: with at least two tasks queued,
    among any 64 consecutive rotations there is one after which a given task is
    the first, and no rotation panics, loses or duplicates a task. *)
Theorem rotate_fair q x : rq_ok q → 2 ≤ RunQueue_len q → x ∈ ids q →
  ∃ firsts q', picks 64 q = Done (firsts, q') ∧ rq_ok q' ∧ ids q' ≡ₚ ids q ∧ Some x ∈ firsts.
Proof.
  intros Hq Hc Hx. pose proof Hq as [Hlen Hnd Hcnt]. rewrite picks_run by done.
  eexists _, _. split; [done|]. rewrite iter_rotl, drop_ge, take_ge by lia. cbn [app].
  split; [by destruct q|]. split; [done|].
  unfold ids, live in Hx. apply list_elem_of_omap in Hx as (s & Hs & Hsx). simpl in Hsx. subst s.
  apply list_elem_of_lookup in Hs as [k Hk]. pose proof (lookup_lt_Some _ _ _ Hk).
  apply list_elem_of_fmap. exists (if decide (k = 0%nat) then 63%nat else (k - 1)%nat).
  split; [|apply elem_of_seq; case_decide; lia]. case_decide as Hd.
  - subst k. rewrite iter_rotl, drop_ge, take_ge by lia. simpl.
    by destruct (rq_tasks q) as [|[y|] l]; simplify_eq/=.
  - replace (S (k - 1)) with k by lia. rewrite iter_rotl by lia. by rewrite (drop_S _ _ _ Hk).
Qed.

(** The queue after two pushes on an empty one. *)
Definition two_tasks (a b : Z) : RunQueue :=
  mkRunQueue (Some a :: Some b :: replicate 62 None) 2.

(** The rotation shifts the empty slots too, so the turns are not equal:
    of two tasks pushed on an empty queue, the second is the first of the queue
    after one rotation out of 64 and the first task after the other 63, and the
    cycle repeats. *)
Theorem rotate_unequal a b : a ≠ b →
  (b1 ← RunQueue_push a; b2 ← RunQueue_push b; mret (b1, b2)) RunQueue_new
  = Done ((true, true), two_tasks a b) ∧
  picks 64 (two_tasks a b) = Done (Some b :: replicate 63 (Some a), two_tasks a b).
Proof.
  intros Hab. split.
  - unfold RunQueue_push, mbind, M_bind. simpl. by rewrite decide_False by congruence.
  - vm_compute. reflexivity.
Qed.

Lemma rotate_fair_witness : ∃ firsts q', picks 64 (two_tasks 1 2) = Done (firsts, q') ∧
  Some 2 ∈ firsts.
Proof.
  destruct (rotate_fair (two_tasks 1 2) 2) as (firsts & q' & E & _ & _ & Hin).
  - split; [reflexivity| |reflexivity]. apply (bool_decide_unpack _). vm_compute. exact I.
  - vm_compute. discriminate.
  - apply (bool_decide_unpack _). vm_compute. exact I.
  - exists firsts, q'. split; [exact E|exact Hin].
Defined.

Lemma rotate_unequal_witness :
  picks 64 (two_tasks 1 2) = Done (Some 2 :: replicate 63 (Some 1), two_tasks 1 2).
Proof. apply (rotate_unequal 1 2). discriminate. Defined.
