(* ===== verification/Scheduler.v ===== *)
(** * The scheduler (kernel/src/scheduler/mod.rs)

    Eight task slots, the run queue and the current task.  [Scheduler]'s
    methods are state-passing functions on it; [timer_interrupt] runs on a
    [kernel] state that also has the memory the saved frames are in. *)

From S2P Require Import Prelude Cpu Task RunQueue.
Local Open Scope Z_scope.

Definition MAX_SCHEDULER_TASKS : Z := 8.
Definition DEFAULT_TIME_SLICE_TICKS : Z := 5.

Record Scheduler := mkScheduler {
  run_queue : RunQueue;
  current_task : option TaskId;
  task_count : Z;
  scheduler_ticks : Z;
  tasks : list (option Task);
}.

Definition Scheduler_new : Scheduler := mkScheduler RunQueue_new None 0 0 (replicate 8 None).

Definition on_queue {B} (m : M RunQueue B) : M Scheduler B :=
  zoom run_queue (λ q s, mkScheduler q (current_task s) (task_count s) (scheduler_ticks s) (tasks s)) m.
Definition set_tasks (ts : list (option Task)) (n : Z) (s : Scheduler) : Scheduler :=
  mkScheduler (run_queue s) (current_task s) n (scheduler_ticks s) ts.
Definition set_current_task (c : option TaskId) (s : Scheduler) : Scheduler :=
  mkScheduler (run_queue s) c (task_count s) (scheduler_ticks s) (tasks s).

(** [for slot in self.tasks.iter_mut() { if slot.is_none() { *slot = Some(task); .. } }]. *)
Fixpoint fill_task (task : Task) (slots : list (option Task)) : option (list (option Task)) :=
  match slots with
  | [] => None
  | None :: rest => Some (Some task :: rest)
  | Some t :: rest => cons (Some t) <$> fill_task task rest
  end.

(** The first slot whose task has the id: read it, change it, empty it. *)
Fixpoint find_task (task_id : TaskId) (slots : list (option Task)) : option Task :=
  match slots with
  | [] => None
  | Some t :: rest => if id t =? task_id then Some t else find_task task_id rest
  | None :: rest => find_task task_id rest
  end.
Fixpoint update_task (task_id : TaskId) (f : Task → Task) (slots : list (option Task)) :
    list (option Task) :=
  match slots with
  | [] => []
  | Some t :: rest => if id t =? task_id then Some (f t) :: rest else Some t :: update_task task_id f rest
  | None :: rest => None :: update_task task_id f rest
  end.
Fixpoint clear_task (task_id : TaskId) (slots : list (option Task)) : list (option Task) :=
  match slots with
  | [] => []
  | Some t :: rest => if id t =? task_id then None :: rest else Some t :: clear_task task_id rest
  | None :: rest => None :: clear_task task_id rest
  end.

Definition Scheduler_create_task (task : Task) : M Scheduler (option TaskId) :=
  self ← get;
  if MAX_SCHEDULER_TASKS <=? task_count self then mret None
  else
    let task_id := id task in
    pushed ← on_queue (RunQueue_push task_id);
    if negb pushed then mret None
    else
      self ← get;
      match fill_task task (tasks self) with
      | Some ts =>
          n ← lift (add_u 64 (task_count self) 1);
          put (set_tasks ts n self) ;;
          mret (Some task_id)
      | None => on_queue (RunQueue_remove task_id) ;; mret None
      end.

Definition Scheduler_task (self : Scheduler) (task_id : TaskId) : option Task :=
  find_task task_id (tasks self).
(** [if let Some(task) = self.task_mut(task_id) { .. }]: whether there was one. *)
Definition Scheduler_task_mut (task_id : TaskId) (f : Task → Task) : M Scheduler bool := λ self,
  match find_task task_id (tasks self) with
  | Some _ => Done (true, set_tasks (update_task task_id f (tasks self)) (task_count self) self)
  | None => Done (false, self)
  end.

Definition Scheduler_set_current (task_id : TaskId) : M Scheduler bool := λ self,
  if negb (RunQueue_contains (run_queue self) task_id) then Done (false, self)
  else Done (true, set_current_task (Some task_id) self).
Definition Scheduler_current (self : Scheduler) : option TaskId := current_task self.

Definition Scheduler_tick : M Scheduler unit :=
  self ← get;
  put (mkScheduler (run_queue self) (current_task self) (task_count self)
         (wrapping_add 64 (scheduler_ticks self) 1) (tasks self)) ;;
  match current_task self with
  | Some task_id =>
      Scheduler_task_mut task_id (λ t,
        set_ticks (wrapping_add 64 (time_slice_ticks t) 1) (wrapping_add 64 (total_ticks t) 1) t) ;;
      mret ()
  | None => mret ()
  end.
Definition Scheduler_ticks (self : Scheduler) : Z := scheduler_ticks self.
Definition Scheduler_task_count (self : Scheduler) : Z := task_count self.

Definition Scheduler_schedule : M Scheduler unit :=
  self ← get;
  if RunQueue_is_empty (run_queue self) then put (set_current_task None self)
  else
    on_queue RunQueue_rotate ;;
    self ← get;
    put (set_current_task (RunQueue_first (run_queue self)) self).

Definition Scheduler_has_runnable_task (self : Scheduler) : bool :=
  negb (RunQueue_is_empty (run_queue self)).

Definition Scheduler_remove_task (task_id : TaskId) : M Scheduler bool :=
  removed ← on_queue (RunQueue_remove task_id);
  if negb removed then mret false
  else
    self ← get;
    let ts := clear_task task_id (tasks self) in
    n ← (if 0 <? task_count self then lift (sub_u (task_count self) 1) else mret (task_count self));
    put (set_tasks ts n self) ;;
    self ← get;
    (if decide (current_task self = Some task_id)
     then put (set_current_task (RunQueue_first (run_queue self)) self)
     else mret ()) ;;
    mret true.

Definition Scheduler_task_state (self : Scheduler) (task_id : TaskId) : option TaskState :=
  state <$> Scheduler_task self task_id.

(** ** The timer interrupt *)

(** [SCHEDULER], the memory, and [PREEMPT_SWITCH_DEBUG_COUNT]. *)
Record kernel := mkKernel { sched : Scheduler; kmem : bytemem; debug_count : Z }.

Definition on_sched {B} (m : M Scheduler B) : M kernel B :=
  zoom sched (λ s k, mkKernel s (kmem k) (debug_count k)) m.

Definition read_interrupt_frame_word (m : bytemem) (rsp offset : Z) : Z := le_load m (rsp + offset) 8.

Definition is_canonical_address (addr : Z) : bool :=
  let upper := Z.shiftr addr 48 in (upper =? 0x0000) || (upper =? 0xFFFF).

Definition validate_interrupt_frame (m : bytemem) (rsp : Z) : bool :=
  if rsp =? 0 then false
  else
    let vector := read_interrupt_frame_word m rsp (15 * 8) in
    let rip := read_interrupt_frame_word m rsp (16 * 8) in
    let cs := read_interrupt_frame_word m rsp (17 * 8) in
    let rflags := read_interrupt_frame_word m rsp (18 * 8) in
    if negb (vector =? 0x20) then false
    else if negb (cs =? 0x08) then false
    else if Z.land rflags 0x2 =? 0 then false
    else if negb (is_canonical_address rip) then false
    else if (rip <? 0x100000) || (0x200000 <=? rip) then false
    else true.

(** [task.state = s; task.time_slice_ticks = 0]. *)
Definition restart (s : TaskState) (t : Task) : Task :=
  set_ticks 0 (total_ticks t) (Task_set_state s t).

Definition timer_interrupt (current_interrupt_rsp : Z) : M kernel Z :=
  k ← get;
  match current_task (sched k) with
  | None => mret 0
  | Some current_id =>
      found ← on_sched (Scheduler_task_mut current_id (λ t,
        Task_set_state Running (set_interrupt_rsp current_interrupt_rsp t)));
      if negb found then mret 0
      else
        on_sched Scheduler_tick ;;
        k ← get;
        let slice_expired :=
          match Scheduler_task (sched k) current_id with
          | Some t => DEFAULT_TIME_SLICE_TICKS <=? time_slice_ticks t
          | None => false
          end in
        if negb slice_expired then mret 0
        else
          on_sched Scheduler_schedule ;;
          k ← get;
          match current_task (sched k) with
          | None => on_sched (Scheduler_task_mut current_id (restart Running)) ;; mret 0
          | Some next_id =>
              if next_id =? current_id then
                on_sched (Scheduler_task_mut current_id (restart Running)) ;; mret 0
              else match Scheduler_task (sched k) next_id with
              | None =>
                  on_sched (λ s, Done ((), set_current_task (Some current_id) s)) ;;
                  on_sched (Scheduler_task_mut current_id (restart Running)) ;; mret 0
              | Some next =>
                  let next_rsp := interrupt_rsp next in
                  n ← lift (add_u 64 (debug_count k) 1);
                  put (mkKernel (sched k) (kmem k) (cast 64 n)) ;;
                  if negb (validate_interrupt_frame (kmem k) next_rsp) then
                    on_sched (λ s, Done ((), set_current_task (Some current_id) s)) ;;
                    on_sched (Scheduler_task_mut current_id (restart Running)) ;;
                    on_sched (Scheduler_task_mut next_id (Task_set_state Ready)) ;;
                    mret 0
                  else
                    on_sched (Scheduler_task_mut current_id (Task_set_state Ready)) ;;
                    on_sched (Scheduler_task_mut next_id (restart Running)) ;;
                    mret next_rsp
              end
          end
  end.

(** ** Task slots *)

Definition task_ids (slots : list (option Task)) : list TaskId := id <$> omap Datatypes.id slots.

Lemma task_ids_cons s slots : task_ids (s :: slots) =
  match s with Some t => id t :: task_ids slots | None => task_ids slots end.
Proof. by destruct s. Qed.

Lemma task_ids_app l k : task_ids (l ++ k) = task_ids l ++ task_ids k.
Proof. unfold task_ids. by rewrite omap_app, fmap_app. Qed.

Lemma task_ids_length slots : (length (task_ids slots) ≤ length slots)%nat.
Proof. induction slots as [|[t|] slots IH]; rewrite ?task_ids_cons; simpl; lia. Qed.

Lemma find_task_id x slots t : find_task x slots = Some t → id t = x.
Proof.
  induction slots as [|[u|] slots IH]; [done|..|done]. simpl.
  destruct (Z.eqb_spec (id u) x); [by intros [= <-]|done].
Qed.

Lemma find_task_Some x slots : x ∈ task_ids slots ↔ is_Some (find_task x slots).
Proof.
  induction slots as [|[u|] slots IH]; rewrite ?task_ids_cons.
  - split; [by intros ?%not_elem_of_nil|by intros [? ?]].
  - rewrite elem_of_cons, IH. simpl. destruct (Z.eqb_spec (id u) x) as [Hd|Hd].
    + split; [eauto|by left].
    + split; [intros [->|?]; done|by right].
  - exact IH.
Qed.

Lemma find_task_None x slots : (x ∉ task_ids slots) ↔ find_task x slots = None.
Proof. by rewrite find_task_Some, eq_None_not_Some. Qed.

(** Changes that keep the id. *)
Definition keeps_id (f : Task → Task) : Prop := ∀ t, id (f t) = id t.

Lemma update_task_ids x f slots : keeps_id f → task_ids (update_task x f slots) = task_ids slots.
Proof.
  intros Hf. induction slots as [|[t|] slots IH]; [done|..|done]. simpl.
  destruct (_ =? _); rewrite !task_ids_cons; [by rewrite Hf|by rewrite IH].
Qed.

Lemma update_task_length x f slots : length (update_task x f slots) = length slots.
Proof.
  induction slots as [|[t|] slots IH]; simpl; [done| |by rewrite IH].
  destruct (_ =? _); simpl; by rewrite ?IH.
Qed.

Lemma find_update x y f slots : keeps_id f →
  find_task y (update_task x f slots) = if y =? x then f <$> find_task x slots else find_task y slots.
Proof.
  intros Hf. induction slots as [|[t|] slots IH]; simpl; [by destruct (_ =? _)| |done].
  destruct (Z.eqb_spec (id t) x) as [Hx|Hx]; simpl.
  - rewrite Hf. destruct (Z.eqb_spec (id t) y), (Z.eqb_spec y x); simpl; congruence || done.
  - destruct (Z.eqb_spec (id t) y), (Z.eqb_spec y x); simpl; try congruence; done.
Qed.

Lemma fill_task_Some t slots : (length (task_ids slots) < length slots)%nat →
  ∃ l1 l2, slots = l1 ++ None :: l2 ∧ fill_task t slots = Some (l1 ++ Some t :: l2).
Proof.
  induction slots as [|[u|] slots IH]; rewrite ?task_ids_cons; simpl; intros Hl; [lia| |].
  - destruct IH as (l1 & l2 & -> & E); [lia|]. exists (Some u :: l1), l2. by rewrite E.
  - by exists [], slots.
Qed.

Lemma find_app x l k : find_task x (l ++ k) =
  match find_task x l with Some t => Some t | None => find_task x k end.
Proof.
  induction l as [|[t|] l IH]; [done|..|done]. simpl. by destruct (_ =? _).
Qed.

Lemma clear_task_spec x slots : NoDup (task_ids slots) →
  length (clear_task x slots) = length slots ∧
  (∃ l1 l2, task_ids slots = l1 ++ (if decide (x ∈ task_ids slots) then [x] else []) ++ l2 ∧
            task_ids (clear_task x slots) = l1 ++ l2) ∧
  (∀ y, find_task y (clear_task x slots) = if y =? x then None else find_task y slots).
Proof.
  induction slots as [|[t|] slots IH]; rewrite ?task_ids_cons; intros Hnd.
  - split; [done|]. split; [by exists [], []|]. intros y. by destruct (_ =? _).
  - apply NoDup_cons in Hnd as [Hn Hnd]. destruct (IH Hnd) as (Hl & (l1 & l2 & E1 & E2) & Hf).
    simpl. destruct (Z.eqb_spec (id t) x) as [<-|Hx].
    + split; [done|]. split.
      * exists [], (task_ids slots). rewrite decide_True by left. done.
      * intros y. simpl. destruct (Z.eqb_spec y (id t)) as [->|Hy]; [by apply find_task_None|].
        by rewrite (proj2 (Z.eqb_neq _ _)) by congruence.
    + split; [simpl; by rewrite Hl|]. split.
      * exists (id t :: l1), l2. rewrite task_ids_cons. split; [|simpl; by rewrite E2].
        rewrite E1 at 1. simpl. f_equal. f_equal.
        destruct (decide (x ∈ task_ids slots)) as [Hin|Hin].
        -- by rewrite decide_True by (by right).
        -- rewrite decide_False; [done|]. intros [?|?]%elem_of_cons; congruence || done.
      * intros y. simpl. rewrite Hf. destruct (Z.eqb_spec (id t) y), (Z.eqb_spec y x);
          simpl; congruence || done.
  - destruct (IH Hnd) as (Hl & (l1 & l2 & E1 & E2) & Hf). simpl.
    split; [by rewrite Hl|]. split; [|done]. exists l1, l2. done.
Qed.

(** ** The scheduler invariant *)

Record sched_ok (s : Scheduler) : Prop := {
  so_queue : rq_ok (run_queue s);
  so_length : length (tasks s) = 8%nat;
  so_nodup : NoDup (task_ids (tasks s));
  (** the queue and the slots hold the same tasks *)
  so_same : ids (run_queue s) ≡ₚ task_ids (tasks s);
  so_count : task_count s = Z.of_nat (length (task_ids (tasks s)));
  (** the current task is one of them *)
  so_current x : current_task s = Some x → x ∈ ids (run_queue s);
}.

Lemma Scheduler_new_ok : sched_ok Scheduler_new.
Proof. split; [apply RunQueue_new_ok|done|apply NoDup_nil_2|done|done|done]. Qed.

Lemma sched_queue_run {B} (m : M RunQueue B) s b q : m (run_queue s) = Done (b, q) →
  on_queue m s = Done (b, mkScheduler q (current_task s) (task_count s) (scheduler_ticks s) (tasks s)).
Proof. intros E. unfold on_queue, zoom. by rewrite E. Qed.

Lemma sched_find s x : sched_ok s → x ∈ ids (run_queue s) → ∃ t, find_task x (tasks s) = Some t.
Proof.
  intros Hs Hx. rewrite (so_same _ Hs) in Hx. apply find_task_Some in Hx as [t Ht]. eauto.
Qed.

(** Changing a task in place. *)
Lemma task_mut_run s x f : keeps_id f →
  ∃ b s', Scheduler_task_mut x f s = Done (b, s') ∧ b = bool_decide (is_Some (find_task x (tasks s))) ∧
    run_queue s' = run_queue s ∧ current_task s' = current_task s ∧
    scheduler_ticks s' = scheduler_ticks s ∧ (sched_ok s → sched_ok s') ∧
    (∀ y, Scheduler_task s' y = if y =? x then f <$> Scheduler_task s x else Scheduler_task s y).
Proof.
  intros Hf. unfold Scheduler_task_mut, Scheduler_task.
  destruct (find_task x (tasks s)) as [t|] eqn:E.
  - eexists _, _. split; [done|]. split; [by rewrite bool_decide_eq_true_2 by eauto|].
    do 3 (split; [done|]). split.
    + intros [H1 H2 H3 H4 H5 H6]. split; simpl; rewrite ?update_task_ids, ?update_task_length by done; done.
    + intros y. simpl. rewrite find_update, E by done. done.
  - eexists _, _. split; [done|]. split; [rewrite bool_decide_eq_false_2; [done|by intros [? ?]]|].
    do 3 (split; [done|]). split; [done|]. intros y. by destruct (Z.eqb_spec y x) as [->|].
Qed.

Lemma create_run s t : sched_ok s →
  ((id t ∉ ids (run_queue s)) ∧ (length (task_ids (tasks s)) < 8)%nat ∧
   ∃ s', Scheduler_create_task t s = Done (Some (id t), s') ∧ sched_ok s' ∧
     current_task s' = current_task s ∧ ids (run_queue s') ≡ₚ id t :: ids (run_queue s) ∧
     ∀ y, Scheduler_task s' y = if y =? id t then Some t else Scheduler_task s y) ∨
  ((id t ∈ ids (run_queue s) ∨ length (task_ids (tasks s)) = 8%nat) ∧
   Scheduler_create_task t s = Done (None, s)).
Proof.
  intros [Hq Hl Hnd Hsame Hc Hcur]. unfold Scheduler_create_task, MAX_SCHEDULER_TASKS.
  rewrite (bind_run _ _ _ _ _ (eq_refl : get _ = Done _)). rewrite Hc.
  pose proof (task_ids_length (tasks s)) as Hle.
  destruct (Z.leb_spec 8 (Z.of_nat (length (task_ids (tasks s))))); [right; split; [right; lia|done]|].
  pose proof (Permutation_length Hsame) as Hlen.
  destruct (push_run (run_queue s) (id t) Hq)
    as [(Hnew & _ & l1 & l2 & q' & E1 & E2 & Epush & Hq')|[[Hin|Hfull] Epush]].
  - left. split; [done|]. split; [lia|].
    destruct (fill_task_Some t (tasks s)) as (k1 & k2 & Ek & Efill); [lia|].
    eexists. split.
    { cbv zeta. rewrite (bind_run _ _ _ _ _ (sched_queue_run _ _ _ _ Epush)). cbn [negb].
      rewrite (bind_run _ _ _ _ _ (eq_refl : get _ = Done _)). cbn [tasks task_count]. rewrite Efill.
      erewrite bind_run; [|unfold lift; by rewrite add_u_Done by lia]. done. }
    assert (ids q' ≡ₚ id t :: ids (run_queue s)) as Hp by (rewrite E1, E2; by rewrite Permutation_middle).
    assert (task_ids (k1 ++ Some t :: k2) ≡ₚ id t :: task_ids (tasks s)) as Hp2.
    { rewrite Ek, !task_ids_app, !task_ids_cons. by rewrite Permutation_middle. }
    rewrite Hsame in Hnew. split; [|split; [done|split; [done|]]].
    + split; cbn [run_queue tasks task_count current_task set_tasks].
      * done.
      * rewrite <- Hl, Ek, !length_app. done.
      * rewrite Hp2. by constructor.
      * by rewrite Hp, Hp2, Hsame.
      * rewrite Hp2. simpl. lia.
      * intros x Hx. rewrite Hp. right. by apply Hcur.
    + intros y. unfold Scheduler_task. cbn [tasks set_tasks]. rewrite Ek, !find_app. cbn [find_task].
      apply find_task_None in Hnew. rewrite Ek, find_app in Hnew. cbn [find_task] in Hnew.
      destruct (Z.eqb_spec y (id t)) as [->|Hy].
      * rewrite Z.eqb_refl. by destruct (find_task (id t) k1).
      * by rewrite (proj2 (Z.eqb_neq (id t) y)) by congruence.
  - right. split; [by left|]. cbv zeta. rewrite (bind_run _ _ _ _ _ (sched_queue_run _ _ _ _ Epush)).
    by destruct s.
  - exfalso. rewrite Hfull in Hlen. lia.
Qed.

Lemma remove_task_run s x : sched_ok s →
  (x ∈ ids (run_queue s) ∧ ∃ s', Scheduler_remove_task x s = Done (true, s') ∧ sched_ok s' ∧
     x :: ids (run_queue s') ≡ₚ ids (run_queue s) ∧
     (∀ y, Scheduler_task s' y = if y =? x then None else Scheduler_task s y) ∧
     current_task s' = if decide (current_task s = Some x) then RunQueue_first (run_queue s')
                       else current_task s) ∨
  ((x ∉ ids (run_queue s)) ∧ Scheduler_remove_task x s = Done (false, s)).
Proof.
  intros [Hq Hl Hnd Hsame Hc Hcur]. unfold Scheduler_remove_task.
  destruct (remove_run (run_queue s) x Hq) as [(Hin & l1 & l2 & q' & E1 & E2 & Er & Hq')|[Hn Er]].
  2:{ right. split; [done|]. rewrite (bind_run _ _ _ _ _ (sched_queue_run _ _ _ _ Er)). by destruct s. }
  left. split; [done|]. rewrite (bind_run _ _ _ _ _ (sched_queue_run _ _ _ _ Er)). cbn [negb].
  assert (x :: ids q' ≡ₚ ids (run_queue s)) as Hp by (rewrite E1, E2; by rewrite Permutation_middle).
  destruct (clear_task_spec x (tasks s) Hnd) as (Hlen' & (k1 & k2 & Ek1 & Ek2) & Hfind).
  rewrite decide_True in Ek1 by (by rewrite <- Hsame).
  assert (x :: task_ids (clear_task x (tasks s)) ≡ₚ task_ids (tasks s)) as Hp2
    by (rewrite Ek1, Ek2; simpl; by rewrite Permutation_middle).
  pose proof (Permutation_length Hp2) as Hcnt. simpl in Hcnt.
  rewrite (bind_run _ _ _ _ _ (eq_refl : get _ = Done _)). cbn [tasks task_count]. cbv zeta.
  rewrite Hc, (proj2 (Z.ltb_lt _ _)) by lia.
  erewrite bind_run; [|unfold lift; by rewrite sub_u_Done by lia].
  rewrite (bind_run _ _ _ _ _ (eq_refl : put _ _ = Done _)).
  rewrite (bind_run _ _ _ _ _ (eq_refl : get _ = Done _)).
  cbn [current_task set_tasks run_queue task_count scheduler_ticks tasks].
  assert (∀ c, (∀ y, c = Some y → y ∈ ids q') →
    sched_ok (mkScheduler q' c (Z.of_nat (length (task_ids (tasks s))) - 1) (scheduler_ticks s)
                (clear_task x (tasks s)))) as Hok.
  { intros c Hcc. split; cbn [run_queue tasks task_count current_task]; [done|by rewrite Hlen'| | | |done].
    - rewrite <- Hp2 in Hnd. by apply NoDup_cons in Hnd as [_ Hnd].
    - apply (Permutation_cons_inv (a:=x)). by rewrite Hp, Hp2.
    - lia. }
  destruct (decide (current_task s = Some x)) as [Hx|Hx].
  - eexists. split; [done|]. split; [apply Hok|].
    { intros y. rewrite RunQueue_first_ids. intros Hy. destruct (ids q') as [|z zs]; [done|].
      injection Hy as ->. left. }
    done.
  - eexists. split; [done|]. split; [apply Hok|done].
    intros y Hy. specialize (Hcur y Hy). rewrite <- Hp in Hcur.
    apply elem_of_cons in Hcur as [->|]; done.
Qed.

Lemma set_current_run s x : sched_ok s → ∃ s',
  Scheduler_set_current x s = Done (RunQueue_contains (run_queue s) x, s') ∧ sched_ok s'.
Proof.
  intros Hs. unfold Scheduler_set_current.
  destruct (RunQueue_contains (run_queue s) x) eqn:E; cbn [negb]; (eexists; split; [done|]); [|done].
  apply RunQueue_contains_iff in E. destruct Hs. split; try done.
  cbn. by intros y [= <-].
Qed.

Lemma keeps_id_ticks a b : keeps_id (λ t, set_ticks (a t) (b t) t).
Proof. done. Qed.

Lemma tick_run s : sched_ok s → ∃ s', Scheduler_tick s = Done ((), s') ∧ sched_ok s' ∧
  run_queue s' = run_queue s ∧ current_task s' = current_task s ∧
  scheduler_ticks s' = wrapping_add 64 (scheduler_ticks s) 1 ∧
  ∀ y, Scheduler_task s' y =
    if decide (current_task s = Some y)
    then (λ t, set_ticks (wrapping_add 64 (time_slice_ticks t) 1)
                 (wrapping_add 64 (total_ticks t) 1) t) <$> Scheduler_task s y
    else Scheduler_task s y.
Proof.
  intros Hs. unfold Scheduler_tick. rewrite (bind_run _ _ _ _ _ (eq_refl : get _ = Done _)).
  rewrite (bind_run _ _ _ _ _ (eq_refl : put _ _ = Done _)).
  set (s1 := mkScheduler _ _ _ _ _).
  assert (sched_ok s1) as Hs1 by (destruct Hs; by split).
  destruct (current_task s) as [x|] eqn:Hx.
  - destruct (task_mut_run s1 x (λ t, set_ticks (wrapping_add 64 (time_slice_ticks t) 1)
      (wrapping_add 64 (total_ticks t) 1) t)) as (b & s' & E & _ & Eq & Ec & Et & Hok & Hf); [done|].
    exists s'. rewrite (bind_run _ _ _ _ _ E). split; [done|]. split; [by apply Hok|].
    split; [done|]. split; [done|]. split; [done|].
    intros y. rewrite Hf. destruct (Z.eqb_spec y x) as [->|Hy].
    + by rewrite decide_True.
    + rewrite decide_False by congruence. done.
  - exists s1. do 5 (split; [done|]). intros y. done.
Qed.

(** The task [schedule] chooses: the first one after the rotation. *)
Definition next_task (s : Scheduler) : option TaskId := head (ids (rotated (run_queue s))).

Lemma schedule_run s : sched_ok s → ∃ s', Scheduler_schedule s = Done ((), s') ∧ sched_ok s' ∧
  run_queue s' = rotated (run_queue s) ∧ tasks s' = tasks s ∧
  scheduler_ticks s' = scheduler_ticks s ∧ current_task s' = next_task s.
Proof.
  intros Hs. pose proof Hs as [Hq Hl Hnd Hsame Hc Hcur]. pose proof (ro_count _ Hq) as Hqc.
  unfold Scheduler_schedule. rewrite (bind_run _ _ _ _ _ (eq_refl : get _ = Done _)).
  unfold RunQueue_is_empty, next_task. destruct (Z.eqb_spec (rq_count (run_queue s)) 0) as [H0|H0].
  - eexists. split; [done|]. split; [split; done|]. unfold rotated. rewrite H0. cbn.
    do 3 (split; [done|]). rewrite H0 in Hqc. by destruct (ids (run_queue s)).
  - destruct (rotated_ok _ Hq) as [Hq' Hp].
    rewrite (bind_run _ _ _ _ _ (sched_queue_run _ _ _ _ (rotate_run _ Hq))).
    rewrite (bind_run _ _ _ _ _ (eq_refl : get _ = Done _)).
    pose proof (RunQueue_first_ids (rotated (run_queue s))) as Hfirst.
    eexists. split; [done|]. split; [|split; [done|split; [done|split; [done|exact Hfirst]]]].
    split; cbn; [done|done|done|by rewrite Hp|done|].
    intros y Hy. rewrite Hfirst in Hy. destruct (ids (rotated _)) as [|z zs]; [done|].
    injection Hy as ->. left.
Qed.

(** ** Sequences of scheduler calls *)

Inductive sched_op :=
| OpCreate (t : Task)
| OpRemove (x : TaskId)
| OpSetCurrent (x : TaskId)
| OpTick
| OpSchedule
| OpUpdate (x : TaskId) (s : TaskState) (rsp : Z).

Definition sched_step (op : sched_op) : M Scheduler unit :=
  match op with
  | OpCreate t => Scheduler_create_task t ;; mret ()
  | OpRemove x => Scheduler_remove_task x ;; mret ()
  | OpSetCurrent x => Scheduler_set_current x ;; mret ()
  | OpTick => Scheduler_tick
  | OpSchedule => Scheduler_schedule
  | OpUpdate x st rsp => Scheduler_task_mut x (λ t, Task_set_state st (set_interrupt_rsp rsp t)) ;; mret ()
  end.
Fixpoint sched_steps (ops : list sched_op) : M Scheduler unit :=
  match ops with
  | [] => mret ()
  | op :: rest => sched_step op ;; sched_steps rest
  end.

Lemma sched_step_ok op s : sched_ok s → ∃ s', sched_step op s = Done ((), s') ∧ sched_ok s'.
Proof.
  intros Hs. destruct op as [t|x|x| | |x st rsp]; simpl.
  - destruct (create_run s t Hs) as [(_ & _ & s' & E & Hs' & _)|[_ E]];
      rewrite (bind_run _ _ _ _ _ E); eauto.
  - destruct (remove_task_run s x Hs) as [(_ & s' & E & Hs' & _)|[_ E]];
      rewrite (bind_run _ _ _ _ _ E); eauto.
  - destruct (set_current_run s x Hs) as (s' & E & Hs'). rewrite (bind_run _ _ _ _ _ E). eauto.
  - destruct (tick_run s Hs) as (s' & E & Hs' & _). eauto.
  - destruct (schedule_run s Hs) as (s' & E & Hs' & _). eauto.
  - destruct (task_mut_run s x (λ t, Task_set_state st (set_interrupt_rsp rsp t)))
      as (b & s' & E & _ & _ & _ & _ & Hok & _); [done|]. rewrite (bind_run _ _ _ _ _ E). eauto.
Qed.

(** C24: The scheduler keeps its books: after any sequence of create, remove,
    set_current, tick, schedule and in-place task updates on a new scheduler,
    none of which panics, the run queue and the task slots hold the same tasks,
    each once, the two counters are their number (at most eight), and the
    current task, if any, is one of them. *)
Theorem scheduler_invariant ops : ∃ s,
  sched_steps ops Scheduler_new = Done ((), s) ∧
  ids (run_queue s) ≡ₚ task_ids (tasks s) ∧ NoDup (task_ids (tasks s)) ∧
  RunQueue_len (run_queue s) = Scheduler_task_count s ∧
  Scheduler_task_count s = Z.of_nat (length (task_ids (tasks s))) ∧
  Scheduler_task_count s ≤ MAX_SCHEDULER_TASKS ∧
  (∀ x, Scheduler_current s = Some x → is_Some (Scheduler_task s x)).
Proof.
  assert (∃ s, sched_steps ops Scheduler_new = Done ((), s) ∧ sched_ok s) as (s & E & Hs).
  { generalize Scheduler_new_ok. generalize Scheduler_new.
    induction ops as [|op ops IH]; intros s Hs; [by exists s|].
    destruct (sched_step_ok op s Hs) as (s1 & E1 & Hs1). destruct (IH s1 Hs1) as (s2 & E2 & Hs2).
    exists s2. split; [|done]. cbn [sched_steps]. by rewrite (bind_run _ _ _ _ _ E1). }
  exists s. split; [done|]. pose proof Hs as [Hq Hl Hnd Hsame Hc Hcur].
  pose proof (task_ids_length (tasks s)). pose proof (Permutation_length Hsame).
  split; [done|]. split; [done|].
  unfold RunQueue_len, Scheduler_task_count, MAX_SCHEDULER_TASKS, Scheduler_current, Scheduler_task.
  split; [rewrite (ro_count _ Hq); lia|]. split; [done|]. split; [lia|].
  intros x Hx. destruct (sched_find s x Hs (Hcur x Hx)) as [t Ht]. eauto.
Qed.

(** C30: [create_task] and [remove_task] manage exactly the named task.
    [create_task] stores a task when fewer than eight are stored and none has
    its id, and then it is found under its id and every other task as before;
    otherwise it returns nothing and changes nothing.  [remove_task] undoes it:
    removing the task that was just created gives back the same tasks under the
    same ids, the same queue up to order, and the same current task. *)
Theorem create_remove_task s t : sched_ok s →
  match Scheduler_create_task t s with
  | Done (Some x, s1) => x = id t ∧ Scheduler_task s x = None ∧ Scheduler_task_count s < MAX_SCHEDULER_TASKS ∧
      (∀ y, Scheduler_task s1 y = if y =? x then Some t else Scheduler_task s y) ∧
      ∃ s2, Scheduler_remove_task x s1 = Done (true, s2) ∧
        (∀ y, Scheduler_task s2 y = Scheduler_task s y) ∧
        ids (run_queue s2) ≡ₚ ids (run_queue s) ∧ Scheduler_current s2 = Scheduler_current s
  | Done (None, s1) => s1 = s ∧
      (is_Some (Scheduler_task s (id t)) ∨ Scheduler_task_count s = MAX_SCHEDULER_TASKS)
  | Panicked _ => False
  end.
Proof.
  intros Hs. pose proof Hs as [_ _ Hnd Hsame Hc Hcur]. unfold Scheduler_task_count, MAX_SCHEDULER_TASKS.
  destruct (create_run s t Hs) as [(Hn & Hlt & s1 & -> & Hs1 & Ec1 & Hp1 & Hf1)|[Hwhy ->]].
  - assert (Scheduler_task s (id t) = None) as Hnone.
    { apply find_task_None. by rewrite <- Hsame. }
    split; [done|]. split; [done|]. split; [lia|]. split; [done|].
    destruct (remove_task_run s1 (id t) Hs1) as [(_ & s2 & E & Hs2 & Hp2 & Hf2 & Ec2)|[Hx _]].
    + exists s2. split; [done|]. split; [|split].
      * intros y. rewrite Hf2, Hf1. by destruct (Z.eqb_spec y (id t)) as [->|].
      * apply (Permutation_cons_inv (a:=id t)). by rewrite Hp2, Hp1.
      * unfold Scheduler_current. rewrite Ec2, decide_False; [done|]. rewrite Ec1. intros Hx.
        apply Hn. by apply Hcur.
    + destruct Hx. rewrite Hp1. left.
  - split; [done|]. destruct Hwhy as [Hin|Hfull]; [left|right; lia].
    destruct (sched_find s (id t) Hs Hin) as [u Hu]. eauto.
Qed.

(** ** What a timer interrupt does *)

(** The interrupted task with its frame and its ticks. *)
Definition accounted (rsp : Z) (st : TaskState) (slice : Z) (t : Task) : Task :=
  mkTask (id t) st (priority t) slice (wrapping_add 64 (total_ticks t) 1) (context t) rsp.
Definition next_slice (t : Task) : Z := wrapping_add 64 (time_slice_ticks t) 1.

Section outcome.
Context (k : kernel) (rsp : Z) (x : TaskId) (t : Task).

(** The possible outcomes for the current task [x], with the value returned. *)
Inductive timer_outcome : Z → kernel → Prop :=
| timer_continue k' :
    next_slice t < DEFAULT_TIME_SLICE_TICKS →
    current_task (sched k') = Some x → run_queue (sched k') = run_queue (sched k) →
    debug_count k' = debug_count k →
    (∀ y, Scheduler_task (sched k') y =
       if y =? x then Some (accounted rsp Running (next_slice t) t) else Scheduler_task (sched k) y) →
    timer_outcome 0 k'
| timer_alone k' :
    DEFAULT_TIME_SLICE_TICKS ≤ next_slice t → next_task (sched k) = Some x →
    current_task (sched k') = Some x → run_queue (sched k') = rotated (run_queue (sched k)) →
    debug_count k' = debug_count k →
    (∀ y, Scheduler_task (sched k') y =
       if y =? x then Some (accounted rsp Running 0 t) else Scheduler_task (sched k) y) →
    timer_outcome 0 k'
| timer_abort k' y n :
    DEFAULT_TIME_SLICE_TICKS ≤ next_slice t → next_task (sched k) = Some y → y ≠ x →
    Scheduler_task (sched k) y = Some n →
    validate_interrupt_frame (kmem k) (interrupt_rsp n) = false →
    current_task (sched k') = Some x → run_queue (sched k') = rotated (run_queue (sched k)) →
    debug_count k' = debug_count k + 1 →
    (∀ z, Scheduler_task (sched k') z =
       if z =? x then Some (accounted rsp Running 0 t)
       else if z =? y then Some (Task_set_state Ready n) else Scheduler_task (sched k) z) →
    timer_outcome 0 k'
| timer_switch k' y n :
    DEFAULT_TIME_SLICE_TICKS ≤ next_slice t → next_task (sched k) = Some y → y ≠ x →
    Scheduler_task (sched k) y = Some n →
    validate_interrupt_frame (kmem k) (interrupt_rsp n) = true →
    current_task (sched k') = Some y → run_queue (sched k') = rotated (run_queue (sched k)) →
    debug_count k' = debug_count k + 1 →
    (∀ z, Scheduler_task (sched k') z =
       if z =? x then Some (accounted rsp Ready (next_slice t) t)
       else if z =? y then Some (restart Running n) else Scheduler_task (sched k) z) →
    timer_outcome (interrupt_rsp n) k'.
End outcome.

Lemma on_sched_run {B} (m : M Scheduler B) k b s' : m (sched k) = Done (b, s') →
  on_sched m k = Done (b, mkKernel s' (kmem k) (debug_count k)).
Proof. intros E. unfold on_sched, zoom. by rewrite E. Qed.

(** An update whose result is not looked at. *)
Lemma mut_run k x f : keeps_id f → sched_ok (sched k) → ∃ b s',
  on_sched (Scheduler_task_mut x f) k = Done (b, mkKernel s' (kmem k) (debug_count k)) ∧
  sched_ok s' ∧ run_queue s' = run_queue (sched k) ∧ current_task s' = current_task (sched k) ∧
  (∀ y, Scheduler_task s' y =
     if y =? x then f <$> Scheduler_task (sched k) x else Scheduler_task (sched k) y) ∧
  b = bool_decide (is_Some (Scheduler_task (sched k) x)).
Proof.
  intros Hf Hs. destruct (task_mut_run (sched k) x f Hf) as (b & s' & E & Hb & Eq & Ec & _ & Hok & Hfind).
  exists b, s'. split; [by apply on_sched_run|]. auto.
Qed.

Lemma current_run k c : on_sched (λ s, Done ((), set_current_task c s)) k =
  Done ((), mkKernel (set_current_task c (sched k)) (kmem k) (debug_count k)).
Proof. done. Qed.

(** Saving the frame and accounting the tick. *)
Lemma timer_account k rsp x t : sched_ok (sched k) → current_task (sched k) = Some x →
  Scheduler_task (sched k) x = Some t → ∃ s1 s2,
  on_sched (Scheduler_task_mut x (λ t, Task_set_state Running (set_interrupt_rsp rsp t))) k
    = Done (true, mkKernel s1 (kmem k) (debug_count k)) ∧
  on_sched Scheduler_tick (mkKernel s1 (kmem k) (debug_count k))
    = Done ((), mkKernel s2 (kmem k) (debug_count k)) ∧
  sched_ok s2 ∧ current_task s2 = Some x ∧ run_queue s2 = run_queue (sched k) ∧
  ∀ y, Scheduler_task s2 y =
    if y =? x then Some (accounted rsp Running (next_slice t) t) else Scheduler_task (sched k) y.
Proof.
  intros Hs Hx Ht.
  destruct (mut_run k x (λ t, Task_set_state Running (set_interrupt_rsp rsp t)))
    as (b & s1 & E1 & Hs1 & Eq1 & Ec1 & Hf1 & ->); [done|done|].
  rewrite Ht, bool_decide_eq_true_2 in E1 by eauto.
  destruct (tick_run s1 Hs1) as (s2 & E2 & Hs2 & Eq2 & Ec2 & _ & Hf2).
  exists s1, s2. split; [done|].
  split; [exact (on_sched_run _ (mkKernel s1 (kmem k) (debug_count k)) _ _ E2)|]. split; [done|].
  split; [congruence|]. split; [congruence|]. intros y. rewrite Hf2, Hf1, Ec1, Hx.
  destruct (Z.eqb_spec y x) as [->|Hy].
  - rewrite decide_True by done. rewrite Ht. done.
  - rewrite decide_False by congruence. done.
Qed.

Definition timer_post (k : kernel) rsp x t (r : Z) (k' : kernel) : Prop :=
  sched_ok (sched k') ∧ kmem k' = kmem k ∧ timer_outcome k rsp x t r k'.

(** The end of a full slice with a next task: [k] is the state at the tick, [s2]
    the scheduler after the accounting and the choice of [y]. *)
Lemma timer_switch_run k rsp x t s3 y n : sched_ok s3 → current_task s3 = Some y →
  next_task (sched k) = Some y → y ≠ x →
  run_queue s3 = rotated (run_queue (sched k)) → x ∈ ids (run_queue s3) →
  DEFAULT_TIME_SLICE_TICKS ≤ next_slice t → 0 ≤ debug_count k < 2 ^ 64 - 1 →
  (∀ z, Scheduler_task s3 z =
     if z =? x then Some (accounted rsp Running (next_slice t) t) else Scheduler_task (sched k) z) →
  Scheduler_task (sched k) y = Some n →
  ∃ r k', (c ← lift (add_u 64 (debug_count k) 1);
    put (mkKernel s3 (kmem k) (cast 64 c)) ;;
    if negb (validate_interrupt_frame (kmem k) (interrupt_rsp n)) then
      on_sched (λ s, Done ((), set_current_task (Some x) s)) ;;
      on_sched (Scheduler_task_mut x (restart Running)) ;;
      on_sched (Scheduler_task_mut y (Task_set_state Ready)) ;; mret 0
    else
      on_sched (Scheduler_task_mut x (Task_set_state Ready)) ;;
      on_sched (Scheduler_task_mut y (restart Running)) ;; mret (interrupt_rsp n))
    (mkKernel s3 (kmem k) (debug_count k)) = Done (r, k') ∧ timer_post k rsp x t r k'.
Proof.
  intros Hs3 Hy Hnext Hyx Hq3 Hxin Hexp Hd Hf3 Hn.
  erewrite bind_run; [|unfold lift; by rewrite add_u_Done by lia].
  rewrite (bind_run _ _ _ _ _ (eq_refl : put _ _ = Done _)).
  set (k3 := mkKernel s3 (kmem k) _).
  destruct (validate_interrupt_frame (kmem k) (interrupt_rsp n)) eqn:Hv; cbn [negb].
  - destruct (mut_run k3 x (Task_set_state Ready)) as (b1 & s4 & E4 & Hs4 & Eq4 & Ec4 & Hf4 & _); [done|done|].
    rewrite (bind_run _ _ _ _ _ E4).
    destruct (mut_run (mkKernel s4 (kmem k3) (debug_count k3)) y (restart Running))
      as (b2 & s5 & E5 & Hs5 & Eq5 & Ec5 & Hf5 & _); [done|done|].
    rewrite (bind_run _ _ _ _ _ E5). eexists _, _. split; [done|]. split; [done|]. split; [done|].
    eapply (timer_switch _ _ _ _ _ y n); cbn [sched];
      [done|done|done|done|done|rewrite Ec5; cbn; by rewrite Ec4|rewrite Eq5; cbn; by rewrite Eq4|exact (cast_small (debug_count k + 1) ltac:(lia))|].
    intros z. rewrite Hf5. cbn [sched]. rewrite !Hf4. cbn [sched k3]. rewrite !Hf3, Z.eqb_refl.
    rewrite (proj2 (Z.eqb_neq y x)), Hn by done.
    destruct (Z.eqb_spec z y) as [->|Hzy]; [by rewrite (proj2 (Z.eqb_neq y x)) by done|].
    by destruct (Z.eqb_spec z x).
  - rewrite (bind_run _ _ _ _ _ (current_run k3 (Some x))).
    destruct (mut_run (mkKernel (set_current_task (Some x) (sched k3)) (kmem k3) (debug_count k3))
      x (restart Running)) as (b1 & s4 & E4 & Hs4 & Eq4 & Ec4 & Hf4 & _); [done| |].
    { destruct Hs3. split; try done. cbn. by intros z [= <-]. }
    rewrite (bind_run _ _ _ _ _ E4).
    destruct (mut_run (mkKernel s4 (kmem k3) (debug_count k3)) y (Task_set_state Ready))
      as (b2 & s5 & E5 & Hs5 & Eq5 & Ec5 & Hf5 & _); [done|done|].
    cbn [kmem debug_count] in E5 |- *. rewrite (bind_run _ _ _ _ _ E5).
    eexists _, _. split; [done|]. split; [done|]. split; [done|].
    change (Scheduler_task (sched (mkKernel (set_current_task (Some x) (sched k3)) (kmem k3) (debug_count k3))))
      with (Scheduler_task s3) in Hf4.
    eapply (timer_abort _ _ _ _ _ y n); cbn [sched];
      [done|done|done|done|done|rewrite Ec5; cbn; by rewrite Ec4|rewrite Eq5; cbn; by rewrite Eq4|exact (cast_small (debug_count k + 1) ltac:(lia))|].
    intros z. rewrite Hf5. cbn [sched]. rewrite !Hf4, !Hf3, Z.eqb_refl.
    rewrite (proj2 (Z.eqb_neq y x)), Hn by done.
    destruct (Z.eqb_spec z y) as [->|Hzy]; [by rewrite (proj2 (Z.eqb_neq y x)) by done|].
    by destruct (Z.eqb_spec z x).
Qed.

Lemma timer_tick_run k rsp x : sched_ok (sched k) → 0 ≤ debug_count k < 2 ^ 64 - 1 →
  current_task (sched k) = Some x → ∃ t r k', Scheduler_task (sched k) x = Some t ∧
  timer_interrupt rsp k = Done (r, k') ∧ timer_post k rsp x t r k'.
Proof.
  intros Hs Hd Hx. unfold timer_interrupt.
  rewrite (bind_run _ _ _ _ _ (eq_refl : get _ = Done _)). rewrite Hx.
  pose proof (so_current _ Hs x Hx) as Hxin. destruct (sched_find _ x Hs Hxin) as [t Ht].
  exists t. destruct (timer_account k rsp x t Hs Hx Ht) as (s1 & s2 & E1 & E2 & Hs2 & Ec2 & Eq2 & Hf2).
  rewrite (bind_run _ _ _ _ _ E1). cbn [negb]. rewrite (bind_run _ _ _ _ _ E2).
  rewrite (bind_run _ _ _ _ _ (eq_refl : get _ = Done _)). cbn [sched].
  rewrite (Hf2 x), Z.eqb_refl. change (time_slice_ticks (accounted rsp Running (next_slice t) t)) with (next_slice t).
  destruct (Z.leb_spec DEFAULT_TIME_SLICE_TICKS (next_slice t)) as [Hexp|Hexp]; cbn [negb].
  2:{ eexists _, _. split; [done|]. split; [done|]. split; [done|]. split; [done|].
      by apply timer_continue. }
  destruct (schedule_run s2 Hs2) as (s3 & E3 & Hs3 & Eq3 & Et3 & _ & Ec3).
  rewrite (bind_run _ _ _ _ _ (on_sched_run _ (mkKernel s2 (kmem k) (debug_count k)) _ _ E3)).
  rewrite (bind_run _ _ _ _ _ (eq_refl : get _ = Done _)). cbn [sched kmem debug_count].
  assert (∀ z, Scheduler_task s3 z =
     if z =? x then Some (accounted rsp Running (next_slice t) t) else Scheduler_task (sched k) z) as Hf3.
  { intros z. unfold Scheduler_task at 1. rewrite Et3. apply Hf2. }
  rewrite Eq2 in Eq3. unfold next_task in Ec3. rewrite Eq2 in Ec3. fold (next_task (sched k)) in Ec3.
  assert (x ∈ ids (run_queue s3)) as Hx3.
  { rewrite Eq3. by rewrite (proj2 (rotated_ok _ (so_queue _ Hs))). }
  destruct (current_task s3) as [y|] eqn:Hy.
  2:{ exfalso. unfold next_task in Ec3. rewrite <- Eq3 in Ec3.
      destruct (ids (run_queue s3)); [by apply not_elem_of_nil in Hx3|done]. }
  symmetry in Ec3. destruct (Z.eqb_spec y x) as [->|Hyx].
  - destruct (mut_run (mkKernel s3 (kmem k) (debug_count k)) x (restart Running))
      as (b & s4 & E4 & Hs4 & Eq4 & Ec4 & Hf4 & _); [done|done|].
    rewrite (bind_run _ _ _ _ _ E4). eexists _, _. split; [done|]. split; [done|].
    split; [done|]. split; [done|]. cbn [sched] in Hf4.
    apply timer_alone; cbn [sched]; [done|done|rewrite Ec4; exact Hy|rewrite Eq4; exact Eq3|done|].
    intros z. rewrite Hf4, !Hf3, Z.eqb_refl. by destruct (Z.eqb_spec z x).
  - destruct (sched_find s3 y Hs3 (so_current _ Hs3 y Hy)) as [n Hn]. fold (Scheduler_task s3 y) in Hn.
    rewrite Hf3, (proj2 (Z.eqb_neq y x)) in Hn by done.
    rewrite (Hf3 y), (proj2 (Z.eqb_neq y x)), Hn by done. cbv zeta.
    destruct (timer_switch_run k rsp x t s3 y n Hs3 Hy Ec3 Hyx Eq3 Hx3 Hexp Hd Hf3 Hn)
      as (r & k' & E & Hs' & Hm & Ho).
    exists r, k'. split; [done|]. split; [exact E|]. done.
Qed.

(** C23: A timer interrupt with no current task does nothing.  With a current
    task it saves the interrupt frame in it and counts one tick; while the slice
    of five ticks lasts that is all.  At its end the run queue is rotated and its
    first task chosen: the same task starts a new slice; another one whose saved
    frame is not valid is refused, and the current task starts a new slice;
    another one whose frame is valid becomes current, running and at the start
    of its slice, the old task becomes ready, and the call returns the new
    task's frame.  No other task changes, no memory is written, and the
    scheduler's invariant holds afterwards; no call panics while the switch
    counter is below its maximum. *)
Theorem timer_interrupt_spec k rsp : sched_ok (sched k) → 0 ≤ debug_count k < 2 ^ 64 - 1 →
  match current_task (sched k) with
  | None => timer_interrupt rsp k = Done (0, k)
  | Some x => ∃ t r k', Scheduler_task (sched k) x = Some t ∧
      timer_interrupt rsp k = Done (r, k') ∧
      sched_ok (sched k') ∧ kmem k' = kmem k ∧ timer_outcome k rsp x t r k'
  end.
Proof.
  intros Hs Hd. destruct (current_task (sched k)) as [x|] eqn:Hx; [by apply timer_tick_run|].
  unfold timer_interrupt. rewrite (bind_run _ _ _ _ _ (eq_refl : get _ = Done _)). by rewrite Hx.
Qed.

(** Two tasks, the first one current, at the end of its slice; the frame of the
    second is at 0x8000. *)
Definition two_slots : list (option Task) :=
  Some (mkTask 1 Running 1 4 4 TaskContext_empty 0) ::
  Some (mkTask 2 Ready 1 0 0 TaskContext_empty 0x8000) :: replicate 6 None.
Definition sample_scheduler : Scheduler :=
  mkScheduler (two_tasks 1 2) (Some 1) 2 4 two_slots.
Definition sample_kernel : kernel :=
  mkKernel sample_scheduler (write_words ∅ 0x8000 (interrupt_frame 0x150000)) 0.

Lemma sample_scheduler_ok : sched_ok sample_scheduler.
Proof.
  assert (NoDup [1; 2]) as Hnd by (apply (bool_decide_unpack _); vm_compute; exact I).
  split; [split; [reflexivity|exact Hnd|reflexivity]|reflexivity|exact Hnd|reflexivity|reflexivity|].
  intros x [= <-]. left.
Qed.

Lemma create_remove_task_witness : ∃ s1 s2,
  Scheduler_create_task (Task_new 3 1) sample_scheduler = Done (Some 3, s1) ∧
  Scheduler_remove_task 3 s1 = Done (true, s2) ∧
  ∀ y, Scheduler_task s2 y = Scheduler_task sample_scheduler y.
Proof.
  pose proof (create_remove_task sample_scheduler (Task_new 3 1) sample_scheduler_ok) as H.
  destruct (Scheduler_create_task (Task_new 3 1) sample_scheduler) as [[[x|] s1]|] eqn:E.
  - destruct H as (-> & _ & _ & _ & s2 & E2 & Hf & _). exists s1, s2.
    split; [reflexivity|]. split; [exact E2|exact Hf].
  - exfalso. vm_compute in E. discriminate.
  - destruct H.
Defined.

(** The fifth tick of the first task switches to the second. *)
Lemma timer_interrupt_spec_witness : ∃ k',
  timer_interrupt 0x9000 sample_kernel = Done (0x8000, k') ∧ sched_ok (sched k') ∧
  current_task (sched k') = Some 2.
Proof.
  destruct (timer_interrupt_spec sample_kernel 0x9000 sample_scheduler_ok)
    as (t & r & k' & Ht & E & Hs & _ & Ho); [vm_compute; split; congruence|].
  assert (r = 0x8000) as ->.
  { apply (f_equal (λ o, match o with Done (x, _) => x | _ => 0 end)) in E.
    vm_compute in E. symmetry. exact E. }
  exists k'. split; [exact E|]. split; [exact Hs|].
  refine (match Ho in timer_outcome _ _ _ _ r k' return r = 0x8000 → current_task (sched k') = Some 2 with
    | timer_switch _ _ _ _ _ y n _ Hn _ _ _ Hc _ _ _ => λ _, eq_trans Hc (eq_sym (eq_trans _ Hn))
    | _ => _ end eq_refl); [intros ?; discriminate..|reflexivity].
Defined.
