(* ===== verification/Preempt.v ===== *)
(** * Starting and switching tasks (kernel/src/scheduler/mod.rs)

    The free functions around [SCHEDULER]: creating tasks, the cooperative
    switches, and the two scheduling tests.  A [system] is the kernel state of
    Scheduler.v with the module's other statics.  [context::switch(old, new)]
    saves the context it is called in, the argument [here], in [old], and the
    function's result is the context execution continues with (Task.v shows
    that [unbound_context_switch] does this).  Addresses that the linker and
    the stack layout fix are arguments. *)

From S2P Require Import Prelude Cpu Task RunQueue Scheduler.
Local Open Scope Z_scope.

Record system := mkSystem {
  kern : kernel;
  test_kernel_context : TaskContext;
  test_task_a_id : TaskId;
  test_task_b_id : TaskId;
  preempt_task_a_id : TaskId;
  preempt_task_b_id : TaskId;
  preempt_ticks_a : Z;
  preempt_ticks_b : Z;
  next_task_id : Z;
}.

Definition set_kern (k : kernel) (s : system) : system :=
  mkSystem k (test_kernel_context s) (test_task_a_id s) (test_task_b_id s) (preempt_task_a_id s)
    (preempt_task_b_id s) (preempt_ticks_a s) (preempt_ticks_b s) (next_task_id s).
Definition set_next (n : Z) (s : system) : system :=
  mkSystem (kern s) (test_kernel_context s) (test_task_a_id s) (test_task_b_id s)
    (preempt_task_a_id s) (preempt_task_b_id s) (preempt_ticks_a s) (preempt_ticks_b s) n.
Definition on_kernel {B} (m : M kernel B) : M system B := zoom kern set_kern m.
Definition new_id : M system TaskId := zoom next_task_id set_next allocate_task_id.
Definition set_kernel_context (c : TaskContext) : M system unit := λ s,
  Done ((), mkSystem (kern s) c (test_task_a_id s) (test_task_b_id s) (preempt_task_a_id s)
    (preempt_task_b_id s) (preempt_ticks_a s) (preempt_ticks_b s) (next_task_id s)).
Definition set_test_ids (a b : TaskId) : M system unit := λ s,
  Done ((), mkSystem (kern s) (test_kernel_context s) a b (preempt_task_a_id s)
    (preempt_task_b_id s) (preempt_ticks_a s) (preempt_ticks_b s) (next_task_id s)).
(** [PREEMPT_TASK_x_ID = ..; PREEMPT_TICKS_x.store(0, ..)]. *)
Definition set_preempt_ids (a b : TaskId) : M system unit := λ s,
  Done ((), mkSystem (kern s) (test_kernel_context s) (test_task_a_id s) (test_task_b_id s)
    a b 0 0 (next_task_id s)).

Definition init : M system unit :=
  on_kernel (on_sched (λ _, Done ((), Scheduler_new))) ;;
  set_kernel_context TaskContext_empty ;;
  set_test_ids 0 0.
(** [current_task], [task_count] and [tick_count] of [SCHEDULER]. *)
Definition scheduler_current (k : kernel) : option TaskId := Scheduler_current (sched k).
Definition scheduler_task_count (k : kernel) : Z := Scheduler_task_count (sched k).
Definition scheduler_tick_count (k : kernel) : Z := Scheduler_ticks (sched k).
Definition timer_tick : M kernel unit := on_sched Scheduler_tick.
Definition schedule : M kernel unit := on_sched Scheduler_schedule.

(** ** Storing a task

    A task holds its kernel stack, so moving it into a slot of [SCHEDULER]
    copies the stack's bytes to the slot's stack. *)

(** The slot a task is in. *)
Fixpoint slot_index (task_id : TaskId) (slots : list (option Task)) : nat :=
  match slots with
  | Some t :: rest => if id t =? task_id then 0%nat else S (slot_index task_id rest)
  | None :: rest => S (slot_index task_id rest)
  | [] => 0%nat
  end.

Definition stack_length : nat := Z.to_nat KERNEL_STACK_SIZE.
Definition new_stack : list Z := replicate stack_length 0.

Section preempt.
(** The address of [SCHEDULER.tasks[i].kernel_stack] and of the functions whose
    addresses the contexts hold. *)
Context (slot_stack : nat → Z) (task_exit task_bootstrap trampoline entry_a entry_b : Z).

Definition slot_of (k : kernel) (task_id : TaskId) : Z :=
  slot_stack (slot_index task_id (tasks (sched k))).

(** [SCHEDULER.create_task(task)], the stack's bytes being [stack]. *)
Definition store_task (task : Task) (stack : list Z) : M kernel (option TaskId) :=
  created ← on_sched (Scheduler_create_task task);
  match created with
  | None => mret None
  | Some x =>
      k ← get;
      put (mkKernel (sched k) (store_bytes (kmem k) (slot_of k x) stack) (debug_count k)) ;;
      mret (Some x)
  end.

(** [local] is the address of the local [task]'s stack. *)
Definition create_initial_task (local : Z) : M system (option TaskId) :=
  task_id ← new_id;
  on_kernel (λ k,
    '(_, (task, m)) ← Task_initialize_context local task_exit task_bootstrap
      (Task_new task_id 1, store_bytes (kmem k) local new_stack);
    store_task task (load_bytes m local stack_length) (mkKernel (sched k) m (debug_count k))).

(** ** Cooperative switches: the context execution continues with, if it does. *)

Definition switch_kernel_to_task (here : TaskContext) (task_id : TaskId) : M system (option TaskContext) :=
  s ← get;
  match Scheduler_task (sched (kern s)) task_id with
  | None => mret None
  | Some task =>
      on_kernel (on_sched (λ sc, Done ((), set_current_task (Some task_id) sc))) ;;
      set_kernel_context here ;;
      mret (Some (context task))
  end.

Definition switch_task_to_task (here : TaskContext) (old_task_id new_task_id : TaskId) :
    M kernel (option TaskContext) :=
  if old_task_id =? new_task_id then mret None
  else
    k ← get;
    match Scheduler_task (sched k) old_task_id, Scheduler_task (sched k) new_task_id with
    | Some _, Some task =>
        on_sched (λ sc, Done ((), set_current_task (Some new_task_id) sc)) ;;
        on_sched (Scheduler_task_mut old_task_id (set_context here)) ;;
        mret (Some (context task))
    | _, _ => mret None
    end.

Definition switch_task_to_kernel (here : TaskContext) (task_id : TaskId) : M system TaskContext :=
  s ← get;
  match Scheduler_task (sched (kern s)) task_id with
  | None => λ _, Panicked SpinForever
  | Some _ =>
      on_kernel (on_sched (λ sc, Done ((), set_current_task None sc))) ;;
      on_kernel (on_sched (Scheduler_task_mut task_id (set_context here))) ;;
      mret (test_kernel_context s)
  end.

(** ** The tests, up to the switch that leaves the kernel's own stack *)

Definition run_context_switch_test (here : TaskContext) : M system (option TaskContext) :=
  task_a_id ← new_id;
  task_b_id ← new_id;
  created_a ← on_kernel (store_task (Task_new task_a_id 1) new_stack);
  match created_a with
  | None => mret None
  | Some _ =>
      created_b ← on_kernel (store_task (Task_new task_b_id 1) new_stack);
      match created_b with
      | None => mret None
      | Some _ =>
          set_test_ids task_a_id task_b_id ;;
          switch_kernel_to_task here task_a_id
      end
  end.

(** After the tests' tasks have switched back to the kernel. *)
Definition context_switch_test_cleanup (task_a_id task_b_id : TaskId) : M system unit :=
  on_kernel (on_sched (Scheduler_remove_task task_a_id)) ;;
  on_kernel (on_sched (Scheduler_remove_task task_b_id)) ;;
  set_test_ids 0 0.

(** [if let Some(task) = task_mut(task_id) { task.initialize_interrupt_context(entry);
    task.prepare_preemptive_start() }]. *)
Definition prepare_task (task_id : TaskId) (entry : Z) : M kernel bool := λ k,
  match Scheduler_task (sched k) task_id with
  | None => Done (false, k)
  | Some task =>
      '(_, (task', m)) ← (Task_initialize_interrupt_context (slot_of k task_id) entry ;;
                              Task_prepare_preemptive_start trampoline) (task, kmem k);
      '(_, s) ← Scheduler_task_mut task_id
        (λ t, set_context (context task') (set_interrupt_rsp (interrupt_rsp task') t)) (sched k);
      Done (true, mkKernel s m (debug_count k))
  end.

Definition run_preemptive_test (here : TaskContext) : M system (option TaskContext) :=
  task_a_id ← new_id;
  task_b_id ← new_id;
  created_a ← on_kernel (store_task (Task_new task_a_id 1) new_stack);
  match created_a with
  | None => mret None
  | Some _ =>
      ready_a ← on_kernel (prepare_task task_a_id entry_a);
      if negb ready_a then on_kernel (on_sched (Scheduler_remove_task task_a_id)) ;; mret None
      else
        created_b ← on_kernel (store_task (Task_new task_b_id 1) new_stack);
        match created_b with
        | None => on_kernel (on_sched (Scheduler_remove_task task_a_id)) ;; mret None
        | Some _ =>
            ready_b ← on_kernel (prepare_task task_b_id entry_b);
            if negb ready_b then
              on_kernel (on_sched (Scheduler_remove_task task_b_id)) ;;
              on_kernel (on_sched (Scheduler_remove_task task_a_id)) ;; mret None
            else
              set_preempt_ids task_a_id task_b_id ;;
              on_kernel (on_sched (Scheduler_set_current task_a_id)) ;;
              on_kernel (on_sched (Scheduler_task_mut task_a_id (restart Running))) ;;
              switch_kernel_to_task here task_a_id
        end
  end.
End preempt.

(** ** Memory *)

Lemma new_stack_length : Z.of_nat (length new_stack) = KERNEL_STACK_SIZE.
Proof. unfold new_stack. rewrite length_replicate. exact (Z2Nat.id KERNEL_STACK_SIZE ltac:(unfold KERNEL_STACK_SIZE; lia)). Qed.

Lemma new_stack_lookup i : 0 ≤ i < KERNEL_STACK_SIZE → new_stack !! Z.to_nat i = Some 0.
Proof. intros Hi. apply lookup_replicate_2. unfold stack_length, KERNEL_STACK_SIZE in *. lia. Qed.

Opaque new_stack stack_length.

(** Two memories that agree on a stack. *)
Definition same_stack (stack : Z) (m m' : bytemem) : Prop :=
  ∀ a, stack ≤ a < stack + KERNEL_STACK_SIZE → m' !! a = m !! a.
Definition apart (a b : Z) : Prop := a + KERNEL_STACK_SIZE ≤ b ∨ b + KERNEL_STACK_SIZE ≤ a.

Lemma new_stack_zero m st a : st ≤ a < st + KERNEL_STACK_SIZE → store_bytes m st new_stack !! a = Some 0.
Proof.
  intros Ha. replace a with (st + Z.of_nat (Z.to_nat (a - st))) by lia.
  apply store_bytes_in, new_stack_lookup. lia.
Qed.

Lemma new_stack_same m st st' : apart st' st → same_stack st' m (store_bytes m st new_stack).
Proof.
  intros Hap a Ha. apply store_bytes_other. rewrite new_stack_length.
  unfold apart, KERNEL_STACK_SIZE in *. lia.
Qed.

(** The words of a stack from its synthetic frame on: the frame, then zeros. *)
Definition fresh_frame (m : bytemem) (stack entry : Z) : Prop :=
  (∀ i w, interrupt_frame entry !! i = Some w → le_load m (frame_addr stack + 8 * Z.of_nat i) 8 = w) ∧
  le_load m (frame_addr stack + 152) 8 = 0 ∧ le_load m (frame_addr stack + 160) 8 = 0.

Ltac stack_lia :=
  unfold frame_addr, apart, KERNEL_STACK_SIZE, INITIAL_STACK_RESERVE, INTERRUPT_CONTEXT_SIZE in *; lia.

Lemma fresh_frame_same m m' st entry : same_stack st m m' → fresh_frame m st entry → fresh_frame m' st entry.
Proof.
  intros Hm (R & Z1 & Z2). split; [|split].
  - intros i w Hi. rewrite <- (R i w Hi). apply lookup_lt_Some in Hi.
    change (length (interrupt_frame entry)) with 19%nat in Hi.
    apply le_load_ext. intros j Hj. apply Hm. stack_lia.
  - rewrite <- Z1. apply le_load_ext. intros j Hj. apply Hm. stack_lia.
  - rewrite <- Z2. apply le_load_ext. intros j Hj. apply Hm. stack_lia.
Qed.

Lemma write_words_other ws m a b : b < a ∨ a + 8 * Z.of_nat (length ws) ≤ b →
  write_words m a ws !! b = m !! b.
Proof.
  revert m a. induction ws as [|w ws IH]; intros m a Hb; [done|]. cbn [write_words length] in *.
  rewrite IH by lia. by rewrite le_store_other by lia.
Qed.

Lemma frame_same m st st' entry : apart st' st →
  same_stack st' m (write_words m (frame_addr st) (interrupt_frame entry)).
Proof.
  intros Hap a Ha. apply write_words_other. change (length (interrupt_frame entry)) with 19%nat. stack_lia.
Qed.

Lemma frame_on_new m st entry : in_u 64 entry →
  (∀ a, st ≤ a < st + KERNEL_STACK_SIZE → m !! a = Some 0) →
  fresh_frame (write_words m (frame_addr st) (interrupt_frame entry)) st entry.
Proof.
  intros He Hz. destruct (write_words_run (interrupt_frame entry) m (frame_addr st) (interrupt_frame_u64 _ He)) as [R K].
  change (length (interrupt_frame entry)) with 19%nat in K.
  split; [exact R|]. rewrite !K by lia.
  split; apply le_load_zero; intros i Hi; apply Hz; stack_lia.
Qed.

(** A synthetic frame passes the check exactly when its entry is in the range
    the check accepts. *)
Lemma fresh_frame_valid m st entry : 0 ≤ st → in_u 64 entry → fresh_frame m st entry →
  validate_interrupt_frame m (frame_addr st) = (0x100000 <=? entry) && (entry <? 0x200000).
Proof.
  intros Hst He (R & _). unfold validate_interrupt_frame, read_interrupt_frame_word.
  rewrite (proj2 (Z.eqb_neq _ _)) by stack_lia.
  change (15 * 8) with (8 * Z.of_nat 15). change (16 * 8) with (8 * Z.of_nat 16).
  change (17 * 8) with (8 * Z.of_nat 17). change (18 * 8) with (8 * Z.of_nat 18).
  rewrite (R 15%nat 0x20 eq_refl), (R 16%nat entry eq_refl), (R 17%nat 0x08 eq_refl), (R 18%nat 0x202 eq_refl).
  change (negb (0x20 =? 0x20)) with false. change (negb (0x08 =? 0x08)) with false.
  change (Z.land 0x202 0x2 =? 0) with false. cbv iota.
  destruct (Z.leb_spec 0x100000 entry) as [H1|H1]; [destruct (Z.ltb_spec entry 0x200000) as [H2|H2]|].
  - unfold is_canonical_address. rewrite Z.shiftr_div_pow2, Z.div_small by lia.
    by rewrite (proj2 (Z.ltb_ge _ _)), (proj2 (Z.leb_gt _ _)) by lia.
  - rewrite (proj2 (Z.leb_le 0x200000 entry)), orb_true_r by lia. by destruct (is_canonical_address entry).
  - rewrite (proj2 (Z.ltb_lt entry 0x100000)) by lia. by destruct (is_canonical_address entry).
Qed.

(** ** Slots *)

Lemma slot_index_app x l k : slot_index x (l ++ k) =
  if decide (x ∈ task_ids l) then slot_index x l else (length l + slot_index x k)%nat.
Proof.
  induction l as [|[t|] l IH]; cbn [app slot_index length]; rewrite ?task_ids_cons.
  - rewrite decide_False; [done|apply not_elem_of_nil].
  - destruct (Z.eqb_spec (id t) x) as [<-|Hx].
    + by rewrite decide_True by left.
    + rewrite IH. destruct (decide (x ∈ task_ids l)) as [Hin|Hin].
      * by rewrite decide_True by (by right).
      * rewrite decide_False; [done|]. intros [->|?]%elem_of_cons; done.
  - rewrite IH. by case_decide.
Qed.

Lemma slot_index_find x slots t : find_task x slots = Some t → slots !! slot_index x slots = Some (Some t).
Proof.
  induction slots as [|[u|] slots IH]; [done|..]; cbn [find_task slot_index]; [|exact IH].
  destruct (_ =? _); [by intros [= ->]|exact IH].
Qed.

Lemma slot_index_lookup x slots : x ∈ task_ids slots →
  ∃ t, slots !! slot_index x slots = Some (Some t) ∧ id t = x.
Proof.
  intros [t Ht]%find_task_Some. exists t. split; [by apply slot_index_find|by eapply find_task_id].
Qed.

Lemma slot_index_update x y f slots : keeps_id f →
  slot_index x (update_task y f slots) = slot_index x slots.
Proof.
  intros Hf. induction slots as [|[t|] slots IH]; [done|..]; cbn [update_task].
  - destruct (_ =? _); cbn [slot_index]; [by rewrite Hf|by rewrite IH].
  - cbn [slot_index]. by rewrite IH.
Qed.

Lemma slot_index_lt s x : sched_ok s → x ∈ ids (run_queue s) → (slot_index x (tasks s) < 8)%nat.
Proof.
  intros Hs Hx. rewrite (so_same _ Hs) in Hx. destruct (slot_index_lookup _ _ Hx) as (t & Ht & _).
  rewrite <- (so_length _ Hs). by eapply lookup_lt_Some.
Qed.

Lemma slot_index_inj s x y : sched_ok s → x ∈ ids (run_queue s) → y ∈ ids (run_queue s) → x ≠ y →
  slot_index x (tasks s) ≠ slot_index y (tasks s).
Proof.
  intros Hs Hx Hy Hne Heq. rewrite (so_same _ Hs) in Hx, Hy.
  destruct (slot_index_lookup _ _ Hx) as (t & Ht & <-), (slot_index_lookup _ _ Hy) as (u & Hu & <-).
  congruence.
Qed.

(** Creating a task fills one empty slot. *)
Lemma create_tasks t s x s' : Scheduler_create_task t s = Done (Some x, s') →
  ∃ l1 l2, tasks s = l1 ++ None :: l2 ∧ tasks s' = l1 ++ Some t :: l2.
Proof.
  unfold Scheduler_create_task. intros E. run_inv E. injection E0 as <- <-.
  destruct (_ <=? _); [done|]. run_inv E.
  assert (tasks s0 = tasks s) as Ht.
  { revert E0. unfold on_queue, zoom. destruct (RunQueue_push _ _) as [[? ?]|]; [|done]. by intros [= _ <-]. }
  destruct a; [|done]. cbn [negb] in E. run_inv E. injection E1 as <- <-.
  destruct (fill_task t (tasks s0)) as [ts|] eqn:Hf; [|by run_inv E].
  run_inv E. assert (s1 = s0) as ->.
  { revert E1. unfold lift. destruct (add_u _ _ _); [|done]. by intros [= _ <-]. }
  run_inv E. injection E2 as _ <-. injection E as _ <-. cbn. rewrite <- Ht. clear -Hf. revert ts Hf.
  induction (tasks s0) as [|[u|] slots IH]; intros ts Hf; [done| |].
  - cbn [fill_task] in Hf. destruct (fill_task t slots) as [us|]; [|done]. injection Hf as <-.
    destruct (IH us eq_refl) as (l1 & l2 & -> & ->). by exists (Some u :: l1), l2.
  - injection Hf as <-. by exists [], slots.
Qed.

(** ** Storing and preparing tasks *)

(** The eight stacks are in the address space and do not overlap. *)
Record stacks_ok (slot_stack : nat → Z) : Prop := {
  st_range i : (i < 8)%nat → 0 ≤ slot_stack i ∧ slot_stack i + KERNEL_STACK_SIZE < 2 ^ 64;
  st_apart i j : (i < 8)%nat → (j < 8)%nat → i ≠ j → apart (slot_stack i) (slot_stack j);
}.

Section run.
Context (slot_stack : nat → Z) (Hstacks : stacks_ok slot_stack) (trampoline : Z).
Local Abbreviation stack_in s x := (slot_stack (slot_index x (tasks s))).

Lemma store_task_run stk k t : sched_ok (sched k) → (id t ∉ ids (run_queue (sched k))) →
  (length (task_ids (tasks (sched k))) < 8)%nat → ∃ k',
  store_task slot_stack t stk k = Done (Some (id t), k') ∧
  kmem k' = store_bytes (kmem k) (stack_in (sched k') (id t)) stk ∧ debug_count k' = debug_count k ∧
  sched_ok (sched k') ∧ current_task (sched k') = current_task (sched k) ∧
  ids (run_queue (sched k')) ≡ₚ id t :: ids (run_queue (sched k)) ∧
  (∀ y, Scheduler_task (sched k') y = if y =? id t then Some t else Scheduler_task (sched k) y) ∧
  (∀ x, x ∈ ids (run_queue (sched k)) → stack_in (sched k') x = stack_in (sched k) x).
Proof.
  intros Hs Hn Hl. destruct (create_run (sched k) t Hs) as [(_ & _ & s' & E & Hs' & Ec & Hp & Hf)|[[?|?] _]];
    [|done|lia].
  eexists. unfold store_task. rewrite (bind_run _ _ _ _ _ (on_sched_run _ k _ _ E)). split; [reflexivity|].
  cbn [sched kmem debug_count]. do 6 (split; [first [reflexivity|assumption]|]).
  destruct (create_tasks _ _ _ _ E) as (l1 & l2 & E1 & E2). intros x Hx. f_equal.
  rewrite (so_same _ Hs) in Hx. rewrite E1 in *. rewrite E2, !slot_index_app.
  case_decide; [reflexivity|]. cbn [slot_index]. rewrite (proj2 (Z.eqb_neq _ _)); [reflexivity|].
  intros <-. apply Hn. rewrite (so_same _ Hs), E1. exact Hx.
Qed.

Lemma prepare_task_run k x t entry : sched_ok (sched k) → Scheduler_task (sched k) x = Some t →
  let st := stack_in (sched k) x in ∃ k',
  prepare_task slot_stack trampoline x entry k = Done (true, k') ∧
  kmem k' = write_words (kmem k) (frame_addr st) (interrupt_frame entry) ∧ debug_count k' = debug_count k ∧
  sched_ok (sched k') ∧ current_task (sched k') = current_task (sched k) ∧
  run_queue (sched k') = run_queue (sched k) ∧
  (∀ y, Scheduler_task (sched k') y = if y =? x then Some (prepared st trampoline t) else Scheduler_task (sched k) y) ∧
  (∀ y, stack_in (sched k') y = stack_in (sched k) y).
Proof.
  intros Hs Ht st. assert (x ∈ ids (run_queue (sched k))) as Hx.
  { rewrite (so_same _ Hs). apply find_task_Some. by exists t. }
  destruct (st_range _ Hstacks _ (slot_index_lt _ _ Hs Hx)) as [H0 H1]. fold st in H0, H1.
  unfold prepare_task. rewrite Ht. unfold slot_of. fold st. rewrite prepared_run by assumption. cbn [mbind outcome_bind].
  set (f := λ u, set_context _ (set_interrupt_rsp _ u)).
  destruct (task_mut_run (sched k) x f) as (b & s' & E & _ & Eq & Ec & _ & Hok & Hf); [done|].
  eexists. rewrite E. split; [reflexivity|]. cbn [sched kmem debug_count].
  do 2 (split; [reflexivity|]). split; [by apply Hok|]. do 2 (split; [assumption|]). split.
  - intros y. rewrite Hf, Ht. reflexivity.
  - intros y. f_equal. revert E. unfold Scheduler_task_mut.
    destruct (find_task x (tasks (sched k))); intros [= _ <-]; [|reflexivity]. by apply slot_index_update.
Qed.
End run.

Lemma on_kernel_run {B} (m : M kernel B) s b k' : m (kern s) = Done (b, k') →
  on_kernel m s = Done (b, set_kern k' s).
Proof. intros E. unfold on_kernel, zoom. by rewrite E. Qed.

Lemma new_id_run s : 0 ≤ next_task_id s → next_task_id s + 1 < 2 ^ 64 →
  new_id s = Done (next_task_id s, set_next (next_task_id s + 1) s).
Proof.
  intros H0 H1. unfold new_id, zoom, allocate_task_id, wrapping_add, cast. by rewrite Z.mod_small by lia.
Qed.

(** A state in which [n] more tasks can be created: the ids in use are below
    the next one. *)
Record room (n : nat) (s : system) : Prop := {
  rm_sched : sched_ok (sched (kern s));
  rm_fresh x : x ∈ ids (run_queue (sched (kern s))) → x < next_task_id s;
  rm_next : 0 ≤ next_task_id s ∧ next_task_id s + Z.of_nat n < 2 ^ 64;
  rm_slots : (length (task_ids (tasks (sched (kern s)))) + n ≤ 8)%nat;
}.

(** ** The cooperative test *)

(** The cooperative test does not work: with room for two tasks,
    [run_context_switch_test] stores both, makes the first current, saves the
    kernel's context, and then switches to the context of a task that was never
    given one, that is, to address 0 with a null stack pointer. *)
Theorem context_switch_test_spec slot_stack here s : room 2 s →
  let a := next_task_id s in
  ∃ s', run_context_switch_test slot_stack here s = Done (Some TaskContext_empty, s') ∧
    sched_ok (sched (kern s')) ∧ test_kernel_context s' = here ∧
    current_task (sched (kern s')) = Some a ∧
    test_task_a_id s' = a ∧ test_task_b_id s' = a + 1 ∧
    (∀ x, Scheduler_task (sched (kern s')) x =
       if x =? a + 1 then Some (Task_new (a + 1) 1) else if x =? a then Some (Task_new a 1)
       else Scheduler_task (sched (kern s)) x).
Proof.
  intros [Hs Hf [Hn0 Hn] Hr] a. subst a. unfold run_context_switch_test.
  rewrite (bind_run _ _ _ _ _ (new_id_run s ltac:(lia) ltac:(lia))).
  erewrite bind_run; [|apply new_id_run; cbn; lia].
  change (next_task_id (set_next _ s)) with (next_task_id s + 1).
  revert Hf Hn0 Hn. generalize (next_task_id s) as a. intros a Hf Hn0 Hn.
  destruct (store_task_run slot_stack new_stack (kern s) (Task_new a 1) Hs)
    as (k1 & E1 & _ & _ & Hs1 & Ec1 & Hp1 & Hf1 & _); [intros Hx%Hf; cbn in Hx; lia|lia|].
  erewrite bind_run; [|apply on_kernel_run, E1]. cbn [id Task_new] in *.
  pose proof (Permutation_length (so_same _ Hs)) as L0. pose proof (Permutation_length (so_same _ Hs1)) as L1.
  pose proof (Permutation_length Hp1) as L2. cbn [length] in L2.
  destruct (store_task_run slot_stack new_stack k1 (Task_new (a + 1) 1) Hs1)
    as (k2 & E2 & _ & _ & Hs2 & Ec2 & Hp2 & Hf2 & _).
  { cbn. rewrite Hp1. intros [?|Hx%Hf]%elem_of_cons; cbn in *; lia. }
  { lia. }
  erewrite bind_run; [|apply on_kernel_run, E2]. cbn [id Task_new] in *.
  erewrite bind_run; [|reflexivity]. unfold switch_kernel_to_task. erewrite bind_run; [|reflexivity].
  cbn [kern set_kern sched]. rewrite (Hf2 a), (proj2 (Z.eqb_neq a (a + 1))), (Hf1 a), Z.eqb_refl by lia.
  eexists. split; [reflexivity|]. cbn. split.
  - destruct Hs2. split; try assumption. cbn. intros x [= <-]. rewrite Hp2. right. rewrite Hp1. left.
  - do 4 (split; [reflexivity|]). intros x. etrans; [exact (Hf2 x)|]. rewrite Hf1. reflexivity.
Qed.

(** ** The preemptive test *)

(** The trampoline on a synthetic frame. *)
Lemma fresh_frame_start c st entry : 0 ≤ st → st + KERNEL_STACK_SIZE < 2 ^ 64 →
  gpr c RSP = frame_addr st → fresh_frame (cmem c) st entry →
  let c' := unbound_start_interrupt_context_code c in
  rip c' = entry ∧ cs c' = 0x08 ∧ rflags c' = 0x202 ∧ (∀ r, gpr c' r = 0) ∧ ss c' = 0 ∧ raised c' = raised c.
Proof.
  intros H0 H1 Hsp (R & W1 & W2).
  destruct (trampoline_run c (frame_addr st) entry) as (I & C & F & G & P & Sg & Rs);
    [stack_lia|stack_lia|exact Hsp|exact R|unfold word; by rewrite W2|].
  cbv zeta. unfold word in P, Sg. rewrite W1 in P. rewrite W2 in Sg. do 3 (split; [done|]). split; [|done].
  intros r. destruct (decide (r = RSP)) as [->|Hr']; [done|by apply G].
Qed.

Section launch.
Context (slot_stack : nat → Z) (Hstacks : stacks_ok slot_stack) (trampoline : Z).
Local Abbreviation stack_in s x := (slot_stack (slot_index x (tasks s))).

(** A task stored and then prepared where it is stored. *)
Lemma launch_run k a entry : sched_ok (sched k) → (a ∉ ids (run_queue (sched k))) →
  (length (task_ids (tasks (sched k))) < 8)%nat → in_u 64 entry →
  ∃ k1 k2, store_task slot_stack (Task_new a 1) new_stack k = Done (Some a, k1) ∧
  prepare_task slot_stack trampoline a entry k1 = Done (true, k2) ∧
  sched_ok (sched k2) ∧ debug_count k2 = debug_count k ∧
  ids (run_queue (sched k2)) ≡ₚ a :: ids (run_queue (sched k)) ∧
  (∀ y, Scheduler_task (sched k2) y = if y =? a then
     Some (prepared (stack_in (sched k2) a) trampoline (Task_new a 1)) else Scheduler_task (sched k) y) ∧
  0 ≤ stack_in (sched k2) a ∧ stack_in (sched k2) a + KERNEL_STACK_SIZE < 2 ^ 64 ∧
  fresh_frame (kmem k2) (stack_in (sched k2) a) entry ∧
  (∀ x, x ∈ ids (run_queue (sched k)) → stack_in (sched k2) x = stack_in (sched k) x ∧
     same_stack (stack_in (sched k) x) (kmem k) (kmem k2)).
Proof.
  intros Hs Hn Hl He.
  destruct (store_task_run slot_stack new_stack k (Task_new a 1) Hs Hn Hl)
    as (k1 & E1 & Em1 & Ed1 & Hs1 & _ & Hp1 & Hf1 & Hk1). cbn [id Task_new] in *.
  destruct (prepare_task_run slot_stack Hstacks trampoline k1 a (Task_new a 1) entry Hs1)
    as (k2 & E2 & Em2 & Ed2 & Hs2 & _ & Eq2 & Hf2 & Hk2); [by rewrite Hf1, Z.eqb_refl|].
  exists k1, k2. rewrite !Hk2, Eq2. do 3 (split; [assumption|]). split; [congruence|]. split; [assumption|].
  assert (a ∈ ids (run_queue (sched k1))) as Ha by (rewrite Hp1; left).
  destruct (st_range _ Hstacks _ (slot_index_lt _ _ Hs1 Ha)).
  split; [intros y; rewrite Hf2, Hf1; by destruct (_ =? _)|]. do 2 (split; [assumption|]). split.
  - rewrite Em2. apply frame_on_new; [assumption|]. intros b Hb. rewrite Em1. by apply new_stack_zero.
  - intros x Hx. assert (x ∈ ids (run_queue (sched k1))) as Hx1 by (rewrite Hp1; by right).
    assert (apart (stack_in (sched k1) x) (stack_in (sched k1) a)) as Hap.
    { apply (st_apart _ Hstacks); [by apply slot_index_lt..|].
      apply slot_index_inj; [assumption..|]. intros ->. exact (Hn Hx). }
    rewrite Hk2, <- Hk1 by assumption. split; [reflexivity|]. intros b Hb.
    rewrite Em2, (frame_same (kmem k1) _ _ entry Hap b Hb), Em1.
    exact (new_stack_same (kmem k) _ _ Hap b Hb).
Qed.
End launch.

(** Making a stored task current and switching to it. *)
Lemma enter_run s a t here : sched_ok (sched (kern s)) → Scheduler_task (sched (kern s)) a = Some t → ∃ s',
  (on_kernel (on_sched (Scheduler_set_current a)) ;;
   on_kernel (on_sched (Scheduler_task_mut a (restart Running))) ;;
   switch_kernel_to_task here a) s = Done (Some (context t), s') ∧
  sched_ok (sched (kern s')) ∧ current_task (sched (kern s')) = Some a ∧ test_kernel_context s' = here ∧
  kmem (kern s') = kmem (kern s) ∧
  (∀ x, Scheduler_task (sched (kern s')) x =
     if x =? a then Some (restart Running t) else Scheduler_task (sched (kern s)) x).
Proof.
  intros Hs Ht. assert (a ∈ ids (run_queue (sched (kern s)))) as Hin.
  { rewrite (so_same _ Hs). apply find_task_Some. by exists t. }
  assert (on_sched (Scheduler_set_current a) (kern s) = Done (true,
    mkKernel (set_current_task (Some a) (sched (kern s))) (kmem (kern s)) (debug_count (kern s)))) as E5.
  { apply on_sched_run. unfold Scheduler_set_current. by rewrite (proj2 (RunQueue_contains_iff _ _) Hin). }
  erewrite bind_run; [|apply on_kernel_run, E5].
  destruct (mut_run (mkKernel (set_current_task (Some a) (sched (kern s))) (kmem (kern s))
    (debug_count (kern s))) a (restart Running)) as (b6 & s6 & E6 & Hs6 & _ & Ec6 & Hf6 & _); [done| |].
  { destruct Hs. split; try assumption. cbn. by intros z [= <-]. }
  change (Scheduler_task (sched (mkKernel (set_current_task _ (sched (kern s))) _ _)))
    with (Scheduler_task (sched (kern s))) in Hf6.
  erewrite bind_run; [|apply on_kernel_run, E6].
  unfold switch_kernel_to_task. erewrite bind_run; [|reflexivity]. cbn [kern set_kern sched].
  rewrite (Hf6 a), Z.eqb_refl, Ht. eexists. split; [reflexivity|]. cbn [kern set_kern sched kmem].
  split. { destruct Hs6 as [? ? ? ? ? Hcur]. split; try assumption. cbn. intros z [= <-]. apply Hcur. by rewrite Ec6. }
  do 3 (split; [reflexivity|]). intros x. etrans; [exact (Hf6 x)|]. by rewrite Ht.
Qed.

(** C29: The preemptive test.  With room for two tasks and stacks that do not
    overlap, [run_preemptive_test] stores and prepares both tasks, makes the
    first one current and running, leaves every other task alone, and continues
    at the trampoline on the first task's synthetic frame.  Each task's saved
    frame is accepted by the check of the timer interrupt exactly when its entry
    point lies in the kernel's range.  The trampoline then enters the first task
    at its entry, with all registers zero - the stack pointer included, because
    the frame lacks the two words [iretq] pops for it; the null stack selector is
    accepted at level 0. *)
Theorem run_preemptive_test_spec slot_stack trampoline entry_a entry_b here s :
  stacks_ok slot_stack → room 2 s → in_u 64 entry_a → in_u 64 entry_b →
  let a := next_task_id s in let b := a + 1 in
  ∃ s' ta tb, run_preemptive_test slot_stack trampoline entry_a entry_b here s = Done (Some (context ta), s') ∧
    let sc := sched (kern s') in let m := kmem (kern s') in
    sched_ok sc ∧ current_task sc = Some a ∧ test_kernel_context s' = here ∧
    (∀ x, Scheduler_task sc x = if x =? a then Some ta else if x =? b then Some tb
       else Scheduler_task (sched (kern s)) x) ∧
    state ta = Running ∧ time_slice_ticks ta = 0 ∧ ctx_rip (context ta) = trampoline ∧ state tb = Ready ∧
    validate_interrupt_frame m (interrupt_rsp ta) = (0x100000 <=? entry_a) && (entry_a <? 0x200000) ∧
    validate_interrupt_frame m (interrupt_rsp tb) = (0x100000 <=? entry_b) && (entry_b <? 0x200000) ∧
    (∀ c, gpr c RSP = ctx_rsp (context ta) → cmem c = m →
       let c' := unbound_start_interrupt_context_code c in
       rip c' = entry_a ∧ cs c' = 0x08 ∧ rflags c' = 0x202 ∧ (∀ r, gpr c' r = 0) ∧ ss c' = 0 ∧
       raised c' = raised c).
Proof.
  intros Hst [Hs Hf [Hn0 Hn] Hr] Hea Heb. cbv zeta. unfold run_preemptive_test.
  rewrite (bind_run _ _ _ _ _ (new_id_run s ltac:(lia) ltac:(lia))).
  erewrite bind_run; [|apply new_id_run; cbn; lia].
  change (next_task_id (set_next _ s)) with (next_task_id s + 1).
  revert Hf Hn0 Hn. generalize (next_task_id s) as a. intros a Hf Hn0 Hn.
  destruct (launch_run slot_stack Hst trampoline (kern s) a entry_a Hs)
    as (k1 & k2 & E1 & E2 & Hs2 & _ & Hp2 & Hf2 & Ra0 & Ra1 & Fa & _); [intros Hx%Hf; lia|lia|done|].
  erewrite bind_run; [|apply on_kernel_run, E1]. cbv iota beta. erewrite bind_run; [|apply on_kernel_run, E2]. cbn [negb].
  pose proof (Permutation_length (so_same _ Hs)) as L0. pose proof (Permutation_length (so_same _ Hs2)) as L2.
  pose proof (Permutation_length Hp2) as L3. cbn [length] in L3.
  destruct (launch_run slot_stack Hst trampoline k2 (a + 1) entry_b Hs2)
    as (k3 & k4 & E3 & E4 & Hs4 & _ & Hp4 & Hf4 & Rb0 & Rb1 & Fb & Ho); [|lia|done|].
  { rewrite Hp2. intros [?|Hx%Hf]%elem_of_cons; lia. }
  erewrite bind_run; [|apply on_kernel_run, E3]. cbv iota beta. erewrite bind_run; [|apply on_kernel_run, E4]. cbn [negb].
  destruct (Ho a) as [Ea Sa]; [rewrite Hp2; left|]. rewrite <- Ea in Fa, Hf2, Ra0, Ra1, Sa.
  apply (fresh_frame_same _ _ _ _ Sa) in Fa.
  erewrite bind_run; [|reflexivity].
  revert Fa Fb Ra0 Ra1 Rb0 Hf2 Hf4. generalize (slot_stack (slot_index a (tasks (sched k4)))).
  generalize (slot_stack (slot_index (a + 1) (tasks (sched k4)))).
  intros stb sta Fa Fb Ra0 Ra1 Rb0 Hf2 Hf4.
  match goal with |- context [(_ ≫= _) ?st] => destruct (enter_run st a (prepared sta trampoline (Task_new a 1)) here)
    as (s' & E & Hs' & Hc & Hk & Hm & Hf5) end; [exact Hs4| |].
  { etrans; [exact (Hf4 a)|]. by rewrite (proj2 (Z.eqb_neq a (a + 1))), Hf2, Z.eqb_refl by lia. }
  eexists s', (restart Running (prepared sta trampoline (Task_new a 1))),
    (prepared stb trampoline (Task_new (a + 1) 1)).
  split; [exact E|]. do 3 (split; [assumption|]). split.
  { intros x. etrans; [exact (Hf5 x)|]. destruct (Z.eqb_spec x a) as [->|Hx]; [reflexivity|].
    etrans; [exact (Hf4 x)|]. by rewrite Hf2, (proj2 (Z.eqb_neq x a) Hx). }
  change (kmem (kern s') = kmem k4) in Hm. rewrite Hm. do 4 (split; [reflexivity|]).
  split; [by apply fresh_frame_valid|]. split; [by apply fresh_frame_valid|].
  intros c Hsp Hmem. apply (fresh_frame_start c sta entry_a); [assumption..|by rewrite Hmem].
Qed.

(** ** Five ticks *)

Fixpoint timer_ticks (rsps : list Z) : M kernel (list Z) :=
  match rsps with
  | [] => mret []
  | rsp :: rest => r ← timer_interrupt rsp; rs ← timer_ticks rest; mret (r :: rs)
  end.

Lemma timer_ticks_cons r rest k a k1 rs k2 : timer_interrupt r k = Done (a, k1) →
  timer_ticks rest k1 = Done (rs, k2) → timer_ticks (r :: rest) k = Done (a :: rs, k2).
Proof.
  intros E1 E2. cbn [timer_ticks]. rewrite (bind_run _ _ _ _ _ E1).
  by rewrite (bind_run _ _ _ _ _ E2).
Qed.

Section ticks.
Context (x : TaskId) (k : kernel) (t : Task).
Context (Hs : sched_ok (sched k)) (Hd : 0 ≤ debug_count k < 2 ^ 64 - 1)
  (Hx : current_task (sched k) = Some x) (Ht : Scheduler_task (sched k) x = Some t).

Lemma next_slice_small : 0 ≤ time_slice_ticks t < 5 → next_slice t = time_slice_ticks t + 1.
Proof. intros Hlt. unfold next_slice, wrapping_add, cast. by rewrite Z.mod_small by lia. Qed.

Lemma tick_continue rsp : 0 ≤ time_slice_ticks t < 4 → ∃ k',
  timer_interrupt rsp k = Done (0, k') ∧ sched_ok (sched k') ∧ kmem k' = kmem k ∧
  debug_count k' = debug_count k ∧ run_queue (sched k') = run_queue (sched k) ∧
  current_task (sched k') = Some x ∧
  (∀ y, Scheduler_task (sched k') y = if y =? x then Some (accounted rsp Running (time_slice_ticks t + 1) t)
     else Scheduler_task (sched k) y).
Proof.
  intros Hlt. destruct (timer_tick_run k rsp x Hs Hd Hx) as (t' & r & k' & Ht' & E & Hs' & Hm & Ho).
  rewrite Ht in Ht'. injection Ht' as <-. exists k'.
  destruct Ho; rewrite next_slice_small in * by lia; unfold DEFAULT_TIME_SLICE_TICKS in *; try lia. done.
Qed.

Lemma tick_switch rsp y n : time_slice_ticks t = 4 → next_task (sched k) = Some y → y ≠ x →
  Scheduler_task (sched k) y = Some n → validate_interrupt_frame (kmem k) (interrupt_rsp n) = true → ∃ k',
  timer_interrupt rsp k = Done (interrupt_rsp n, k') ∧ sched_ok (sched k') ∧ kmem k' = kmem k ∧
  current_task (sched k') = Some y ∧
  (∀ z, Scheduler_task (sched k') z = if z =? x then Some (accounted rsp Ready 5 t)
     else if z =? y then Some (restart Running n) else Scheduler_task (sched k) z).
Proof.
  intros H4 Hn Hyx Hy Hv. destruct (timer_tick_run k rsp x Hs Hd Hx) as (t' & r & k' & Ht' & E & Hs' & Hm & Ho).
  rewrite Ht in Ht'. injection Ht' as <-. exists k'.
  destruct Ho; rewrite next_slice_small in * by lia; unfold DEFAULT_TIME_SLICE_TICKS in *;
    [lia|congruence|congruence|].
  assert (y0 = y) as -> by congruence. assert (n0 = n) as -> by congruence.
  rewrite H4 in *. done.
Qed.
End ticks.

(** C28: Preemption happens on time: when the current task starts a slice and
    the task the rotation brings first has a valid saved frame, the next four
    timer interrupts resume the current task and the fifth returns the other
    task's frame; that task is then current and running, and the first one is
    ready with the frame of the fifth interrupt saved for its next turn. *)
Theorem preemption_happens k x t y n r1 r2 r3 r4 r5 :
  sched_ok (sched k) → 0 ≤ debug_count k < 2 ^ 64 - 1 →
  current_task (sched k) = Some x → Scheduler_task (sched k) x = Some t → time_slice_ticks t = 0 →
  next_task (sched k) = Some y → y ≠ x → Scheduler_task (sched k) y = Some n →
  validate_interrupt_frame (kmem k) (interrupt_rsp n) = true →
  ∃ k' t', timer_ticks [r1; r2; r3; r4; r5] k = Done ([0; 0; 0; 0; interrupt_rsp n], k') ∧
    sched_ok (sched k') ∧ kmem k' = kmem k ∧ current_task (sched k') = Some y ∧
    (∀ z, Scheduler_task (sched k') z = if z =? x then Some t'
       else if z =? y then Some (restart Running n) else Scheduler_task (sched k) z) ∧
    state t' = Ready ∧ interrupt_rsp t' = r5 ∧ context t' = context t.
Proof.
  intros Hs Hd Hx Ht H0 Hn Hyx Hy Hv.
  destruct (tick_continue x k t Hs Hd Hx Ht r1) as (k1 & E1 & Hs1 & Hm1 & Hd1 & Hq1 & Hx1 & Hf1); [lia|].
  pose proof (Hf1 x) as Ht1. rewrite Z.eqb_refl in Ht1. rewrite <- Hd1 in Hd.
  destruct (tick_continue x k1 _ Hs1 Hd Hx1 Ht1 r2) as (k2 & E2 & Hs2 & Hm2 & Hd2 & Hq2 & Hx2 & Hf2); [cbn; lia|].
  pose proof (Hf2 x) as Ht2. rewrite Z.eqb_refl in Ht2. rewrite <- Hd2 in Hd.
  destruct (tick_continue x k2 _ Hs2 Hd Hx2 Ht2 r3) as (k3 & E3 & Hs3 & Hm3 & Hd3 & Hq3 & Hx3 & Hf3); [cbn; lia|].
  pose proof (Hf3 x) as Ht3. rewrite Z.eqb_refl in Ht3. rewrite <- Hd3 in Hd.
  destruct (tick_continue x k3 _ Hs3 Hd Hx3 Ht3 r4) as (k4 & E4 & Hs4 & Hm4 & Hd4 & Hq4 & Hx4 & Hf4); [cbn; lia|].
  pose proof (Hf4 x) as Ht4. rewrite Z.eqb_refl in Ht4. rewrite <- Hd4 in Hd.
  assert (∀ z, z ≠ x → Scheduler_task (sched k4) z = Scheduler_task (sched k) z) as Hother.
  { intros z Hz. apply Z.eqb_neq in Hz. by rewrite Hf4, Hz, Hf3, Hz, Hf2, Hz, Hf1, Hz. }
  destruct (tick_switch x k4 _ Hs4 Hd Hx4 Ht4 r5 y n) as (k5 & E5 & Hs5 & Hm5 & Hx5 & Hf5).
  - cbn. lia.
  - unfold next_task. by rewrite Hq4, Hq3, Hq2, Hq1.
  - done.
  - by rewrite Hother.
  - by rewrite Hm4, Hm3, Hm2, Hm1.
  - eexists k5, _. split; [eauto 10 using timer_ticks_cons|].
    split; [done|]. split; [congruence|]. split; [done|].
    split; [intros z; rewrite Hf5; destruct (Z.eqb_spec z x); [done|]; by rewrite Hother|done].
Qed.

(** ** Cooperative switching *)

Lemma switch_task_run k a b here ta tb : sched_ok (sched k) →
  Scheduler_task (sched k) a = Some ta → Scheduler_task (sched k) b = Some tb → a ≠ b → ∃ k',
  switch_task_to_task here a b k = Done (Some (context tb), k') ∧
  sched_ok (sched k') ∧ current_task (sched k') = Some b ∧ kmem k' = kmem k ∧
  (∀ x, Scheduler_task (sched k') x = if x =? a then Some (set_context here ta) else Scheduler_task (sched k) x).
Proof.
  intros Hs Ha Hb Hab. unfold switch_task_to_task. rewrite (proj2 (Z.eqb_neq a b)) by done.
  erewrite bind_run; [|reflexivity]. rewrite Ha, Hb. rewrite (bind_run _ _ _ _ _ (current_run k (Some b))).
  destruct (mut_run (mkKernel (set_current_task (Some b) (sched k)) (kmem k) (debug_count k)) a (set_context here))
    as (b1 & s1 & E & Hs1 & _ & Ec & Hf & _); [done| |].
  { destruct Hs as [? ? ? Hsame ? ?]. split; try assumption. cbn. intros z [= <-]. rewrite Hsame.
    apply find_task_Some. by exists tb. }
  rewrite (bind_run _ _ _ _ _ E). eexists. split; [reflexivity|]. cbn [sched kmem].
  do 3 (split; [done|]). intros x. etrans; [exact (Hf x)|].
  change (Scheduler_task (sched (mkKernel _ _ _)) a) with (Scheduler_task (sched k) a). by rewrite Ha.
Qed.

(** A cooperative switch is undone by the switch back: after task [a]
    switches to [b] and [b] back to [a], execution continues in [a] in exactly
    the context [a] left, [a] is current, [b] has the context it left saved, and
    no other task has changed. *)
Theorem cooperative_roundtrip k a b ta tb here there : sched_ok (sched k) →
  Scheduler_task (sched k) a = Some ta → Scheduler_task (sched k) b = Some tb → a ≠ b →
  ∃ k1 k2, switch_task_to_task here a b k = Done (Some (context tb), k1) ∧
    current_task (sched k1) = Some b ∧
    switch_task_to_task there b a k1 = Done (Some here, k2) ∧
    current_task (sched k2) = Some a ∧ sched_ok (sched k2) ∧ kmem k2 = kmem k ∧
    (∀ x, Scheduler_task (sched k2) x = if x =? b then Some (set_context there tb)
       else if x =? a then Some (set_context here ta) else Scheduler_task (sched k) x).
Proof.
  intros Hs Ha Hb Hab.
  destruct (switch_task_run k a b here ta tb Hs Ha Hb Hab) as (k1 & E1 & Hs1 & Hc1 & Hm1 & Hf1).
  pose proof (Hf1 a) as Ha1. rewrite Z.eqb_refl in Ha1.
  pose proof (Hf1 b) as Hb1. rewrite (proj2 (Z.eqb_neq b a)), Hb in Hb1 by congruence.
  destruct (switch_task_run k1 b a there _ _ Hs1 Hb1 Ha1) as (k2 & E2 & Hs2 & Hc2 & Hm2 & Hf2); [congruence|].
  exists k1, k2. do 5 (split; [done|]). split; [congruence|]. intros x. by rewrite Hf2, Hf1.
Qed.

(** ** The initial task *)

(** The initial task's context does not point into its own stack: the
    context is initialised while the task is still a local variable, so after
    the task has been moved into its slot the saved stack pointer is eight bytes
    below the top of the local's stack, which lies outside the stack of the slot
    wherever the local and the slots do not overlap. *)
Theorem create_initial_task_dangling slot_stack task_exit task_bootstrap local s :
  stacks_ok slot_stack → room 1 s → 0 ≤ local → local + KERNEL_STACK_SIZE < 2 ^ 64 →
  (∀ i, (i < 8)%nat → apart local (slot_stack i)) →
  let a := next_task_id s in
  ∃ s' t i, create_initial_task slot_stack task_exit task_bootstrap local s = Done (Some a, s') ∧
    sched_ok (sched (kern s')) ∧ tasks (sched (kern s')) !! i = Some (Some t) ∧ id t = a ∧
    ctx_rip (context t) = task_bootstrap ∧ ctx_rsp (context t) = local + KERNEL_STACK_SIZE - 8 ∧
    (ctx_rsp (context t) < slot_stack i ∨ slot_stack i + KERNEL_STACK_SIZE ≤ ctx_rsp (context t)).
Proof.
  intros Hst [Hs Hf [Hn0 Hn] Hr] Hl0 Hl1 Hap a. subst a. unfold create_initial_task.
  rewrite (bind_run _ _ _ _ _ (new_id_run s ltac:(lia) ltac:(lia))).
  revert Hf Hn0 Hn. generalize (next_task_id s) as a. intros a Hf Hn0 Hn.
  set (t := set_context (mkTaskContext (local + KERNEL_STACK_SIZE - 8) 0 0 0 0 0 0 task_bootstrap) (Task_new a 1)).
  set (m := le_store (store_bytes (kmem (kern s)) local new_stack) (local + KERNEL_STACK_SIZE - 8) 8 task_exit).
  assert (Task_initialize_context local task_exit task_bootstrap
    (Task_new a 1, store_bytes (kmem (kern s)) local new_stack) = Done ((), (t, m))) as E.
  { unfold Task_initialize_context, KernelStack_top. rewrite add_u_Done by stack_lia. cbn [mbind outcome_bind].
    rewrite sub_u_Done by stack_lia. reflexivity. }
  clearbody m.
  destruct (store_task_run slot_stack (load_bytes m local stack_length)
    (mkKernel (sched (kern s)) m (debug_count (kern s))) t Hs)
    as (k1 & E1 & _ & _ & Hs1 & _ & Hp1 & Hf1 & _); [intros Hx%Hf; cbn in Hx; lia|cbn; lia|].
  change (id t) with a in *. pose proof (Hf1 a) as Hfa. rewrite Z.eqb_refl in Hfa.
  apply slot_index_find in Hfa. eexists _, t, (slot_index a (tasks (sched k1))).
  split; [apply on_kernel_run; cbn [kern set_next]; rewrite E; exact E1|].
  cbn [kern set_kern]. do 5 (split; [first [assumption|reflexivity]|]).
  assert (slot_index a (tasks (sched k1)) < 8)%nat as Hlt by (rewrite <- (so_length _ Hs1); by eapply lookup_lt_Some).
  specialize (Hap _ Hlt). cbn [context t set_context ctx_rsp]. stack_lia.
Qed.

(** ** Concrete inputs *)

(** The state at boot, and stacks from 0x180000 on. *)
Definition boot_system : system :=
  mkSystem (mkKernel Scheduler_new ∅ 0) TaskContext_empty 0 0 0 0 0 0 1.
Definition sample_stack (i : nat) : Z := 0x180000 + 0x4000 * Z.of_nat i.

Lemma sample_stacks_ok : stacks_ok sample_stack.
Proof. split; unfold sample_stack; intros; stack_lia. Qed.
Lemma boot_room n : (n ≤ 8)%nat → room n boot_system.
Proof.
  intros Hn. split; [apply Scheduler_new_ok|by intros x Hx%not_elem_of_nil|cbn; lia|cbn; lia].
Qed.

Lemma context_switch_test_spec_witness : ∃ s',
  run_context_switch_test sample_stack TaskContext_empty boot_system = Done (Some TaskContext_empty, s') ∧
  current_task (sched (kern s')) = Some 1.
Proof.
  destruct (context_switch_test_spec sample_stack TaskContext_empty boot_system (boot_room 2 ltac:(lia)))
    as (s' & E & _ & _ & Hc & _).
  exists s'. split; [exact E|exact Hc].
Defined.

Lemma run_preemptive_test_spec_witness : ∃ s' ta tb,
  run_preemptive_test sample_stack 0x120000 0x130000 0x140000 TaskContext_empty boot_system
    = Done (Some (context ta), s') ∧
  Scheduler_task (sched (kern s')) 2 = Some tb ∧
  validate_interrupt_frame (kmem (kern s')) (interrupt_rsp tb) = true.
Proof.
  destruct (run_preemptive_test_spec sample_stack 0x120000 0x130000 0x140000 TaskContext_empty boot_system
    sample_stacks_ok (boot_room 2 ltac:(lia)) ltac:(unfold in_u; lia) ltac:(unfold in_u; lia))
    as (s' & ta & tb & E & _ & _ & _ & Hf & _ & _ & _ & _ & _ & Hv & _).
  exists s', ta, tb. split; [exact E|]. split; [exact (Hf 2)|exact Hv].
Defined.

(** Task 1 at the start of a slice, task 2 next. *)
Definition slice_kernel : kernel :=
  mkKernel (mkScheduler (two_tasks 1 2) (Some 1) 2 0
    (Some (mkTask 1 Running 1 0 0 TaskContext_empty 0) ::
     Some (mkTask 2 Ready 1 0 0 TaskContext_empty 0x8000) :: replicate 6 None))
    (write_words ∅ 0x8000 (interrupt_frame 0x150000)) 0.

Lemma slice_kernel_ok : sched_ok (sched slice_kernel).
Proof.
  assert (NoDup [1; 2]) as Hnd by (apply (bool_decide_unpack _); vm_compute; exact I).
  split; [split; [reflexivity|exact Hnd|reflexivity]|reflexivity|exact Hnd|reflexivity|reflexivity|].
  intros x [= <-]. left.
Qed.

Lemma preemption_happens_witness : ∃ k',
  timer_ticks [0x9000; 0x9100; 0x9200; 0x9300; 0x9400] slice_kernel = Done ([0; 0; 0; 0; 0x8000], k') ∧
  current_task (sched k') = Some 2.
Proof.
  destruct (preemption_happens slice_kernel 1 (mkTask 1 Running 1 0 0 TaskContext_empty 0) 2
    (mkTask 2 Ready 1 0 0 TaskContext_empty 0x8000) 0x9000 0x9100 0x9200 0x9300 0x9400 slice_kernel_ok)
    as (k' & t' & E & _ & _ & Hc & _).
  - split; vm_compute; congruence.
  - reflexivity.
  - reflexivity.
  - reflexivity.
  - reflexivity.
  - discriminate.
  - reflexivity.
  - vm_compute. reflexivity.
  - exists k'. split; [exact E|exact Hc].
Defined.

Lemma cooperative_roundtrip_witness : ∃ k1 k2 here,
  switch_task_to_task here 1 2 slice_kernel = Done (Some TaskContext_empty, k1) ∧
  switch_task_to_task TaskContext_empty 2 1 k1 = Done (Some here, k2).
Proof.
  destruct (cooperative_roundtrip slice_kernel 1 2 (mkTask 1 Running 1 0 0 TaskContext_empty 0)
    (mkTask 2 Ready 1 0 0 TaskContext_empty 0x8000) (mkTaskContext 0x5000 1 2 3 4 5 6 0x110000)
    TaskContext_empty slice_kernel_ok eq_refl eq_refl ltac:(discriminate)) as (k1 & k2 & E1 & _ & E2 & _).
  exists k1, k2, (mkTaskContext 0x5000 1 2 3 4 5 6 0x110000). split; [exact E1|exact E2].
Defined.

Lemma create_initial_task_dangling_witness : ∃ s' t,
  create_initial_task sample_stack 0x110000 0x111000 0x90000 boot_system = Done (Some 1, s') ∧
  id t = 1 ∧ ctx_rsp (context t) = 0x93FF8.
Proof.
  destruct (create_initial_task_dangling sample_stack 0x110000 0x111000 0x90000 boot_system sample_stacks_ok
    (boot_room 1 ltac:(lia))) as (s' & t & i & E & _ & _ & Hid & _ & Hsp & _).
  - lia.
  - unfold KERNEL_STACK_SIZE. lia.
  - unfold sample_stack. intros i Hi. stack_lia.
  - exists s', t. split; [exact E|]. split; [exact Hid|exact Hsp].
Defined.
