(* ===== verification/Cooperation.v ===== *)
(** * The tasks of the scheduling tests (kernel/src/scheduler/mod.rs)

    The bodies of the two tasks of the cooperative test and of the two tasks of the
    preemptive test.  A body is cut where it gives up the processor: each part gets
    the context [here] in which it will be resumed and returns the context execution
    continues with.  The text the bodies print is left out. *)

From S2P Require Import Prelude Cpu Task RunQueue Scheduler Preempt.
Local Open Scope Z_scope.

(** ** The cooperative tasks *)

Definition context_test_task_a (here : TaskContext) : M system (option TaskContext) :=
  s ← get;
  on_kernel (switch_task_to_task here (test_task_a_id s) (test_task_b_id s)).
(** Once resumed; [task_a] is the local variable of the first part. *)
Definition context_test_task_a_resumed (here : TaskContext) (task_a : TaskId) : M system TaskContext :=
  switch_task_to_kernel here task_a.
(** When resumed it spins. *)
Definition context_test_task_b (here : TaskContext) : M system (option TaskContext) :=
  s ← get;
  on_kernel (switch_task_to_task here (test_task_b_id s) (test_task_a_id s)).

(** ** The preemptive tasks

    A round of the loop: [fetch_add] wraps, the addition after it does not. *)

Definition fetch_add (value : Z) : M Z Z := λ c, Done (c, wrapping_add 64 c value).
Definition set_ticks_a (n : Z) (s : system) : system :=
  mkSystem (kern s) (test_kernel_context s) (test_task_a_id s) (test_task_b_id s)
    (preempt_task_a_id s) (preempt_task_b_id s) n (preempt_ticks_b s) (next_task_id s).
Definition set_ticks_b (n : Z) (s : system) : system :=
  mkSystem (kern s) (test_kernel_context s) (test_task_a_id s) (test_task_b_id s)
    (preempt_task_a_id s) (preempt_task_b_id s) (preempt_ticks_a s) n (next_task_id s).
(** The result says whether the round prints that the task runs. *)
Definition preemptive_task_a : M system bool :=
  old ← zoom preempt_ticks_a set_ticks_a (fetch_add 1);
  ticks ← lift (add_u 64 old 1);
  mret (ticks =? 1).
Definition preemptive_task_b : M system bool :=
  old ← zoom preempt_ticks_b set_ticks_b (fetch_add 1);
  ticks ← lift (add_u 64 old 1);
  mret (ticks =? 1).

Fixpoint rounds (n : nat) (body : M system bool) : M system (list bool) :=
  match n with
  | O => mret []
  | S k => b ← body; bs ← rounds k body; mret (b :: bs)
  end.

(** ** The cooperative test as a whole *)

Lemma task_queued s x t : sched_ok s → Scheduler_task s x = Some t → x ∈ ids (run_queue s).
Proof. intros Hs Ht. rewrite (so_same _ Hs). apply find_task_Some. by exists t. Qed.

Lemma switch_to_kernel_run s a t here : sched_ok (sched (kern s)) → Scheduler_task (sched (kern s)) a = Some t → ∃ k',
  switch_task_to_kernel here a s = Done (test_kernel_context s, set_kern k' s) ∧ sched_ok (sched k') ∧
  current_task (sched k') = None ∧
  (∀ x, Scheduler_task (sched k') x = if x =? a then Some (set_context here t) else Scheduler_task (sched (kern s)) x).
Proof.
  intros Hs Ht. unfold switch_task_to_kernel. erewrite bind_run; [|reflexivity]. rewrite Ht.
  erewrite bind_run; [|apply on_kernel_run, current_run].
  destruct (mut_run (mkKernel (set_current_task None (sched (kern s))) (kmem (kern s)) (debug_count (kern s))) a (set_context here))
    as (b & s' & E & Hs' & _ & Ec & Hf & _); [done| |].
  { destruct Hs. split; try assumption. done. }
  erewrite bind_run; [|apply on_kernel_run, E]. eexists. split; [reflexivity|]. cbn [sched].
  split; [done|]. split; [done|]. intros x. etrans; [exact (Hf x)|].
  change (Scheduler_task (sched (mkKernel _ _ _)) a) with (Scheduler_task (sched (kern s)) a). by rewrite Ht.
Qed.

Lemma cleanup_run s a b ta tb : sched_ok (sched (kern s)) → a ≠ b → current_task (sched (kern s)) = None →
  Scheduler_task (sched (kern s)) a = Some ta → Scheduler_task (sched (kern s)) b = Some tb → ∃ s',
  context_switch_test_cleanup a b s = Done ((), s') ∧ sched_ok (sched (kern s')) ∧
  current_task (sched (kern s')) = None ∧ test_task_a_id s' = 0 ∧ test_task_b_id s' = 0 ∧
  a :: b :: ids (run_queue (sched (kern s'))) ≡ₚ ids (run_queue (sched (kern s))) ∧
  (∀ x, Scheduler_task (sched (kern s')) x =
     if x =? a then None else if x =? b then None else Scheduler_task (sched (kern s)) x).
Proof.
  intros Hs Hab Hc Ha Hb. unfold context_switch_test_cleanup.
  destruct (remove_task_run _ a Hs) as [(_ & s1 & E1 & Hs1 & Hp1 & Hf1 & Hc1)|[Hn _]];
    [|by destruct (Hn (task_queued _ _ _ Hs Ha))].
  erewrite bind_run; [|apply on_kernel_run, on_sched_run, E1]. cbn [kern set_kern sched].
  destruct (remove_task_run _ b Hs1) as [(_ & s2 & E2 & Hs2 & Hp2 & Hf2 & Hc2)|[Hn _]].
  2:{ destruct Hn. apply (task_queued _ _ tb Hs1). by rewrite Hf1, (proj2 (Z.eqb_neq b a)) by congruence. }
  erewrite bind_run; [|apply on_kernel_run, on_sched_run, E2]. eexists. split; [reflexivity|]. cbn.
  rewrite Hc in Hc1. rewrite decide_False in Hc1 by done. rewrite Hc1, decide_False in Hc2 by done.
  do 4 (split; [done|]). split; [by rewrite Hp2|]. intros x. etrans; [exact (Hf2 x)|]. rewrite Hf1.
  by destruct (x =? b), (x =? a).
Qed.

(** The cooperative test hands the processor round as it means to: kernel, task A, task
    B, task A, kernel.  Whatever the contexts in which the parts wait, each switch
    continues in the context its target left, and the clean-up leaves the scheduler with
    the tasks it had before, none of them current.  Only the first two switches go
    wrong: neither task was given a context, so they continue at address 0
    ([TaskContext_empty]) instead of at the two bodies. *)
Theorem cooperative_test_roundtrip slot_stack here_k here_a here_b here_a' s : room 2 s →
  let a := next_task_id s in
  ∃ s1 s2 s3 s4 s5,
    run_context_switch_test slot_stack here_k s = Done (Some TaskContext_empty, s1) ∧
    context_test_task_a here_a s1 = Done (Some TaskContext_empty, s2) ∧
    context_test_task_b here_b s2 = Done (Some here_a, s3) ∧
    context_test_task_a_resumed here_a' a s3 = Done (here_k, s4) ∧
    context_switch_test_cleanup a (a + 1) s4 = Done ((), s5) ∧
    sched_ok (sched (kern s5)) ∧ current_task (sched (kern s5)) = None ∧
    (∀ x, Scheduler_task (sched (kern s5)) x = Scheduler_task (sched (kern s)) x).
Proof.
  intros Hroom a. assert (∀ x, x = a ∨ x = a + 1 → Scheduler_task (sched (kern s)) x = None) as Hnew.
  { intros x Hx. destruct (Scheduler_task _ x) eqn:E; [|done].
    pose proof (rm_fresh _ _ Hroom x (task_queued _ _ _ (rm_sched _ _ Hroom) E)). lia. }
  destruct (context_switch_test_spec slot_stack here_k s Hroom) as (s1 & E1 & Hs1 & Hk1 & _ & Ia & Ib & Hf1).
  fold a in Ia, Ib, Hf1. pose proof (Hf1 a) as Ha1. rewrite (proj2 (Z.eqb_neq a (a + 1))), Z.eqb_refl in Ha1 by lia.
  pose proof (Hf1 (a + 1)) as Hb1. rewrite Z.eqb_refl in Hb1.
  destruct (cooperative_roundtrip (kern s1) a (a + 1) _ _ here_a here_b Hs1 Ha1 Hb1)
    as (k2 & k3 & E2 & _ & E3 & _ & Hs3 & _ & Hf3); [lia|].
  pose proof (Hf3 a) as Ha3. rewrite (proj2 (Z.eqb_neq a (a + 1))), Z.eqb_refl in Ha3 by lia.
  pose proof (Hf3 (a + 1)) as Hb3. rewrite Z.eqb_refl in Hb3.
  destruct (switch_to_kernel_run (set_kern k3 s1) a _ here_a' Hs3 Ha3) as (k4 & E4 & Hs4 & Hc4 & Hf4).
  pose proof (Hf4 a) as Ha4. rewrite Z.eqb_refl in Ha4.
  pose proof (Hf4 (a + 1)) as Hb4. rewrite (proj2 (Z.eqb_neq (a + 1) a)) in Hb4 by lia.
  destruct (cleanup_run (set_kern k4 s1) a (a + 1) _ _ Hs4 ltac:(lia) Hc4 Ha4 (eq_trans Hb4 Hb3))
    as (s5 & E5 & Hs5 & Hc5 & _ & _ & _ & Hf5).
  exists s1, (set_kern k2 s1), (set_kern k3 s1), (set_kern k4 s1), s5. split; [exact E1|]. split.
  { unfold context_test_task_a. erewrite bind_run; [|reflexivity]. rewrite Ia, Ib. exact (on_kernel_run _ _ _ _ E2). }
  split.
  { unfold context_test_task_b. erewrite bind_run; [|reflexivity]. cbn [test_task_a_id test_task_b_id set_kern].
    rewrite Ia, Ib. exact (on_kernel_run _ (set_kern k2 s1) _ _ E3). }
  split; [rewrite <- Hk1; exact E4|]. split; [exact E5|]. split; [done|]. split; [done|]. intros x. rewrite Hf5.
  destruct (Z.eqb_spec x a) as [->|Hxa]; [symmetry; apply Hnew; by left|].
  destruct (Z.eqb_spec x (a + 1)) as [->|Hxb]; [symmetry; apply Hnew; by right|].
  cbn [kern set_kern]. rewrite Hf4, (proj2 (Z.eqb_neq x a) Hxa). cbn [kern set_kern].
  by rewrite Hf3, Hf1, (proj2 (Z.eqb_neq x (a + 1)) Hxb), (proj2 (Z.eqb_neq x a) Hxa).
Qed.

(** ** The preemptive tasks count *)

(** For as long as its counter cannot overflow, a task counts its rounds, announces
    itself in the first after the counter was 0, and touches nothing else. *)
Lemma preemptive_rounds n s : 0 ≤ preempt_ticks_a s → preempt_ticks_a s + Z.of_nat n < 2 ^ 64 →
  rounds n preemptive_task_a s =
    Done ((λ i, preempt_ticks_a s + Z.of_nat i =? 0) <$> seq 0 n, set_ticks_a (preempt_ticks_a s + Z.of_nat n) s).
Proof.
  revert s. induction n as [|n IH]; intros s H0 H1; [cbn; rewrite Z.add_0_r; by destruct s|].
  assert (preemptive_task_a s = Done (preempt_ticks_a s =? 0, set_ticks_a (preempt_ticks_a s + 1) s)) as E.
  { unfold preemptive_task_a. erewrite bind_run; [|reflexivity].
    erewrite bind_run; [|unfold lift; by rewrite add_u_Done by lia].
    unfold wrapping_add, cast. rewrite Z.mod_small by lia.
    transitivity (Done (preempt_ticks_a s + 1 =? 1, set_ticks_a (preempt_ticks_a s + 1) s)); [done|]. apply f_equal, f_equal2; [|done].
    destruct (Z.eqb_spec (preempt_ticks_a s) 0), (Z.eqb_spec (preempt_ticks_a s + 1) 1); lia. }
  cbn [rounds]. rewrite (bind_run _ _ _ _ _ E). erewrite bind_run; [|apply IH; cbn; lia].
  cbn [seq fmap list_fmap preempt_ticks_a set_ticks_a]. unfold mret, M_ret. apply f_equal, f_equal2.
  - apply f_equal2; [by rewrite Z.add_0_r|]. rewrite <- fmap_S_seq, <- list_fmap_compose. apply list_fmap_ext.
    intros i x _. cbn [compose]. f_equal. lia.
  - destruct s. unfold set_ticks_a. cbn. f_equal. lia.
Qed.
(** The loop then ends in a panic: after 2^64 - 1 rounds the addition overflows. *)
Lemma preemptive_overflow s : preempt_ticks_a s = 2 ^ 64 - 1 → preemptive_task_a s = Panicked Overflow.
Proof.
  intros H. unfold preemptive_task_a. erewrite bind_run; [|reflexivity]. rewrite H. reflexivity.
Qed.
