(* ===== verification/Syscall.v ===== *)
(** * System calls

    The model-specific registers (arch/x86_64/msr.rs), the system-call entry
    (arch/x86_64/syscall.rs and syscall.asm), the dispatcher (syscall/mod.rs)
    and the ring 3 test (arch/x86_64/user.rs and user_entry.asm), on the machine
    of Cpu.v.  The compiled dispatcher is an argument that keeps the calling
    convention and computes [dispatch]; addresses are arguments. *)

From S2P Require Import Prelude Cpu Task Interrupts Descriptors.
Local Open Scope Z_scope.

(** ** Model-specific registers *)

Definition IA32_EFER : Z := 0xC0000080.
Definition IA32_STAR : Z := 0xC0000081.
Definition IA32_LSTAR : Z := 0xC0000082.
Definition IA32_CSTAR : Z := 0xC0000083.
Definition IA32_FMASK : Z := 0xC0000084.
Definition EFER_SCE : Z := Z.shiftl 1 0.
Definition STAR_KERNEL_CS : Z := 0x08.
Definition STAR_USER_CS_BASE : Z := 0x20.
Definition SYSCALL_FMASK : Z := 0x200.
(** msr.rs has its own copies of the user selectors. *)
Definition MSR_USER_DATA_SELECTOR_R3 : Z := 0x2B.
Definition MSR_USER_CODE_SELECTOR_R3 : Z := 0x33.

Abbreviation msrs := (gmap Z Z).

(** [rdmsr] and [wrmsr]: EDX:EAX. *)
Definition rdmsr (ecx : Z) (ms : msrs) : Z * Z :=
  let v := default 0 (ms !! ecx) in (cast 32 v, cast 32 (Z.shiftr v 32)).
Definition wrmsr (ecx eax edx : Z) (ms : msrs) : msrs :=
  <[ecx := eax + edx * 2 ^ 32]> ms.

Definition msr_read (msr : Z) (ms : msrs) : Z :=
  let '(low, high) := rdmsr msr ms in Z.lor (Z.shiftl high 32) low.
Definition msr_write (msr value : Z) (ms : msrs) : msrs :=
  let low := cast 32 value in
  let high := cast 32 (Z.shiftr value 32) in
  wrmsr msr low high ms.

Definition read_efer (ms : msrs) : Z := msr_read IA32_EFER ms.
Definition write_efer (value : Z) (ms : msrs) : msrs := msr_write IA32_EFER value ms.
Definition enable_syscall_extensions (ms : msrs) : msrs :=
  let efer := read_efer ms in
  if Z.land efer EFER_SCE =? 0 then write_efer (Z.lor efer EFER_SCE) ms else ms.
Definition syscall_extensions_enabled (ms : msrs) : bool :=
  negb (Z.land (read_efer ms) EFER_SCE =? 0).

Definition make_star : Z := Z.lor (Z.shiftl STAR_USER_CS_BASE 48) (Z.shiftl STAR_KERNEL_CS 32).
Definition read_star (ms : msrs) : Z := msr_read IA32_STAR ms.
Definition read_lstar (ms : msrs) : Z := msr_read IA32_LSTAR ms.
Definition read_cstar (ms : msrs) : Z := msr_read IA32_CSTAR ms.
Definition read_fmask (ms : msrs) : Z := msr_read IA32_FMASK ms.

Definition init_syscall_msrs (lstar : Z) (ms : msrs) : msrs :=
  let star := make_star in
  let ms := msr_write IA32_STAR star ms in
  let ms := msr_write IA32_LSTAR lstar ms in
  let ms := msr_write IA32_CSTAR 0 ms in
  msr_write IA32_FMASK SYSCALL_FMASK ms.

Definition verify_syscall_msrs (lstar : Z) (ms : msrs) : bool :=
  let star := read_star ms in
  let actual_lstar := read_lstar ms in
  let cstar := read_cstar ms in
  let fmask := read_fmask ms in
  if negb (star =? make_star) then false
  else if negb (actual_lstar =? lstar) then false
  else if negb (cstar =? 0) then false
  else if negb (fmask =? SYSCALL_FMASK) then false
  else true.

Definition verify_syscall_selectors : bool :=
  let user_code := STAR_USER_CS_BASE + 16 in
  let user_data := STAR_USER_CS_BASE + 8 in
  (cast 16 user_code =? 0x30) && (cast 16 user_data =? 0x28) && (MSR_USER_CODE_SELECTOR_R3 =? 0x33)
  && (MSR_USER_DATA_SELECTOR_R3 =? 0x2B) && (cast 16 STAR_KERNEL_CS =? 0x08).
Definition syscall_kernel_cs : Z := cast 16 STAR_KERNEL_CS.
Definition syscall_kernel_ss : Z := cast 16 (STAR_KERNEL_CS + 8).
Definition sysret_user_cs : Z := Z.lor (cast 16 (STAR_USER_CS_BASE + 16)) 0x03.
Definition sysret_user_ss : Z := Z.lor (cast 16 (STAR_USER_CS_BASE + 8)) 0x03.

(** ** The instructions *)

(** [syscall], with RIP already past it, and [sysretq]: invalid opcodes while
    EFER.SCE is clear. *)
Definition sce (ms : msrs) : bool := Z.testbit (default 0 (ms !! IA32_EFER)) 0.
Definition syscall_insn (ms : msrs) (c : cpu) : cpu :=
  let star := default 0 (ms !! IA32_STAR) in
  if sce ms then
    mkCpu (gpr (set_reg RCX (rip c) (set_reg R11 (rflags c) c)))
      (default 0 (ms !! IA32_LSTAR))
      (Z.land (bits star 32 16) 0xFFFC) (Z.land (bits star 32 16) 0xFFFC + 8)
      (Z.land (rflags c) (Z.lnot (default 0 (ms !! IA32_FMASK)))) (cmem c) (raised c)
  else raise (6, 0) c.
Definition sysretq (ms : msrs) (c : cpu) : cpu :=
  let star := default 0 (ms !! IA32_STAR) in
  if sce ms then
    mkCpu (gpr c) (gpr c RCX) (Z.lor (bits star 48 16 + 16) 3) (Z.lor (bits star 48 16 + 8) 3)
      (Z.lor (Z.land (gpr c R11) 0x3C7FD7) 2) (cmem c) (raised c)
  else raise (6, 0) c.
(** [mov d, [a]] at a fixed address, and [cli]. *)
Definition mov_abs (d : reg) (a : Z) (c : cpu) : cpu := set_reg d (word c a) c.
Definition cli (c : cpu) : cpu :=
  mkCpu (gpr c) (rip c) (cs c) (ss c) (Z.land (rflags c) (Z.lnot 0x200)) (cmem c) (raised c).

(** ** The dispatcher *)

Definition SYS_GET_VERSION : Z := 0.
Definition UNBOUND_SYSCALL_ABI_VERSION : Z := 1.
Definition dispatch (number arg0 arg1 arg2 : Z) : Z :=
  if number =? SYS_GET_VERSION then UNBOUND_SYSCALL_ABI_VERSION else 2 ^ 64 - 1.

(** ** The entry *)

Definition SYSCALL_STACK_SIZE : Z := 16 * 1024.
Definition initialize_stack (stack_data : Z) : outcome Z := add_u 64 stack_data SYSCALL_STACK_SIZE.

Definition syscall_pushes : list reg :=
  [R12; RCX; R11; RAX; RDX; RBX; RBP; RSI; RDI; R8; R9; R10; R13; R14; R15].
Definition syscall_pops : list reg := [R15; R14; R13; R10; R9; R8; RDI; RSI; RBP; RBX; RDX].

Section entry.
(** The compiled dispatcher, where it returns to, and the address of the static
    [unbound_syscall_stack_top]. *)
Context (unbound_syscall_dispatch : cpu → cpu) (ret stack_top_var : Z) (ms : msrs).

Definition unbound_syscall_entry : cpu → cpu := run [
  mov R12 RSP;
  mov_abs RSP stack_top_var;
  push_all syscall_pushes;
  cli;
  mov_load RAX RSP 96;
  mov_load RDI RSP 56;
  mov_load RSI RSP 64;
  mov_load RDX RSP 88;
  mov R12 RSP;
  align_rsp;
  call ret unbound_syscall_dispatch;
  mov RSP R12;
  pop_all syscall_pops;
  add_imm RSP 8;
  pop_all [R11; RCX; R12];
  mov RSP R12;
  sysretq ms].
End entry.

(** ** Ring 3 *)



(** ** The registers *)

Lemma msr_write_lookup m v ms : in_u 64 v → msr_write m v ms !! m = Some v.
Proof.
  intros [H0 H1]. unfold msr_write, wrmsr, cast. rewrite lookup_insert_eq. f_equal.
  rewrite Z.shiftr_div_pow2 by lia. Z.div_mod_to_equations. lia.
Qed.
Lemma msr_write_ne m m' v ms : m ≠ m' → msr_write m v ms !! m' = ms !! m'.
Proof. intros Hm. unfold msr_write, wrmsr. by rewrite lookup_insert_ne. Qed.
Lemma msr_read_lookup m v ms : in_u 64 v → ms !! m = Some v → msr_read m ms = v.
Proof.
  intros [H0 H1] Hm. unfold msr_read, rdmsr. rewrite Hm. cbn [default from_option]. unfold cast, Datatypes.id.
  rewrite Z.lor_comm, lor_shiftl by (lia || (apply Z.mod_pos_bound; lia)).
  rewrite Z.shiftr_div_pow2 by lia. Z.div_mod_to_equations. lia.
Qed.

(** Bit 0 survives being read and written in halves. *)
Lemma msr_bit0 m ms : Z.testbit (msr_read m ms) 0 = Z.testbit (default 0 (ms !! m)) 0.
Proof.
  unfold msr_read, rdmsr, cast. rewrite Z.lor_spec, Z.shiftl_spec_low by lia. cbn [orb].
  by apply Z.mod_pow2_bits_low.
Qed.
Lemma msr_write_bit0 m v ms : Z.testbit (default 0 (msr_write m v ms !! m)) 0 = Z.testbit v 0.
Proof.
  unfold msr_write, wrmsr, cast. rewrite lookup_insert_eq. cbn [default from_option]. unfold Datatypes.id.
  rewrite Z.bit0_odd, Z.odd_add, Z.odd_mul, andb_false_r, xorb_false_r, <- Z.bit0_odd.
  by apply Z.mod_pow2_bits_low.
Qed.
(** [enable_syscall_extensions] sets EFER.SCE whatever EFER held. *)
Lemma sce_enable ms : sce (enable_syscall_extensions ms) = true.
Proof.
  unfold sce, enable_syscall_extensions, write_efer. cbv zeta. change EFER_SCE with (Z.shiftl 1 0).
  destruct (Z.eqb_spec (Z.land (read_efer ms) (Z.shiftl 1 0)) 0) as [Hz|Hz].
  - rewrite msr_write_bit0, Z.lor_spec. apply orb_true_r.
  - rewrite <- msr_bit0. rewrite <- land_pow2_ne0 by lia. by apply negb_true_iff, Z.eqb_neq.
Qed.

(** What [init_syscall_msrs] leaves in the registers. *)
Definition msrs_set (lstar : Z) (ms : msrs) : Prop :=
  ms !! IA32_STAR = Some make_star ∧ ms !! IA32_LSTAR = Some lstar ∧
  ms !! IA32_CSTAR = Some 0 ∧ ms !! IA32_FMASK = Some SYSCALL_FMASK.

Lemma init_msrs_set lstar ms : in_u 64 lstar → msrs_set lstar (init_syscall_msrs lstar ms) ∧
  (∀ m, m ∉ [IA32_STAR; IA32_LSTAR; IA32_CSTAR; IA32_FMASK] → init_syscall_msrs lstar ms !! m = ms !! m).
Proof.
  intros Hl. unfold msrs_set, init_syscall_msrs. cbv zeta. split.
  - repeat split; rewrite ?msr_write_ne by done; by rewrite msr_write_lookup.
  - intros m Hm. rewrite !not_elem_of_cons in Hm. destruct Hm as (? & ? & ? & ? & _).
    by rewrite !msr_write_ne by congruence.
Qed.
Lemma sce_init lstar ms : in_u 64 lstar → sce (init_syscall_msrs lstar ms) = sce ms.
Proof.
  intros Hl. unfold sce. rewrite (proj2 (init_msrs_set lstar ms Hl)); [done|].
  apply (bool_decide_unpack _). vm_compute. exact I.
Qed.

Lemma enable_efer_set efer ms : in_u 64 efer → ms !! IA32_EFER = Some efer →
  enable_syscall_extensions ms !! IA32_EFER = Some (Z.lor efer 1) ∧
  ∀ m, m ≠ IA32_EFER → enable_syscall_extensions ms !! m = ms !! m.
Proof.
  intros He Hm. unfold enable_syscall_extensions, read_efer, write_efer.
  rewrite (msr_read_lookup _ _ _ He Hm). cbv zeta.
  change EFER_SCE with 1. destruct (Z.eqb_spec (Z.land efer 1) 0) as [Hz|Hz].
  - split; [apply msr_write_lookup, in_u_lor; done || (unfold in_u; lia)|intros m Hne; by apply msr_write_ne].
  - split; [|done]. rewrite Hm. f_equal. change 1 with (Z.shiftl 1 0) in Hz.
    pose proof (land_pow2_ne0 efer 0 ltac:(lia)) as Hb. rewrite (proj2 (Z.eqb_neq _ _) Hz) in Hb. cbn [negb] in Hb.
    apply Z.bits_inj'. intros n Hn. rewrite Z.lor_spec. change 1 with (2 ^ 0). rewrite Z.pow2_bits_eqb by lia.
    destruct (Z.eqb_spec 0 n) as [<-|]; [by rewrite <- Hb|by rewrite orb_false_r].
Qed.
Lemma sce_enabled efer ms : in_u 64 efer → ms !! IA32_EFER = Some (Z.lor efer 1) →
  read_efer ms = Z.lor efer 1 ∧ syscall_extensions_enabled ms = true.
Proof.
  intros He Hm. assert (in_u 64 (Z.lor efer 1)) as He' by (apply in_u_lor; done || (unfold in_u; lia)).
  assert (read_efer ms = Z.lor efer 1) as Hr by (by apply msr_read_lookup). split; [done|].
  unfold syscall_extensions_enabled. rewrite Hr. change EFER_SCE with (Z.shiftl 1 0).
  rewrite land_pow2_ne0, Z.lor_spec by lia. apply orb_true_r.
Qed.
(** The registers read back. *)
Lemma msrs_set_read lstar ms : in_u 64 lstar → msrs_set lstar ms →
  read_star ms = make_star ∧ read_lstar ms = lstar ∧ read_cstar ms = 0 ∧ read_fmask ms = SYSCALL_FMASK ∧
  verify_syscall_msrs lstar ms = true.
Proof.
  intros Hl (S1 & S2 & S3 & S4). unfold verify_syscall_msrs, read_star, read_lstar, read_cstar, read_fmask.
  rewrite (msr_read_lookup _ make_star ms), (msr_read_lookup _ lstar ms), (msr_read_lookup _ 0 ms),
    (msr_read_lookup _ SYSCALL_FMASK ms) by (done || (apply (bool_decide_unpack _); vm_compute; exact I)).
  by rewrite !Z.eqb_refl.
Qed.

(** Programming the registers and checking them agree: after
    [enable_syscall_extensions] and [init_syscall_msrs] the extensions are
    enabled, [verify_syscall_msrs] succeeds and every other register is
    unchanged, EFER's other bits included; and the selectors the processor
    derives from STAR are those of the GDT, at the right privilege level. *)
Theorem syscall_msrs_spec lstar efer ms : in_u 64 lstar → in_u 64 efer → ms !! IA32_EFER = Some efer →
  let ms' := init_syscall_msrs lstar (enable_syscall_extensions ms) in
  syscall_extensions_enabled ms' = true ∧ verify_syscall_msrs lstar ms' = true ∧
  read_efer ms' = Z.lor efer 1 ∧
  (∀ m, m ∉ [IA32_EFER; IA32_STAR; IA32_LSTAR; IA32_CSTAR; IA32_FMASK] → ms' !! m = ms !! m) ∧
  (∀ c, cs (syscall_insn ms' c) = KERNEL_CODE_SELECTOR ∧ ss (syscall_insn ms' c) = KERNEL_DATA_SELECTOR ∧
        cs (sysretq ms' c) = USER_CODE_SELECTOR_R3 ∧ ss (sysretq ms' c) = USER_DATA_SELECTOR_R3 ∧
        rip (syscall_insn ms' c) = lstar).
Proof.
  intros Hl He Hm. cbv zeta.
  destruct (init_msrs_set lstar (enable_syscall_extensions ms) Hl) as [Hset Ho].
  destruct (enable_efer_set efer ms He Hm) as [E1 E2].
  pose proof (sce_init lstar (enable_syscall_extensions ms) Hl) as Hsce. rewrite sce_enable in Hsce.
  generalize dependent (init_syscall_msrs lstar (enable_syscall_extensions ms)). intros ms' Hset Ho Hsce.
  destruct (sce_enabled efer ms' He) as [Hr Hon].
  { rewrite Ho; [done|]. apply (bool_decide_unpack _). vm_compute. exact I. }
  split; [done|]. split; [by apply msrs_set_read|]. split; [done|]. split.
  - intros m Hn. apply not_elem_of_cons in Hn as [Hn1 Hn2]. by rewrite Ho, E2.
  - intros c. destruct Hset as (S1 & S2 & _). unfold syscall_insn, sysretq. rewrite Hsce, S1, S2. done.
Qed.

(** ** The path of a system call *)

Lemma not_in_regs (r : reg) (rs : list reg) : bool_decide (r ∉ rs) = true → r ∉ rs.
Proof. apply bool_decide_eq_true_1. Qed.

(** The frame: [rs] pushed in this order below [top]. *)
Definition pushed (c : cpu) (top : Z) (rs : list reg) (c' : cpu) : Prop :=
  ∀ i r, rs !! i = Some r → word c' (top - 8 * Z.of_nat (S i)) = gpr c r.

(** From the first instruction up to the call. *)
Definition syscall_loads : cpu → cpu := run [
  cli; mov_load RAX RSP 96; mov_load RDI RSP 56; mov_load RSI RSP 64; mov_load RDX RSP 88;
  mov R12 RSP; align_rsp].

Lemma syscall_loads_run c c1 top : regs_ok c1 → gpr c1 RSP = top - 120 → 256 ≤ top < 2 ^ 64 →
  regs_ok c → pushed c top syscall_pushes c1 → (∀ r, r ≠ RSP → gpr c1 r = gpr c r) →
  let c2 := syscall_loads c1 in
  regs_ok c2 ∧ gpr c2 RSP = (top - 120) / 16 * 16 ∧ gpr c2 R12 = top - 120 ∧
  gpr c2 RDI = gpr c RSI ∧ gpr c2 RSI = gpr c RBP ∧ gpr c2 RDX = gpr c RAX ∧ gpr c2 RCX = gpr c RCX ∧
  (∀ b, word c2 b = word c1 b).
Proof.
  intros Hr Hsp Ht Hrc Hp Hg. cbv zeta.
  pose proof (Hp 2%nat R11 eq_refl) as W1. pose proof (Hp 7%nat RSI eq_refl) as W2.
  pose proof (Hp 6%nat RBP eq_refl) as W3. pose proof (Hp 3%nat RAX eq_refl) as W4.
  assert (∀ off, 0 ≤ off < 120 → cast 64 (top - 120 + off) = top - 120 + off) as Hc.
  { intros off Ho. apply cast_small. lia. }
  assert (syscall_loads c1 = align_rsp (mov R12 RSP (set_reg RDX (gpr c RAX) (set_reg RSI (gpr c RBP)
    (set_reg RDI (gpr c RSI) (set_reg RAX (gpr c R11) (cli c1))))))) as ->.
  { unfold syscall_loads, run, mov_load. cbn [foldl]. do 2 f_equal.
    rewrite !gpr_set_reg, !(decide_False (P:=RSP = _)) by done.
    change (gpr (cli c1) RSP) with (gpr c1 RSP). rewrite Hsp, !Hc by lia.
    change (word (set_reg ?r ?x ?d) ?b) with (word d b). change (word (cli c1)) with (word c1).
    rewrite <- W1, <- W2, <- W3, <- W4.
    repeat (f_equal; try (f_equal; lia)). }
  assert (∀ x, in_u 64 x → in_u 64 (x / 16 * 16)) as Ha.
  { intros x [? ?]. unfold in_u. Z.div_mod_to_equations. lia. }
  cbn. rewrite Hsp, (Hg RCX) by done. split; [|done].
  intros r. cbn. repeat case_decide; first [apply Hrc|apply Hr|apply Ha; first [apply Hrc|apply Hr]].
Qed.

(** The return: [c] has the frame on its stack and its address in R12. *)
Definition syscall_leave (ms : msrs) : cpu → cpu := run [
  mov RSP R12; pop_all syscall_pops; add_imm RSP 8; pop_all [R11; RCX; R12]; mov RSP R12; sysretq ms].

Lemma syscall_leave_run ms c0 c top : sce ms = true → 256 ≤ top < 2 ^ 64 → gpr c R12 = top - 120 →
  pushed c0 top syscall_pushes c →
  let c' := syscall_leave ms c in
  gpr c' RAX = gpr c RAX ∧ gpr c' RSP = gpr c0 R12 ∧ gpr c' R12 = gpr c0 R12 ∧
  (∀ r, r ∉ [RAX; RSP; R12] → gpr c' r = gpr c0 r) ∧ rip c' = gpr c0 RCX ∧
  rflags c' = Z.lor (Z.land (gpr c0 R11) 0x3C7FD7) 2 ∧ (∀ b, word c' b = word c b) ∧
  raised c' = raised c.
Proof.
  intros Hsce Ht Hr Hp. cbv zeta. unfold syscall_leave, run. cbn [foldl].
  assert (raised (pop_all [R11; RCX; R12] (add_imm RSP 8 (pop_all syscall_pops (mov RSP R12 c)))) = raised c) as Rs.
  { rewrite raised_pop_all. apply (raised_pop_all syscall_pops (mov RSP R12 c)). }
  set (c1 := mov RSP R12 c). assert (gpr c1 RSP = top - 120) as S1 by (unfold c1; cbn; done).
  destruct (pop_all_run syscall_pops c1) as (S2 & G2 & K2 & W2 & _);
    [apply (bool_decide_unpack _); vm_compute; exact I|by apply not_in_regs|lia
    |change (length syscall_pops) with 11%nat; lia|].
  change (length syscall_pops) with 11%nat in S2.
  assert (gpr (pop_all syscall_pops c1) RAX = gpr c RAX) as A2.
  { rewrite K2; [done|by apply not_in_regs|done]. }
  assert (∀ i r, syscall_pops !! i = Some r → gpr (pop_all syscall_pops c1) r = gpr c0 r) as P2.
  { intros i r Hi. rewrite (G2 i r Hi), S1. change (word c1) with (word c).
    pose proof (lookup_lt_Some _ _ _ Hi) as Hlt. change (length syscall_pops) with 11%nat in Hlt.
    assert (syscall_pushes !! (14 - i)%nat = Some r) as Hi'.
    { change syscall_pops with (take 11 (reverse syscall_pushes)) in Hi.
      rewrite lookup_take_lt, reverse_lookup in Hi by (simpl; lia). rewrite <- Hi. by f_equal. }
    rewrite <- (Hp _ _ Hi'). f_equal. lia. }
  revert S2 K2 W2 A2 P2 Rs. clear G2. fold c1. generalize (pop_all syscall_pops c1). intros c2 S2 K2 W2 A2 P2 Rs.
  set (c3 := add_imm RSP 8 c2). assert (gpr c3 RSP = top - 24) as S3.
  { unfold c3, add_imm. cbn [gpr set_reg]. rewrite decide_True by done. rewrite cast_small; lia. }
  destruct (pop_all_run [R11; RCX; R12] c3) as (S4 & G4 & K4 & W4 & _);
    [apply (bool_decide_unpack _); vm_compute; exact I|by apply not_in_regs|lia|cbn [length]; lia|].
  assert (gpr (pop_all [R11; RCX; R12] c3) R11 = gpr c0 R11) as B1.
  { rewrite (G4 0%nat R11 eq_refl), S3. change (word c3) with (word c2). rewrite W2.
    rewrite <- (Hp 2%nat R11 eq_refl). change (word c1) with (word c). f_equal. lia. }
  assert (gpr (pop_all [R11; RCX; R12] c3) RCX = gpr c0 RCX) as B2.
  { rewrite (G4 1%nat RCX eq_refl), S3. change (word c3) with (word c2). rewrite W2.
    rewrite <- (Hp 1%nat RCX eq_refl). change (word c1) with (word c). f_equal. lia. }
  assert (gpr (pop_all [R11; RCX; R12] c3) R12 = gpr c0 R12) as B3.
  { rewrite (G4 2%nat R12 eq_refl), S3. change (word c3) with (word c2). rewrite W2.
    rewrite <- (Hp 0%nat R12 eq_refl). change (word c1) with (word c). f_equal. lia. }
  assert (∀ r, r ∉ [R11; RCX; R12] → r ≠ RSP → gpr (pop_all [R11; RCX; R12] c3) r = gpr c2 r) as B4.
  { intros r Hn Hne. rewrite K4 by done. unfold c3, add_imm. cbn. by rewrite decide_False. }
  fold c3 in Rs. revert W4 B1 B2 B3 B4 Rs. clear G4 K4 S4. generalize (pop_all [R11; RCX; R12] c3).
  intros c4 W4 B1 B2 B3 B4 Rs. unfold sysretq. rewrite Hsce. cbn [raised gpr rip rflags mov set_reg]. rewrite !(decide_False (P:=_ = RSP)) by done.
  rewrite (B4 RAX) by first [done|by apply not_in_regs]. rewrite B1, B2, B3.
  do 3 (split; [done|]). split; [|split; [done|split; [done|split; [|exact Rs]]]].
  - intros r Hn. rewrite !not_elem_of_cons in Hn. destruct Hn as (Hn1 & Hn2 & Hn3 & _).
    rewrite decide_False by done. destruct (decide (r = R11)) as [->|]; [done|].
    destruct (decide (r = RCX)) as [->|]; [done|].
    rewrite B4; [|rewrite !not_elem_of_cons; repeat split; try done; apply not_elem_of_nil|done].
    destruct r; try done; [exact (P2 10%nat RDX eq_refl)|exact (P2 9%nat RBX eq_refl)|exact (P2 8%nat RBP eq_refl)
      |exact (P2 7%nat RSI eq_refl)|exact (P2 6%nat RDI eq_refl)|exact (P2 5%nat R8 eq_refl)|exact (P2 4%nat R9 eq_refl)
      |exact (P2 3%nat R10 eq_refl)|exact (P2 2%nat R13 eq_refl)|exact (P2 1%nat R14 eq_refl)
      |exact (P2 0%nat R15 eq_refl)].
  - intros b. change (word c4 b = word c b). rewrite W4. change (word c3) with (word c2). by rewrite W2.
Qed.

(** [syscall] with the extensions enabled. *)
Lemma syscall_insn_on ms c : sce ms = true → syscall_insn ms c =
  mkCpu (gpr (set_reg RCX (rip c) (set_reg R11 (rflags c) c))) (default 0 (ms !! IA32_LSTAR))
    (Z.land (bits (default 0 (ms !! IA32_STAR)) 32 16) 0xFFFC)
    (Z.land (bits (default 0 (ms !! IA32_STAR)) 32 16) 0xFFFC + 8)
    (Z.land (rflags c) (Z.lnot (default 0 (ms !! IA32_FMASK)))) (cmem c) (raised c).
Proof. intros Hs. unfold syscall_insn. by rewrite Hs. Qed.

(** What the compiled dispatcher promises: the calling convention, and the
    value of [dispatch] on its four argument registers. *)
Record dispatcher (hi : Z) (f : cpu → cpu) : Prop := {
  di_abi : abi_call hi f;
  di_value e : regs_ok e → gpr e RSP + 8 < 2 ^ 64 →
    gpr (f e) RAX = dispatch (gpr e RDI) (gpr e RSI) (gpr e RDX) (gpr e RCX);
}.

Section path.
Context (hi : Z) (f : cpu → cpu) (Hf : dispatcher hi f) (ret stack_top_var top : Z) (Hret : in_u 64 ret)
  (Htop : 256 ≤ top ≤ hi) (Hhi : hi < 2 ^ 64).

Lemma syscall_entry_run ms c0 : sce ms = true → regs_ok c0 → word c0 stack_top_var = top →
  let c' := unbound_syscall_entry f ret stack_top_var ms c0 in
  gpr c' RAX = dispatch (gpr c0 RSI) (gpr c0 RBP) (gpr c0 RAX) (gpr c0 RCX) ∧
  gpr c' RSP = gpr c0 RSP ∧ gpr c' R12 = gpr c0 RSP ∧
  (∀ r, r ∉ [RAX; RSP; R12] → gpr c' r = gpr c0 r) ∧ rip c' = gpr c0 RCX ∧
  rflags c' = Z.lor (Z.land (gpr c0 R11) 0x3C7FD7) 2 ∧ raised c' = raised c0.
Proof.
  intros Hsce Hr Hv. cbv zeta. set (c1 := mov_abs RSP stack_top_var (mov R12 RSP c0)).
  assert (regs_ok c1) as R1.
  { intros r. unfold c1. cbn. change (word (mov R12 RSP c0)) with (word c0). rewrite Hv.
    repeat case_decide; try apply Hr. unfold in_u. lia. }
  assert (gpr c1 RSP = top) as S1.
  { unfold c1. cbn. exact Hv. }
  destruct (push_all_run syscall_pushes c1 R1) as (S2 & G2 & W2 & _ & R2);
    [by apply not_in_regs|change (length syscall_pushes) with 15%nat; lia|].
  change (length syscall_pushes) with 15%nat in S2. rewrite S1 in *.
  assert (raised (push_all syscall_pushes c1) = raised c0) as Q2 by apply (raised_push_all syscall_pushes c1).
  change (unbound_syscall_entry f ret stack_top_var ms c0)
    with (syscall_leave ms (call ret f (syscall_loads (push_all syscall_pushes c1)))).
  revert S2 G2 W2 R2 Q2. generalize (push_all syscall_pushes c1). intros c2 S2 G2 W2 R2 Q2.
  destruct (syscall_loads_run c1 c2 top R2) as (R3 & S3 & T3 & D3 & E3 & F3 & C3 & W3); [lia|lia|done|done|done|].
  assert (raised (syscall_loads c2) = raised c0) as Q3 by exact Q2.
  revert R3 S3 T3 D3 E3 F3 C3 W3 Q3. generalize (syscall_loads c2). intros c3 R3 S3 T3 D3 E3 F3 C3 W3 Q3.
  assert (16 * ((top - 120) / 16) ≤ top - 120 < 16 * ((top - 120) / 16) + 16) as Hal.
  { Z.div_mod_to_equations. lia. }
  destruct (call_run hi f ret c3 (di_abi _ _ Hf) R3 Hret) as (_ & _ & G4 & W4 & Q4); [lia|].
  assert (gpr (call ret f c3) RAX = dispatch (gpr c1 RSI) (gpr c1 RBP) (gpr c1 RAX) (gpr c1 RCX)) as A4.
  { destruct (call_enter ret c3 R3 Hret) as (Ra & Sa & Ga); [lia|]. unfold call.
    rewrite (di_value _ _ Hf), !Ga by done. by rewrite D3, E3, F3, C3. }
  assert (gpr (call ret f c3) R12 = top - 120) as T4.
  { rewrite G4; [done|]. apply (bool_decide_unpack _). vm_compute. exact I. }
  assert (pushed c1 top syscall_pushes (call ret f c3)) as P4.
  { intros i r Hi. pose proof (lookup_lt_Some _ _ _ Hi) as Hlt. change (length syscall_pushes) with 15%nat in Hlt.
    rewrite W4, W3 by lia. by apply W2. }
  destruct (syscall_leave_run ms c1 (call ret f c3) top Hsce) as (A5 & S5 & T5 & G5 & I5 & F5 & _ & Q5); [lia|done|done|].
  rewrite A5, S5, T5, I5, F5, A4, Q5, Q4, Q3. do 3 (split; [done|]). split; [|done].
  intros r Hn. rewrite G5 by done. rewrite !not_elem_of_cons in Hn. destruct Hn as (Hn1 & Hn2 & Hn3 & _).
  unfold c1. cbn. by rewrite !decide_False.
Qed.

(** C33: A system call returns to the instruction after [syscall], at privilege
    level 3, with the caller's stack pointer, its flags and every register but
    RAX, RCX, R11 and R12.  But the frame has fifteen words where the entry's
    offsets assume sixteen, so the dispatcher gets the caller's RSI as the call
    number, RBP, RAX and the return address as the arguments: the number in RAX
    is ignored, and the call succeeds exactly when RSI is zero.  R12 is lost:
    it comes back as the stack pointer.  The extensions are enabled first, as
    the kernel does, so neither [syscall] nor [sysretq] is an invalid opcode. *)
Theorem syscall_path lstar ms0 c : in_u 64 lstar → cpu_ok c → word c stack_top_var = top →
  let ms := init_syscall_msrs lstar (enable_syscall_extensions ms0) in
  let c' := unbound_syscall_entry f ret stack_top_var ms (syscall_insn ms c) in
  raised c' = None ∧ rip (syscall_insn ms c) = lstar ∧
  gpr c' RAX = (if gpr c RSI =? 0 then UNBOUND_SYSCALL_ABI_VERSION else 2 ^ 64 - 1) ∧
  rip c' = rip c ∧ cs c' = USER_CODE_SELECTOR_R3 ∧ ss c' = USER_DATA_SELECTOR_R3 ∧
  rflags c' = Z.lor (Z.land (rflags c) 0x3C7FD7) 2 ∧
  gpr c' RCX = rip c ∧ gpr c' R11 = rflags c ∧ gpr c' R12 = gpr c RSP ∧
  (∀ r, r ∉ [RAX; RCX; R11; R12] → gpr c' r = gpr c r).
Proof.
  intros Hl (Hr & Hip & _ & _ & Hfl & _ & Hrs) Hv. cbv zeta.
  destruct (init_msrs_set lstar (enable_syscall_extensions ms0) Hl) as [(M1 & M2 & _ & _) _].
  pose proof (sce_init lstar (enable_syscall_extensions ms0) Hl) as Hsce. rewrite sce_enable in Hsce.
  revert M1 M2 Hsce. generalize (init_syscall_msrs lstar (enable_syscall_extensions ms0)). intros ms M1 M2 Hsce.
  pose proof (syscall_insn_on ms c Hsce) as Hon.
  assert (regs_ok (syscall_insn ms c)) as R0.
  { rewrite Hon. intros r. cbn. repeat case_decide; done. }
  assert (word (syscall_insn ms c) stack_top_var = top) as Hv' by (by rewrite Hon).
  destruct (syscall_entry_run ms (syscall_insn ms c) Hsce R0 Hv') as (A & S & T & G & I & F & Q).
  assert (cs (unbound_syscall_entry f ret stack_top_var ms (syscall_insn ms c)) = USER_CODE_SELECTOR_R3 ∧
    ss (unbound_syscall_entry f ret stack_top_var ms (syscall_insn ms c)) = USER_DATA_SELECTOR_R3) as [Sc Sd].
  { unfold unbound_syscall_entry, run. cbn [foldl]. unfold sysretq. rewrite Hsce. cbn [cs ss]. by rewrite M1. }
  split; [rewrite Q, Hon; exact Hrs|]. rewrite Hon in *.
  split; [cbn; by rewrite M2|]. split; [exact A|]. split; [exact I|].
  split; [exact Sc|]. split; [exact Sd|].
  split; [exact F|]. split; [by rewrite G by (by apply not_in_regs)|].
  split; [by rewrite G by (by apply not_in_regs)|]. split; [exact T|].
  intros r Hn. rewrite !not_elem_of_cons in Hn. destruct Hn as (H1 & H2 & H3 & H4 & _).
  destruct (decide (r = RSP)) as [->|Hsp]; [exact S|].
  rewrite G by (rewrite !not_elem_of_cons; repeat split; try done; apply not_elem_of_nil).
  cbn. by rewrite !decide_False.
Qed.
End path.

(** A dispatcher. *)
Definition quick_dispatch (c : cpu) : cpu :=
  add_imm RSP 8 (set_reg RAX (dispatch (gpr c RDI) (gpr c RSI) (gpr c RDX) (gpr c RCX)) c).

Lemma quick_dispatch_ok hi : dispatcher hi quick_dispatch.
Proof.
  assert (∀ c, regs_ok c → gpr c RSP + 8 < 2 ^ 64 → gpr (quick_dispatch c) RSP = gpr c RSP + 8) as S.
  { intros c Hr Hs. pose proof (Hr RSP) as [? _]. unfold quick_dispatch, add_imm.
    cbn [gpr set_reg]. rewrite decide_True, decide_False by done. by rewrite cast_small by lia. }
  split; [split; [|done| |done|done]|done].
  - intros c Hr Hs r. pose proof (Hr RSP) as [? _].
    destruct (decide (r = RSP)) as [->|Hne]; [rewrite S by done; unfold in_u; lia|].
    unfold quick_dispatch, add_imm. cbn [gpr set_reg]. rewrite decide_False by done.
    case_decide; [|apply Hr]. unfold dispatch, in_u. destruct (_ =? _); vm_compute; intuition congruence.
  - intros c r _ _ Hr. unfold quick_dispatch, add_imm. cbn [gpr set_reg].
    rewrite !decide_False; [done|intros ->..]; revert Hr; apply (bool_decide_unpack _); vm_compute; exact I.
Qed.



(** ** Concrete inputs *)

Lemma syscall_msrs_spec_witness :
  verify_syscall_msrs 0x104000 (init_syscall_msrs 0x104000 (enable_syscall_extensions {[IA32_EFER := 0x500]})) = true.
Proof.
  destruct (syscall_msrs_spec 0x104000 0x500 {[IA32_EFER := 0x500]}) as (_ & H & _);
    [unfold in_u; lia|unfold in_u; lia|reflexivity|]. exact H.
Defined.

(** A caller with RSI = 1 asks for call 0 and is refused. *)
Definition caller : cpu :=
  mkCpu (λ r, match r with RSP => 0x7000 | RSI => 1 | R12 => 9 | _ => 0 end) 0x400010 0x33 0x2B 0x202
    (le_store ∅ 0x5000 8 0x9000) None.

Lemma caller_ok : cpu_ok caller.
Proof. split; [intros []; vm_compute; split; congruence|vm_compute; intuition congruence]. Qed.

Lemma syscall_path_witness :
  let ms := init_syscall_msrs 0x104000 (enable_syscall_extensions {[IA32_EFER := 0x500]}) in
  let c' := unbound_syscall_entry quick_dispatch 0x104100 0x5000 ms (syscall_insn ms caller) in
  gpr c' RAX = 2 ^ 64 - 1 ∧ gpr c' R12 = 0x7000.
Proof.
  destruct (syscall_path 0xA000 quick_dispatch (quick_dispatch_ok _) 0x104100 0x5000 0x9000
    ltac:(unfold in_u; lia) ltac:(lia) ltac:(lia) 0x104000 {[IA32_EFER := 0x500]} caller) as (_ & _ & A & _ & _ & _ & _ & _ & _ & T & _);
    [unfold in_u; lia|exact caller_ok|vm_compute; reflexivity|]. split; [exact A|exact T].
Defined.


