(* ===== verification/Serial.v ===== *)
(** * The serial console (kernel/src/bin/kernel.rs and arch/x86_64/idt.rs)

    The first serial port is polled: a byte is written to port 0x3F8 once bit 5
    of the line status, port 0x3FD, is set.  The transmitter has a queue: one
    byte on a 8250 or 16450, sixteen on a 16550A whose queue is enabled, as the
    loader does.  Bit 5 says that the queue is empty; a byte written while the
    queue is full is lost, or makes an earlier one of the queue lost.  How fast
    the device takes bytes from the queue is an argument, so the loop that waits
    for it has fuel; the theorems hold for every device that empties its queue
    within the fuel. *)

From S2P Require Import Prelude.
Local Open Scope Z_scope.

(** A device: the length of its queue; how many bytes of the queue it has taken
    since the access before the n-th access to the port; which byte an overrun at
    the n-th access loses, counted backwards from the one written; and what the
    other bits of the line status are. *)
Record device := mkDevice {
  depth : nat;
  drained : nat → nat;
  victim : nat → nat;
  lines : nat → Z;
}.

(** The bytes that have reached the line or wait in the queue, how many of them
    wait, and the number of accesses to the port so far. *)
Record uart := mkUart { sent : list Z; held : nat; clock : nat }.

Section serial.
Context (d : device).

(** The bytes still waiting when the port is accessed next. *)
Definition waiting (u : uart) : nat := (held u - drained d (clock u))%nat.

Definition in_status : M uart Z := λ u,
  Done (Z.lor (Z.ldiff (lines d (clock u)) 0x20) (if (waiting u =? 0)%nat then 0x20 else 0),
        mkUart (sent u) (waiting u) (S (clock u))).

(** A byte written to a full queue costs one byte: the one written or one of
    those that wait. *)
Definition overrun (u : uart) (c : Z) : list Z :=
  delete (length (sent u) - (victim d (clock u)) `min` waiting u)%nat (sent u ++ [c]).
Definition out_data (c : Z) : M uart unit := λ u,
  Done ((), if (waiting u <? depth d)%nat then mkUart (sent u ++ [c]) (S (waiting u)) (S (clock u))
            else mkUart (overrun u c) (waiting u) (S (clock u))).

(** [loop { status = in(0x3FD); if status & 0x20 != 0 { break } }]. *)
Fixpoint serial_wait (fuel : nat) : M uart unit :=
  match fuel with
  | O => λ _, Panicked SpinForever
  | S k => st ← in_status; if negb (Z.land st 0x20 =? 0) then mret () else serial_wait k
  end.

Context (fuel : nat).

Definition serial_write_char (c : Z) : M uart unit := serial_wait fuel ;; out_data c.

Fixpoint serial_write_string (s : list Z) : M uart unit :=
  match s with
  | [] => mret ()
  | c :: rest => serial_write_char c ;; serial_write_string rest
  end.

Definition serial_write_hex_digit (value : Z) : M uart unit :=
  c ← (if value <? 10 then lift (add_u 8 48 value)
       else d ← lift (sub_u value 10); lift (add_u 8 65 d));
  serial_write_char c.

Definition serial_write_hex8 (value : Z) : M uart unit :=
  serial_write_hex_digit (Z.land (Z.shiftr value 4) 0x0F) ;;
  serial_write_hex_digit (Z.land value 0x0F).

(** [loop { .. if shift == 0 { break } shift -= 4 }], from [shift = 4 n]. *)
Fixpoint hex_loop (n : nat) (value : Z) : M uart unit :=
  let shift := 4 * Z.of_nat n in
  serial_write_hex_digit (Z.land (Z.shiftr value shift) 0x0F) ;;
  match n with
  | O => mret ()
  | S k => hex_loop k value
  end.
Definition serial_write_hex32 (value : Z) : M uart unit := hex_loop 7 value.
Definition serial_write_hex64 (value : Z) : M uart unit := hex_loop 15 value.

(** The copy in idt.rs: a table of digits, written without waiting. *)
Definition HEX : list Z := [48; 49; 50; 51; 52; 53; 54; 55; 56; 57; 65; 66; 67; 68; 69; 70].
Fixpoint idt_hex_loop (n : nat) (value : Z) : M uart unit :=
  let shift := 4 * Z.of_nat n in
  let digit := Z.land (Z.shiftr value shift) 0xF in
  c ← lift (match HEX !! Z.to_nat digit with Some c => Done c | None => Panicked OutOfBounds end);
  out_data c ;;
  match n with
  | O => mret ()
  | S k => idt_hex_loop k value
  end.
Definition idt_serial_write_hex64 (value : Z) : M uart unit :=
  serial_write_string [48; 120] ;; idt_hex_loop 15 value.
End serial.

(** ** Digits *)

(** The character of a digit, and the digits of a number, most significant
    first. *)
Definition hex_char (d : Z) : Z := if d <? 10 then 48 + d else 55 + d.
Fixpoint hex_digits (n : nat) (value : Z) : list Z :=
  match n with
  | O => [hex_char (value mod 16)]
  | S k => hex_char (value / 16 ^ Z.of_nat n mod 16) :: hex_digits k value
  end.

Lemma digit_bits value n : Z.land (Z.shiftr value (4 * Z.of_nat n)) 0x0F = value / 16 ^ Z.of_nat n mod 16.
Proof.
  change 0x0F with (Z.ones 4). rewrite Z.land_ones, Z.shiftr_div_pow2, Z.pow_mul_r by lia. done.
Qed.

(** Reading the digits back. *)
Definition hex_value (c : Z) : option Z :=
  if (48 <=? c) && (c <=? 57) then Some (c - 48)
  else if (65 <=? c) && (c <=? 70) then Some (c - 55) else None.
Fixpoint parse_hex (acc : Z) (s : list Z) : option Z :=
  match s with
  | [] => Some acc
  | c :: rest => match hex_value c with Some d => parse_hex (16 * acc + d) rest | None => None end
  end.

Lemma hex_value_char d : 0 ≤ d < 16 → hex_value (hex_char d) = Some d.
Proof.
  intros Hd. unfold hex_value, hex_char. destruct (Z.ltb_spec d 10).
  - rewrite (proj2 (Z.leb_le _ _)), (proj2 (Z.leb_le _ _)) by lia. cbn [andb]. f_equal. lia.
  - rewrite (proj2 (Z.leb_gt (55 + d) 57)), andb_false_r by lia.
    rewrite (proj2 (Z.leb_le _ _)), (proj2 (Z.leb_le _ _)) by lia. cbn [andb]. f_equal. lia.
Qed.

Lemma parse_digits n value acc :
  parse_hex acc (hex_digits n value) = Some (acc * 16 ^ Z.of_nat (S n) + value mod 16 ^ Z.of_nat (S n)).
Proof.
  revert acc. induction n as [|n IH]; intros acc; cbn [hex_digits parse_hex].
  - rewrite hex_value_char by (apply Z.mod_pos_bound; lia). f_equal. change (16 ^ Z.of_nat 1) with 16. lia.
  - rewrite hex_value_char by (apply Z.mod_pos_bound; lia). rewrite IH. f_equal.
    rewrite (Nat2Z.inj_succ (S n)), Z.pow_succ_r by lia. set (b := 16 ^ Z.of_nat (S n)).
    assert (0 < b) by (apply Z.pow_pos_nonneg; lia). rewrite (Z.mul_comm 16 b), Z.rem_mul_r by lia. lia.
Qed.

Lemma hex_digits_length n value : length (hex_digits n value) = S n.
Proof. induction n as [|n IH]; [done|]. cbn [hex_digits length]. by rewrite IH. Qed.

(** The table of idt.rs holds the same characters. *)
Lemma HEX_char d : 0 ≤ d < 16 → HEX !! Z.to_nat d = Some (hex_char d).
Proof.
  intros Hd. assert (d ∈ Z.of_nat <$> seq 0 16) as Hin.
  { apply list_elem_of_fmap. exists (Z.to_nat d). split; [lia|]. apply elem_of_seq. lia. }
  cbn in Hin. rewrite !elem_of_cons, elem_of_nil in Hin. destruct_or! Hin; try done; by subst d.
Qed.

(** ** Waiting *)

(** The bytes the device takes during [k] accesses from the [n]-th on. *)
Fixpoint taken (d : device) (n k : nat) : nat :=
  match k with
  | O => 0
  | S k => drained d n + taken d (S n) k
  end.
(** The device empties its queue within [fuel] accesses, from any point on. *)
Definition ready_within (fuel : nat) (d : device) : Prop :=
  (0 < depth d)%nat ∧ ∀ n, (depth d ≤ taken d n fuel)%nat.
(** The queue holds no more than it can. *)
Definition queue_ok (d : device) (u : uart) : Prop := (held u ≤ depth d)%nat.

(** [m] returns after sending exactly [s], in at most [k] accesses. *)
Definition sends (d : device) (m : M uart unit) (u : uart) (s : list Z) (k : nat) : Prop :=
  ∃ u', m u = Done ((), u') ∧ sent u' = sent u ++ s ∧ queue_ok d u' ∧ (clock u' ≤ clock u + k)%nat.

Lemma sends_nil d u : queue_ok d u → sends d (mret ()) u [] 0.
Proof. intros Hq. exists u. rewrite app_nil_r. split_and!; [done|done|done|lia]. Qed.
Lemma sends_bind d (m1 m2 : M uart unit) u s1 s2 k1 k2 : sends d m1 u s1 k1 →
  (∀ u', queue_ok d u' → sends d m2 u' s2 k2) → sends d (m1 ;; m2) u (s1 ++ s2) (k1 + k2).
Proof.
  intros (u1 & E1 & S1 & Q1 & C1) H2. destruct (H2 u1 Q1) as (u2 & E2 & S2 & Q2 & C2).
  exists u2. rewrite (bind_run _ _ _ _ _ E1), E2, S2, S1, app_assoc. split_and!; [done|done|done|lia].
Qed.

Lemma status_bit d u : negb (Z.land (Z.lor (Z.ldiff (lines d (clock u)) 0x20)
  (if (waiting d u =? 0)%nat then 0x20 else 0)) 0x20 =? 0) = (waiting d u =? 0)%nat.
Proof.
  change (Z.land ?x 0x20) with (Z.land x (Z.shiftl 1 5)). rewrite land_pow2_ne0 by lia.
  rewrite Z.lor_spec, Z.ldiff_spec. change (Z.testbit 0x20 5) with true. cbn [negb].
  rewrite andb_false_r. by destruct (waiting d u =? 0)%nat.
Qed.

Section proofs.
Context (d : device) (fuel : nat) (Hready : ready_within fuel d).

(** The wait ends with an empty queue. *)
Lemma serial_wait_run f u : (0 < f)%nat → (held u ≤ taken d (clock u) f)%nat → ∃ n,
  serial_wait d f u = Done ((), mkUart (sent u) 0 n) ∧ (n ≤ clock u + f)%nat.
Proof.
  revert u. induction f as [|f IH]; intros u Hf Hh; [lia|]. cbn [serial_wait taken] in *.
  erewrite bind_run; [|reflexivity]. rewrite status_bit. destruct (Nat.eqb_spec (waiting d u) 0) as [Hw|Hw].
  { exists (S (clock u)). split; [by rewrite Hw|lia]. }
  unfold waiting in *. destruct (IH (mkUart (sent u) (waiting d u) (S (clock u)))) as (n & E & Hn).
  - destruct f; cbn [taken] in Hh; lia.
  - cbn [held clock]. unfold waiting. lia.
  - exists n. split; [exact E|]. cbn [clock] in Hn. lia.
Qed.

Lemma write_char_run c u : queue_ok d u → ∃ n,
  serial_write_char d fuel c u = Done ((), mkUart (sent u ++ [c]) 1 n) ∧ (n ≤ clock u + S fuel)%nat.
Proof.
  intros Hq. destruct Hready as (Hd & Hr). specialize (Hr (clock u)). unfold queue_ok in Hq.
  destruct (serial_wait_run fuel u) as (n & E & Hn); [destruct fuel; cbn in Hr; lia|lia|].
  exists (S n). split; [|lia]. unfold serial_write_char. rewrite (bind_run _ _ _ _ _ E).
  unfold out_data, waiting. cbn [held clock sent]. rewrite Nat.sub_0_l, (proj2 (Nat.ltb_lt _ _) Hd). done.
Qed.
Lemma write_char_sends c u : queue_ok d u → sends d (serial_write_char d fuel c) u [c] (S fuel).
Proof.
  intros Hq. destruct (write_char_run c u Hq) as (n & E & Hn). eexists. split; [exact E|].
  destruct Hready as (Hd & _). split_and!; [done| |done]. unfold queue_ok. cbn [held]. lia.
Qed.

(** Printing a string terminates and sends exactly its bytes, in order. *)
Lemma serial_write_string_spec s u : queue_ok d u →
  sends d (serial_write_string d fuel s) u s (S fuel * length s).
Proof.
  revert u. induction s as [|c s IH]; intros u Hq; cbn [serial_write_string].
  { rewrite Nat.mul_0_r. by apply sends_nil. }
  replace (S fuel * length (c :: s))%nat with (S fuel + S fuel * length s)%nat by (cbn [length]; lia).
  apply (sends_bind d _ _ u [c] s); [by apply write_char_sends|exact IH].
Qed.

(** ** Hexadecimal *)

Lemma write_digit_sends v u : 0 ≤ v < 16 → queue_ok d u →
  sends d (serial_write_hex_digit d fuel v) u [hex_char v] (S fuel).
Proof.
  intros Hv Hq. destruct (write_char_sends (hex_char v) u Hq) as (u' & E & H). exists u'. split; [|exact H].
  unfold serial_write_hex_digit, hex_char in *. destruct (Z.ltb_spec v 10).
  - erewrite bind_run; [exact E|]. unfold lift. by rewrite add_u_Done by lia.
  - erewrite bind_run; [exact E|]. erewrite bind_run; [|unfold lift; by rewrite sub_u_Done by lia].
    unfold lift. rewrite add_u_Done by lia. do 2 f_equal. lia.
Qed.

Lemma hex_loop_sends n value u : queue_ok d u →
  sends d (hex_loop d fuel n value) u (hex_digits n value) (S fuel * S n).
Proof.
  revert u. induction n as [|n IH]; intros u Hq; cbn [hex_loop hex_digits]; rewrite digit_bits.
  - rewrite <- (Nat.add_0_r (S fuel * 1)), Nat.mul_1_r. change (16 ^ Z.of_nat 0) with 1. rewrite Z.div_1_r.
    apply (sends_bind d _ _ u [_] []); [apply write_digit_sends; [apply Z.mod_pos_bound; lia|done]|].
    intros u' Hq'. by apply sends_nil.
  - replace (S fuel * S (S n))%nat with (S fuel + S fuel * S n)%nat by lia.
    apply (sends_bind d _ _ u [_] (hex_digits n value)); [|exact IH].
    apply write_digit_sends; [apply Z.mod_pos_bound; lia|done].
Qed.

Lemma hex8_sends value u : queue_ok d u →
  sends d (serial_write_hex8 d fuel value) u (hex_digits 1 value) (S fuel * 2).
Proof.
  intros Hq. destruct (hex_loop_sends 1 value u Hq) as (u' & E & H). exists u'. split; [|exact H]. rewrite <- E.
  unfold serial_write_hex8. cbn [hex_loop]. change (4 * Z.of_nat 1) with 4. change (4 * Z.of_nat 0) with 0.
  rewrite Z.shiftr_0_r. unfold mbind, M_bind.
  destruct (serial_write_hex_digit d fuel (Z.land (Z.shiftr value 4) 15) u) as [[[] u1]|]; [|done].
  by destruct (serial_write_hex_digit d fuel (Z.land value 15) u1) as [[[] u2]|].
Qed.

(** ** The copy that does not wait *)

(** The queue has room for [n] writes from the access [t] on, with [h] bytes
    waiting before. *)
Fixpoint keeps_up (n t h : nat) : bool :=
  match n with
  | O => true
  | S n => let h' := (h - drained d t)%nat in (h' <? depth d)%nat && keeps_up n (S t) (S h')
  end.

(** One write without a wait. *)
Lemma out_data_run c u : queue_ok d u → ∃ u',
  out_data d c u = Done ((), u') ∧ queue_ok d u' ∧ clock u' = S (clock u) ∧ sent u' `sublist_of` sent u ++ [c] ∧
  if (waiting d u <? depth d)%nat then sent u' = sent u ++ [c] ∧ held u' = S (waiting d u)
  else length (sent u') = length (sent u) ∧ held u = depth d ∧ held u' = depth d.
Proof.
  intros Hq. unfold out_data, queue_ok in *. eexists. split; [reflexivity|].
  destruct (Nat.ltb_spec (waiting d u) (depth d)) as [Hw|Hw]; cbn [held clock sent].
  { split_and!; [lia|done|done|done|done]. }
  assert (waiting d u = held u) by (unfold waiting in *; lia).
  split_and!; [lia|done| | |lia|lia]; unfold overrun; [apply sublist_delete|].
  rewrite length_delete; [rewrite length_app; cbn [length]; lia|].
  apply lookup_lt_is_Some_2. rewrite length_app. cbn [length]. lia.
Qed.

(** Bytes written one after the other without a wait: those that are sent are
    among them, at most as many are lost as the queue is too short for, and none
    exactly when the device keeps up. *)
Fixpoint burst (s : list Z) : M uart unit :=
  match s with
  | [] => mret ()
  | c :: rest => out_data d c ;; burst rest
  end.
Lemma burst_run s u : queue_ok d u → ∃ u',
  burst s u = Done ((), u') ∧ sent u' `sublist_of` sent u ++ s ∧
  (length (sent u) + length s ≤ length (sent u') + (held u + length s - depth d))%nat ∧
  (sent u' = sent u ++ s ↔ keeps_up (length s) (clock u) (held u) = true).
Proof.
  revert u. induction s as [|c s IH]; intros u Hq; cbn [burst keeps_up length].
  { exists u. rewrite app_nil_r. split_and!; [done|done|lia|done]. }
  destruct (out_data_run c u Hq) as (u1 & E & Hq1 & Hc & Hsub & Hcase).
  destruct (IH u1 Hq1) as (u2 & E2 & Hsub2 & Hlen & Hiff). exists u2.
  rewrite (bind_run _ _ _ _ _ E), E2. fold (waiting d u). rewrite Hc in Hiff.
  split; [done|]. split.
  { etrans; [exact Hsub2|]. rewrite (cons_middle c (sent u) s), app_assoc. by apply sublist_app. }
  destruct (waiting d u <? depth d)%nat.
  - destruct Hcase as (Hs & Hh). rewrite Hs, length_app in Hlen. rewrite Hs, <- app_assoc, Hh in Hiff.
    split; [unfold waiting in Hh; cbn [length] in Hlen; lia|exact Hiff].
  - destruct Hcase as (Hs & Hh & Hh'). split; [lia|]. cbn [andb].
    split; [|done]. intros Heq. apply sublist_length in Hsub2. rewrite Heq, !length_app in Hsub2.
    cbn [length] in Hsub2. lia.
Qed.

Lemma idt_hex_loop_burst n value u : idt_hex_loop d n value u = burst (hex_digits n value) u.
Proof.
  revert u. induction n as [|n IH]; intros u; cbn [idt_hex_loop hex_digits burst]; rewrite digit_bits;
    rewrite HEX_char by (apply Z.mod_pos_bound; lia); erewrite bind_run by reflexivity.
  - change (16 ^ Z.of_nat 0) with 1. by rewrite Z.div_1_r.
  - unfold mbind, M_bind. by destruct (out_data d _ u) as [[[] u1]|].
Qed.

(** Hexadecimal output loses nothing: [serial_write_hex64] sends sixteen
    upper-case digits that read back as the value, for every 64-bit value, and
    terminates on a device that empties its queue. *)
Lemma hex64_roundtrip value u : in_u 64 value → queue_ok d u → ∃ digits,
  sends d (serial_write_hex64 d fuel value) u digits (S fuel * 16) ∧
  length digits = 16%nat ∧ parse_hex 0 digits = Some value.
Proof.
  intros [H0 H1] Hq. exists (hex_digits 15 value). split; [by apply hex_loop_sends|].
  split; [apply hex_digits_length|].
  rewrite parse_digits. f_equal. change (16 ^ Z.of_nat 16) with (2 ^ 64). by rewrite Z.mod_small.
Qed.

(** C36: The two hexadecimal printers, on every device that empties its queue
    within the fuel.  The kernel's own printer, after the prefix 0x, sends
    sixteen digits that read back as the value.  The copy in idt.rs, which does
    not wait, sends some of these bytes in the same order; it sends the same
    bytes if and only if the queue has room at each of its sixteen writes, and
    it loses at most as many digits as the queue is shorter than seventeen: one
    at most on a 16550A with its queue of sixteen, which the loader enables. *)
Theorem hex64_equivalent value u : in_u 64 value → queue_ok d u → ∃ u0 u1 u2 digits,
  serial_write_string d fuel [48; 120] u = Done ((), u0) ∧
  idt_serial_write_hex64 d fuel value u = Done ((), u1) ∧
  (serial_write_string d fuel [48; 120] ;; serial_write_hex64 d fuel value) u = Done ((), u2) ∧
  sent u2 = sent u ++ [48; 120] ++ digits ∧ length digits = 16%nat ∧ parse_hex 0 digits = Some value ∧
  sent u1 `sublist_of` sent u2 ∧ (length (sent u2) ≤ length (sent u1) + (17 - depth d))%nat ∧
  (sent u1 = sent u2 ↔ keeps_up 16 (clock u0) (held u0) = true).
Proof.
  intros Hv Hq. destruct (write_char_run 48 u Hq) as (n1 & E1 & _).
  assert (∀ s n, queue_ok d (mkUart s 1 n)) as Hq1.
  { intros s n. destruct Hready as (Hd & _). unfold queue_ok. cbn [held]. lia. }
  destruct (write_char_run 120 (mkUart (sent u ++ [48]) 1 n1) (Hq1 _ _)) as (n2 & E2 & _). cbn [sent] in E2.
  set (u0 := mkUart ((sent u ++ [48]) ++ [120]) 1 n2) in *.
  assert (serial_write_string d fuel [48; 120] u = Done ((), u0)) as E.
  { cbn [serial_write_string]. by rewrite (bind_run _ _ _ _ _ E1), (bind_run _ _ _ _ _ E2). }
  destruct (hex_loop_sends 15 value u0 (Hq1 _ _)) as (u2 & Ek & Hs2 & _).
  destruct (burst_run (hex_digits 15 value) u0 (Hq1 _ _)) as (u1 & Eb & Hsub & Hlen & Hiff).
  rewrite <- Hs2 in Hsub, Hiff. rewrite hex_digits_length in Hlen, Hiff.
  exists u0, u1, u2, (hex_digits 15 value). split; [exact E|].
  unfold idt_serial_write_hex64, serial_write_hex64. rewrite !(bind_run _ _ _ _ _ E), idt_hex_loop_burst.
  split_and!; [exact Eb|exact Ek| |apply hex_digits_length| |exact Hsub| |exact Hiff].
  - rewrite Hs2. cbn [u0 sent]. by rewrite <- !app_assoc.
  - rewrite parse_digits. f_equal. change (16 ^ Z.of_nat 16) with (2 ^ 64). by apply Z.mod_small.
  - rewrite Hs2, length_app, hex_digits_length. cbn [held u0] in Hlen. lia.
Qed.
End proofs.

(** ** Devices *)

(** A device without a queue that takes a byte at every third access. *)
Definition slow_device : device :=
  mkDevice 1 (λ n, if (n mod 3 =? 2)%nat then 1%nat else 0%nat) (λ _, 1%nat) (λ _, 0x40).
Lemma slow_ready : ready_within 3 slow_device.
Proof.
  split; [cbn; lia|]. intros n. cbn [depth slow_device taken drained].
  assert (n mod 3 < 3)%nat by (apply Nat.mod_upper_bound; lia).
  pose proof (Nat.Div0.add_mod n 1 3) as H1. pose proof (Nat.Div0.add_mod n 2 3) as H2.
  change (S (S n)) with (2 + n)%nat. change (S n) with (1 + n)%nat. rewrite !(Nat.add_comm _ n), H1, H2.
  destruct (n mod 3)%nat as [|[|[|r]]]; [vm_compute; lia|vm_compute; lia|vm_compute; lia|lia].
Qed.
(** One with a queue of sixteen that takes a byte at every access. *)
Definition fast_device : device := mkDevice 16 (λ _, 1%nat) (λ _, 0%nat) (λ _, 0).
Lemma fast_ready : ready_within 16 fast_device.
Proof. split; [cbn; lia|]. intros n. cbn. lia. Qed.

(** The copy of idt.rs on the two devices: all of 0x1234 arrives on the second,
    and on the first the digits that the next write overtakes do not. *)
Lemma idt_digits_lost :
  (∃ u, idt_serial_write_hex64 slow_device 3 0x1234 (mkUart [] 0 0) = Done ((), u) ∧
        sent u = [48; 48; 48; 48; 48; 49; 52]) ∧
  (∃ u, idt_serial_write_hex64 fast_device 16 0x1234 (mkUart [] 0 0) = Done ((), u) ∧ length (sent u) = 18%nat).
Proof. split; eexists; (split; [vm_compute; reflexivity|]); vm_compute; reflexivity. Qed.

Lemma hex64_equivalent_witness : ∃ u0 u1 u2 digits,
  serial_write_string fast_device 16 [48; 120] (mkUart [] 0 0) = Done ((), u0) ∧
  idt_serial_write_hex64 fast_device 16 0x1234 (mkUart [] 0 0) = Done ((), u1) ∧
  parse_hex 0 digits = Some 0x1234 ∧ sent u2 = [48; 120] ++ digits ∧
  (sent u1 = sent u2 ↔ keeps_up fast_device 16 (clock u0) (held u0) = true).
Proof.
  destruct (hex64_equivalent fast_device 16 fast_ready 0x1234 (mkUart [] 0 0))
    as (u0 & u1 & u2 & digits & E0 & E1 & _ & Hs & _ & Hp & _ & _ & Hiff); [unfold in_u; lia|unfold queue_ok; cbn; lia|].
  exists u0, u1, u2, digits. split; [exact E0|]. split; [exact E1|]. split; [exact Hp|]. split; [exact Hs|exact Hiff].
Defined.
