(* ===== verification/Devices.v ===== *)
(** * The interrupt controller and the timer chip

    kernel/src/arch/x86_64/pic.rs and pit.rs.  The 8259 pair and channel 0 of the
    8254 are small state machines that react to the port writes the code makes
    (the initialisation words, the operation words the code uses, the counter's
    low and high byte); the theorems say in which state the code leaves them. *)

From S2P Require Import Prelude.
Local Open Scope Z_scope.

(** ** The chips *)

(** An 8259: which initialisation word it expects on its data port (0: none),
    whether it expects the fourth, its vector base, cascade wiring, mode, mask
    register and in-service register. *)
Record pic8259 := mkPic {
  expects : nat; needs_icw4 : bool; vector_base : Z; cascade : Z; mode_8086 : bool; imr : Z; isr : Z;
}.

(** The highest-priority request in service: the lowest bit set. *)
Fixpoint lowest_bit (n : nat) (i x : Z) : option Z :=
  match n with
  | O => None
  | S k => if Z.testbit x i then Some i else lowest_bit k (i + 1) x
  end.

(** The command port: ICW1 (bit 4 set) starts the initialisation and clears the
    mask; the non-specific end of interrupt ends the highest-priority request. *)
Definition pic_command (v : Z) (p : pic8259) : pic8259 :=
  if Z.testbit v 4 then mkPic 2 (Z.testbit v 0) (vector_base p) (cascade p) false 0 0
  else if v =? 0x20 then
    mkPic (expects p) (needs_icw4 p) (vector_base p) (cascade p) (mode_8086 p) (imr p)
      (match lowest_bit 8 0 (isr p) with Some i => Z.clearbit (isr p) i | None => isr p end)
  else p.
(** The data port: the words of the initialisation, then the mask. *)
Definition pic_data (v : Z) (p : pic8259) : pic8259 :=
  match expects p with
  | 2%nat => mkPic 3 (needs_icw4 p) (Z.land v 0xF8) (cascade p) (mode_8086 p) (imr p) (isr p)
  | 3%nat => mkPic (if needs_icw4 p then 4 else 0) (needs_icw4 p) (vector_base p) v (mode_8086 p) (imr p) (isr p)
  | 4%nat => mkPic 0 (needs_icw4 p) (vector_base p) (cascade p) (Z.testbit v 0) (imr p) (isr p)
  | _ => mkPic (expects p) (needs_icw4 p) (vector_base p) (cascade p) (mode_8086 p) v (isr p)
  end.

(** Channel 0 of the 8254: its mode, whether the next byte is the high one, the
    latched low byte and the reload value. *)
Record pit8254 := mkPit { pit_mode : Z; high_next : bool; low_byte : Z; reload : Z }.
(** The command port, for channel 0 with both bytes accessed. *)
Definition pit_command (v : Z) (t : pit8254) : pit8254 :=
  if Z.shiftr v 4 =? 3 then mkPit (Z.land (Z.shiftr v 1) 7) false (low_byte t) (reload t) else t.
Definition pit_data (v : Z) (t : pit8254) : pit8254 :=
  if high_next t then mkPit (pit_mode t) false (low_byte t) (low_byte t + 256 * v)
  else mkPit (pit_mode t) true v (reload t).

Record devices := mkDevices { pic1 : pic8259; pic2 : pic8259; pit : pit8254 }.

Definition PIC1_COMMAND : Z := 0x20.
Definition PIC1_DATA : Z := 0x21.
Definition PIC2_COMMAND : Z := 0xA0.
Definition PIC2_DATA : Z := 0xA1.
Definition PIT_CHANNEL0_DATA : Z := 0x40.
Definition PIT_COMMAND : Z := 0x43.

Definition outb (port value : Z) : M devices unit := λ d,
  Done ((),
    if port =? PIC1_COMMAND then mkDevices (pic_command value (pic1 d)) (pic2 d) (pit d)
    else if port =? PIC1_DATA then mkDevices (pic_data value (pic1 d)) (pic2 d) (pit d)
    else if port =? PIC2_COMMAND then mkDevices (pic1 d) (pic_command value (pic2 d)) (pit d)
    else if port =? PIC2_DATA then mkDevices (pic1 d) (pic_data value (pic2 d)) (pit d)
    else if port =? PIT_CHANNEL0_DATA then mkDevices (pic1 d) (pic2 d) (pit_data value (pit d))
    else if port =? PIT_COMMAND then mkDevices (pic1 d) (pic2 d) (pit_command value (pit d))
    else d).
(** The data ports read the mask registers. *)
Definition inb (port : Z) : M devices Z := λ d,
  Done (if port =? PIC1_DATA then imr (pic1 d) else if port =? PIC2_DATA then imr (pic2 d) else 0xFF, d).
Definition io_wait : M devices unit := outb 0x80 0.

(** ** pic.rs *)

Definition ICW1_INIT : Z := 0x10.
Definition ICW1_ICW4 : Z := 0x01.
Definition ICW4_8086 : Z := 0x01.
Definition MASTER_VECTOR_OFFSET : Z := 32.
Definition SLAVE_VECTOR_OFFSET : Z := 40.

Definition mask_all_except_timer : M devices unit :=
  outb PIC1_DATA 0xFE ;;
  outb PIC2_DATA 0xFF.

Definition pic_init : M devices unit :=
  master_mask ← inb PIC1_DATA;
  slave_mask ← inb PIC2_DATA;
  outb PIC1_COMMAND (Z.lor ICW1_INIT ICW1_ICW4) ;; io_wait ;;
  outb PIC2_COMMAND (Z.lor ICW1_INIT ICW1_ICW4) ;; io_wait ;;
  outb PIC1_DATA MASTER_VECTOR_OFFSET ;; io_wait ;;
  outb PIC2_DATA SLAVE_VECTOR_OFFSET ;; io_wait ;;
  outb PIC1_DATA 0x04 ;; io_wait ;;
  outb PIC2_DATA 0x02 ;; io_wait ;;
  outb PIC1_DATA ICW4_8086 ;; io_wait ;;
  outb PIC2_DATA ICW4_8086 ;; io_wait ;;
  outb PIC1_DATA master_mask ;;
  outb PIC2_DATA slave_mask ;;
  mask_all_except_timer.

Definition enable_irq (irq : Z) : M devices unit :=
  if 16 <=? irq then mret ()
  else if irq <? 8 then
    mask ← inb PIC1_DATA;
    outb PIC1_DATA (Z.land mask (not_u 8 (Z.shiftl 1 irq)))
  else
    slave_irq ← lift (sub_u irq 8);
    mask ← inb PIC2_DATA;
    outb PIC2_DATA (Z.land mask (not_u 8 (Z.shiftl 1 slave_irq))).

Definition disable_irq (irq : Z) : M devices unit :=
  if 16 <=? irq then mret ()
  else if irq <? 8 then
    mask ← inb PIC1_DATA;
    outb PIC1_DATA (Z.lor mask (Z.shiftl 1 irq))
  else
    slave_irq ← lift (sub_u irq 8);
    mask ← inb PIC2_DATA;
    outb PIC2_DATA (Z.lor mask (Z.shiftl 1 slave_irq)).

Definition end_of_interrupt (irq : Z) : M devices unit :=
  (if 8 <=? irq then outb PIC2_COMMAND 0x20 else mret ()) ;;
  outb PIC1_COMMAND 0x20.

(** ** pit.rs *)

Definition PIT_BASE_FREQUENCY : Z := 1193182.
Definition TIMER_FREQUENCY : Z := 100.
Definition pit_init : M devices unit :=
  let divisor := PIT_BASE_FREQUENCY / TIMER_FREQUENCY in
  outb PIT_COMMAND 0x36 ;;
  outb PIT_CHANNEL0_DATA (cast 8 (Z.land divisor 0xFF)) ;;
  outb PIT_CHANNEL0_DATA (cast 8 (Z.land (Z.shiftr divisor 8) 0xFF)).
Definition frequency : Z := TIMER_FREQUENCY.

(** ** What the processor sees *)

(** The chip and line of a request, whether it is masked, and the vector the
    chip delivers for it. *)
Definition line_mask (d : devices) (irq : Z) : bool :=
  if irq <? 8 then Z.testbit (imr (pic1 d)) irq else Z.testbit (imr (pic2 d)) (irq - 8).
Definition irq_vector (d : devices) (irq : Z) : Z :=
  if irq <? 8 then vector_base (pic1 d) + irq else vector_base (pic2 d) + (irq - 8).
(** Initialised, in 8086 mode, the slave on the master's line 2. *)
Definition pics_ready (d : devices) : Prop :=
  expects (pic1 d) = 0%nat ∧ expects (pic2 d) = 0%nat ∧ mode_8086 (pic1 d) = true ∧ mode_8086 (pic2 d) = true ∧
  cascade (pic1 d) = 2 ^ cascade (pic2 d).

Lemma upto_elem (n : nat) x : 0 ≤ x < Z.of_nat n → x ∈ Z.of_nat <$> seq 0 n.
Proof. intros Hx. apply list_elem_of_fmap. exists (Z.to_nat x). split; [lia|]. apply elem_of_seq. lia. Qed.

(** The mask after an update of one chip's register. *)
Lemma mask_clear x i j : 0 ≤ i < 8 → 0 ≤ j < 8 →
  Z.testbit (Z.land x (not_u 8 (Z.shiftl 1 i))) j = Z.testbit x j && negb (j =? i).
Proof.
  intros Hi Hj. rewrite Z.land_spec, testbit_not_u, Z.shiftl_1_l, Z.pow2_bits_eqb by lia. by rewrite Z.eqb_sym.
Qed.
Lemma mask_set x i j : 0 ≤ i < 8 → 0 ≤ j < 8 → Z.testbit (Z.lor x (Z.shiftl 1 i)) j = Z.testbit x j || (j =? i).
Proof. intros Hi Hj. rewrite Z.lor_spec, Z.shiftl_1_l, Z.pow2_bits_eqb by lia. by rewrite Z.eqb_sym. Qed.

(** On initialised controllers [enable_irq] unmasks and [disable_irq] masks
    exactly the given request and no other, neither changes where requests are
    delivered, and a number that is not a request changes nothing. *)
Theorem irq_mask_spec d irq : pics_ready d → 0 ≤ irq →
  ∃ d1 d2, enable_irq irq d = Done ((), d1) ∧ disable_irq irq d = Done ((), d2) ∧
    pics_ready d1 ∧ pics_ready d2 ∧
    (∀ n, 0 ≤ n < 16 → line_mask d1 n = line_mask d n && negb (n =? irq) ∧
       line_mask d2 n = line_mask d n || (n =? irq) ∧
       irq_vector d1 n = irq_vector d n ∧ irq_vector d2 n = irq_vector d n) ∧
    (16 ≤ irq → d1 = d ∧ d2 = d).
Proof.
  intros Hd Hirq. destruct d as [[e1 n1 v1 c1 m1 i1 s1] [e2 n2 v2 c2 m2 i2 s2] t].
  pose proof Hd as (E1 & E2 & M1 & M2 & HC). cbn in E1, E2, M1, M2, HC. subst e1 e2 m1 m2.
  unfold enable_irq, disable_irq. destruct (Z.leb_spec 16 irq) as [H16|H16].
  - eexists _, _. split; [done|]. split; [done|]. do 2 (split; [done|]). split; [|done].
    intros n Hn. rewrite (proj2 (Z.eqb_neq n irq)), andb_true_r, orb_false_r by lia. done.
  - destruct (Z.ltb_spec irq 8) as [H8|H8].
    + eexists _, _. split; [reflexivity|]. split; [reflexivity|]. do 2 (split; [done|]). split; [|lia].
      intros n Hn. unfold line_mask, irq_vector. cbn. destruct (Z.ltb_spec n 8).
      * by rewrite mask_clear, mask_set by lia.
      * rewrite (proj2 (Z.eqb_neq n irq)), andb_true_r, orb_false_r by lia. done.
    + rewrite !(bind_run (lift (sub_u irq 8)) _ _ (irq - 8) _) by (unfold lift; by rewrite sub_u_Done by lia).
      eexists _, _. split; [reflexivity|]. split; [reflexivity|]. do 2 (split; [done|]). split; [|lia].
      intros n Hn. unfold line_mask, irq_vector. cbn. destruct (Z.ltb_spec n 8).
      * rewrite (proj2 (Z.eqb_neq n irq)), andb_true_r, orb_false_r by lia. done.
      * rewrite mask_clear, mask_set by lia.
        replace (n - 8 =? irq - 8) with (n =? irq) by (destruct (Z.eqb_spec n irq), (Z.eqb_spec (n - 8) (irq - 8)); done || lia).
        done.
Qed.

(** The end of an interrupt ends the highest-priority request of the master,
    and for a slave's request of the slave too. *)
Definition served (p : pic8259) : Z :=
  match lowest_bit 8 0 (isr p) with Some i => Z.clearbit (isr p) i | None => isr p end.
Lemma end_of_interrupt_run d irq : ∃ d', end_of_interrupt irq d = Done ((), d') ∧
  isr (pic1 d') = served (pic1 d) ∧ isr (pic2 d') = (if 8 <=? irq then served (pic2 d) else isr (pic2 d)) ∧
  imr (pic1 d') = imr (pic1 d) ∧ imr (pic2 d') = imr (pic2 d) ∧ (pics_ready d → pics_ready d').
Proof. unfold end_of_interrupt. destruct (8 <=? irq); (eexists; split; [reflexivity|]; done). Qed.

(** The processor acknowledges a request: its line is in service, and for a
    request of the slave the master's line 2 too. *)
Definition acknowledge (irq : Z) (d : devices) : devices :=
  let serve i p := mkPic (expects p) (needs_icw4 p) (vector_base p) (cascade p) (mode_8086 p) (imr p)
    (Z.setbit (isr p) i) in
  if irq <? 8 then mkDevices (serve irq (pic1 d)) (pic2 d) (pit d)
  else mkDevices (serve 2 (pic1 d)) (serve (irq - 8) (pic2 d)) (pit d).

(** C35: Whatever state the interrupt controllers and the timer are in, even half
    programmed, [pic::init] and [pit::init], in either order, leave the controllers initialised
    and cascaded, deliver request [n] as vector [32 + n], with only the timer's
    unmasked, and channel 0 a square wave whose reload value fits its sixteen
    bits and divides the 1193182 Hz clock to 100 interrupts a second and not 101;
    and after each request the processor acknowledges, the end of interrupt of
    its handler leaves no request in service, so the next one is delivered. *)
Theorem timer_setup_spec d : ∃ d',
  (pic_init ;; pit_init) d = Done ((), d') ∧ (pit_init ;; pic_init) d = Done ((), d') ∧ pics_ready d' ∧
  (∀ irq, 0 ≤ irq < 16 → irq_vector d' irq = 32 + irq ∧ line_mask d' irq = negb (irq =? 0) ∧
     end_of_interrupt irq (acknowledge irq d') = Done ((), d')) ∧
  isr (pic1 d') = 0 ∧ isr (pic2 d') = 0 ∧
  pit_mode (pit d') = 3 ∧ high_next (pit d') = false ∧ in_u 16 (reload (pit d')) ∧
  100 * reload (pit d') ≤ 1193182 < 101 * reload (pit d') ∧ frequency = 100.
Proof.
  destruct d as [[e1 n1 v1 c1 m1 i1 s1] [e2 n2 v2 c2 m2 i2 s2] [pm ph pl pr]].
  exists (mkDevices (mkPic 0 true 32 4 true 0xFE 0) (mkPic 0 true 40 2 true 0xFF 0) (mkPit 3 false 155 11931)).
  split; [vm_compute; reflexivity|]. split; [vm_compute; reflexivity|]. split; [done|].
  split; [|do 4 (split; [done|]); split; [unfold in_u; cbn; lia|]; split; [cbn; lia|done]].
  intros irq Hirq. apply (upto_elem 16) in Hirq. cbn in Hirq.
  rewrite !elem_of_cons, elem_of_nil in Hirq. destruct_or! Hirq; try done; by subst irq.
Qed.

Lemma irq_mask_spec_witness : ∃ d1,
  enable_irq 1 (mkDevices (mkPic 0 true 32 4 true 0xFE 0) (mkPic 0 true 40 2 true 0xFF 0) (mkPit 0 false 0 0))
    = Done ((), d1) ∧ line_mask d1 1 = false ∧ line_mask d1 2 = true.
Proof.
  destruct (irq_mask_spec (mkDevices (mkPic 0 true 32 4 true 0xFE 0) (mkPic 0 true 40 2 true 0xFF 0)
    (mkPit 0 false 0 0)) 1) as (d1 & d2 & E & _ & _ & _ & H & _).
  - repeat split.
  - lia.
  - exists d1. split; [exact E|]. split; [exact (proj1 (H 1 ltac:(lia)))|exact (proj1 (H 2 ltac:(lia)))].
Defined.
