(* ===== verification/Console.v ===== *)
(** * The console and the kernel's control flow (kernel/src/bin/kernel.rs)

    What the kernel prints is a list of items: texts, line ends and numbers in
    hexadecimal.  Code of kernel.rs runs on a [world], the printed items and the
    rest of the kernel's state, and may stop the processor; [K] is the monad of
    such code and [wp] its weakest precondition, in which printing is invisible.
    The last section relates the items to the serial driver of Serial.v. *)

From S2P Require Import Prelude Serial.
Local Open Scope Z_scope.

(** ** Items *)

Inductive item := Text (s : string) | Newline | Hex8 (v : Z) | Hex32 (v : Z) | Hex64 (v : Z).

(** ** The monad *)

(** [halt()] and the processor's [hlt] loop: nothing runs after them. *)
Inductive flow (A : Type) := Go (a : A) | Stop.
Arguments Go {A} a.
Arguments Stop {A}.

Section kernel.
Context {C : Type}.

Record world := mkWorld { out : list item; core : C }.
Definition K (A : Type) : Type := world → outcome (flow A * world).

#[export] Instance K_ret : MRet K := λ A a w, Done (Go a, w).
#[export] Instance K_bind : MBind K := λ A B f m w,
  match m w with
  | Done (Go a, w') => f a w'
  | Done (Stop, w') => Done (Stop, w')
  | Panicked e => Panicked e
  end.

Definition halt {A} : K A := λ w, Done (Stop, w).
Definition write_items (l : list item) : K unit := λ w, Done (Go (), mkWorld (out w ++ l) (core w)).
(** [serial_write_string] of a text, of a text and a line end, of a line end. *)
Definition print (s : string) : K unit := write_items [Text s].
Definition println (s : string) : K unit := write_items [Text s; Newline].
Definition newline : K unit := write_items [Newline].
Definition hex8 (v : Z) : K unit := write_items [Hex8 v].
Definition hex32 (v : Z) : K unit := write_items [Hex32 v].
Definition hex64 (v : Z) : K unit := write_items [Hex64 v].

(** Code on a part of the state, and a pure computation that may panic. *)
Definition on {T A} (prj : C → T) (upd : T → C → C) (m : M T A) : K A := λ w,
  match m (prj (core w)) with
  | Done (a, t) => Done (Go a, mkWorld (out w) (upd t (core w)))
  | Panicked f => Panicked f
  end.
Definition pure {A} (o : outcome A) : K A := λ w,
  match o with Done a => Done (Go a, w) | Panicked f => Panicked f end.
Definition ask {T} (prj : C → T) : K T := λ w, Done (Go (prj (core w)), w).
Definition set (f : C → C) : K unit := λ w, Done (Go (), mkWorld (out w) (f (core w))).

(** [if b { "PASS" } else { "FAIL"; cleanup; halt() }]. *)
Definition pass_or_halt (b : bool) (cleanup : K unit) : K unit :=
  if b then println "PASS" else println "FAIL" ;; cleanup ;; halt.
Definition verdict (b : bool) : K unit := pass_or_halt b (mret ()).
(** [a && b] on calls. *)
Definition and_then (a b : K bool) : K bool := x ← a; if (x : bool) then b else mret false.

(** [for x in l { body(x) }]. *)
Fixpoint for_each {A} (l : list A) (body : A → K unit) : K unit :=
  match l with
  | [] => mret ()
  | x :: rest => body x ;; for_each rest body
  end.

(** ** Weakest preconditions *)

(** Whatever was printed before, [m] does not panic; if it goes on, the state
    satisfies [Q], if it stops, [S]. *)
Definition wp {A} (m : K A) (S : C → Prop) (Q : A → C → Prop) (c : C) : Prop :=
  ∀ o, ∃ r o' c', m (mkWorld o c) = Done (r, mkWorld o' c') ∧
    match r with Go a => Q a c' | Stop => S c' end.

Lemma wp_ret {A} (a : A) S Q c : Q a c → wp (mret a) S Q c.
Proof. intros H o. by eexists (Go a), o, c. Qed.
Lemma wp_bind {A B} (m : K A) (f : A → K B) S Q c :
  wp m S (λ a, wp (f a) S Q) c → wp (m ≫= f) S Q c.
Proof.
  intros H o. destruct (H o) as (r & o1 & c1 & E & Hr). unfold mbind, K_bind. rewrite E.
  destruct r as [a|]; [|by eexists Stop, o1, c1]. exact (Hr o1).
Qed.
Lemma wp_write l S Q c : Q () c → wp (write_items l) S Q c.
Proof. intros H o. by eexists (Go ()), _, c. Qed.
Lemma wp_halt {A} (S : C → Prop) (Q : A → C → Prop) c : S c → wp halt S Q c.
Proof. intros H o. by eexists Stop, o, c. Qed.
Lemma wp_on {T A} prj upd (m : M T A) a t S (Q : A → C → Prop) c :
  m (prj c) = Done (a, t) → Q a (upd t c) → wp (on prj upd m) S Q c.
Proof. intros E H o. eexists (Go a), o, (upd t c). unfold on. cbn [core out]. by rewrite E. Qed.
Lemma wp_pure {A} (o : outcome A) a S (Q : A → C → Prop) c : o = Done a → Q a c → wp (pure o) S Q c.
Proof. intros -> H o'. by eexists (Go a), o', c. Qed.
Lemma wp_ask {T} (prj : C → T) S (Q : T → C → Prop) c : Q (prj c) c → wp (ask prj) S Q c.
Proof. intros H o. by eexists (Go _), o, c. Qed.
Lemma wp_set f S (Q : unit → C → Prop) c : Q () (f c) → wp (set f) S Q c.
Proof. intros H o. by eexists (Go _), o, _. Qed.
Lemma wp_mono {A} (m : K A) (S S' : C → Prop) (Q Q' : A → C → Prop) c :
  wp m S Q c → (∀ a c', Q a c' → Q' a c') → (∀ c', S c' → S' c') → wp m S' Q' c.
Proof.
  intros H HQ HS o. destruct (H o) as (r & o1 & c1 & E & Hr). exists r, o1, c1. split; [done|].
  destruct r; auto.
Qed.
Lemma wp_verdict b S (Q : unit → C → Prop) c : b = true → Q () c → wp (verdict b) S Q c.
Proof. intros -> H. by apply wp_write. Qed.
Lemma wp_for_each {A} (I : list A → C → Prop) (l : list A) body S (Q : unit → C → Prop) c :
  I l c → (∀ x r c', I (x :: r) c' → wp (body x) S (λ _, I r) c') → (∀ c', I [] c' → Q () c') →
  wp (for_each l body) S Q c.
Proof.
  intros Hi Hb Hq. revert c Hi. induction l as [|x l IH]; intros c Hi; cbn [for_each].
  - apply wp_ret, Hq, Hi.
  - apply wp_bind. eapply wp_mono; [apply (Hb x l c Hi)|intros [] c' H; by apply IH|done].
Qed.

(** ** Runs with their output *)

(** From the state [c], [m] prints [l], returns [a] and leaves [c']. *)
Definition runs {A} (m : K A) (c : C) (l : list item) (a : A) (c' : C) : Prop :=
  ∀ o, m (mkWorld o c) = Done (Go a, mkWorld (o ++ l) c').

Lemma runs_ret {A} (a : A) c : runs (mret a) c [] a c.
Proof. intros o. by rewrite app_nil_r. Qed.
Lemma runs_bind {A B} (m : K A) (f : A → K B) c l1 a c1 l2 b c2 :
  runs m c l1 a c1 → runs (f a) c1 l2 b c2 → runs (m ≫= f) c (l1 ++ l2) b c2.
Proof. intros H1 H2 o. unfold mbind, K_bind. by rewrite H1, H2, app_assoc. Qed.
Lemma runs_write l c : runs (write_items l) c l () c.
Proof. done. Qed.
Lemma runs_on {T A} prj upd (m : M T A) a t c : m (prj c) = Done (a, t) → runs (on prj upd m) c [] a (upd t c).
Proof. intros E o. unfold on. cbn [core out]. by rewrite E, app_nil_r. Qed.
Lemma runs_pure {A} (x : outcome A) a c : x = Done a → runs (pure x) c [] a c.
Proof. intros -> o. by rewrite app_nil_r. Qed.
Lemma runs_ask {T} (prj : C → T) c : runs (ask prj) c [] (prj c) c.
Proof. intros o. by rewrite app_nil_r. Qed.
Lemma runs_set f c : runs (set f) c [] () (f c).
Proof. intros o. by rewrite app_nil_r. Qed.
Lemma runs_verdict b cleanup c : b = true → runs (pass_or_halt b cleanup) c [Text "PASS"; Newline] () c.
Proof. by intros ->. Qed.
Lemma runs_and_then (a b : K bool) c l1 x c1 l2 y c2 :
  runs a c l1 x c1 → x = true → runs b c1 l2 y c2 → runs (and_then a b) c (l1 ++ l2) y c2.
Proof. intros H1 -> H2. by eapply runs_bind. Qed.
Lemma runs_eq {A} (m : K A) c l l' a c' c'' : runs m c l a c' → l = l' → c' = c'' → runs m c l' a c''.
Proof. by intros H -> ->. Qed.
Lemma runs_wp {A} (m : K A) c l a c' S (Q : A → C → Prop) : runs m c l a c' → Q a c' → wp m S Q c.
Proof. intros H HQ o. by eexists (Go a), _, c'. Qed.
End kernel.
Arguments world C : clear implicits.
Arguments K C A : clear implicits.

(** Steps over what only prints. *)
Ltac wp_step :=
  lazymatch goal with
  | |- wp (_ ≫= _) _ _ _ => apply wp_bind
  | |- wp (mret _) _ _ _ => apply wp_ret
  | |- wp (print _) _ _ _ => apply wp_write
  | |- wp (println _) _ _ _ => apply wp_write
  | |- wp newline _ _ _ => apply wp_write
  | |- wp (hex8 _) _ _ _ => apply wp_write
  | |- wp (hex32 _) _ _ _ => apply wp_write
  | |- wp (hex64 _) _ _ _ => apply wp_write
  | |- wp (ask _) _ _ _ => apply wp_ask
  | |- wp (set _) _ _ _ => apply wp_set
  end.
Ltac wp_steps := repeat (wp_step; cbv beta).

(** One step of a run; the calls that change the state are left. *)
Ltac run_step :=
  lazymatch goal with
  | |- runs (_ ≫= _) _ _ _ _ => eapply runs_bind
  | |- runs (mret _) _ _ _ _ => apply runs_ret
  | |- runs (print _) _ _ _ _ => apply runs_write
  | |- runs (println _) _ _ _ _ => apply runs_write
  | |- runs newline _ _ _ _ => apply runs_write
  | |- runs (hex32 _) _ _ _ _ => apply runs_write
  | |- runs (hex64 _) _ _ _ _ => apply runs_write
  | |- runs (ask _) _ _ _ _ => apply runs_ask
  | |- runs (set _) _ _ _ _ => apply runs_set
  | |- runs (and_then _ _) _ _ _ _ => eapply runs_and_then
  | |- runs (verdict _) _ _ _ _ => apply runs_verdict
  | |- runs (pass_or_halt _ _) _ _ _ _ => apply runs_verdict
  end.
(** A call that can be evaluated. *)
Ltac run_eval :=
  lazymatch goal with
  | |- runs (on _ _ _) _ _ _ _ =>
      eapply runs_on;
      lazymatch goal with |- ?x = _ =>
        let r := eval vm_compute in x in transitivity r; [vm_compute; reflexivity|reflexivity] end
  end.

(** ** The items on the serial port *)

Definition string_bytes (s : string) : list Z := (λ a, Z.of_N (Ascii.N_of_ascii a)) <$> String.list_ascii_of_string s.

Definition item_bytes (i : item) : list Z :=
  match i with
  | Text s => string_bytes s
  | Newline => [13; 10]
  | Hex8 v => hex_digits 1 v
  | Hex32 v => hex_digits 7 v
  | Hex64 v => hex_digits 15 v
  end.

Section serial.
Context (d : device) (fuel : nat) (Hready : ready_within fuel d).

(** The call of the driver an item stands for. *)
Definition send_item (i : item) : M uart unit :=
  match i with
  | Text s => serial_write_string d fuel (string_bytes s)
  | Newline => serial_write_string d fuel [13; 10]
  | Hex8 v => serial_write_hex8 d fuel v
  | Hex32 v => serial_write_hex32 d fuel v
  | Hex64 v => serial_write_hex64 d fuel v
  end.
Fixpoint send_items (l : list item) : M uart unit :=
  match l with
  | [] => mret ()
  | i :: rest => send_item i ;; send_items rest
  end.

Lemma send_item_sends i u : queue_ok d u →
  sends d (send_item i) u (item_bytes i) (S fuel * length (item_bytes i)).
Proof.
  intros Hq. destruct i as [s| |v|v|v]; cbn [send_item item_bytes].
  - by apply serial_write_string_spec.
  - by apply serial_write_string_spec.
  - rewrite hex_digits_length. by apply hex8_sends.
  - rewrite hex_digits_length. by apply hex_loop_sends.
  - rewrite hex_digits_length. by apply hex_loop_sends.
Qed.

(** C39: Printing terminates on every device that empties its queue within
    [fuel] accesses, although a byte written to a full queue is lost, and what
    is sent is exactly the rendering of the items that kernel code prints, in
    order and with no byte lost: its texts, line ends, and every number in
    upper-case hexadecimal with two, eight or sixteen digits.  At most [fuel]
    reads of the status are made for each byte. *)
Theorem send_items_spec l u : queue_ok d u → ∃ u',
  send_items l u = Done ((), u') ∧ sent u' = sent u ++ concat (item_bytes <$> l) ∧
  (clock u' ≤ clock u + S fuel * length (concat (item_bytes <$> l)))%nat ∧ queue_ok d u'.
Proof.
  intros Hq. assert (sends d (send_items l) u (concat (item_bytes <$> l)) (S fuel * length (concat (item_bytes <$> l))))
    as (u' & E & Hs & Hq' & Hc); [|by exists u'].
  revert u Hq. induction l as [|i l IH]; intros u Hq; cbn [send_items fmap list_fmap concat].
  { rewrite Nat.mul_0_r. by apply sends_nil. }
  rewrite length_app, Nat.mul_add_distr_l. apply sends_bind; [by apply send_item_sends|exact IH].
Qed.
End serial.

Lemma send_items_spec_witness : ∃ u',
  send_items slow_device 3 [Text "RIP: 0x"; Hex32 0xBEEF; Newline] (mkUart [] 0 0) = Done ((), u') ∧
  sent u' = [82; 73; 80; 58; 32; 48; 120; 48; 48; 48; 48; 66; 69; 69; 70; 13; 10].
Proof.
  destruct (send_items_spec slow_device 3 slow_ready [Text "RIP: 0x"; Hex32 0xBEEF; Newline] (mkUart [] 0 0))
    as (u' & E & Hs & _); [unfold queue_ok; cbn; lia|].
  exists u'. split; [exact E|exact Hs].
Defined.
