(* ===== verification/Diagnostics.v ===== *)
(** * The dumps of interrupt frames

    The functions of arch/x86_64/idt.rs, scheduler/mod.rs and scheduler/task.rs that
    print a saved interrupt frame.  They read memory and print; the only state is the
    counter that limits one of them.  The lemmas say what they print of a frame the
    timer stub has built (Interrupts.v). *)

From S2P Require Import Prelude Cpu Task Interrupts RunQueue Scheduler Descriptors Serial Console.
Local Open Scope Z_scope.

Section dumps.
Context (m : bytemem).
(** [IRET_DEBUG_COUNT]. *)
Abbreviation Dump := (K Z).

(** [read_volatile(frame.add(i))]. *)
Definition frame_word (frame i : Z) : Z := le_load m (frame + 8 * i) 8.
(** The printer of idt.rs writes the prefix 0x.  The items are what it is asked to
    print: it does not wait for the port, so a slow one loses digits (Serial.v). *)
Definition idt_line (label : string) (value : Z) : Dump unit := print label ;; print "0x" ;; hex64 value ;; newline.
Definition line (label : string) (value : Z) : Dump unit := print label ;; hex64 value ;; newline.

(** One of the two halves of [unbound_debug_iret_frames]. *)
Definition debug_frame (name : string) (rsp : Z) : Dump unit :=
  idt_line (name +:+ " FRAME RSP: ") rsp ;;
  if negb (rsp =? 0) then
    let vector := frame_word rsp 15 in
    let rip := frame_word rsp 16 in
    let cs := frame_word rsp 17 in
    let rflags := frame_word rsp 18 in
    idt_line (name +:+ " VECTOR: ") vector ;;
    idt_line (name +:+ " IRET RIP: ") rip ;;
    idt_line (name +:+ " IRET CS: ") cs ;;
    idt_line (name +:+ " IRET RFLAGS: ") rflags
  else mret ().

Definition unbound_debug_iret_frames (current_rsp next_rsp : Z) : Dump unit :=
  count ← ask (λ n, n);
  set (λ n, wrapping_add 64 n 1) ;;
  if 16 <=? count then mret ()
  else
    newline ;; println "================================" ;;
    println "        IRET FRAME DEBUG" ;;
    println "================================" ;;
    debug_frame "CURRENT" current_rsp ;;
    debug_frame "NEXT" next_rsp ;;
    println "================================".

Definition unbound_debug_iret_frame (rsp : Z) : Dump unit :=
  let vector := frame_word rsp 0 in
  let rip := frame_word rsp 1 in
  let cs := frame_word rsp 2 in
  let rflags := frame_word rsp 3 in
  idt_line "VECTOR: " vector ;;
  idt_line "RIP: " rip ;;
  idt_line "CS: " cs ;;
  idt_line "RFLAGS: " rflags ;;
  idt_line "RSP: " rsp ;;
  idt_line "RIP: " rip ;;
  idt_line "CS: " cs ;;
  idt_line "RFLAGS: " rflags.

Definition unbound_debug_pre_iret (iret_rsp : Z) : Dump unit :=
  newline ;; println "+++ PRE-IRET CHECK +++" ;;
  idt_line "IRET RSP: " iret_rsp ;;
  if iret_rsp =? 0 then println "PRE-IRET: NULL RSP"
  else
    let rip := frame_word iret_rsp 0 in
    let cs := frame_word iret_rsp 1 in
    let rflags := frame_word iret_rsp 2 in
    idt_line "IRETQ RIP: " rip ;;
    idt_line "IRETQ CS: " cs ;;
    idt_line "IRETQ RFLAGS: " rflags ;;
    print "PRE-IRET VALIDATION: " ;;
    (if rip =? 0 then println "BAD RIP"
     else if negb (cs =? IDT_KERNEL_CODE_SELECTOR) then println "BAD CS"
     else if Z.land rflags 0x2 =? 0 then println "BAD RFLAGS"
     else println "PASS") ;;
    println "+++++++++++++++++++++++".

(** scheduler/mod.rs; the label ends its line. *)
Definition debug_interrupt_frame (label : string) (rsp : Z) : Dump unit :=
  println label ;;
  line "RSP: 0x" rsp ;;
  if rsp =? 0 then println "FRAME: NULL"
  else
    line "VECTOR: 0x" (read_interrupt_frame_word m rsp (15 * 8)) ;;
    line "RIP: 0x" (read_interrupt_frame_word m rsp (16 * 8)) ;;
    line "CS: 0x" (read_interrupt_frame_word m rsp (17 * 8)) ;;
    line "RFLAGS: 0x" (read_interrupt_frame_word m rsp (18 * 8)) ;;
    if validate_interrupt_frame m rsp then println "FRAME VALIDATION: PASS"
    else println "FRAME VALIDATION: FAIL".

(** scheduler/task.rs. *)
Definition Task_debug_interrupt_context (self : Task) : Dump unit :=
  let rsp := interrupt_rsp self in
  if rsp =? 0 then mret ()
  else
    println "TASK INTERRUPT FRAME" ;;
    line "  RSP: " rsp ;;
    line "  VECTOR: " (frame_word rsp 15) ;;
    line "  RIP: " (frame_word rsp 16) ;;
    line "  CS: " (frame_word rsp 17) ;;
    line "  RFLAGS: " (frame_word rsp 18).
End dumps.

(** ** What they show *)

Definition shown (label : string) (value : Z) : list item := [Text label; Hex64 value; Newline].
Definition idt_shown (label : string) (value : Z) : list item := [Text label; Text "0x"; Hex64 value; Newline].

Lemma idt_line_run label value c : runs (idt_line label value) c (idt_shown label value) () c.
Proof. intros o. cbv -[app]. by rewrite <- !app_assoc. Qed.
Lemma line_run label value c : runs (line label value) c (shown label value) () c.
Proof. intros o. cbv -[app]. by rewrite <- !app_assoc. Qed.

(** Steps over the lines. *)
Ltac dump_step :=
  lazymatch goal with
  | |- runs (idt_line _ _) _ _ _ _ => apply idt_line_run
  | |- runs (line _ _) _ _ _ _ => apply line_run
  | |- _ => run_step
  end.

(** A frame of the timer stub: the words the dumps look for. *)
Section frame.
Context (c0 c : cpu) (f : Z) (HF : frame_at c0 [32] f c) (Hf : 0 < f).

Lemma frame_vector_word : frame_word (cmem c) f 15 = 32.
Proof. etrans; [|exact (fr_extra _ _ _ _ HF 0%nat 32 eq_refl)]. unfold frame_word, word. f_equal. lia. Qed.
Lemma frame_rip_word : frame_word (cmem c) f 16 = rip c0.
Proof. rewrite <- (fr_rip _ _ _ _ HF). unfold frame_word, word. f_equal. simpl length. lia. Qed.
Lemma frame_cs_word : frame_word (cmem c) f 17 = cs c0.
Proof. rewrite <- (fr_cs _ _ _ _ HF). unfold frame_word, word. f_equal. simpl length. lia. Qed.
Lemma frame_rflags_word : frame_word (cmem c) f 18 = rflags c0.
Proof. rewrite <- (fr_rflags _ _ _ _ HF). unfold frame_word, word. f_equal. simpl length. lia. Qed.

(** [unbound_debug_iret_frames] shows the interrupted code, in its first sixteen calls. *)
Definition iret_shown (name : string) : list item :=
  idt_shown (name +:+ " FRAME RSP: ") f ++ idt_shown (name +:+ " VECTOR: ") 32 ++ idt_shown (name +:+ " IRET RIP: ") (rip c0)
  ++ idt_shown (name +:+ " IRET CS: ") (cs c0) ++ idt_shown (name +:+ " IRET RFLAGS: ") (rflags c0).

Lemma debug_frame_run name n : runs (debug_frame (cmem c) name f) n (iret_shown name) () n.
Proof using HF Hf.
  unfold debug_frame. rewrite frame_vector_word, frame_rip_word, frame_cs_word, frame_rflags_word.
  rewrite (proj2 (Z.eqb_neq f 0)) by lia. cbn [negb]. eapply runs_eq; [repeat dump_step|reflexivity|reflexivity].
Qed.

Lemma debug_iret_frames_run n : in_u 64 n →
  runs (unbound_debug_iret_frames (cmem c) f f) n
    (if 16 <=? n then [] else
       [Newline; Text "================================"; Newline; Text "        IRET FRAME DEBUG"; Newline;
        Text "================================"; Newline]
       ++ iret_shown "CURRENT" ++ iret_shown "NEXT" ++ [Text "================================"; Newline])
    () (wrapping_add 64 n 1).
Proof using HF Hf.
  intros Hn. unfold unbound_debug_iret_frames. eapply runs_eq.
  - repeat run_step. instantiate (2 := (if 16 <=? n then [] else _)). destruct (16 <=? n); [apply runs_ret|].
    repeat first [apply debug_frame_run|run_step].
  - cbn [app]. destruct (16 <=? n); [done|]. reflexivity.
  - done.
Qed.

(** [unbound_debug_iret_frame], which [unbound_irq_common] calls with the address of
    the saved registers, shows R15, R14, R13 and R12 as the vector, RIP, CS and RFLAGS. *)
Lemma debug_iret_frame_wrong n : ∃ rest,
  runs (unbound_debug_iret_frame (cmem c) f) n
    (idt_shown "VECTOR: " (gpr c0 R15) ++ idt_shown "RIP: " (gpr c0 R14) ++ idt_shown "CS: " (gpr c0 R13)
     ++ idt_shown "RFLAGS: " (gpr c0 R12) ++ rest) () n.
Proof using HF.
  assert (∀ i r, frame_regs !! i = Some r → frame_word (cmem c) f (Z.of_nat i) = gpr c0 r) as Hr.
  { intros i r Hi. exact (fr_regs _ _ _ _ HF i r Hi). }
  unfold unbound_debug_iret_frame.
  rewrite (Hr 0%nat R15 eq_refl : frame_word (cmem c) f 0 = _), (Hr 1%nat R14 eq_refl : frame_word (cmem c) f 1 = _),
    (Hr 2%nat R13 eq_refl : frame_word (cmem c) f 2 = _), (Hr 3%nat R12 eq_refl : frame_word (cmem c) f 3 = _).
  eexists. eapply runs_eq; [repeat dump_step| |reflexivity]. reflexivity.
Qed.

(** The scheduler's dump shows the interrupted code and the scheduler's own verdict on it. *)
Lemma debug_interrupt_frame_run label n :
  runs (debug_interrupt_frame (cmem c) label f) n
    ([Text label; Newline] ++ shown "RSP: 0x" f ++ shown "VECTOR: 0x" 32 ++ shown "RIP: 0x" (rip c0)
     ++ shown "CS: 0x" (cs c0) ++ shown "RFLAGS: 0x" (rflags c0)
     ++ [Text (if validate_interrupt_frame (cmem c) f then "FRAME VALIDATION: PASS" else "FRAME VALIDATION: FAIL"); Newline])
    () n.
Proof using HF Hf.
  assert (∀ i, read_interrupt_frame_word (cmem c) f (i * 8) = frame_word (cmem c) f i) as Hw.
  { intros i. unfold read_interrupt_frame_word, frame_word. f_equal. lia. }
  unfold debug_interrupt_frame. rewrite !Hw, frame_vector_word, frame_rip_word, frame_cs_word, frame_rflags_word.
  rewrite (proj2 (Z.eqb_neq f 0)) by lia. destruct (validate_interrupt_frame (cmem c) f);
    (eapply runs_eq; [repeat dump_step|reflexivity|reflexivity]).
Qed.
End frame.
