(* ===== verification/KernelTests.v ===== *)
(** * The kernel's tests and handlers (kernel/src/bin/kernel.rs)

    The state of the kernel, the five [run_*_test] functions that [_start] calls,
    and the two handlers the interrupt stubs call.  A test prints a label and a
    verdict for each check and halts on the first that fails. *)

From S2P Require Import Prelude FrameInterface FrameAllocator PageTable Descriptors Cpu Syscall Serial Devices.
From S2P Require Import SpinLock SlotTable Objects Ipc Console.
Local Open Scope Z_scope.

(** ** The state *)

Record state := mkState {
  tables : Descriptors.machine;
  vm : PageTable.machine FrameAllocator;
  cr3 : Z;
  KERNEL_OBJECTS : ObjectTable;
  IPC_MANAGER : IpcManager;
  model_regs : msrs;
  unbound_syscall_stack_top : Z;
  TIMER_IRQ_DEBUG_COUNT : Z;
  EXCEPTION_DEBUG_COUNT : Z;
  devs : devices;
}.

Definition set_tables t s := mkState t (vm s) (cr3 s) (KERNEL_OBJECTS s) (IPC_MANAGER s) (model_regs s)
  (unbound_syscall_stack_top s) (TIMER_IRQ_DEBUG_COUNT s) (EXCEPTION_DEBUG_COUNT s) (devs s).
Definition set_vm v s := mkState (tables s) v (cr3 s) (KERNEL_OBJECTS s) (IPC_MANAGER s) (model_regs s)
  (unbound_syscall_stack_top s) (TIMER_IRQ_DEBUG_COUNT s) (EXCEPTION_DEBUG_COUNT s) (devs s).
Definition set_cr3 x s := mkState (tables s) (vm s) x (KERNEL_OBJECTS s) (IPC_MANAGER s) (model_regs s)
  (unbound_syscall_stack_top s) (TIMER_IRQ_DEBUG_COUNT s) (EXCEPTION_DEBUG_COUNT s) (devs s).
Definition set_objects t s := mkState (tables s) (vm s) (cr3 s) t (IPC_MANAGER s) (model_regs s)
  (unbound_syscall_stack_top s) (TIMER_IRQ_DEBUG_COUNT s) (EXCEPTION_DEBUG_COUNT s) (devs s).
Definition set_ipc t s := mkState (tables s) (vm s) (cr3 s) (KERNEL_OBJECTS s) t (model_regs s)
  (unbound_syscall_stack_top s) (TIMER_IRQ_DEBUG_COUNT s) (EXCEPTION_DEBUG_COUNT s) (devs s).
Definition set_regs r s := mkState (tables s) (vm s) (cr3 s) (KERNEL_OBJECTS s) (IPC_MANAGER s) r
  (unbound_syscall_stack_top s) (TIMER_IRQ_DEBUG_COUNT s) (EXCEPTION_DEBUG_COUNT s) (devs s).
Definition set_stack_top x s := mkState (tables s) (vm s) (cr3 s) (KERNEL_OBJECTS s) (IPC_MANAGER s)
  (model_regs s) x (TIMER_IRQ_DEBUG_COUNT s) (EXCEPTION_DEBUG_COUNT s) (devs s).
Definition set_timer_count x s := mkState (tables s) (vm s) (cr3 s) (KERNEL_OBJECTS s) (IPC_MANAGER s)
  (model_regs s) (unbound_syscall_stack_top s) x (EXCEPTION_DEBUG_COUNT s) (devs s).
Definition set_exception_count x s := mkState (tables s) (vm s) (cr3 s) (KERNEL_OBJECTS s) (IPC_MANAGER s)
  (model_regs s) (unbound_syscall_stack_top s) (TIMER_IRQ_DEBUG_COUNT s) x (devs s).
Definition set_devs d s := mkState (tables s) (vm s) (cr3 s) (KERNEL_OBJECTS s) (IPC_MANAGER s)
  (model_regs s) (unbound_syscall_stack_top s) (TIMER_IRQ_DEBUG_COUNT s) (EXCEPTION_DEBUG_COUNT s) d.

Abbreviation Kernel := (K state).
Definition objs {A} (m : M ObjectTable A) : Kernel A := on KERNEL_OBJECTS set_objects m.
Definition ipc {A} (m : M IpcManager A) : Kernel A := on IPC_MANAGER set_ipc m.

#[local] Existing Instance ObjectType.eq_dec.

(** ** The tests *)

(** [match e { Some(x) => x, None => { print; halt() } }]. *)
Definition some_or_halt {A} (o : option A) (message : string) : Kernel A :=
  match o with Some a => mret a | None => println message ;; halt end.

Definition run_kernel_object_test : Kernel unit :=
  newline ;; println "KERNEL OBJECT TEST" ;;
  print "OBJECT TABLE INITIAL: " ;;
  n ← objs ObjectTable_count;
  verdict (n =? 0) ;;
  created ← objs (ObjectTable_create ObjectType.Process);
  process ← some_or_halt created "OBJECT CREATE: FAIL";
  println "OBJECT CREATE: PASS" ;;
  print "OBJECT HANDLE: " ;;
  ok ← objs (ObjectTable_is_valid process);
  verdict ok ;;
  print "OBJECT TYPE: " ;;
  ty ← objs (ObjectTable_get_type process);
  verdict (bool_decide (ty = Some ObjectType.Process)) ;;
  print "OBJECT RETAIN: " ;;
  ok ← objs (ObjectTable_retain process);
  verdict ok ;;
  print "OBJECT RELEASE: " ;;
  ok ← and_then (objs (ObjectTable_release process)) (objs (ObjectTable_is_valid process));
  verdict ok ;;
  print "OBJECT FINAL RELEASE: " ;;
  ok ← objs (ObjectTable_release process);
  verdict ok ;;
  print "OBJECT DESTROY: " ;;
  ok ← objs (ObjectTable_is_valid process);
  verdict (negb ok) ;;
  created ← objs (ObjectTable_create ObjectType.Thread);
  thread ← some_or_halt created "OBJECT REUSE: FAIL";
  print "OBJECT REUSE: " ;;
  verdict ((ObjectHandle_index thread =? ObjectHandle_index process)
           && negb (ObjectHandle_generation thread =? ObjectHandle_generation process)) ;;
  print "STALE HANDLE: " ;;
  ok ← and_then (stale ← objs (ObjectTable_is_valid process); mret (negb stale))
         (objs (ObjectTable_is_valid thread));
  verdict ok ;;
  print "OBJECT TYPE ISOLATION: " ;;
  ok ← and_then
         (ty ← objs (ObjectTable_get_type thread); mret (bool_decide (ty = Some ObjectType.Thread)))
         (ty ← objs (ObjectTable_get_type process); mret (negb (bool_decide (ty = Some ObjectType.Thread))));
  verdict ok ;;
  print "OBJECT CLEANUP: " ;;
  ok ← objs (ObjectTable_release thread);
  verdict ok ;;
  print "OBJECT TABLE FINAL: " ;;
  n ← objs ObjectTable_count;
  verdict (n =? 0) ;;
  println "KERNEL OBJECTS: PASS".

Definition ipc_payload : list Z := string_bytes "Hello from Unbound IPC".

Definition run_ipc_test : Kernel unit :=
  newline ;; println "IPC TEST" ;;
  print "IPC INITIAL: " ;;
  n ← ipc IpcManager_count;
  verdict (n =? 0) ;;
  created ← ipc IpcManager_create;
  endpoint ← match created with
    | Some handle => println "IPC ENDPOINT CREATE: PASS" ;; mret handle
    | None => println "IPC ENDPOINT CREATE: FAIL" ;; halt
    end;
  print "IPC HANDLE: " ;;
  ok ← ipc (IpcManager_is_valid endpoint);
  verdict ok ;;
  created ← objs (ObjectTable_create ObjectType.Process);
  sender ← some_or_halt created "IPC SENDER CREATE: FAIL";
  let release_sender := objs (ObjectTable_release sender) ;; mret () in
  print "IPC SEND: " ;;
  ok ← ipc (IpcManager_send endpoint sender ipc_payload);
  pass_or_halt ok release_sender ;;
  print "IPC QUEUE: " ;;
  len ← ipc (IpcManager_queue_len endpoint);
  pass_or_halt (bool_decide (len = Some 1)) release_sender ;;
  received ← ipc (IpcManager_receive endpoint);
  message ← match received with
    | Some message => println "IPC RECEIVE: PASS" ;; mret message
    | None => println "IPC RECEIVE: FAIL" ;; release_sender ;; halt
    end;
  print "IPC SENDER: " ;;
  pass_or_halt (Ipc.sender message =? sender) release_sender ;;
  print "IPC MESSAGE: " ;;
  payload ← pure (IpcMessage_payload message);
  pass_or_halt (bool_decide (payload = ipc_payload)) release_sender ;;
  print "IPC EMPTY: " ;;
  len ← ipc (IpcManager_queue_len endpoint);
  pass_or_halt (bool_decide (len = Some 0)) release_sender ;;
  print "IPC DESTROY: " ;;
  ok ← ipc (IpcManager_destroy endpoint);
  pass_or_halt ok release_sender ;;
  print "IPC STALE HANDLE: " ;;
  ok ← ipc (IpcManager_is_valid endpoint);
  pass_or_halt (negb ok) release_sender ;;
  objs (ObjectTable_release sender) ;;
  print "IPC CLEANUP: " ;;
  ok ← and_then (n ← ipc IpcManager_count; mret (n =? 0)) (n ← objs ObjectTable_count; mret (n =? 0));
  verdict ok ;;
  println "IPC: PASS".

Definition run_syscall_test : Kernel unit :=
  newline ;; println "SYSCALL TEST" ;;
  let version := dispatch SYS_GET_VERSION 0 0 0 in
  print "SYSCALL GET_VERSION: " ;;
  (if version =? UNBOUND_SYSCALL_ABI_VERSION then println "PASS"
   else
     println "FAIL" ;; print "EXPECTED: " ;; hex64 UNBOUND_SYSCALL_ABI_VERSION ;;
     newline ;; print "ACTUAL: " ;; hex64 version ;; newline ;; halt) ;;
  let unknown := dispatch 0xFFFF 0 0 0 in
  print "SYSCALL UNKNOWN: " ;;
  (if unknown =? 2 ^ 64 - 1 then println "PASS"
   else println "FAIL" ;; print "RETURNED: " ;; hex64 unknown ;; newline ;; halt) ;;
  println "SYSCALL: PASS".

Definition run_msr_test : Kernel unit :=
  newline ;; println "MSR TEST" ;;
  print "MSR EFER READ: " ;;
  before ← ask (λ s, read_efer (model_regs s));
  println "PASS" ;;
  print "EFER BEFORE: 0x" ;; hex64 before ;; newline ;;
  print "MSR EFER.SCE ENABLE: " ;;
  set (λ s, set_regs (enable_syscall_extensions (model_regs s)) s) ;;
  println "PASS" ;;
  print "MSR EFER.SCE VERIFY: " ;;
  enabled ← ask (λ s, syscall_extensions_enabled (model_regs s));
  verdict enabled ;;
  after ← ask (λ s, read_efer (model_regs s));
  print "EFER AFTER: 0x" ;; hex64 after ;; newline ;;
  println "MSR SCE: PASS".

(** A register that must have a value: [print; hex64; .. if actual == expected]. *)
Definition check_register (name : string) (actual expected : Z) (expected_text : Kernel unit) : Kernel unit :=
  print (name +:+ ": 0x") ;; hex64 actual ;; newline ;;
  print (name +:+ " VERIFY: ") ;;
  if actual =? expected then println "PASS"
  else println "FAIL" ;; expected_text ;; halt.
Definition print_selector (label : string) (sel : Z) : Kernel unit :=
  print label ;; hex32 sel ;; newline.

(** [entry] is [syscall::entry_address()]. *)
Definition report_selectors : Kernel unit :=
  println "SYSCALL SELECTORS" ;;
  print_selector "KERNEL CS: 0x" Descriptors.KERNEL_CODE_SELECTOR ;;
  print_selector "KERNEL SS: 0x" Descriptors.KERNEL_DATA_SELECTOR ;;
  print_selector "USER CODE BASE: 0x" Descriptors.USER_CODE_SELECTOR ;;
  print_selector "USER DATA BASE: 0x" Descriptors.USER_DATA_SELECTOR ;;
  print_selector "USER CODE R3: 0x" Descriptors.USER_CODE_SELECTOR_R3 ;;
  print_selector "USER DATA R3: 0x" Descriptors.USER_DATA_SELECTOR_R3 ;;
  println "SYSCALL MSRS: PASS".

Definition run_syscall_msr_test (entry : Z) : Kernel unit :=
  newline ;; println "SYSCALL MSR TEST" ;;
  print "SYSCALL ENTRY ADDRESS: 0x" ;; hex64 entry ;; newline ;;
  (if entry =? 0 then println "SYSCALL ENTRY ADDRESS: FAIL" ;; halt else mret ()) ;;
  println "SYSCALL ENTRY ADDRESS: PASS" ;;
  print "SYSCALL MSR INITIALIZATION: " ;;
  set (λ s, set_regs (init_syscall_msrs entry (model_regs s)) s) ;;
  println "PASS" ;;
  star ← ask (λ s, read_star (model_regs s));
  check_register "STAR" star make_star (print "EXPECTED STAR: 0x" ;; hex64 make_star ;; newline) ;;
  lstar ← ask (λ s, read_lstar (model_regs s));
  check_register "LSTAR" lstar entry (print "EXPECTED LSTAR: 0x" ;; hex64 entry ;; newline) ;;
  cstar ← ask (λ s, read_cstar (model_regs s));
  check_register "CSTAR" cstar 0 (println "EXPECTED CSTAR: 0x0000000000000000") ;;
  fmask ← ask (λ s, read_fmask (model_regs s));
  check_register "FMASK" fmask SYSCALL_FMASK (print "EXPECTED FMASK: 0x" ;; hex64 SYSCALL_FMASK ;; newline) ;;
  print "SYSCALL MSR FINAL VERIFY: " ;;
  verified ← ask (λ s, verify_syscall_msrs entry (model_regs s));
  verdict verified ;;
  report_selectors.

(** The calls of [_start], in its order. *)
Definition kernel_tests (entry : Z) : Kernel unit :=
  run_kernel_object_test ;; run_ipc_test ;; run_syscall_test ;; run_msr_test ;; run_syscall_msr_test entry.

(** The panic handler. *)
Definition panic {A} : Kernel A := println "KERNEL PANIC" ;; halt.

(** ** The handlers *)

(** [COUNT.fetch_add(1) + 1]: the addition is checked, the counter wraps. *)
Definition count_up (prj : state → Z) (upd : Z → state → state) : Kernel Z :=
  old ← ask prj;
  set (λ s, upd (wrapping_add 64 (prj s) 1) s) ;;
  pure (add_u 64 old 1).

Definition print_word (label : string) (value : Z) : Kernel unit := print label ;; hex64 value ;; newline.

(** [word a] is the 64-bit word in memory at [a]. *)
Definition unbound_timer_handler (word : Z → Z) (interrupt_rsp : Z) : Kernel Z :=
  count ← count_up TIMER_IRQ_DEBUG_COUNT set_timer_count;
  (if count =? 1 then newline ;; println "*** IRQ0 FIRED ***" else mret ()) ;;
  let next_rsp := interrupt_rsp in
  (if count <=? 4 then
     newline ;; println "*** TIMER DEBUG ***" ;;
     print_word "CURRENT RSP: 0x" interrupt_rsp ;;
     print_word "NEXT RSP: 0x" next_rsp ;;
     print_word "NEXT +00: 0x" (word next_rsp) ;;
     print_word "NEXT +08: 0x" (word (next_rsp + 8)) ;;
     print_word "NEXT +16: 0x" (word (next_rsp + 16)) ;;
     print_word "NEXT +24: 0x" (word (next_rsp + 24)) ;;
     print_word "NEXT +32: 0x" (word (next_rsp + 32)) ;;
     print_word "NEXT +40: 0x" (word (next_rsp + 40)) ;;
     println "******************************"
   else mret ()) ;;
  on devs set_devs (end_of_interrupt 0) ;;
  mret next_rsp.

(** [InterruptFrame] (idt.rs), and its address. *)
Record InterruptFrame := mkInterruptFrame {
  frame_vector : Z; frame_error_code : Z; frame_rip : Z; frame_cs : Z; frame_rflags : Z }.

Definition unbound_exception_handler (address : Z) (frame : InterruptFrame) : Kernel unit :=
  count ← count_up EXCEPTION_DEBUG_COUNT set_exception_count;
  newline ;;
  println "================================" ;;
  println "UNBOUND EXCEPTION HANDLER" ;;
  println "================================" ;;
  print_word "EXCEPTION COUNT: " count ;;
  print_word "FRAME ADDRESS: 0x" address ;;
  ist1 ← ask (λ s, tss_ist1 (tss (tables s)));
  print_word "IST1 STACK TOP: 0x" ist1 ;;
  print_word "VECTOR: 0x" (frame_vector frame) ;;
  print_word "ERROR CODE: 0x" (frame_error_code frame) ;;
  print_word "RIP: 0x" (frame_rip frame) ;;
  print_word "CS: 0x" (frame_cs frame) ;;
  print_word "RFLAGS: 0x" (frame_rflags frame) ;;
  println "EXCEPTION HANDLER COMPLETE" ;;
  println "EXCEPTION HANDLER RETURNING".

(** ** What the tests do *)

(** A label and the verdict that follows it. *)
Definition passes (labels : list string) : list item :=
  labels ≫= λ l, [Text l; Text "PASS"; Newline].

(** A call of an interface, seen through its specification. *)
Lemma res_inv {T B R} (m : M T B) (f : B → R) t res t' :
  (r ← m; mret (f r)) t = Done (res, t') → ∃ b, m t = Done (b, t') ∧ res = f b.
Proof. intros (b & t1 & E & H)%bind_inv. injection H as <- <-. eauto. Qed.

Lemma ipc_call {B} (m : M IpcManager B) f op t : manager_op op = (r ← m; mret (f r)) →
  manager_ok t → ipc_op_ok op →
  ∃ b t', m t = Done (b, t') ∧ manager_ok t' ∧ ipc_spec (endpoints (data t)) op (f b) (endpoints (data t')).
Proof.
  intros Hm Hok Hop. destruct (ipc_op_refines t op Hok Hop) as (res & t' & E & Hok' & Hs).
  rewrite Hm in E. apply res_inv in E as (b & E & ->). eauto.
Qed.
Lemma object_call {B} (m : M ObjectTable B) f op t : table_op op = (r ← m; mret (f r)) →
  table_ok t → object_op_ok op →
  ∃ b t', m t = Done (b, t') ∧ table_ok t' ∧ spec_op (objects (data t)) op (f b) (objects (data t')).
Proof.
  intros Hm Hok Hop. destruct (table_op_refines t op Hok Hop) as (res & t' & E & Hok' & _ & Hs).
  rewrite Hm in E. apply res_inv in E as (b & E & ->). eauto.
Qed.

(** Live handles are 64-bit values. *)
Lemma endpoint_handle t h q : manager_ok t → endpoints (data t) !! h = Some q → in_u 64 h.
Proof.
  intros [_ [Hinv _]] H. unfold endpoints in H.
  rewrite (table_lookup _ _ _ _ IpcHandle_codec _ _ _ _ endpoints_range _ _ Hinv) in H.
  by destruct (decide (in_u 64 h)).
Qed.
Lemma object_handle t h r : table_ok t → objects (data t) !! h = Some r → in_u 64 h.
Proof.
  intros [_ [Hinv _]] H. unfold objects in H.
  rewrite (table_lookup _ _ _ _ ObjectHandle_codec _ _ _ _ MAX_range _ _ Hinv) in H.
  by destruct (decide (in_u 64 h)).
Qed.

Definition object_report : list item :=
  [Newline; Text "KERNEL OBJECT TEST"; Newline] ++ passes ["OBJECT TABLE INITIAL: "]
  ++ [Text "OBJECT CREATE: PASS"; Newline]
  ++ passes ["OBJECT HANDLE: "; "OBJECT TYPE: "; "OBJECT RETAIN: "; "OBJECT RELEASE: "; "OBJECT FINAL RELEASE: ";
       "OBJECT DESTROY: "; "OBJECT REUSE: "; "STALE HANDLE: "; "OBJECT TYPE ISOLATION: "; "OBJECT CLEANUP: ";
       "OBJECT TABLE FINAL: "]
  ++ [Text "KERNEL OBJECTS: PASS"; Newline].

(** The table after the test: the first slot has been used twice. *)
Definition tested_objects : ObjectTable :=
  mkSpinLock false (mkObjectSlot false 3 None :: replicate 63 ObjectSlot_empty).

Ltac eval_bool := lazymatch goal with |- ?b = true => vm_compute; reflexivity end.

Lemma object_test_run c : KERNEL_OBJECTS c = ObjectTable_new →
  runs run_kernel_object_test c object_report () (set_objects tested_objects c).
Proof.
  intros H. destruct c as [tb v cr ob ip mr st tc ec d]. cbn [KERNEL_OBJECTS] in H. subst ob.
  unfold run_kernel_object_test, objs. eapply runs_eq.
  - repeat first [run_step|run_eval|eval_bool|apply runs_ret].
  - vm_compute. reflexivity.
  - reflexivity.
Qed.

Definition ipc_report : list item :=
  [Newline; Text "IPC TEST"; Newline] ++ passes ["IPC INITIAL: "]
  ++ [Text "IPC ENDPOINT CREATE: PASS"; Newline]
  ++ passes ["IPC HANDLE: "; "IPC SEND: "; "IPC QUEUE: "] ++ [Text "IPC RECEIVE: PASS"; Newline]
  ++ passes ["IPC SENDER: "; "IPC MESSAGE: "; "IPC EMPTY: "; "IPC DESTROY: "; "IPC STALE HANDLE: "; "IPC CLEANUP: "]
  ++ [Text "IPC: PASS"; Newline].

Lemma ipc_test_message from : ∃ m, IpcMessage_new from ipc_payload = Done (Some m) ∧
  Ipc.sender m = from ∧ IpcMessage_payload m = Done ipc_payload.
Proof. eexists. split; [vm_compute; reflexivity|]. split; vm_compute; reflexivity. Qed.

(** The state when the tables have no live objects and no endpoints. *)
Definition tables_empty (c : state) : Prop :=
  table_ok (KERNEL_OBJECTS c) ∧ objects (data (KERNEL_OBJECTS c)) = ∅ ∧
  manager_ok (IPC_MANAGER c) ∧ endpoints (data (IPC_MANAGER c)) = ∅.

(** The manager with the endpoints [M], and its calls. *)
Definition live (t : IpcManager) (M : gmap Z (list IpcMessage)) : Prop :=
  manager_ok t ∧ endpoints (data t) = M.
Ltac ipc_case op :=
  intros [Hok <-]; intros;
  destruct (ipc_call _ _ op _ eq_refl Hok) as (? & ? & E & Hok' & Hs); [done|];
  inversion Hs; simplify_eq; unfold live; eauto 10.

Lemma live_count t M : live t M → ∃ t', IpcManager_count t = Done (Z.of_nat (size M), t') ∧ live t' M.
Proof. ipc_case ICount. Qed.
Lemma live_valid t M h : live t M → in_u 64 h →
  ∃ t', IpcManager_is_valid h t = Done (bool_decide (is_Some (M !! h)), t') ∧ live t' M.
Proof. ipc_case (IIsValid h). Qed.
Lemma live_len t M h : live t M → in_u 64 h →
  ∃ t', IpcManager_queue_len h t = Done ((λ q, Z.of_nat (length q)) <$> M !! h, t') ∧ live t' M.
Proof. ipc_case (IQueueLen h). Qed.
Lemma live_create t : live t ∅ → ∃ h t', IpcManager_create t = Done (Some h, t') ∧ live t' {[h := []]} ∧ in_u 64 h.
Proof.
  intros [Hok He]. destruct (ipc_call _ IHandle ICreate t eq_refl Hok I) as (r & t' & E & Hok' & Hs).
  rewrite He in Hs. inversion Hs as [h ? ? Hr|Hf| | | | | | | | | | |]; [|by rewrite map_size_empty in Hf].
  destruct r as [h'|]; simplify_eq. assert (endpoints (data t') = {[h' := []]}) as He' by done.
  exists h', t'. split; [done|]. split; [by split|].
  apply (endpoint_handle t' h' [] Hok'). by rewrite He', lookup_singleton_eq.
Qed.
Lemma live_send t h from m : live t {[h := []]} → in_u 64 h → IpcMessage_new from ipc_payload = Done (Some m) →
  ∃ t', IpcManager_send h from ipc_payload t = Done (true, t') ∧ live t' {[h := [m]]}.
Proof.
  intros [Hok He] Hh Hm.
  destruct (ipc_call _ IBool (ISend h from ipc_payload) t eq_refl Hok Hh) as (r & t' & E & Hok' & Hs).
  rewrite He in Hs.
  inversion Hs as [| | |? ? ? m' q Hq ? Hm'|? ? ? q Hq Hfull|? ? ? Hlong|? ? ? Hn| | | | | |];
    rewrite ?lookup_singleton_eq in *; simplify_eq; [|by vm_compute in Hlong].
  assert (m' = m) as -> by congruence. exists t'. split; [done|]. split; [done|]. etrans; [by symmetry|]. apply insert_singleton_eq.
Qed.
Lemma live_receive t h m : live t {[h := [m]]} → in_u 64 h →
  ∃ t', IpcManager_receive h t = Done (Some m, t') ∧ live t' {[h := []]}.
Proof.
  intros [Hok He] Hh.
  destruct (ipc_call _ IMessage (IReceive h) t eq_refl Hok Hh) as (r & t' & E & Hok' & Hs).
  rewrite He in Hs.
  inversion Hs as [| | | | | | |? m' q Hq|? Hn| | | |]; rewrite ?lookup_singleton_eq in *; simplify_eq/=.
  exists t'. split; [done|]. split; [done|]. etrans; [by symmetry|]. apply insert_singleton_eq.
Qed.
Lemma live_destroy t h : live t {[h := []]} → in_u 64 h →
  ∃ t', IpcManager_destroy h t = Done (true, t') ∧ live t' ∅.
Proof.
  intros [Hok He] Hh.
  destruct (ipc_call _ IBool (IDestroy h) t eq_refl Hok Hh) as (r & t' & E & Hok' & Hs).
  rewrite He in Hs.
  inversion Hs as [| | | | | | | | | |? Hq|? Hq|]; rewrite ?lookup_singleton_eq in *; simplify_eq/=.
  exists t'. split; [done|]. split; [done|]. etrans; [by symmetry|]. apply delete_singleton_eq.
Qed.

(** The calls on the object table. *)
Lemma objects_count t : table_ok t → ∃ t', ObjectTable_count t = Done (Z.of_nat (size (objects (data t))), t') ∧
  table_ok t' ∧ objects (data t') = objects (data t).
Proof.
  intros Hok. destruct (object_call _ RCount Count t eq_refl Hok I) as (n & t' & E & Hok' & Hs).
  inversion Hs; simplify_eq. eauto.
Qed.
Lemma objects_create t ty : table_ok t → objects (data t) = ∅ → ∃ h t',
  ObjectTable_create ty t = Done (Some h, t') ∧ table_ok t' ∧ objects (data t') = {[h := mkObjectRecord ty 1]} ∧
  in_u 64 h.
Proof.
  intros Hok He. destruct (object_call _ RHandle (Create ty) t eq_refl Hok I) as (r & t' & E & Hok' & Hs).
  rewrite He in Hs. inversion Hs; [|by rewrite map_size_empty in *].
  destruct r as [h'|]; simplify_eq. assert (objects (data t') = {[h' := mkObjectRecord ty 1]}) as He' by done.
  exists h', t'. split; [done|]. split; [done|]. split; [done|].
  apply (object_handle t' h' (mkObjectRecord ty 1) Hok'). by rewrite He', lookup_singleton_eq.
Qed.
Lemma objects_release t h ty : table_ok t → objects (data t) = {[h := mkObjectRecord ty 1]} → in_u 64 h →
  ∃ t', ObjectTable_release h t = Done (true, t') ∧ table_ok t' ∧ objects (data t') = ∅.
Proof.
  intros Hok He Hh. destruct (object_call _ RBool (Release h) t eq_refl Hok Hh) as (r & t' & E & Hok' & Hs).
  rewrite He in Hs.
  inversion Hs as [| | | | | | |? ? Hq Hr|? ? Hq Hr|? Hq| | |]; rewrite ?lookup_singleton_eq in *; simplify_eq/=; [lia|].
  exists t'. split; [done|]. split; [done|]. etrans; [by symmetry|]. apply delete_singleton_eq.
Qed.

Lemma ipc_test_run c : tables_empty c → ∃ t1 t2,
  runs run_ipc_test c ipc_report () (set_ipc t2 (set_objects t1 c)) ∧
  tables_empty (set_ipc t2 (set_objects t1 c)).
Proof.
  intros (Ho & Ho0 & Hi & Hi0). destruct (live_count (IPC_MANAGER c) ∅) as (i1 & Ec & L1); [by split|].
  destruct (live_create i1 L1) as (h & i2 & En & L2 & Hh).
  destruct (live_valid i2 _ h L2 Hh) as (i3 & Ev & L3). rewrite lookup_singleton_eq in Ev.
  destruct (objects_create (KERNEL_OBJECTS c) ObjectType.Process Ho Ho0) as (from & o1 & Eo & Hok1 & Hob1 & Hfrom).
  destruct (ipc_test_message from) as (m & Hm & Hsender & Hpay).
  destruct (live_send i3 h from m L3 Hh Hm) as (i4 & Es & L4).
  destruct (live_len i4 _ h L4 Hh) as (i5 & El & L5). rewrite lookup_singleton_eq in El.
  destruct (live_receive i5 h m L5 Hh) as (i6 & Er & L6).
  destruct (live_len i6 _ h L6 Hh) as (i7 & El' & L7). rewrite lookup_singleton_eq in El'.
  destruct (live_destroy i7 h L7 Hh) as (i8 & Ed & L8).
  destruct (live_valid i8 _ h L8 Hh) as (i9 & Ev' & L9). rewrite lookup_empty in Ev'.
  destruct (objects_release o1 from _ Hok1 Hob1 Hfrom) as (o2 & Erel & Hok2 & Hob2).
  destruct (live_count i9 ∅ L9) as (i10 & Ec' & L10).
  destruct (objects_count o2 Hok2) as (o3 & Eoc & Hok3 & Hob3). rewrite Hob2 in Eoc, Hob3.
  exists o3, i10. split; [|destruct L10; by split_and!].
  unfold run_ipc_test, ipc, objs. eapply runs_eq.
  - repeat first [run_step|eapply runs_on; eassumption|eapply runs_pure; eassumption|apply runs_ret
      |by apply bool_decide_eq_true_2|by apply Z.eqb_eq|reflexivity].
  - reflexivity.
  - reflexivity.
Qed.

Definition syscall_report : list item :=
  [Newline; Text "SYSCALL TEST"; Newline] ++ passes ["SYSCALL GET_VERSION: "; "SYSCALL UNKNOWN: "]
  ++ [Text "SYSCALL: PASS"; Newline].

Lemma syscall_test_run c : runs run_syscall_test c syscall_report () c.
Proof. intros o. vm_compute. by rewrite <- !(app_assoc o). Qed.

Definition msr_report (efer : Z) : list item :=
  [Newline; Text "MSR TEST"; Newline] ++ passes ["MSR EFER READ: "]
  ++ [Text "EFER BEFORE: 0x"; Hex64 efer; Newline] ++ passes ["MSR EFER.SCE ENABLE: "; "MSR EFER.SCE VERIFY: "]
  ++ [Text "EFER AFTER: 0x"; Hex64 (Z.lor efer 1); Newline; Text "MSR SCE: PASS"; Newline].

Lemma msr_test_run efer c : in_u 64 efer → model_regs c !! IA32_EFER = Some efer →
  runs run_msr_test c (msr_report efer) () (set_regs (enable_syscall_extensions (model_regs c)) c).
Proof.
  intros He Hm. destruct (enable_efer_set efer _ He Hm) as [E1 _]. destruct (sce_enabled efer _ He E1) as [Er Eb].
  unfold run_msr_test. eapply runs_eq.
  - repeat first [run_step|exact Eb].
  - cbn [model_regs set_regs]. unfold read_efer at 1. rewrite (msr_read_lookup _ _ _ He Hm), Er. reflexivity.
  - reflexivity.
Qed.

Definition register_report (name : string) (value : Z) : list item :=
  [Text (name +:+ ": 0x"); Hex64 value; Newline] ++ passes [name +:+ " VERIFY: "].
Definition syscall_msr_report (entry : Z) : list item :=
  [Newline; Text "SYSCALL MSR TEST"; Newline; Text "SYSCALL ENTRY ADDRESS: 0x"; Hex64 entry; Newline;
   Text "SYSCALL ENTRY ADDRESS: PASS"; Newline] ++ passes ["SYSCALL MSR INITIALIZATION: "]
  ++ register_report "STAR" make_star ++ register_report "LSTAR" entry ++ register_report "CSTAR" 0
  ++ register_report "FMASK" SYSCALL_FMASK ++ passes ["SYSCALL MSR FINAL VERIFY: "]
  ++ [Text "SYSCALL SELECTORS"; Newline; Text "KERNEL CS: 0x"; Hex32 0x08; Newline;
      Text "KERNEL SS: 0x"; Hex32 0x10; Newline; Text "USER CODE BASE: 0x"; Hex32 0x30; Newline;
      Text "USER DATA BASE: 0x"; Hex32 0x28; Newline; Text "USER CODE R3: 0x"; Hex32 0x33; Newline;
      Text "USER DATA R3: 0x"; Hex32 0x2B; Newline; Text "SYSCALL MSRS: PASS"; Newline].

Lemma check_register_run name actual expected t c : actual = expected →
  runs (check_register name actual expected t) c (register_report name expected) () c.
Proof.
  intros ->. unfold check_register. rewrite Z.eqb_refl. eapply runs_eq; [repeat run_step|reflexivity|reflexivity].
Qed.
Lemma print_selector_run label sel c :
  runs (print_selector label sel) c [Text label; Hex32 sel; Newline] () c.
Proof. unfold print_selector. eapply runs_eq; [repeat run_step|reflexivity|reflexivity]. Qed.

Lemma syscall_msr_test_run entry c : in_u 64 entry → entry ≠ 0 →
  runs (run_syscall_msr_test entry) c (syscall_msr_report entry) ()
    (set_regs (init_syscall_msrs entry (model_regs c)) c).
Proof.
  intros He Hne. destruct (init_msrs_set entry (model_regs c) He) as [Hset _].
  destruct (msrs_set_read entry _ He Hset) as (R1 & R2 & R3 & R4 & R5).
  unfold run_syscall_msr_test, report_selectors. rewrite (proj2 (Z.eqb_neq _ _) Hne). eapply runs_eq.
  - repeat first [run_step|apply check_register_run; assumption|apply print_selector_run|assumption].
  - reflexivity.
  - reflexivity.
Qed.

Lemma tested_ok : table_ok tested_objects.
Proof.
  assert (∀ g, 1 ≤ g < 2 ^ 32 → slot_inv occupied generation record (mkObjectSlot false g None)) as H.
  { intros g Hg. split; [done|]. simpl. split; [done|]. by intros [? ?]. }
  split; [done|]. split; [split; [done|]|].
  - apply Forall_cons. split; [apply H; lia|]. apply Forall_replicate, H. lia.
  - apply Forall_cons. split; [done|]. by apply Forall_replicate.
Qed.

(** All five, one after the other. *)
Lemma kernel_tests_run efer entry c : in_u 64 efer → in_u 64 entry → entry ≠ 0 →
  KERNEL_OBJECTS c = ObjectTable_new → IPC_MANAGER c = IpcManager_new → model_regs c !! IA32_EFER = Some efer →
  ∃ t1 t2, let c1 := set_ipc t2 (set_objects t1 c) in
    runs (kernel_tests entry) c
      (object_report ++ ipc_report ++ syscall_report ++ msr_report efer ++ syscall_msr_report entry) ()
      (set_regs (init_syscall_msrs entry (enable_syscall_extensions (model_regs c))) c1) ∧ tables_empty c1.
Proof.
  intros He Hen Hne Ho Hi Hm.
  destruct (ipc_test_run (set_objects tested_objects c)) as (t1 & t2 & Hrun & Hempty).
  { split_and!; cbn [KERNEL_OBJECTS set_objects IPC_MANAGER].
    - apply tested_ok.
    - vm_compute. reflexivity.
    - rewrite Hi. apply manager_new_ok.
    - rewrite Hi. apply endpoints_new. }
  exists t1, t2. cbv zeta. split; [|exact Hempty].
  unfold kernel_tests. eapply runs_eq; [|reflexivity|].
  { eapply runs_bind; [by apply object_test_run|]. eapply runs_bind; [exact Hrun|].
    eapply runs_bind; [apply syscall_test_run|]. eapply runs_bind; [by apply (msr_test_run efer)|].
    by apply syscall_msr_test_run. }
  reflexivity.
Qed.

Lemma tested_regs efer entry ms : in_u 64 efer → in_u 64 entry → ms !! IA32_EFER = Some efer →
  let ms' := init_syscall_msrs entry (enable_syscall_extensions ms) in
  msrs_set entry ms' ∧ syscall_extensions_enabled ms' = true.
Proof.
  intros He Hen Hm. destruct (enable_efer_set efer _ He Hm) as [E1 _].
  destruct (init_msrs_set entry (enable_syscall_extensions ms) Hen) as [Hset Hother].
  split; [done|]. apply (sce_enabled efer); [done|]. rewrite Hother; [done|].
  apply (bool_decide_unpack _). vm_compute. exact I.
Qed.

(** C38: The tests of the kernel pass.  From the state at boot, with the static
    object table and message manager as they are loaded, any EFER and any non-null
    entry address, the five tests run one after the other without halting or
    panicking, print exactly the report with a PASS after every label, and leave no
    object and no endpoint behind and the system-call registers programmed. *)
Theorem kernel_tests_pass efer entry c : in_u 64 efer → in_u 64 entry → entry ≠ 0 →
  KERNEL_OBJECTS c = ObjectTable_new → IPC_MANAGER c = IpcManager_new → model_regs c !! IA32_EFER = Some efer →
  ∃ c', runs (kernel_tests entry) c
      (object_report ++ ipc_report ++ syscall_report ++ msr_report efer ++ syscall_msr_report entry) () c' ∧
    tables_empty c' ∧ msrs_set entry (model_regs c') ∧ syscall_extensions_enabled (model_regs c') = true ∧
    tables c' = tables c ∧ vm c' = vm c ∧ cr3 c' = cr3 c ∧ devs c' = devs c.
Proof.
  intros He Hen Hne Ho Hi Hm. destruct (kernel_tests_run efer entry c) as (t1 & t2 & Hrun & Hempty); [done..|].
  eexists. split; [exact Hrun|]. split; [exact Hempty|].
  destruct (tested_regs efer entry (model_regs c) He Hen Hm) as [Hset Hon]. done.
Qed.

Lemma count_up_run prj upd n c : prj c = n → 0 ≤ n < 2 ^ 64 - 1 →
  runs (count_up prj upd) c [] (n + 1) (upd (n + 1) c).
Proof.
  intros <- Hn. unfold count_up. eapply runs_eq.
  - run_step; [run_step|]. run_step; [run_step|]. apply runs_pure, add_u_Done. lia.
  - done.
  - unfold wrapping_add. by rewrite Z.mod_small by lia.
Qed.
Lemma print_word_run label v c : runs (print_word label v) c [Text label; Hex64 v; Newline] () c.
Proof. unfold print_word. eapply runs_eq; [repeat run_step|reflexivity|reflexivity]. Qed.

Lemma runs_if (b : bool) (m : Kernel unit) l c :
  runs m c l () c → runs (if b then m else mret ()) c (if b then l else []) () c.
Proof. intros H. destruct b; [exact H|apply runs_ret]. Qed.

(** What the first four interrupts print about the frame. *)
Definition timer_report (word : Z → Z) (rsp : Z) : list item :=
  [Newline; Text "*** TIMER DEBUG ***"; Newline; Text "CURRENT RSP: 0x"; Hex64 rsp; Newline;
   Text "NEXT RSP: 0x"; Hex64 rsp; Newline;
   Text "NEXT +00: 0x"; Hex64 (word rsp); Newline; Text "NEXT +08: 0x"; Hex64 (word (rsp + 8)); Newline;
   Text "NEXT +16: 0x"; Hex64 (word (rsp + 16)); Newline; Text "NEXT +24: 0x"; Hex64 (word (rsp + 24)); Newline;
   Text "NEXT +32: 0x"; Hex64 (word (rsp + 32)); Newline; Text "NEXT +40: 0x"; Hex64 (word (rsp + 40)); Newline;
   Text "******************************"; Newline].

(** The timer handler returns the frame it was given, so that the stub
    resumes the code it interrupted, acknowledges the interrupt on every call, and
    prints only on the first four; it does so until the counter is full, when its
    addition panics. *)
Theorem timer_handler_spec word rsp c : in_u 64 (TIMER_IRQ_DEBUG_COUNT c) →
  let n := TIMER_IRQ_DEBUG_COUNT c in
  (n = 2 ^ 64 - 1 → ∀ o, unbound_timer_handler word rsp (mkWorld o c) = Panicked Overflow) ∧
  (n < 2 ^ 64 - 1 → ∃ d, end_of_interrupt 0 (devs c) = Done ((), d) ∧
     runs (unbound_timer_handler word rsp) c
       ((if n =? 0 then [Newline; Text "*** IRQ0 FIRED ***"; Newline] else [])
        ++ if n <? 4 then timer_report word rsp else []) rsp
       (set_devs d (set_timer_count (n + 1) c))).
Proof.
  intros Hn. cbv zeta. split.
  { intros Hmax o. unfold unbound_timer_handler, mbind at 1, K_bind at 1. unfold count_up.
    unfold mbind at 1 2, K_bind at 1 2. cbn. rewrite Hmax. reflexivity. }
  intros Hlt. destruct (end_of_interrupt_run (devs c) 0) as (d & E & _). exists d. split; [done|].
  destruct Hn as [Hn0 _]. unfold unbound_timer_handler. eapply runs_eq.
  - run_step; [apply count_up_run; [done|lia]|].
    run_step; [apply (runs_if _ _ [Newline; Text "*** IRQ0 FIRED ***"; Newline])|].
    { eapply runs_eq; [repeat run_step|reflexivity|reflexivity]. }
    run_step; [apply (runs_if _ _ (timer_report word rsp))|].
    { eapply runs_eq; [repeat first [run_step|apply print_word_run]|reflexivity|reflexivity]. }
    run_step; [eapply runs_on; exact E|]. apply runs_ret.
  - rewrite app_nil_r. cbn [app].
    destruct (Z.eqb_spec (TIMER_IRQ_DEBUG_COUNT c + 1) 1), (Z.eqb_spec (TIMER_IRQ_DEBUG_COUNT c) 0),
      (Z.leb_spec (TIMER_IRQ_DEBUG_COUNT c + 1) 4), (Z.ltb_spec (TIMER_IRQ_DEBUG_COUNT c) 4); try lia; by rewrite ?app_nil_r.
  - done.
Qed.

(** The exception handler prints the frame and returns. *)
Lemma exception_handler_run address f c n : EXCEPTION_DEBUG_COUNT c = n → 0 ≤ n < 2 ^ 64 - 1 → ∃ before,
  runs (unbound_exception_handler address f) c
    (before ++ [Text "VECTOR: 0x"; Hex64 (frame_vector f); Newline;
     Text "ERROR CODE: 0x"; Hex64 (frame_error_code f); Newline; Text "RIP: 0x"; Hex64 (frame_rip f); Newline;
     Text "CS: 0x"; Hex64 (frame_cs f); Newline; Text "RFLAGS: 0x"; Hex64 (frame_rflags f); Newline;
     Text "EXCEPTION HANDLER COMPLETE"; Newline; Text "EXCEPTION HANDLER RETURNING"; Newline]) ()
    (set_exception_count (n + 1) c).
Proof.
  intros Hc Hn. unfold unbound_exception_handler.
  exists ([Newline; Text "================================"; Newline; Text "UNBOUND EXCEPTION HANDLER"; Newline;
    Text "================================"; Newline; Text "EXCEPTION COUNT: "; Hex64 (n + 1); Newline;
    Text "FRAME ADDRESS: 0x"; Hex64 address; Newline; Text "IST1 STACK TOP: 0x";
    Hex64 (tss_ist1 (tss (tables c))); Newline]).
  eapply runs_eq; [repeat first [run_step|apply print_word_run|by apply count_up_run]|reflexivity|reflexivity].
Qed.

(** ** A kernel at boot *)

Definition sample_pic : pic8259 := mkPic 0 true 32 4 true 0xFE 1.
Definition sample_state : state :=
  mkState blank_machine (PageTable.mkMachine FrameAllocator_empty ∅) 0 ObjectTable_new IpcManager_new
    {[IA32_EFER := 0x500]} 0 0 0 (mkDevices sample_pic sample_pic (mkPit 3 false 0 11931)).

Lemma kernel_tests_pass_witness : ∃ c', tables_empty c' ∧ msrs_set 0x101000 (model_regs c') ∧
  runs (kernel_tests 0x101000) sample_state
    (object_report ++ ipc_report ++ syscall_report ++ msr_report 0x500 ++ syscall_msr_report 0x101000) () c'.
Proof.
  destruct (kernel_tests_pass 0x500 0x101000 sample_state) as (c' & Hr & He & Hs & _);
    [split; [lia|reflexivity]|split; [lia|reflexivity]|lia|reflexivity|reflexivity|reflexivity|].
  exists c'. split; [exact He|]. split; [exact Hs|exact Hr].
Defined.

Lemma timer_handler_spec_witness : ∃ d, isr (pic1 d) = 0 ∧
  runs (unbound_timer_handler (λ a, a) 0x9000) (set_timer_count 7 sample_state) [] 0x9000
    (set_devs d (set_timer_count 8 sample_state)).
Proof.
  destruct (timer_handler_spec (λ a, a) 0x9000 (set_timer_count 7 sample_state)) as [_ H];
    [split; [vm_compute; discriminate|reflexivity]|].
  destruct (H eq_refl) as (d & E & Hr). exists d. split; [|exact Hr].
  vm_compute in E. injection E as <-. reflexivity.
Defined.
