(* ===== verification/Boot.v ===== *)
(** * The start-up of the kernel ([_start], kernel/src/bin/kernel.rs)

    [_start] in its sections: the boot information, the descriptor tables, the
    breakpoint test, the memory map, the frame allocator, the page tables, the
    address space, the mappings of the ring 3 test, the heap, the spin lock, the
    tests of KernelTests.v and the entry into ring 3.  The kernel uses physical
    addresses as pointers, and both the loader's page tables and its own map only the
    first 2 MiB to themselves: an access to a page table outside that window
    ([low_window]) raises a page fault, and so does loading CR3 with tables that do
    not map it.  The addresses the linker chooses are arguments.  The breakpoint itself
    is an argument too: its return is the business of the exception stubs
    (Interrupts.v). *)

From S2P Require Import Prelude BootInfo FrameInterface FrameAllocator PageTable AddressSpace Heap Window Protection Budget.
From S2P Require Import Objects Ipc Descriptors Cpu Syscall Serial Devices SpinLock Console KernelTests.
Local Open Scope Z_scope.

(** ** What [_start] reads *)

(** The sixteen bytes of a gate. *)
Definition IdtEntry_bytes (g : IdtEntry) : list Z :=
  le_bytes 2 (offset_low g) ++ le_bytes 2 (selector g) ++ le_bytes 1 (ist g) ++ le_bytes 1 (attributes g)
  ++ le_bytes 2 (offset_mid g) ++ le_bytes 4 (offset_high g) ++ le_bytes 4 (reserved g).

(** user.rs *)
Definition USER_CODE_VADDR : Z := 0x400000.
Definition USER_STACK_VADDR : Z := 0x800000.
Definition USER_STACK_SIZE : Z := 16 * 1024.

(** Calls on the page tables and the allocator, and on the heap. *)
Definition on_memory {A} (m : M (PageTable.machine FrameAllocator) A) : Kernel A := on vm set_vm m.
Definition allocator {A} (m : M FrameAllocator A) : Kernel A := on_memory (on_fa m).
Definition heap_call {A} (h : KernelHeap) (m : M (heap_state FrameAllocator) A) : Kernel (A * KernelHeap) := λ w,
  match m (mkHeapState h (vm (core w))) with
  | Done (a, s) => Done (Go (a, heap s), mkWorld (out w) (set_vm (Heap.vm s) (core w)))
  | Panicked f => Panicked f
  end.
(** [match r { Ok(()) => {}, Err(error) => { label; error; halt() } }]. *)
Definition ok_or_halt {A} (r : result A) (label : string) : Kernel A :=
  match r with
  | Ok a => mret a
  | Err error => print label ;; print error ;; newline ;; halt
  end.
(** [if b { "PASS" } else { "FAIL" }], without halting. *)
Definition pass_or_fail (b : bool) : Kernel unit := if b then println "PASS" else println "FAIL".
(** A label and a number on a line. *)
Definition print_hex64 (label : string) (v : Z) : Kernel unit := print label ;; hex64 v ;; newline.
Definition print_hex32 (label : string) (v : Z) : Kernel unit := print label ;; hex32 v ;; newline.

(** ** The window

    The first 2 MiB: what stage2.asm maps (one page of 2 MiB) and what
    [identity_map] maps again before CR3 is loaded. *)
Definition low_window : Z → bool := λ t, (0 <=? t) && (t + 4096 <=? 0x200000).
(** The tables at [root] map every page of the window to itself, writable. *)
Definition window_mapped (root : Z) (v : PageTable.machine FrameAllocator) : bool :=
  forallb (λ i, match page_access root v (4096 * i) with
                | Some (a, _, w) => (a =? 4096 * i) && w
                | None => false
                end) (seqZ 0 512).
(** From the load of CR3 on, code, stack and page tables are reached through the
    new tables. *)
Definition keep_window : Kernel unit := λ w,
  if window_mapped (cr3 (core w)) (vm (core w)) then Done (Go (), w) else Panicked NotMapped.

Section start.
Context {W : Window}.
(** The addresses of the statics and of the assembly entry points. *)
Context (gdt_addr tss_addr idt_addr double_fault_stack : Z) (unbound_isr : Z → Z) (unbound_irq0 : Z).
Context (syscall_entry syscall_stack user_test_entry user_stack : Z).

(** ** Boot information, descriptor tables *)

Definition start_boot_info (m : bytemem) (boot_info : Z) : Kernel BootInfo :=
  println "KERNEL ENTRY" ;;
  if boot_info =? 0 then println "BOOTINFO NULL" ;; halt
  else
    println "BOOTINFO PTR OK" ;; println "BOOTINFO READ OK" ;;
    match validate_boot_info m boot_info with
    | Err message => println message ;; halt
    | Ok info => println "BOOTINFO OK" ;; mret info
    end.

(** The entries of the GDT, one a line. *)
Definition print_gdt : Kernel unit :=
  for_each [(0, "GDT0: "); (1, "GDT1: "); (2, "GDT2: "); (3, "GDT3: "); (4, "GDT4: "); (5, "GDT5: "); (6, "GDT6: ")]
    (λ '(i, label), e ← on tables set_tables (zoom gdt set_gdt (vec_get i)); print_hex64 label e).

(** [gdt::init] with what it prints: the tables, and loading them. *)
Definition gdt_build_reported : Kernel unit :=
  println "GDT: TSS INIT" ;;
  print_hex64 "GDT STATIC ADDRESS: " gdt_addr ;;
  print_hex64 "GDT SIZE: " GDT_SIZE ;;
  gdt_end ← pure (add_u 64 gdt_addr GDT_SIZE);
  print_hex64 "GDT END: " gdt_end ;;
  on tables set_tables (zoom gdt set_gdt gdt_set_entries) ;;
  println "GDT BEFORE TSS INIT:" ;; print_gdt ;;
  println "GDT: TSS INIT EXECUTE" ;;
  on tables set_tables (tss_init double_fault_stack) ;;
  println "GDT: TSS INIT COMPLETE" ;;
  print_hex64 "TSS ADDRESS: " (tss_address tss_addr) ;;
  print_hex64 "TSS SIZE: " tss_size ;;
  tss_end ← pure (add_u 64 (tss_address tss_addr) tss_size);
  print_hex64 "TSS END: " tss_end ;;
  ist1 ← ask (λ s, ist1_top (tables s));
  print_hex64 "IST1 STACK: " ist1 ;;
  println "GDT: INSTALL TSS" ;;
  on tables set_tables (zoom gdt set_gdt (install_tss tss_addr)) ;;
  println "GDT AFTER INSTALL TSS:" ;; print_gdt.
Definition gdt_load_reported : Kernel unit :=
  println "GDT: PREPARE GDTR" ;;
  limit ← pure (sub_u GDT_SIZE 1);
  print_hex64 "GDT BASE: " gdt_addr ;;
  print_hex64 "GDT LIMIT: " (cast 16 limit) ;;
  println "GDT: EXECUTE LGDT" ;;
  on tables set_tables (lgdt (cast 16 limit) gdt_addr) ;;
  println "GDT: LGDT COMPLETE" ;;
  println "GDT: RELOAD SEGMENTS" ;;
  on tables set_tables unbound_reload_segments ;;
  println "GDT: RELOAD SEGMENTS COMPLETE" ;;
  println "GDT: LOAD TR" ;;
  on tables set_tables (load_task_register TSS_SELECTOR) ;;
  println "GDT: LOAD TR COMPLETE" ;;
  println "GDT: INIT COMPLETE".
Definition gdt_init_reported : Kernel unit := gdt_build_reported ;; gdt_load_reported.

Definition start_gdt : Kernel unit :=
  newline ;; println "GDT INITIALIZATION" ;;
  gdt_init_reported ;;
  println "GDT: PASS" ;; println "GDT VERIFICATION" ;;
  base ← ask (λ s, gdt_current_base (tables s));
  print_hex64 "GDTR BASE: 0x" base ;;
  limit ← ask (λ s, gdt_current_limit (tables s));
  print_hex32 "GDTR LIMIT: 0x" limit ;;
  print "GDT USER SEGMENTS VERIFY: " ;;
  ok ← on tables set_tables verify_user_segments;
  verdict ok.

Definition start_tss : Kernel unit :=
  newline ;; println "TSS INITIALIZATION" ;;
  tr ← ask (λ s, task_register (tables s));
  print_hex32 "TR: 0x" tr ;;
  print "TSS VERIFY: " ;;
  ok ← ask (λ s, verify_task_register (tables s));
  verdict ok ;;
  ist1 ← ask (λ s, ist1_top (tables s));
  print_hex64 "IST1 STACK TOP: 0x" ist1 ;;
  print "IST1 ALIGNMENT: " ;;
  verdict (negb (ist1 =? 0) && (Z.land ist1 0x0F =? 0)) ;;
  print "IST1 NON-NULL: " ;;
  verdict (negb (ist1 =? 0)) ;;
  println "TSS/IST INITIALIZATION: PASS".

Definition start_idt : Kernel unit :=
  newline ;; println "IDT INITIALIZATION" ;;
  on tables set_tables (idt_init idt_addr unbound_isr unbound_irq0) ;;
  println "IDT: PASS" ;; println "IDT VERIFICATION" ;;
  base ← ask (λ s, idt_current_base (tables s));
  print_hex64 "IDTR BASE: 0x" base ;;
  limit ← ask (λ s, idt_current_limit (tables s));
  print_hex32 "IDTR LIMIT: 0x" limit ;;
  print "IDT VERIFY: " ;;
  ok ← ask (λ s, idt_verify idt_addr (tables s));
  verdict ok.

(** The gate is read through the address in IDTR, where [verify] found the table. *)
Definition start_idt_debug : Kernel unit :=
  newline ;; println "IDT[3] DEBUG" ;;
  idt_base ← ask (λ s, idt_current_base (tables s));
  print_hex64 "  IDT BASE: 0x" idt_base ;;
  entry_addr ← pure (add_u 64 idt_base (3 * 16));
  print_hex64 "  IDT[3] ADDRESS: 0x" entry_addr ;;
  gates ← ask (λ s, idt (tables s));
  let entry := IdtEntry_bytes (default IdtEntry_missing (gates !! 3%nat)) in
  print "  IDT[3] BYTES: " ;;
  for_each entry (λ b, hex8 b ;; print " ") ;;
  newline.

Definition start_int3 (int3 : Kernel unit) : Kernel unit :=
  newline ;; println "EARLY EXCEPTION TEST: INT3" ;;
  int3 ;;
  println "EARLY EXCEPTION TEST: INT3 RETURNED".

(** ** The memory map and the frame allocator *)

Definition start_memory_map (m : bytemem) (info : BootInfo) : Kernel (list MemoryMapEntry) :=
  print_hex32 "MEMORY MAP ENTRIES: " (memory_map_count info) ;;
  print "BOOT DRIVE: 0x" ;; hex8 (boot_drive info) ;; newline ;;
  print_hex64 "KERNEL START: 0x" (kernel_phys_start info) ;;
  print_hex64 "KERNEL END: 0x" (kernel_phys_end info) ;;
  newline ;; println "E820 MEMORY MAP" ;;
  let entries := memory_map m info in
  for_each (zip (seqZ 0 (Z.of_nat (length entries))) entries) (λ '(index, entry),
    print_hex32 "ENTRY " (cast 32 index) ;;
    print_hex64 "  BASE: 0x" (base_addr entry) ;;
    print_hex64 "  LENGTH: 0x" (entry_length entry) ;;
    print_hex32 "  TYPE: 0x" (entry_type entry) ;;
    print_hex32 "  ATTR: 0x" (BootInfo.attributes entry)) ;;
  mret entries.

Definition print_free_frames (label : string) : Kernel unit :=
  n ← ask (λ s, free_frames (fa (vm s))); print_hex64 label n.

Definition start_frames (entries : list MemoryMapEntry) (info : BootInfo) : Kernel unit :=
  allocator (put FrameAllocator_empty) ;;
  allocator (FrameAllocator_initialize entries (kernel_phys_start info) (kernel_phys_end info)) ;;
  newline ;; println "PHYSICAL MEMORY MANAGER" ;;
  print_free_frames "FREE FRAMES: ".

Definition start_frame_test : Kernel unit :=
  println "ALLOCATING TEST FRAMES" ;;
  frame1 ← allocator allocate_frame;
  frame2 ← allocator allocate_frame;
  frame3 ← allocator allocate_frame;
  print_hex64 "FRAME 1: 0x" (default 0 frame1) ;;
  print_hex64 "FRAME 2: 0x" (default 0 frame2) ;;
  print_hex64 "FRAME 3: 0x" (default 0 frame3) ;;
  print_free_frames "FREE FRAMES AFTER ALLOC: " ;;
  match frame1 with Some frame => allocator (free_frame frame) | None => mret () end ;;
  print_free_frames "FREE FRAMES AFTER FREE: " ;;
  free_before_reserved_test ← ask (λ s, free_frames (fa (vm s)));
  allocator (free_frame 0x00000000) ;;
  free_after_reserved_test ← ask (λ s, free_frames (fa (vm s)));
  print "RESERVED FRAME FREE TEST: " ;;
  pass_or_fail (free_before_reserved_test =? free_after_reserved_test).

(** ** Page tables *)

Definition start_vm_test : Kernel unit :=
  newline ;; println "VIRTUAL MEMORY TEST" ;;
  pml4_frame ← allocator allocate_frame;
  match pml4_frame with
  | Some pml4 =>
      on_memory (zero_table pml4) ;;
      let virtual_address := 0x00400000 in
      let physical_address := 0x00100000 in
      mapped ← on_memory (page_table_map pml4 virtual_address physical_address true false);
      match mapped with
      | Ok _ =>
          let '(pml4_index, pdpt_index, pd_index, pt_index) := indexes virtual_address in
          e ← on_memory (read_entry pml4 pml4_index);
          let pdpt_address := entry_address e in
          e ← on_memory (read_entry pdpt_address pdpt_index);
          let pd_address := entry_address e in
          e ← on_memory (read_entry pd_address pd_index);
          let pt_address := entry_address e in
          e ← on_memory (read_entry pt_address pt_index);
          let mapped_address := entry_address e in
          print_hex64 "VIRTUAL ADDRESS: 0x" virtual_address ;;
          print_hex64 "EXPECTED PHYSICAL: 0x" physical_address ;;
          print_hex64 "ACTUAL PHYSICAL: 0x" mapped_address ;;
          print "PAGE TABLE MAP TEST: " ;;
          pass_or_fail (mapped_address =? physical_address)
      | Err error => print "PAGE TABLE MAP ERROR: " ;; print error ;; newline
      end
  | None => println "PML4 ALLOCATION: FAIL"
  end ;;
  println "VIRTUAL MEMORY TEST COMPLETE".

Definition start_canonical_test : Kernel unit :=
  newline ;; println "CANONICAL ADDRESS TEST" ;;
  let canonical_low := 0x00007FFFFFFFF000 in
  let canonical_high := 0xFFFF800000000000 in
  let non_canonical_low := 0x0000800000000000 in
  let non_canonical_high := 0xFFFF7FFFFFFFFFFF in
  print "LOW CANONICAL: " ;; pass_or_fail (is_canonical canonical_low) ;;
  print "HIGH CANONICAL: " ;; pass_or_fail (is_canonical canonical_high) ;;
  print "LOW NON-CANONICAL: " ;; pass_or_fail (negb (is_canonical non_canonical_low)) ;;
  print "HIGH NON-CANONICAL: " ;; pass_or_fail (negb (is_canonical non_canonical_high)) ;;
  println "CANONICAL ADDRESS TEST COMPLETE".

(** ** The address space *)

Definition start_address_space : Kernel AddressSpace :=
  newline ;; println "ADDRESS SPACE TEST" ;;
  println "AS: BEFORE NEW" ;;
  created ← on_memory AddressSpace_new;
  address_space ← ok_or_halt created "PML4 CREATION: FAIL: ";
  println "AS: AFTER NEW" ;;
  print_hex64 "PML4 CREATED: 0x" (AddressSpace_pml4_phys address_space) ;;
  println "AS: BEFORE IDENTITY MAP" ;;
  mapped ← on_memory (AddressSpace_identity_map address_space 0x00000000 0x00200000 true);
  ok_or_halt mapped "IDENTITY MAP: FAIL: " ;;
  println "AS: AFTER IDENTITY MAP" ;;
  println "IDENTITY MAP: PASS" ;;
  mret address_space.

(** Map, translate, unmap and translate again. *)
Definition start_map_test (pml4 : Z) : Kernel unit :=
  println "AS: BEFORE TEST MAP" ;;
  mapped ← on_memory (page_table_map pml4 0x00400000 0x00100000 true false);
  ok_or_halt mapped "TEST MAP: FAIL: " ;;
  println "AS: AFTER TEST MAP" ;;
  println "TEST MAP: PASS" ;;
  println "AS: BEFORE TRANSLATION" ;;
  print "TRANSLATION TEST: " ;;
  translated ← on_memory (page_table_translate pml4 0x00400000);
  match translated with
  | Some physical_address =>
      if physical_address =? 0x00100000 then println "PASS"
      else println "FAIL: WRONG PHYSICAL" ;; print_hex64 "ACTUAL: 0x" physical_address ;; halt
  | None => println "FAIL: UNMAPPED" ;; halt
  end ;;
  println "AS: BEFORE UNMAP" ;;
  print "UNMAP TEST: " ;;
  unmapped ← on_memory (page_table_unmap pml4 0x00400000);
  match unmapped with
  | Ok physical_address =>
      if physical_address =? 0x00100000 then println "PASS"
      else println "FAIL: WRONG PHYSICAL" ;; print_hex64 "ACTUAL: 0x" physical_address ;; halt
  | Err error => print "FAIL: " ;; print error ;; newline ;; halt
  end ;;
  println "AS: BEFORE POST-UNMAP TRANSLATION" ;;
  print "POST-UNMAP TRANSLATION TEST: " ;;
  translated ← on_memory (page_table_translate pml4 0x00400000);
  match translated with
  | None => println "PASS: UNMAPPED"
  | Some physical_address =>
      println "FAIL: STILL MAPPED" ;; print_hex64 "PHYSICAL: 0x" physical_address ;; halt
  end.

(** A translation that must be [expected]. *)
Definition check_translation (pml4 virtual_address expected : Z) (name : string) : Kernel unit :=
  translated ← on_memory (page_table_translate pml4 virtual_address);
  match translated with
  | Some physical_address =>
      print_hex64 (name +:+ " TRANSLATION: 0x") physical_address ;;
      if physical_address =? expected then println (name +:+ " TRANSLATION: PASS")
      else println (name +:+ " TRANSLATION: FAIL") ;; halt
  | None => println (name +:+ " TRANSLATION: FAIL: UNMAPPED") ;; halt
  end.

Definition start_user_code (pml4 : Z) : Kernel unit :=
  newline ;; println "USER ADDRESS SPACE TEST" ;;
  println "USER: BEFORE CODE MAP" ;;
  let user_code_physical := user_test_entry in
  let user_code_page := Z.land user_code_physical (not_u 64 (PAGE_SIZE - 1)) in
  print_hex64 "USER CODE PHYSICAL: 0x" user_code_physical ;;
  print_hex64 "USER CODE PAGE: 0x" user_code_page ;;
  mapped ← on_memory (page_table_map pml4 USER_CODE_VADDR user_code_page true true);
  ok_or_halt mapped "USER CODE MAP: FAIL: " ;;
  println "USER CODE MAP: PASS" ;;
  println "USER: VERIFY CODE TRANSLATION" ;;
  check_translation pml4 USER_CODE_VADDR user_code_page "USER CODE".

Definition map_user_stack_page (pml4 user_stack_physical page : Z) : Kernel unit :=
  physical_address ← pure (add_u 64 user_stack_physical (page * PAGE_SIZE));
  let virtual_address := USER_STACK_VADDR + page * PAGE_SIZE in
  mapped ← on_memory (page_table_map pml4 virtual_address physical_address true true);
  ok_or_halt mapped "USER STACK MAP: FAIL: ".

Definition start_user_stack (pml4 : Z) : Kernel unit :=
  println "USER: BEFORE STACK MAP" ;;
  let user_stack_physical := user_stack in
  let user_stack_pages := USER_STACK_SIZE / PAGE_SIZE in
  print_hex64 "USER STACK PHYSICAL: 0x" user_stack_physical ;;
  print_hex64 "USER STACK PAGES: " user_stack_pages ;;
  for_each (seqZ 0 user_stack_pages) (map_user_stack_page pml4 user_stack_physical) ;;
  println "USER STACK MAP: PASS" ;;
  println "USER: VERIFY STACK TRANSLATION" ;;
  check_translation pml4 USER_STACK_VADDR user_stack_physical "USER STACK".

Definition start_kernel_stack : Kernel unit :=
  println "USER: INITIALIZING RING3 KERNEL STACK" ;;
  top ← pure (initialize_stack syscall_stack);
  set (set_stack_top top) ;;
  syscall_stack_top ← ask unbound_syscall_stack_top;
  print_hex64 "SYSCALL STACK TOP: 0x" syscall_stack_top ;;
  (if syscall_stack_top =? 0 then println "SYSCALL STACK: FAIL" ;; halt else mret ()) ;;
  println "SYSCALL STACK: PASS" ;;
  on tables set_tables (set_rsp0 syscall_stack_top) ;;
  rsp0 ← ask (λ s, rsp0 (tables s));
  print_hex64 "TSS RSP0: 0x" rsp0 ;;
  (if negb (rsp0 =? 0) then println "TSS RSP0: PASS" else println "TSS RSP0: FAIL" ;; halt).

Definition start_cr3 (address_space : AddressSpace) : Kernel unit :=
  newline ;; println "CR3 SWITCH: START" ;;
  println "PHASE 5: BEFORE CR3 ACTIVATE" ;;
  on cr3 set_cr3 (AddressSpace_activate address_space) ;; keep_window ;;
  println "PHASE 5: AFTER CR3 ACTIVATE" ;;
  println "CR3 SWITCH: PASS".

Definition start_heap (heap_pml4 : Z) : Kernel KernelHeap :=
  newline ;; println "KERNEL HEAP INITIALIZATION" ;;
  println "PHASE 5: BEFORE HEAP OBJECT" ;;
  let kernel_heap := KernelHeap_new in
  println "PHASE 5: AFTER HEAP OBJECT" ;;
  print_hex64 "HEAP START: 0x" (KernelHeap_start kernel_heap) ;;
  heap_end ← pure (KernelHeap_end kernel_heap);
  print_hex64 "HEAP END: 0x" heap_end ;;
  print "HEAP CAPACITY: " ;; hex64 (KernelHeap_page_capacity kernel_heap) ;; println " PAGES" ;;
  println "PHASE 5: BEFORE HEAP PML4" ;;
  println "PHASE 5: AFTER HEAP PML4" ;;
  println "HEAP MAPPING: 4 PAGES" ;;
  println "PHASE 5: BEFORE HEAP INITIALIZE" ;;
  '(r, kernel_heap) ← heap_call kernel_heap (KernelHeap_initialize heap_pml4 4);
  ok_or_halt r "HEAP MAP: FAIL: " ;;
  println "PHASE 5: AFTER HEAP INITIALIZE" ;;
  println "HEAP MAP: PASS" ;;
  print_hex64 "HEAP MAPPED PAGES: " (KernelHeap_mapped_pages kernel_heap) ;;
  print "HEAP INITIALIZED: " ;;
  (if KernelHeap_is_initialized kernel_heap then println "YES" else println "NO") ;;
  mret kernel_heap.

(** ** The spin lock, and the rest *)

Definition start_spinlock : Kernel unit :=
  newline ;; println "SPINLOCK TEST" ;;
  let spinlock := SpinLock_new 0 in
  print "SPINLOCK INITIAL STATE: " ;;
  verdict (negb (SpinLock_is_locked spinlock)) ;;
  print "SPINLOCK ACQUIRE: " ;;
  '(_, spinlock) ← pure (SpinLock_lock spinlock);
  verdict (SpinLock_is_locked spinlock) ;;
  '(_, spinlock) ← pure ((guard_deref_mut 0x12345678 ;; guard_drop) spinlock);
  print "SPINLOCK RELEASE: " ;;
  verdict (negb (SpinLock_is_locked spinlock)) ;;
  print "SPINLOCK DATA: " ;;
  '(guard, spinlock) ← pure ((SpinLock_lock ;; guard_deref) spinlock);
  verdict (guard =? 0x12345678) ;;
  pure (guard_drop spinlock) ;;
  println "SPINLOCK: PASS".

Definition start_checkpoint : Kernel unit :=
  newline ;; println "================================" ;;
  println "PHASE 5 KERNEL INFRASTRUCTURE" ;;
  println "================================" ;;
  println "PREEMPTIVE SCHEDULER: PARKED" ;; println "KERNEL HEAP: PASS" ;; println "SPINLOCK: PASS" ;;
  println "KERNEL OBJECTS: PASS" ;; println "IPC: PASS" ;; println "SYSCALL: PASS" ;; println "MSR: PASS" ;;
  println "STAR: PASS" ;; println "LSTAR: PASS" ;; println "FMASK: PASS" ;;
  println "UNBOUND KERNEL: SYSCALL ABI FOUNDATION READY".

(** Up to [enter_ring3], whose arguments it returns. *)
Definition start_ring3 : Kernel (Z * Z) :=
  newline ;; println "================================" ;;
  println "PHASE 6 RING 3 SYSCALL TEST" ;;
  println "================================" ;;
  let user_entry := USER_CODE_VADDR in
  let user_stack_top := USER_STACK_VADDR + USER_STACK_SIZE in
  print_hex64 "USER ENTRY: 0x" user_entry ;;
  print_hex64 "USER STACK TOP: 0x" user_stack_top ;;
  newline ;; println "--- RING 3 IRET CHECK ---" ;;
  print_hex64 "USER RIP: 0x" user_entry ;;
  print_hex64 "USER CS: 0x" USER_CODE_SELECTOR_R3 ;;
  print_hex64 "USER RSP: 0x" user_stack_top ;;
  print_hex64 "USER SS: 0x" USER_DATA_SELECTOR_R3 ;;
  println "USER RFLAGS: 0x202" ;;
  println "--- END IRET CHECK ---" ;;
  println "ENTERING RING 3..." ;;
  mret (user_entry, user_stack_top).

(** ** The whole of [_start] *)

Definition start_descriptors (m : bytemem) (boot_info : Z) : Kernel BootInfo :=
  info ← start_boot_info m boot_info;
  start_gdt ;; start_tss ;; start_idt ;; start_idt_debug ;;
  mret info.

Definition start_kernel (m : bytemem) (info : BootInfo) : Kernel (Z * Z) :=
  entries ← start_memory_map m info;
  start_frames entries info ;;
  start_frame_test ;;
  start_vm_test ;;
  start_canonical_test ;;
  address_space ← start_address_space;
  let pml4 := AddressSpace_pml4_phys address_space in
  start_map_test pml4 ;;
  start_user_code pml4 ;;
  start_user_stack pml4 ;;
  start_kernel_stack ;;
  start_cr3 address_space ;;
  start_heap pml4 ;;
  start_spinlock ;;
  kernel_tests syscall_entry ;;
  start_checkpoint ;;
  start_ring3.

Definition _start (int3 : Kernel unit) (m : bytemem) (boot_info : Z) : Kernel (Z * Z) :=
  info ← start_descriptors m boot_info;
  start_int3 int3 ;;
  start_kernel m info.
End start.
Arguments start_kernel W : clear implicits.
Arguments _start W : clear implicits.

(** ** Steps *)

Lemma wp_print_hex64 label v S (Q : unit → state → Prop) c : Q () c → wp (print_hex64 label v) S Q c.
Proof. intros HQ. unfold print_hex64. by wp_steps. Qed.
Lemma wp_print_hex32 label v S (Q : unit → state → Prop) c : Q () c → wp (print_hex32 label v) S Q c.
Proof. intros HQ. unfold print_hex32. by wp_steps. Qed.
Lemma wp_pass_or_fail b S (Q : unit → state → Prop) c : Q () c → wp (pass_or_fail b) S Q c.
Proof. intros HQ. unfold pass_or_fail. destruct b; by wp_steps. Qed.
Lemma wp_free_frames label S (Q : unit → state → Prop) c : Q () c → wp (print_free_frames label) S Q c.
Proof. intros HQ. unfold print_free_frames. wp_steps. by apply wp_print_hex64. Qed.

Ltac boot_step :=
  lazymatch goal with
  | |- wp (print_hex64 _ _) _ _ _ => apply wp_print_hex64
  | |- wp (print_hex32 _ _) _ _ _ => apply wp_print_hex32
  | |- wp (pass_or_fail _) _ _ _ => apply wp_pass_or_fail
  | |- wp (print_free_frames _) _ _ _ => apply wp_free_frames
  | |- _ => wp_step
  end.
Ltac boot_steps := cbv beta iota; repeat (boot_step; cbv beta iota).

(** ** The descriptor tables *)

Section descriptors.
Context (gdt_addr tss_addr idt_addr df : Z) (unbound_isr : Z → Z) (unbound_irq0 : Z).
Context (Hgdt : 0 ≤ gdt_addr) (Hgdt' : gdt_addr + GDT_SIZE < 2 ^ 64) (Htss : 0 ≤ tss_addr)
  (Htss' : tss_addr + TSS_SIZE < 2 ^ 64) (Hdf : 0 ≤ df) (Hdf' : df + DOUBLE_FAULT_STACK_SIZE < 2 ^ 64)
  (Hdf16 : df mod 16 = 0) (Hidt : 0 ≤ idt_addr) (Hidt' : idt_addr + IDT_SIZE < 2 ^ 64)
  (Hisr : ∀ v, in_u 64 (unbound_isr v)) (Hirq : in_u 64 unbound_irq0).

(** What the processor finds after the initialisation. *)
Record descriptors_ok (t : Descriptors.machine) : Prop := {
  do_segments : segments_ok t;
  do_tss : ∃ low high, descriptor t TSS_SELECTOR = Some low ∧ descriptor t (TSS_SELECTOR + 8) = Some high ∧
    seg_base low high = tss_addr ∧ seg_limit low = TSS_SIZE - 1 ∧ seg_type low = 11;
  do_ist1 : tss_ist1 (tss t) = df + DOUBLE_FAULT_STACK_SIZE;
  do_gates v : 0 ≤ v ≤ 32 → ∃ g, idt t !! Z.to_nat v = Some g ∧
    gate_offset g = (if v =? 32 then unbound_irq0 else unbound_isr v) ∧ ist g = (if v =? 8 then 1 else 0) ∧
    gate_present g = true ∧ gate_type g = 14 ∧ selector g = KERNEL_CODE_SELECTOR;
}.

Lemma print_gdt_wp (S : state → Prop) c : length (gdt (tables c)) = 7%nat → wp print_gdt S (λ _ c', c' = c) c.
Proof.
  intros Hl. destruct (gdt_list _ Hl) as (a0 & a1 & a2 & a3 & a4 & a5 & a6 & Hg). destruct c as [[l ts id gr ir tr0 sr]].
  cbn [tables gdt] in Hg. subst. unfold print_gdt. cbn [for_each]. boot_steps.
  do 7 (eapply wp_on; [reflexivity|]; boot_steps). done.
Qed.
Lemma vec_set_length {A} i (x : A) l u l' : vec_set i x l = Done (u, l') → length l' = length l.
Proof. unfold vec_set. case_match; intros [=]; subst; by rewrite ?length_insert. Qed.
Lemma set_entries_length l l' : gdt_set_entries l = Done ((), l') → length l' = length l.
Proof.
  unfold gdt_set_entries. intros E. do 6 run_inv E.
  repeat match goal with H : vec_set _ _ _ = Done _ |- _ => apply vec_set_length in H end. congruence.
Qed.
Lemma install_tss_length l l' : install_tss tss_addr l = Done ((), l') → length l' = length l.
Proof.
  unfold install_tss. intros E. run_inv E. injection E0 as _ <-. run_inv E.
  apply vec_set_length in E, E0. congruence.
Qed.
Lemma zoom_gdt_length (m : M (list Z) unit) t t' : (∀ l l', m l = Done ((), l') → length l' = length l) →
  zoom gdt set_gdt m t = Done ((), t') → length (gdt t') = length (gdt t).
Proof.
  intros Hm. unfold zoom. destruct (m (gdt t)) as [[[] l']|] eqn:E; intros [=]; subst. cbn. by apply Hm.
Qed.
Lemma tss_init_gdt t t' : tss_init df t = Done ((), t') → gdt t' = gdt t.
Proof. unfold tss_init, zoom. destruct (TaskStateSegment_init df (tss t)) as [[[] ?]|]; intros [=]; by subst. Qed.
(** Printing does not get in the way of what [init] does. *)
Lemma gdt_init_reported_wp (S : state → Prop) c t : length (gdt (tables c)) = 7%nat →
  gdt_init gdt_addr tss_addr df (tables c) = Done ((), t) →
  wp (gdt_init_reported gdt_addr tss_addr df) S (λ _ c', c' = set_tables t c) c.
Proof.
  intros Hl E. unfold gdt_init in E. rewrite (bind_run _ _ _ (gdt_addr + GDT_SIZE) (tables c)) in E
    by (unfold lift; by rewrite add_u_Done).
  apply bind_inv in E as ([] & t1 & E1 & E). pose proof (zoom_gdt_length _ _ _ set_entries_length E1) as L1.
  apply bind_inv in E as ([] & t2 & E2 & E).
  rewrite (bind_run _ _ _ (tss_addr + TSS_SIZE) t2) in E by (unfold lift; by rewrite add_u_Done).
  apply bind_inv in E as ([] & t3 & E3 & E). pose proof (zoom_gdt_length _ _ _ install_tss_length E3) as L3.
  rewrite (bind_run _ _ _ (GDT_SIZE - 1) t3) in E by done.
  apply bind_inv in E as ([] & t4 & E4 & E). apply bind_inv in E as ([] & t5 & E5 & E).
  unfold gdt_init_reported, gdt_build_reported, gdt_load_reported. boot_steps. eapply wp_pure; [by apply add_u_Done|]. boot_steps.
  eapply wp_on; [exact E1|]. boot_steps. eapply wp_mono; [apply (print_gdt_wp S); cbn; congruence| |done]. intros [] ? ->.
  boot_steps. eapply wp_on; [exact E2|]. boot_steps. eapply wp_pure; [by apply add_u_Done|]. boot_steps.
  eapply wp_on; [exact E3|]. boot_steps.
  eapply wp_mono; [apply (print_gdt_wp S); cbn; rewrite L3, (tss_init_gdt _ _ E2); congruence| |done]. intros [] ? ->.
  boot_steps. eapply wp_pure; [reflexivity|]. boot_steps.
  eapply wp_on; [exact E4|]. boot_steps. eapply wp_on; [exact E5|]. boot_steps. eapply wp_on; [exact E|]. by boot_steps.
Qed.

Lemma start_gdt_wp (S : state → Prop) c : length (gdt (tables c)) = 7%nat →
  wp (start_gdt gdt_addr tss_addr df) S (λ _ c', ∃ t, c' = set_tables t c ∧ segments_ok t ∧
    (∃ low high, descriptor t TSS_SELECTOR = Some low ∧ descriptor t (TSS_SELECTOR + 8) = Some high ∧
       seg_base low high = tss_addr ∧ seg_limit low = TSS_SIZE - 1 ∧ seg_type low = 11) ∧
    tss_ist1 (tss t) = df + DOUBLE_FAULT_STACK_SIZE ∧ verify_task_register t = true ∧
    idt t = idt (tables c)) c.
Proof.
  intros Hl. destruct (gdt_init_spec gdt_addr tss_addr df (tables c) Hgdt Hgdt' Htss Htss' Hdf Hdf' Hl)
    as (t & E & _ & Hvt & Hvu & Hseg & Hts & _ & Hist & _ & Hidt0).
  unfold start_gdt. boot_steps. eapply wp_mono; [by apply (gdt_init_reported_wp S)| |done].
  intros [] ? ->. boot_steps. eapply wp_on; [exact Hvu|].
  cbv beta. apply wp_verdict; [done|]. by exists t.
Qed.

Lemma start_tss_wp (S : state → Prop) c : verify_task_register (tables c) = true →
  tss_ist1 (tss (tables c)) = df + DOUBLE_FAULT_STACK_SIZE → wp start_tss S (λ _ c', c' = c) c.
Proof.
  intros Hv Hi. unfold start_tss. boot_steps. apply wp_verdict; [done|]. boot_steps.
  unfold ist1_top. rewrite Hi. assert ((df + DOUBLE_FAULT_STACK_SIZE =? 0) = false) as ->
    by (apply Z.eqb_neq; unfold DOUBLE_FAULT_STACK_SIZE; lia).
  assert (Z.land (df + DOUBLE_FAULT_STACK_SIZE) 0x0F = 0) as ->.
  { change 0x0F with (Z.ones 4). rewrite Z.land_ones by lia. unfold DOUBLE_FAULT_STACK_SIZE.
    change (4096 * 4) with (1024 * 16). change (2 ^ 4) with 16. by rewrite Z.mod_add. }
  apply wp_verdict; [done|]. boot_steps. apply wp_verdict; [done|]. by boot_steps.
Qed.

Lemma start_idt_wp (S : state → Prop) c : length (idt (tables c)) = IDT_ENTRIES →
  wp (start_idt idt_addr unbound_isr unbound_irq0) S (λ _ c', ∃ t, c' = set_tables t c ∧
    gdt t = gdt (tables c) ∧ tss t = tss (tables c) ∧ (idtr t).2 = idt_addr ∧
    ∀ v, 0 ≤ v ≤ 32 → ∃ g, idt t !! Z.to_nat v = Some g ∧
      gate_offset g = (if v =? 32 then unbound_irq0 else unbound_isr v) ∧ ist g = (if v =? 8 then 1 else 0) ∧
      gate_present g = true ∧ gate_type g = 14 ∧ selector g = KERNEL_CODE_SELECTOR) c.
Proof.
  intros Hl. destruct (idt_init_spec idt_addr unbound_isr unbound_irq0 (tables c) Hisr Hirq Hl)
    as (t & E & Hv & Hg & Ht & Hgates & _).
  unfold start_idt. boot_steps. eapply wp_on; [exact E|]. boot_steps. apply wp_verdict; [exact Hv|].
  exists t. split; [done|]. split; [done|]. split; [done|]. split; [|done].
  unfold idt_verify in Hv. apply andb_true_iff in Hv as [Hv _]. by apply Z.eqb_eq.
Qed.

Lemma start_idt_debug_wp (S : state → Prop) c : (idtr (tables c)).2 = idt_addr →
  wp start_idt_debug S (λ _ c', c' = c) c.
Proof.
  intros Hb. unfold start_idt_debug. boot_steps. eapply wp_pure.
  { unfold idt_current_base, read_idtr; rewrite Hb. apply add_u_Done. unfold IDT_SIZE, IDT_ENTRIES in Hidt'. lia. }
  boot_steps. apply (wp_for_each (λ _ c', c' = c)); [done| |by intros ? ->; boot_steps].
  intros b r ? ->. by boot_steps.
Qed.

Lemma start_descriptors_run m boot_info info c : length (gdt (tables c)) = 7%nat → length (idt (tables c)) = IDT_ENTRIES →
  validate_boot_info m boot_info = Ok info →
  wp (start_descriptors gdt_addr tss_addr idt_addr df unbound_isr unbound_irq0 m boot_info) (λ _, False)
    (λ r c', r = info ∧ ∃ t, c' = set_tables t c ∧ descriptors_ok t) c.
Proof using All.
  intros Hlg Hli Hv. assert ((boot_info =? 0) = false) as Hnz.
  { unfold validate_boot_info in Hv. by destruct (boot_info =? 0). }
  unfold start_descriptors, start_boot_info. rewrite Hnz, Hv. boot_steps.
  eapply wp_mono; [apply (start_gdt_wp (λ _, False)), Hlg| |done].
  intros [] ? (t & -> & Hseg & Hts & Hist & Htr & Hidt0). boot_steps.
  eapply wp_mono; [by apply (start_tss_wp (λ _, False))| |done]. intros [] ? ->. boot_steps.
  eapply wp_mono; [apply (start_idt_wp (λ _, False)); cbn [tables set_tables]; by rewrite Hidt0| |done].
  intros [] ? (t' & -> & Hg & Ht & Hidtr & Hgates). boot_steps.
  eapply wp_mono; [by apply (start_idt_debug_wp (λ _, False))| |done]. intros [] ? ->. boot_steps.
  split; [done|]. exists t'. split; [done|]. cbn [tables set_tables] in Hg, Ht.
  split; unfold segments_ok, descriptor in *; rewrite ?Hg, ?Ht; done.
Qed.

(** C26: The first part of [_start].  With valid boot information and a double-fault
    stack aligned to sixteen bytes it never halts: every check it makes on the
    tables passes, and it ends with the segments, the task state segment, the
    interrupt stack and the gates of all exceptions and of the timer as the
    processor needs them.  With invalid boot information it prints the reason and
    halts before it has touched anything. *)
Theorem start_descriptors_spec m boot_info c :
  length (gdt (tables c)) = 7%nat → length (idt (tables c)) = IDT_ENTRIES →
  match validate_boot_info m boot_info with
  | Ok info =>
      wp (start_descriptors gdt_addr tss_addr idt_addr df unbound_isr unbound_irq0 m boot_info) (λ _, False)
        (λ r c', r = info ∧ ∃ t, c' = set_tables t c ∧ descriptors_ok t) c
  | Err message => ∀ o, ∃ o',
      start_descriptors gdt_addr tss_addr idt_addr df unbound_isr unbound_irq0 m boot_info (mkWorld o c)
      = Done (Stop, mkWorld (o' ++ [Text message; Newline]) c)
  end.
Proof using All.
  intros Hlg Hli. destruct (validate_boot_info m boot_info) as [info|e] eqn:Hv; [by apply start_descriptors_run|].
  intros o. unfold start_descriptors, start_boot_info. rewrite Hv.
  unfold validate_boot_info in Hv. destruct (boot_info =? 0).
  - injection Hv as <-. exists (o ++ [Text "KERNEL ENTRY"; Newline]). reflexivity.
  - eexists ((_ ++ _) ++ _). reflexivity.
Qed.
End descriptors.

(** ** Memory *)

(** An allocator in order with [k] free frames below [B] and the frames of [K] reserved. *)
Definition frees (B : Z) (K : Z → Prop) (k : nat) (v : PageTable.machine FrameAllocator) : Prop :=
  fa_ok (fa v) ∧ room B K k (fa v).
(** The address space at [root], its tables below [B] and outside [K], is in order, and
    the processor sees the frames and the rights (user, writable) that [T] gives. *)
Definition maps (B : Z) (K : Z → Prop) (root : Z) (v : PageTable.machine FrameAllocator)
    (T : Z → option (Z * bool * bool)) : Prop :=
  space_ok root v ∧ low_tables B K root v ∧ ∀ x, in_u 64 x → page_access root v x = T x.
(** [T] with the [n] bytes from [va] mapped to those from [pa]. *)
Definition overlay (T : Z → option (Z * bool * bool)) (va n pa : Z) (u w : bool) : Z → option (Z * bool * bool) := λ x,
  if decide (va ≤ x < va + n) then Some (pa + (x - va), u, w) else T x.

Lemma overlay_in T va n pa u w x : va ≤ x < va + n → overlay T va n pa u w x = Some (pa + (x - va), u, w).
Proof. intros H. unfold overlay. by rewrite decide_True. Qed.
Lemma overlay_out T va n pa u w x : ¬ (va ≤ x < va + n) → overlay T va n pa u w x = T x.
Proof. intros H. unfold overlay. by rewrite decide_False. Qed.
Lemma maps_ext B K root v T T' : maps B K root v T → (∀ x, in_u 64 x → T x = T' x) → maps B K root v T'.
Proof. intros (Hok & Hlt & HT) H. split; [done|]. split; [done|]. intros x Hx. by rewrite HT, H. Qed.
Lemma maps_vm B K root v T : maps B K root v T → vm_ok root v.
Proof. intros (Hs & _). apply Hs. Qed.
Lemma maps_translation B K root v T x : maps B K root v T → in_u 64 x →
  translation root v x = (λ r : Z * bool * bool, r.1.1) <$> T x.
Proof. intros (_ & _ & HT) Hx. by rewrite <- page_access_translation, HT. Qed.
(** The tables missing beside a page that is mapped. *)
Lemma missing_mapped B K root v T x y va (j : nat) : maps B K root v T → in_u 64 x → T x = Some y → (j ≤ 3)%nat →
  take j (path4 va) = take j (path4 x) → (missing root v va ≤ 3 - j)%nat.
Proof.
  intros HM Hx HTx Hj. apply missing_beside; [|done]. intros Hn.
  pose proof (maps_translation _ _ _ _ _ x HM Hx) as Ht. rewrite HTx in Ht. unfold translation in Ht. rewrite Hn in Ht.
  by destruct (is_canonical x).
Qed.

Lemma page_range v x : v mod 4096 = 0 → x / 4096 = v / 4096 ↔ v ≤ x < v + 4096.
Proof.
  intros Hv. pose proof (Z.div_mod v 4096 ltac:(lia)). pose proof (Z.div_mod x 4096 ltac:(lia)).
  pose proof (Z.mod_pos_bound x 4096 ltac:(lia)). split; [lia|]. intros Hx.
  assert (x / 4096 < v / 4096 + 1) by (apply Z.div_lt_upper_bound; lia).
  assert (v / 4096 ≤ x / 4096) by (apply Z.div_le_mono; lia). lia.
Qed.

Section calls.
Context (B : Z) (K : Z → Prop) (S : state → Prop) (R : Z → bool) (HR : covers R B).

Lemma wp_allocate k (Q : option Z → state → Prop) c : frees B K (1 + k) (vm c) →
  (∀ f v, 0 ≤ f → frees B K k v → Q (Some f) (set_vm v c)) → wp (allocator allocate_frame) S Q c.
Proof.
  intros [Hok Hr] HQ. destruct (room_alloc B K k _ Hok Hr) as (f & a & E & Hok' & Hr' & _ & Hf & _).
  eapply (wp_on _ _ _ (Some f) (PageTable.mkMachine a (mem (vm c)))); [unfold on_fa, zoom; by rewrite E|].
  by apply HQ; [lia|].
Qed.
Lemma wp_free k f (Q : unit → state → Prop) c : 0 ≤ f → frees B K k (vm c) →
  (∀ v, frees B K k v → Q () (set_vm v c)) → wp (allocator (free_frame f)) S Q c.
Proof.
  intros Hf [Hok Hr] HQ. destruct (room_free B K k _ f Hok Hf Hr) as (a & E & Hok' & Hr').
  eapply (wp_on _ _ _ () (PageTable.mkMachine a (mem (vm c)))); [unfold on_fa, zoom; by rewrite E|]. by apply HQ.
Qed.
(** [map] of an unmapped page. *)
Lemma wp_map root va pa w u k T (Q : result unit → state → Prop) c :
  maps B K root (vm c) T → room B K (missing root (vm c) va + k) (fa (vm c)) → map_args_ok va pa → in_u 64 va →
  T va = None → (∀ v, maps B K root v (overlay T va 4096 pa u w) → room B K k (fa v) → Q (Ok ()) (set_vm v c)) →
  wp (on_memory (page_table_map (W:=R) root va pa w u)) S Q c.
Proof using HR.
  intros HM Hr Hargs Hva Hn HQ. pose proof HM as (Hs & Hlt & HT).
  destruct (map_with_room B K R HR root (vm c) va pa w u k (so_vm _ _ Hs) Hlt Hr Hargs Hva) as (v & E & ER & _ & Hlt' & Hr' & _);
    [by rewrite (maps_translation _ _ _ _ _ _ HM), Hn by done|].
  destruct (map_access root (vm c) va pa w u _ _ Hs Hargs Hva E) as [Hs' HT'].
  eapply wp_on; [exact ER|]. apply HQ; [|done]. split; [done|]. split; [done|]. intros x Hx. rewrite HT', HT by done.
  destruct Hargs as (_ & Hm & _). unfold PAGE_SIZE in Hm. unfold overlay.
  destruct (decide (x / 4096 = va / 4096)) as [Hd|Hd]; rewrite page_range in Hd by done.
  - rewrite decide_True by done. do 3 f_equal. pose proof (Z.div_mod va 4096 ltac:(lia)).
    pose proof (Z.div_mod x 4096 ltac:(lia)). apply (page_range va x Hm) in Hd. lia.
  - by rewrite decide_False.
Qed.
Lemma wp_translate root va T (Q : option Z → state → Prop) c : maps B K root (vm c) T → in_u 64 va →
  (Q ((λ r : Z * bool * bool, r.1.1) <$> T va) c) → wp (on_memory (page_table_translate (W:=R) root va)) S Q c.
Proof using HR.
  intros HM Hva HQ. eapply (wp_on _ _ _ (translation root (vm c) va) (vm c)).
  - rewrite (translate_in B K R HR) by (by eapply maps_vm || apply HM). apply translates_iff; [by eapply maps_vm|done].
  - rewrite (maps_translation _ _ _ _ _ _ HM Hva). by destruct c.
Qed.
End calls.

Lemma wp_ok {A} (a : A) label S (Q : A → state → Prop) c : Q a c → wp (ok_or_halt (Ok a) label) S Q c.
Proof. apply wp_ret. Qed.

Section memory_steps.
Context (B : Z) (K : Z → Prop) (S : state → Prop) (R : Z → bool) (HR : covers R B).

Lemma start_memory_map_wp m info c : wp (start_memory_map m info) S (λ r c', r = memory_map m info ∧ c' = c) c.
Proof.
  unfold start_memory_map. boot_steps. apply (wp_for_each (λ _ c', c' = c)); [done| |by intros ? ->; boot_steps].
  intros [i e] r ? ->. by boot_steps.
Qed.

Lemma start_frames_wp entries info K' b n c : Forall entry_ok entries → 0 ≤ kernel_phys_start info →
  0 ≤ kernel_phys_end info ≤ 2 ^ 64 - FRAME_SIZE →
  free_region entries (kernel_phys_start info) (kernel_phys_end info) b n →
  (∀ f, 0 ≤ f < MAX_FRAMES → K' (f * FRAME_SIZE) →
     boot_used entries (kernel_phys_start info) (kernel_phys_end info) f = true) →
  wp (start_frames entries info) S (λ _ c', ∃ v, c' = set_vm v c ∧
    frees ((b + Z.of_nat n) * FRAME_SIZE) K' n v) c.
Proof.
  intros He Hs Hend Hreg HK'. unfold start_frames. boot_steps. eapply wp_on; [reflexivity|]. boot_steps.
  destruct (initialize_room entries _ _ K' b n FrameAllocator_empty He Hs Hend Hreg HK') as (a & E & Hok & Hr).
  eapply (wp_on _ _ _ () (PageTable.mkMachine a (mem (vm c)))); [unfold on_fa, zoom; cbn [fa vm set_vm]; by rewrite E|].
  boot_steps. by exists (PageTable.mkMachine a (mem (vm c))).
Qed.

Lemma start_frame_test_wp k c : frees B K (3 + k) (vm c) →
  wp start_frame_test S (λ _ c', ∃ v, c' = set_vm v c ∧ frees B K k v) c.
Proof.
  intros H0. unfold start_frame_test. boot_steps. apply (wp_allocate B K S (2 + k)); [done|]. intros f1 v1 Hf1 H1.
  boot_steps. apply (wp_allocate B K S (1 + k)); [done|]. intros f2 v2 _ H2.
  boot_steps. apply (wp_allocate B K S k); [done|]. intros f3 v3 _ H3. boot_steps.
  apply (wp_free B K S k); [done|done|]. intros v4 H4. boot_steps. apply (wp_free B K S k); [lia|done|]. intros v5 H5.
  boot_steps. by exists v5.
Qed.

(** A root table in a new frame maps nothing. *)
Lemma new_table_maps k v : frees B K (1 + k) v → ∃ root s1,
  on_fa allocate_frame v = Done (Some root, s1) ∧
  zero_table (W:=R) root s1 = Done ((), PageTable.mkMachine (fa s1) (PageTable_zero root (mem s1))) ∧
  AddressSpace_new (W:=R) v = Done (Ok (mkAddressSpace root), PageTable.mkMachine (fa s1) (PageTable_zero root (mem s1))) ∧
  let v' := PageTable.mkMachine (fa s1) (PageTable_zero root (mem s1)) in
  maps B K root v' (λ _, None) ∧ room B K k (fa v').
Proof using HR.
  intros [Hok Hr]. destruct (new_table_with_room B K R HR v k Hok Hr) as (root & s1 & Ea & Ez & En & HRr & ER & _ & Hlt & Hr' & _).
  destruct (new_space v _ _ Hok En) as [Hs Hx]. exists root, s1. split; [done|].
  split; [by rewrite zero_table_in|]. split; [by rewrite ER|].
  split; [|done]. split; [done|]. split; [done|]. intros x _. apply Hx.
Qed.

Lemma start_vm_test_wp k c : frees B K (4 + k) (vm c) →
  wp (start_vm_test (W:=R)) S (λ _ c', ∃ v, c' = set_vm v c ∧ frees B K k v) c.
Proof.
  intros Hfr. unfold start_vm_test. boot_steps.
  destruct (new_table_maps (3 + k) (vm c) Hfr) as (root & s1 & Ea & Ez & _ & HM & Hr').
  eapply wp_on; [exact Ea|]. boot_steps. eapply wp_on; [exact Ez|]. boot_steps.
  eapply (wp_map B K S R HR root 0x400000 0x100000 true false k (λ _, None));
    [exact HM|eapply room_mono; [exact Hr'|apply Nat.add_le_mono_r, missing_most]|exact sample_args|split; [lia|done]|done|].
  intros v Hv Hrv. boot_steps. cbv beta iota zeta delta [indexes]. boot_steps.
  pose proof Hv as (Hs & Hlt & _). pose proof (so_vm _ _ Hs) as Hvm.
  assert (leaf v root (path4 0x400000) = Some 0x100000) as Hleaf.
  { pose proof (maps_translation _ _ _ _ _ 0x400000 Hv) as Ht. rewrite overlay_in in Ht by lia.
    rewrite translation_page in Ht by done. rewrite Ht; [done|]. split; [lia|done]. }
  destruct (path_in B K R HR root v _ _ _ _ _ Hvm Hlt (path4_ok 0x400000) Hleaf) as (R0 & R1 & R2 & R3).
  do 4 (eapply wp_on; [rewrite read_entry_in by done; apply read_entry_run; vm_compute; split; congruence|]; boot_steps).
  exists v. split; [done|]. split; [apply Hvm|done].
Qed.

(** The first 2 MiB are the kernel's, and translate to themselves. *)
Definition identity_2M : Z → option (Z * bool * bool) := λ x,
  if decide (0 ≤ x < 0x200000) then Some (x, false, true) else None.

Lemma start_address_space_wp k c : frees B K (1 + (3 + k)) (vm c) →
  wp (start_address_space (W:=R)) S (λ r c', ∃ root v, r = mkAddressSpace root ∧ c' = set_vm v c ∧
    maps B K root v identity_2M ∧ room B K k (fa v)) c.
Proof.
  intros Hfr. unfold start_address_space. boot_steps.
  destruct (new_table_maps (3 + k) (vm c) Hfr) as (root & s1 & _ & _ & En & (Hs & Hlt & HT0) & Hr').
  eapply wp_on; [exact En|]. boot_steps. apply wp_ok. boot_steps.
  destruct (identity_map_with_room B K R HR root _ 512 true k (so_vm _ _ Hs) Hlt Hr') as (v & E & ER & _ & Hltv & Hrv & _); [lia|lia| |].
  { intros x Hx. by rewrite <- page_access_translation, HT0. }
  eapply wp_on; [exact ER|]. boot_steps. apply wp_ok. boot_steps.
  exists root, v. split; [done|]. split; [done|]. split; [|done].
  destruct (identity_map_access root 0 (4096 * Z.of_nat 512) true _ _ Hs ltac:(lia) ltac:(lia) E) as [Hs' HT'].
  split; [done|]. split; [done|]. intros x Hx. by rewrite HT', HT0.
Qed.

(** A new table for a page in the first GiB. *)
Lemma one_table root T va k v : maps B K root v T → T 0 = Some (0, false, true) → room B K (1 + k) (fa v) →
  take 2 (path4 va) = take 2 (path4 0) → room B K (missing root v va + k) (fa v).
Proof.
  intros HM HT Hr Ht. assert (missing root v va ≤ 3 - 2)%nat; [|eapply room_mono; [exact Hr|lia]].
  eapply (missing_mapped B K root v T 0); [done|split; lia|done|lia|done].
Qed.

Lemma start_map_test_wp root k T c : maps B K root (vm c) T → T 0 = Some (0, false, true) → room B K (1 + k) (fa (vm c)) →
  T 0x400000 = None → (∀ x, 0x400000 ≤ x < 0x401000 → T x = None) →
  wp (start_map_test (W:=R) root) S (λ _ c', ∃ v, c' = set_vm v c ∧ maps B K root v T ∧ room B K k (fa v)) c.
Proof.
  intros HM HT0 Hr Hn Hpage. unfold start_map_test. boot_steps.
  eapply (wp_map B K S R HR root 0x400000 0x100000 true false k T); [done|by eapply one_table|exact sample_args|split; [lia|done]|done|].
  intros v1 HM1 Hr1. boot_steps. apply wp_ok. boot_steps.
  eapply (wp_translate B K S R HR root 0x400000); [exact HM1|split; [lia|done]|].
  rewrite overlay_in by lia. cbn [fmap option_fmap option_map fst].
  change (0x100000 + (0x400000 - 0x400000) =? 0x100000) with true. boot_steps.
  pose proof HM1 as (Hs1 & Hlt1 & HT1). assert (in_u 64 0x400000) as Hin by (split; [lia|done]).
  destruct (unmap_mapped B K R HR root v1 0x400000 0x100000 (so_vm _ _ Hs1) Hlt1) as (v2 & E & ER & _ & Hlt2 & Hfa & _);
    [done|done|done|rewrite (maps_translation _ _ _ _ _ _ HM1), overlay_in by (done || lia); done|].
  destruct (unmap_access root v1 0x400000 _ _ Hs1 Hin E) as (Hs2 & _ & HT2).
  eapply wp_on; [exact ER|]. boot_steps. change (0x100000 =? 0x100000) with true. boot_steps.
  assert (maps B K root v2 T) as HM2.
  { split; [done|]. split; [done|]. intros x Hx. rewrite HT2, HT1 by done.
    destruct (decide (x / 4096 = _)) as [Hd|Hd]; rewrite page_range in Hd by done.
    - symmetry. apply Hpage. lia.
    - by rewrite overlay_out by lia. }
  eapply (wp_translate B K S R HR root 0x400000 T); [exact HM2|split; [lia|done]|]. rewrite Hn.
  cbn [fmap option_fmap option_map]. boot_steps.
  exists v2. split; [done|]. split; [done|]. by rewrite Hfa.
Qed.

Lemma check_translation_wp root va expected name T (Q : unit → state → Prop) c : maps B K root (vm c) T → in_u 64 va →
  (λ r : Z * bool * bool, r.1.1) <$> T va = Some expected → Q () c → wp (check_translation (W:=R) root va expected name) S Q c.
Proof.
  intros HM Hva HT HQ. unfold check_translation. boot_steps. eapply (wp_translate B K S R HR root va T); [done|done|].
  rewrite HT. boot_steps. rewrite Z.eqb_refl. by boot_steps.
Qed.

(** The page of the test entry. *)
Definition entry_page (user_test_entry : Z) : Z := user_test_entry - user_test_entry mod 4096.

Lemma page_mask x : in_u 64 x → Z.land x (not_u 64 (PAGE_SIZE - 1)) = entry_page x.
Proof.
  intros Hx. assert (Z.land x (not_u 64 (PAGE_SIZE - 1)) = Z.shiftl (Z.shiftr x 12) 12) as ->.
  { apply Z.bits_inj'. intros i Hi. unfold PAGE_SIZE, not_u. change (4096 - 1) with (Z.ones 12).
    rewrite !Z.land_spec, Z.lnot_spec, Z.shiftl_spec by lia.
    destruct (Z.ltb_spec i 12).
    - rewrite (Z.ones_spec_low 12) by lia. rewrite (Z.testbit_neg_r _ (i - 12)) by lia. by rewrite andb_false_r.
    - rewrite (Z.ones_spec_high 12), Z.shiftr_spec by lia. replace (i - 12 + 12) with i by lia.
      destruct (Z.ltb_spec i 64).
      + by rewrite (Z.ones_spec_low 64), andb_true_r by lia.
      + rewrite (testbit_above 64 x i) by (done || lia). done. }
  rewrite Z.shiftl_mul_pow2, Z.shiftr_div_pow2 by lia. unfold entry_page.
  pose proof (Z.div_mod x 4096 ltac:(lia)). change (2 ^ 12) with 4096. lia.
Qed.

Lemma canonical_low va : 0 ≤ va < 2 ^ 47 → is_canonical va = true.
Proof. intros H. apply canonical_arith; [split; lia|lia]. Qed.
Lemma low_args va pa : 0 ≤ va < 2 ^ 47 → va mod 4096 = 0 → 0 ≤ pa < 2 ^ 52 → pa mod 4096 = 0 → map_args_ok va pa.
Proof.
  intros Hv Hm Hp Hpm. split; [by apply canonical_low|]. split; [done|]. split; [done|].
  change ADDRESS_MASK with (2 ^ 52 - 4096). pose proof (Z.div_mod pa 4096 ltac:(lia)).
  assert (pa / 4096 < 2 ^ 40) by (apply Z.div_lt_upper_bound; lia). lia.
Qed.

Lemma start_user_code_wp user_test_entry root k T c : 0 ≤ user_test_entry < 2 ^ 52 →
  maps B K root (vm c) T → T 0 = Some (0, false, true) → room B K (1 + k) (fa (vm c)) → T USER_CODE_VADDR = None →
  wp (start_user_code (W:=R) user_test_entry root) S (λ _ c', ∃ v, c' = set_vm v c ∧
    maps B K root v (overlay T USER_CODE_VADDR 4096 (entry_page user_test_entry) true true) ∧ room B K k (fa v)) c.
Proof.
  intros Hu HM HT0 Hr Hn. unfold start_user_code. rewrite page_mask by (unfold in_u; lia). boot_steps.
  assert (0 ≤ entry_page user_test_entry < 2 ^ 52 ∧ entry_page user_test_entry mod 4096 = 0) as [Hp1 Hp2].
  { unfold entry_page. pose proof (Z.div_mod user_test_entry 4096 ltac:(lia)).
    pose proof (Z.mod_pos_bound user_test_entry 4096 ltac:(lia)). split; [lia|].
    replace (user_test_entry - _) with (user_test_entry / 4096 * 4096) by lia. by apply Z.mod_mul. }
  eapply (wp_map B K S R HR root USER_CODE_VADDR _ true true k T);
    [done|by eapply one_table|apply low_args; done || (unfold USER_CODE_VADDR; lia)|split; [done|done]|done|].
  intros v HM' Hr'. boot_steps. apply wp_ok. boot_steps.
  eapply check_translation_wp; [exact HM'|split; done| |by exists v].
  rewrite overlay_in by lia. cbn. f_equal. lia.
Qed.

Lemma map_user_stack_page_wp user_stack page root k T c : 0 ≤ page < 4 → 0 ≤ user_stack →
  user_stack + USER_STACK_SIZE ≤ 2 ^ 52 → user_stack mod 4096 = 0 →
  maps B K root (vm c) T → room B K (missing root (vm c) (USER_STACK_VADDR + page * 4096) + k) (fa (vm c)) →
  T (USER_STACK_VADDR + page * 4096) = None →
  wp (map_user_stack_page (W:=R) root user_stack page) S (λ _ c', ∃ v, c' = set_vm v c ∧
    maps B K root v (overlay T (USER_STACK_VADDR + page * 4096) 4096 (user_stack + page * 4096) true true) ∧ room B K k (fa v)) c.
Proof.
  intros Hp Hs Hs' Hm HM Hr Hn. unfold map_user_stack_page, USER_STACK_SIZE, USER_STACK_VADDR, PAGE_SIZE in *. boot_steps.
  eapply wp_pure; [apply add_u_Done; lia|]. boot_steps.
  eapply (wp_map B K S R HR root _ _ true true k T); [done|done|apply low_args|split; lia|done|].
  - lia.
  - change 0x800000 with (2048 * 4096). by rewrite <- Z.mul_add_distr_r, Z.mod_mul by lia.
  - lia.
  - by rewrite Z.mod_add by lia.
  - intros v HM' Hr'. boot_steps. apply wp_ok. by exists v.
Qed.

(** The four pages together. *)
Lemma stack_overlay T user_stack x :
  overlay (overlay (overlay (overlay T (USER_STACK_VADDR + 0 * 4096) 4096 (user_stack + 0 * 4096) true true)
    (USER_STACK_VADDR + 1 * 4096) 4096 (user_stack + 1 * 4096) true true)
    (USER_STACK_VADDR + 2 * 4096) 4096 (user_stack + 2 * 4096) true true)
    (USER_STACK_VADDR + 3 * 4096) 4096 (user_stack + 3 * 4096) true true x
  = overlay T USER_STACK_VADDR USER_STACK_SIZE user_stack true true x.
Proof.
  unfold overlay, USER_STACK_SIZE, USER_STACK_VADDR. repeat case_decide; try done; try lia; do 3 f_equal; lia.
Qed.

Lemma start_user_stack_wp user_stack root k T c : 0 ≤ user_stack →
  user_stack + USER_STACK_SIZE ≤ 2 ^ 52 → user_stack mod 4096 = 0 →
  maps B K root (vm c) T → T 0 = Some (0, false, true) → room B K (1 + k) (fa (vm c)) →
  (∀ x, USER_STACK_VADDR ≤ x < USER_STACK_VADDR + USER_STACK_SIZE → T x = None) →
  wp (start_user_stack (W:=R) user_stack root) S (λ _ c', ∃ v, c' = set_vm v c ∧
    maps B K root v (overlay T USER_STACK_VADDR USER_STACK_SIZE user_stack true true) ∧ room B K k (fa v)) c.
Proof.
  intros Hs Hs' Hm HM HT0 Hr Hn. assert (USER_STACK_VADDR = 0x800000) as Hv by done. assert (USER_STACK_SIZE = 0x4000) as Hz by done.
  unfold start_user_stack. boot_steps.
  change (seqZ 0 (USER_STACK_SIZE / PAGE_SIZE)) with [0; 1; 2; 3]. cbn [for_each]. boot_steps.
  eapply wp_mono; [apply (map_user_stack_page_wp user_stack 0 root k T); [lia|done|done|done|done|by eapply one_table|apply Hn; lia]| |intros ? H; exact H].
  intros [] ? (v1 & -> & HM1 & Hr1). boot_steps.
  assert (∀ page v T', (page = 1 ∨ page = 2 ∨ page = 3) → maps B K root v T' → T' USER_STACK_VADDR = Some (user_stack, true, true) →
    room B K k (fa v) → room B K (missing root v (USER_STACK_VADDR + page * 4096) + k) (fa v)) as Hbeside.
  { intros page v T' Hp HM' HT' Hr'. assert (missing root v (USER_STACK_VADDR + page * 4096) ≤ 3 - 3)%nat;
      [|eapply room_mono; [exact Hr'|lia]].
    eapply (missing_mapped B K root v T' USER_STACK_VADDR); [done|split; lia|done|lia|].
    by destruct Hp as [-> | [-> | ->]]. }
  eapply wp_mono; [eapply (map_user_stack_page_wp user_stack 1 root k); [lia|done|done|done|exact HM1|eapply Hbeside; [lia|exact HM1| |done]|]| |intros ? H; exact H].
  { rewrite overlay_in by lia. do 3 f_equal. lia. }
  { rewrite overlay_out by lia. apply Hn. lia. }
  intros [] ? (v2 & -> & HM2 & Hr2). boot_steps.
  eapply wp_mono; [eapply (map_user_stack_page_wp user_stack 2 root k); [lia|done|done|done|exact HM2|eapply Hbeside; [lia|exact HM2| |done]|]| |intros ? H; exact H].
  { rewrite overlay_out, overlay_in by lia. do 3 f_equal. lia. }
  { rewrite !overlay_out by lia. apply Hn. lia. }
  intros [] ? (v3 & -> & HM3 & Hr3). boot_steps.
  eapply wp_mono; [eapply (map_user_stack_page_wp user_stack 3 root k); [lia|done|done|done|exact HM3|eapply Hbeside; [lia|exact HM3| |done]|]| |intros ? H; exact H].
  { rewrite !overlay_out, overlay_in by lia. do 3 f_equal. lia. }
  { rewrite !overlay_out by lia. apply Hn. lia. }
  intros [] ? (v4 & -> & HM4 & Hr4). boot_steps.
  assert (maps B K root v4 (overlay T USER_STACK_VADDR USER_STACK_SIZE user_stack true true)) as HM5.
  { eapply maps_ext; [exact HM4|]. intros x _. apply stack_overlay. }
  eapply check_translation_wp; [exact HM5|split; lia| |by exists v4].
  rewrite overlay_in by lia. cbn. f_equal. lia.
Qed.
End memory_steps.

Section rest.
Context (B : Z) (K : Z → Prop) (S : state → Prop) (R : Z → bool) (HR : covers R B).

(** The table state with the ring 0 stack set. *)
Definition with_rsp0 (top : Z) (t : Descriptors.machine) : Descriptors.machine :=
  set_tss (exec (TaskStateSegment_set_rsp0 top) (tss t)) t.

Lemma start_kernel_stack_wp syscall_stack c : 0 ≤ syscall_stack → syscall_stack + SYSCALL_STACK_SIZE < 2 ^ 64 →
  let top := syscall_stack + SYSCALL_STACK_SIZE in
  wp (start_kernel_stack syscall_stack) S
    (λ _ c', c' = set_tables (with_rsp0 top (tables c)) (set_stack_top top c)) c.
Proof.
  intros H0 H1 top. assert (top ≠ 0) as Hne by (unfold top, SYSCALL_STACK_SIZE; lia).
  unfold start_kernel_stack. boot_steps. eapply wp_pure; [by apply add_u_Done|]. fold top. boot_steps.
  cbn [unbound_syscall_stack_top set_stack_top]. rewrite (proj2 (Z.eqb_neq _ _) Hne). boot_steps.
  eapply wp_on; [reflexivity|]. boot_steps. unfold rsp0, TaskStateSegment_rsp0. cbn [tss_rsp0 tss set_tss tables set_tables set_stack_top].
  rewrite (proj2 (Z.eqb_neq _ _) Hne). cbn [negb]. by boot_steps.
Qed.

Lemma window_mapped_run root v : (∀ x, 0 ≤ x < 0x200000 → page_access root v x = Some (x, false, true)) →
  window_mapped root v = true.
Proof.
  intros Hx. unfold window_mapped. apply forallb_forall. intros i Hi%list_elem_of_In%elem_of_seqZ.
  by rewrite Hx, Z.eqb_refl by lia.
Qed.
Lemma start_cr3_wp address_space c :
  (∀ x, 0 ≤ x < 0x200000 → page_access (pml4_phys address_space) (vm c) x = Some (x, false, true)) →
  wp (start_cr3 address_space) S (λ _ c', c' = set_cr3 (pml4_phys address_space) c) c.
Proof.
  intros Hx. unfold start_cr3. boot_steps. eapply wp_on; [reflexivity|]. boot_steps.
  intros o. eexists (Go ()), o, _. unfold keep_window. cbn [core cr3 vm set_cr3].
  rewrite (window_mapped_run _ _ Hx). split; [reflexivity|]. by boot_steps.
Qed.

(** The heap: four distinct frames behind the four pages. *)
Definition heap_mapped (root : Z) (v : PageTable.machine FrameAllocator) : Prop :=
  ∃ fs : list Z, length fs = 4%nat ∧ NoDup fs ∧
    ∀ k f off, fs !! k = Some f → 0 ≤ off < 4096 →
      translates root v (HEAP_START + 4096 * Z.of_nat k + off) (Some (f + off)).

(** [initialize] maps four pages for the kernel, and changes nothing else. *)
Lemma start_heap_wp root T c : maps B K root (vm c) T → T 0 = Some (0, false, true) → room B K 6 (fa (vm c)) →
  (∀ x, HEAP_START ≤ x < HEAP_START + 0x4000 → T x = None) →
  wp (start_heap (W:=R) root) S (λ h c', h = mkKernelHeap HEAP_START HEAP_SIZE 4 true ∧
    ∃ v T', c' = set_vm v c ∧ maps B K root v T' ∧ heap_mapped root v ∧
      ∀ x, in_u 64 x → if decide (HEAP_START ≤ x < HEAP_START + 0x4000) then ∃ a, T' x = Some (a, false, true) else T' x = T x) c.
Proof.
  intros HM HT0 Hr Hn. assert (HEAP_START = 0x40000000) as Hst by done.
  assert (missing root (vm c) HEAP_START ≤ 3 - 1)%nat as Hmiss.
  { eapply (missing_mapped B K root (vm c) T 0); [done|split; lia|done|lia|done]. }
  pose proof HM as (Hs & Hlt & HT).
  destruct (heap_with_room B K R HR root (vm c) 4 (so_vm _ _ Hs) Hlt) as (v & fs & E & ER & Hok' & Hlt' & Hlen & Hnd & Hheap & _);
    [eapply room_mono; [exact Hr|lia]|lia|done| |].
  { intros k Hk. rewrite (maps_translation _ _ _ _ _ _ HM) by (split; lia). by rewrite Hn by lia. }
  destruct (heap_access root (vm c) 4 _ Hs ltac:(lia) ltac:(done) E) as [Hs' HT']. cbn [Heap.vm] in Hs', HT'.
  unfold start_heap. boot_steps. eapply wp_pure; [reflexivity|]. boot_steps.
  assert (∀ (Q : result unit * KernelHeap → state → Prop),
    Q (Ok (), mkKernelHeap HEAP_START HEAP_SIZE 4 true) (set_vm v c) →
    wp (heap_call KernelHeap_new (KernelHeap_initialize (W:=R) root 4)) S Q c) as Hcall.
  { intros Q HQ o. eexists (Go _), o, _. unfold heap_call. cbn [core out]. rewrite ER. split; [done|exact HQ]. }
  apply Hcall. boot_steps. apply wp_ok. boot_steps. cbn [KernelHeap_is_initialized initialized]. boot_steps.
  split; [done|]. exists v, (page_access root v). split; [done|]. split; [by split; [|split]|]. split.
  - exists fs. split; [lia|]. split; [done|]. intros k f off Hk Ho. apply translates_iff; [done|].
    symmetry. by apply Hheap.
  - intros x Hx. rewrite <- HT by done. by apply HT'.
Qed.

Lemma start_spinlock_wp c : wp start_spinlock S (λ _ c', c' = c) c.
Proof.
  unfold start_spinlock. boot_steps. apply wp_verdict; [done|]. boot_steps. eapply wp_pure; [reflexivity|].
  boot_steps. apply wp_verdict; [done|]. boot_steps. eapply wp_pure; [reflexivity|]. boot_steps.
  apply wp_verdict; [done|]. boot_steps. eapply wp_pure; [reflexivity|]. boot_steps. apply wp_verdict; [done|].
  boot_steps. eapply wp_pure; [reflexivity|]. by boot_steps.
Qed.
Lemma start_checkpoint_wp c : wp start_checkpoint S (λ _ c', c' = c) c.
Proof. unfold start_checkpoint. by boot_steps. Qed.
Lemma start_ring3_wp c :
  wp start_ring3 S (λ r c', r = (USER_CODE_VADDR, USER_STACK_VADDR + USER_STACK_SIZE) ∧ c' = c) c.
Proof. unfold start_ring3. by boot_steps. Qed.
End rest.

(** ** A smaller window

    The start-up in a window does what it does in an unlimited one, or faults. *)

Section smaller.
Context (R : Z → bool).

Lemma below_kbind {X Y} (m n : Kernel X) (f g : X → Kernel Y) :
  below m n → (∀ x, below (f x) (g x)) → below (m ≫= f) (n ≫= g).
Proof.
  intros Hm Hf s. unfold mbind, K_bind. destruct (Hm s) as [-> | ->]; [|by right].
  destruct (n s) as [[[x|] s']|e]; [apply Hf|by left|by left].
Qed.
Lemma below_on_memory {X} (m n : M (PageTable.machine FrameAllocator) X) : below m n → below (on_memory m) (on_memory n).
Proof. intros Hm s. unfold on_memory, on. destruct (Hm (vm (core s))) as [-> | ->]; [by left|by right]. Qed.
Lemma below_heap_call {X} h (m n : M (heap_state FrameAllocator) X) : below m n → below (heap_call h m) (heap_call h n).
Proof. intros Hm s. unfold heap_call. destruct (Hm (mkHeapState h (vm (core s)))) as [-> | ->]; [by left|by right]. Qed.
Lemma below_for_each {X} (l : list X) (f g : X → Kernel unit) : (∀ x, below (f x) (g x)) → below (for_each l f) (for_each l g).
Proof.
  intros Hf. induction l as [|x l IH]; cbn [for_each]; [apply below_refl|]. by apply below_kbind; [|intros _].
Qed.

Ltac kernel_step :=
  lazymatch goal with
  | |- below ?f ?f => apply below_refl
  | |- below (mbind _ _) (mbind _ _) => apply below_kbind; [|intros ?]
  | |- below (on_memory _) (on_memory _) => apply below_on_memory
  | |- below (heap_call _ _) (heap_call _ _) => apply below_heap_call
  | |- below (for_each _ _) (for_each _ _) => apply below_for_each; intros ?
  | |- below (match ?x with _ => _ end) (match ?x with _ => _ end) => destruct x
  | |- below _ _ => solve [eauto 2 with window]
  end.
Ltac kernel_steps := repeat (progress (cbv zeta) || kernel_step).

Lemma below_vm_test : below (start_vm_test (W:=R)) start_vm_test.
Proof. unfold start_vm_test. kernel_steps. Qed.
Lemma below_address_space : below (start_address_space (W:=R)) start_address_space.
Proof. unfold start_address_space. kernel_steps. Qed.
Lemma below_map_test pml4 : below (start_map_test (W:=R) pml4) (start_map_test pml4).
Proof. unfold start_map_test. kernel_steps. Qed.
Lemma below_user_code entry pml4 : below (start_user_code (W:=R) entry pml4) (start_user_code entry pml4).
Proof. unfold start_user_code, check_translation. kernel_steps. Qed.
Lemma below_user_stack stack pml4 : below (start_user_stack (W:=R) stack pml4) (start_user_stack stack pml4).
Proof. unfold start_user_stack, map_user_stack_page, check_translation. kernel_steps. Qed.
Lemma below_heap pml4 : below (start_heap (W:=R) pml4) (start_heap pml4).
Proof. unfold start_heap. kernel_steps. Qed.
#[local] Hint Resolve below_vm_test below_address_space below_map_test below_user_code below_user_stack below_heap : window.

Lemma below_start_kernel syscall_entry syscall_stack user_test_entry user_stack m info :
  below (start_kernel R syscall_entry syscall_stack user_test_entry user_stack m info)
    (start_kernel everywhere syscall_entry syscall_stack user_test_entry user_stack m info).
Proof. unfold start_kernel. kernel_steps. Qed.
End smaller.

(** ** From the memory map to ring 3 *)

(** The frames the start-up needs: three for the allocator test, of which it returns
    one; a root and three tables for the page-table test and again for the address
    space; a table for the test page, one for the code page, if it is not the same,
    and one for the user stack; two tables and four pages for the heap. *)
Definition BOOT_FRAMES : nat := 3 + (4 + (4 + (1 + (1 + (1 + 6))))).
(** The end of such a region that starts at frame [b]. *)
Definition boot_end (b : Z) : Z := (b + Z.of_nat BOOT_FRAMES) * FRAME_SIZE.

Section start_kernel.
Context (syscall_entry syscall_stack user_test_entry user_stack efer : Z).
Context (Hentry : in_u 64 syscall_entry) (Hentry0 : syscall_entry ≠ 0) (Hefer : in_u 64 efer).
Context (Hstack : 0 ≤ syscall_stack) (Hstack' : syscall_stack + SYSCALL_STACK_SIZE < 2 ^ 64).
Context (Hcode : 0 ≤ user_test_entry < 2 ^ 52).
Context (Hustack : 0 ≤ user_stack) (Hustack' : user_stack + USER_STACK_SIZE ≤ 2 ^ 52) (Hualign : user_stack mod 4096 = 0).

(** The address space with the mappings of the ring 3 test. *)
Definition ring3_map : Z → option (Z * bool * bool) :=
  overlay (overlay identity_2M USER_CODE_VADDR 4096 (entry_page user_test_entry) true true)
    USER_STACK_VADDR USER_STACK_SIZE user_stack true true.

(** Up to the switch of CR3. *)
Definition memory_up (B : Z) (K : Z → Prop) (c c' : state) : Prop := ∃ root v,
  c' = set_cr3 root (set_tables (with_rsp0 (syscall_stack + SYSCALL_STACK_SIZE) (tables c))
    (set_stack_top (syscall_stack + SYSCALL_STACK_SIZE) (set_vm v c))) ∧
  maps B K root v ring3_map ∧ room B K 6 (fa v).

Lemma memory_up_wp B K R (k : AddressSpace → Kernel (Z * Z)) Q c : covers R B →
  frees B K (BOOT_FRAMES - 3 - 4) (vm c) →
  (∀ root c', memory_up B K c c' → cr3 c' = root → wp (k (mkAddressSpace root)) (λ _, False) Q c') →
  wp (start_address_space (W:=R)) (λ _, False) (λ address_space, wp
    (start_map_test (W:=R) (AddressSpace_pml4_phys address_space) ;;
     start_user_code (W:=R) user_test_entry (AddressSpace_pml4_phys address_space) ;;
     start_user_stack (W:=R) user_stack (AddressSpace_pml4_phys address_space) ;;
     start_kernel_stack syscall_stack ;; start_cr3 address_space ;; k address_space) (λ _, False) Q) c.
Proof.
  intros HR Hfr Hk. assert (USER_STACK_VADDR = 0x800000) as Hv by done. assert (USER_STACK_SIZE = 0x4000) as Hz by done.
  assert (USER_CODE_VADDR = 0x400000) as Hcv by done.
  eapply wp_mono; [apply (start_address_space_wp B K (λ _, False) R HR (1 + (1 + (1 + 6)))); exact Hfr| |done].
  intros ? ? (root & v1 & -> & -> & HM1 & Hr1). cbv zeta. cbn [AddressSpace_pml4_phys pml4_phys]. boot_steps.
  eapply wp_mono; [apply (start_map_test_wp B K (λ _, False) R HR root (1 + (1 + 6)) identity_2M); [done|done|done|done|]| |done].
  { intros x Hx. unfold identity_2M. by rewrite decide_False by lia. }
  intros [] ? (v2 & -> & HM2 & Hr2). boot_steps.
  eapply wp_mono; [apply (start_user_code_wp B K (λ _, False) R HR user_test_entry root (1 + 6) identity_2M); done| |done].
  intros [] ? (v3 & -> & HM3 & Hr3). boot_steps.
  eapply wp_mono; [eapply (start_user_stack_wp B K (λ _, False) R HR user_stack root 6); [done|done|done|exact HM3|done|done|]| |done].
  { intros x Hx. rewrite overlay_out by lia. unfold identity_2M. by rewrite decide_False by lia. }
  intros [] ? (v4 & -> & HM4 & Hr4). boot_steps.
  eapply wp_mono; [by apply (start_kernel_stack_wp (λ _, False) syscall_stack)| |done]. intros [] ? ->. boot_steps.
  eapply wp_mono; [apply (start_cr3_wp (λ _, False))| |done].
  { intros x Hx. cbn [pml4_phys]. etrans; [apply HM4; split; lia|]. unfold identity_2M.
    by rewrite !overlay_out, decide_True by lia. }
  intros [] ? ->. apply Hk; [|done]. exists root, v4. by split.
Qed.

(** What ring 3 finds. *)
Record ring3_ready (B : Z) (K : Z → Prop) (c : state) : Prop := {
  rr_ok : vm_ok (cr3 c) (vm c);
  rr_low : low_tables B K (cr3 c) (vm c);
  rr_identity x : 0 ≤ x < 0x200000 → translates (cr3 c) (vm c) x (Some x);
  rr_code off : 0 ≤ off < 4096 →
    translates (cr3 c) (vm c) (USER_CODE_VADDR + off) (Some (entry_page user_test_entry + off));
  rr_stack off : 0 ≤ off < USER_STACK_SIZE →
    translates (cr3 c) (vm c) (USER_STACK_VADDR + off) (Some (user_stack + off));
  rr_heap : heap_mapped (cr3 c) (vm c);
  rr_rsp0 : tss_rsp0 (tss (tables c)) = syscall_stack + SYSCALL_STACK_SIZE;
  rr_stack_top : unbound_syscall_stack_top c = syscall_stack + SYSCALL_STACK_SIZE;
  rr_tables : tables_empty c;
  rr_msrs : msrs_set syscall_entry (model_regs c);
  rr_sce : syscall_extensions_enabled (model_regs c) = true;
}.

(** What ring 3 may access at the address [x], and whether it may write it. *)
Definition user_access (root : Z) (v : PageTable.machine FrameAllocator) (x : Z) : option (Z * bool) :=
  match page_access root v x with Some (a, true, w) => Some (a, w) | _ => None end.
(** The code page and the stack. *)
Definition ring3_memory (x : Z) : option (Z * bool) :=
  if decide (USER_CODE_VADDR ≤ x < USER_CODE_VADDR + 4096) then
    Some (entry_page user_test_entry + (x - USER_CODE_VADDR), true)
  else if decide (USER_STACK_VADDR ≤ x < USER_STACK_VADDR + USER_STACK_SIZE) then
    Some (user_stack + (x - USER_STACK_VADDR), true)
  else None.

(** With the address space active, every byte of its tables is at its own address. *)
Definition tables_reachable (c : state) : Prop := ∀ q t off, path_ok q → (length q ≤ 3)%nat →
  walk (mem (vm c)) (cr3 c) q = Some t → 0 ≤ off < 4096 → translates (cr3 c) (vm c) (t + off) (Some (t + off)).

Lemma ring3_reachable f K c : ring3_ready (f * FRAME_SIZE) K c → f * FRAME_SIZE ≤ 0x200000 → tables_reachable c.
Proof.
  intros Hr HB q t off Hq Hl Hw Ho. pose proof (rr_low _ _ _ Hr q t Hq Hl Hw) as [Ht _].
  destruct (wf_node _ _ _ (proj2 (rr_ok _ _ _ Hr)) q t Hq Hl Hw) as [[Hm H0] _].
  apply (rr_identity _ _ _ Hr). unfold FRAME_SIZE in *. pose proof (Z.div_mod t 4096 ltac:(lia)). lia.
Qed.

(** The heap and the first 2 MiB are not the user's. *)
Lemma ring3_view root v T' : (∀ x, in_u 64 x → page_access root v x = T' x) →
  (∀ x, in_u 64 x → if decide (HEAP_START ≤ x < HEAP_START + 0x4000) then ∃ a, T' x = Some (a, false, true)
                    else T' x = ring3_map x) →
  ∀ x, in_u 64 x → user_access root v x = ring3_memory x.
Proof.
  intros HT Hx x Hin. unfold user_access, ring3_memory. rewrite HT by done. pose proof (Hx x Hin) as H.
  unfold ring3_map, overlay, identity_2M in H. unfold USER_CODE_VADDR, USER_STACK_VADDR, USER_STACK_SIZE, HEAP_START in *.
  destruct (decide (0x40000000 ≤ x < 0x40000000 + 0x4000)) as [Hheap|Hheap].
  - destruct H as [b ->]. by rewrite !decide_False by lia.
  - rewrite H. repeat case_decide; try done; lia.
Qed.

Lemma heap_and_tests_wp B K R c c' : covers R B → KERNEL_OBJECTS c = ObjectTable_new → IPC_MANAGER c = IpcManager_new →
  model_regs c !! IA32_EFER = Some efer → memory_up B K c c' →
  wp (start_heap (W:=R) (cr3 c') ;; start_spinlock ;; kernel_tests syscall_entry ;; start_checkpoint ;; start_ring3)
    (λ _, False) (λ r c'', r = (USER_CODE_VADDR, USER_STACK_VADDR + USER_STACK_SIZE) ∧ ring3_ready B K c'' ∧
       ∀ x, in_u 64 x → user_access (cr3 c'') (vm c'') x = ring3_memory x) c'.
Proof.
  intros HR Hobj Hipc Hmsr (root & v & -> & HM & Hr).
  assert (USER_STACK_VADDR = 0x800000) as Hv by done. assert (USER_STACK_SIZE = 0x4000) as Hz by done.
  assert (USER_CODE_VADDR = 0x400000) as Hcv by done. assert (HEAP_START = 0x40000000) as Hst by done.
  boot_steps. eapply wp_mono; [eapply (start_heap_wp B K (λ _, False) R HR root ring3_map); [exact HM|done|exact Hr|]| |done].
  { intros x Hx. unfold ring3_map, identity_2M. by rewrite !overlay_out, decide_False by lia. }
  intros ? ? (_ & v' & T' & -> & HM' & Hheap & Hrest). boot_steps.
  eapply wp_mono; [apply (start_spinlock_wp (λ _, False))| |done]. intros [] ? ->. boot_steps.
  destruct (kernel_tests_run efer syscall_entry (set_vm v' (set_cr3 root (set_tables
    (with_rsp0 (syscall_stack + SYSCALL_STACK_SIZE) (tables c))
    (set_stack_top (syscall_stack + SYSCALL_STACK_SIZE) (set_vm v c))))) Hefer Hentry Hentry0 Hobj Hipc Hmsr)
    as (t1 & t2 & Hrun & Hempty).
  eapply runs_wp; [exact Hrun|]. boot_steps.
  eapply wp_mono; [apply (start_checkpoint_wp (λ _, False))| |done]. intros [] ? ->. boot_steps.
  eapply wp_mono; [apply (start_ring3_wp (λ _, False))| |done]. intros ? ? [-> ->]. split; [done|].
  split; [|apply (ring3_view root v' T'); [apply HM'|done]].
  destruct (tested_regs efer syscall_entry (model_regs c) Hefer Hentry Hmsr) as [Hset Hon].
  assert (∀ x y u w, 0 ≤ x < HEAP_START → ring3_map x = Some (y, u, w) → translates root v' x (Some y)) as Hlow.
  { intros x y u w Hx Hxy. apply translates_iff; [by eapply maps_vm|].
    rewrite (maps_translation _ _ _ _ _ _ HM') by (split; lia). pose proof (Hrest x ltac:(split; lia)) as H.
    rewrite decide_False in H by lia. by rewrite H, Hxy. }
  split; [by eapply maps_vm|apply HM'| | | |exact Hheap|done|done|exact Hempty|exact Hset|exact Hon].
  - intros x Hx. eapply Hlow; [lia|]. unfold ring3_map, identity_2M. by rewrite !overlay_out, decide_True by lia.
  - intros off Ho. eapply Hlow; [lia|]. unfold ring3_map. rewrite overlay_out, overlay_in by lia. do 3 f_equal. lia.
  - intros off Ho. eapply Hlow; [lia|]. unfold ring3_map. rewrite overlay_in by lia. do 3 f_equal. lia.
Qed.

(** [wp], or a page fault, which needs [F]. *)
Definition wp_or_fault {A} (F : Prop) (p : Kernel A) (S : state → Prop) (Q : A → state → Prop) (c : state) : Prop := ∀ o,
  (F ∧ p (mkWorld o c) = Panicked NotMapped) ∨
  ∃ r o' c', p (mkWorld o c) = Done (r, mkWorld o' c') ∧ match r with Go a => Q a c' | Stop => S c' end.
Lemma wp_or_fault_wp {A} F (p : Kernel A) S Q c : wp_or_fault F p S Q c → ¬ F → wp p S Q c.
Proof. intros H HF o. destruct (H o) as [[? _]|?]; done. Qed.
Lemma wp_or_fault_mono {A} F (p : Kernel A) S Q (Q' : A → state → Prop) c :
  wp_or_fault F p S Q c → (∀ a c', Q a c' → Q' a c') → wp_or_fault F p S Q' c.
Proof.
  intros H HQ o. destruct (H o) as [?|(r & o' & c' & E & Hr)]; [by left|right]. exists r, o', c'. split; [done|].
  destruct r; auto.
Qed.

(** A certain page fault. *)
Definition faults {A} (p : Kernel A) (c : state) : Prop := ∀ o, p (mkWorld o c) = Panicked NotMapped.
Lemma faults_bind {A A'} (p : Kernel A) (f : A → Kernel A') c : wp p (λ _, False) (λ a, faults (f a)) c → faults (p ≫= f) c.
Proof.
  intros H o. destruct (H o) as (r & o1 & c1 & E & Hr). unfold mbind, K_bind. rewrite E. destruct r; [apply Hr|done].
Qed.
Lemma faults_head {A A'} (p : Kernel A) (f : A → Kernel A') c : faults p c → faults (p ≫= f) c.
Proof. intros H o. unfold mbind, K_bind. by rewrite H. Qed.

Section memory_map.
Context (m : bytemem) (info : BootInfo) (b : Z) (c : state).
Context (Hmap : Forall entry_ok (memory_map m info)) (Hks : 0 ≤ kernel_phys_start info)
  (Hke : 0 ≤ kernel_phys_end info ≤ 2 ^ 64 - FRAME_SIZE)
  (Hreg : free_region (memory_map m info) (kernel_phys_start info) (kernel_phys_end info) b BOOT_FRAMES).
Context (Hobj : KERNEL_OBJECTS c = ObjectTable_new) (Hipc : IPC_MANAGER c = IpcManager_new)
  (Hmsr : model_regs c !! IA32_EFER = Some efer).
Abbreviation K := (kernel_frame (kernel_phys_start info) (kernel_phys_end info)).

(** In every window that has the frames of the region. *)
Lemma start_kernel_run R : covers R (boot_end b) →
  wp (start_kernel R syscall_entry syscall_stack user_test_entry user_stack m info) (λ _, False)
    (λ r c', r = (USER_CODE_VADDR, USER_STACK_VADDR + USER_STACK_SIZE) ∧ ring3_ready (boot_end b) K c' ∧
       ∀ x, in_u 64 x → user_access (cr3 c') (vm c') x = ring3_memory x) c.
Proof using All.
  intros HR. unfold start_kernel. boot_steps.
  eapply wp_mono; [apply (start_memory_map_wp (λ _, False))| |done]. intros ? ? [-> ->]. boot_steps.
  eapply wp_mono; [apply (start_frames_wp (λ _, False) _ info K b BOOT_FRAMES); [done..|]; intros f _; apply kernel_used| |done].
  intros [] ? (v1 & -> & Hf1). fold (boot_end b) in Hf1. boot_steps.
  eapply wp_mono; [by apply (start_frame_test_wp (boot_end b) K (λ _, False) (BOOT_FRAMES - 3))| |done].
  intros [] ? (v2 & -> & Hf2). boot_steps.
  eapply wp_mono; [by apply (start_vm_test_wp (boot_end b) K (λ _, False) R HR (BOOT_FRAMES - 3 - 4))| |done].
  intros [] ? (v3 & -> & Hf3). boot_steps.
  unfold start_canonical_test. boot_steps.
  eapply (memory_up_wp (boot_end b) K R (λ address_space, start_heap (W:=R) (AddressSpace_pml4_phys address_space) ;;
    start_spinlock ;; kernel_tests syscall_entry ;; start_checkpoint ;; start_ring3)); [exact HR|exact Hf3|].
  intros root c' Hup <-. by apply (heap_and_tests_wp (boot_end b) K R c c').
Qed.

Lemma low_covers : boot_end b ≤ 0x200000 → covers low_window (boot_end b).
Proof using.
  intros Hb f [Hm H0] Hf. unfold low_window. unfold boot_end, FRAME_SIZE in *. pose proof (Z.div_mod f 4096 ltac:(lia)).
  by rewrite (proj2 (Z.leb_le _ _)), (proj2 (Z.leb_le _ _)) by lia.
Qed.
(** In the window of the first 2 MiB: a fault only if the region is not inside it. *)
Lemma start_kernel_low Q :
  (∀ R, covers R (boot_end b) →
     wp (start_kernel R syscall_entry syscall_stack user_test_entry user_stack m info) (λ _, False) Q c) →
  wp_or_fault (0x200000 < boot_end b)
    (start_kernel low_window syscall_entry syscall_stack user_test_entry user_stack m info) (λ _, False) Q c.
Proof using.
  intros Hrun o. destruct (Z.le_gt_cases (boot_end b) 0x200000) as [Hb|Hb].
  - right. by apply (Hrun low_window (low_covers Hb)).
  - destruct (below_start_kernel low_window syscall_entry syscall_stack user_test_entry user_stack m info (mkWorld o c))
      as [-> | ->]; [|by left]. right. by apply Hrun.
Qed.

(** With no frame of the first 2 MiB free, the first page table, whose frame the
    allocator takes from above, cannot be cleared. *)
Lemma start_kernel_faults :
  (∀ f, 0 ≤ f < 0x200 → boot_used (memory_map m info) (kernel_phys_start info) (kernel_phys_end info) f = true) →
  faults (start_kernel low_window syscall_entry syscall_stack user_test_entry user_stack m info) c.
Proof using Hmap Hks Hke Hreg.
  intros Hused. set (K2 := λ f, 0 ≤ f < 0x200000). unfold start_kernel. apply faults_bind.
  eapply wp_mono; [apply (start_memory_map_wp (λ _, False))| |done]. intros ? ? [-> ->]. cbv beta. apply faults_bind.
  eapply wp_mono; [apply (start_frames_wp (λ _, False) _ info K2 b BOOT_FRAMES); [done..|]| |done].
  { intros f _ Hf. apply Hused. unfold K2, FRAME_SIZE in Hf. lia. }
  intros [] ? (v1 & -> & Hf1). cbv beta. apply faults_bind.
  eapply wp_mono; [by apply (start_frame_test_wp (boot_end b) K2 (λ _, False) (BOOT_FRAMES - 3))| |done].
  intros [] ? (v2 & -> & [Hok Hr]). cbv beta. apply faults_head. unfold start_vm_test.
  apply faults_bind, wp_write, faults_bind, wp_write, faults_bind.
  destruct (room_alloc (boot_end b) K2 16 _ Hok Hr) as (f & a & E & _ & _ & _ & H0 & _ & Hf).
  eapply (wp_on _ _ _ (Some f) (PageTable.mkMachine a (mem v2))); [unfold on_fa, zoom; cbn [vm set_vm]; by rewrite E|].
  apply faults_head, faults_head. intros o. unfold on_memory, on, zero_table, touch_table, reachable, low_window.
  rewrite (proj2 (Z.leb_gt (f + 4096) 0x200000)), andb_false_r by (unfold K2 in Hf; lia). done.
Qed.

(** C4: The kernel comes up.  From the state at boot, with a well-formed memory map
    that has a usable region of [BOOT_FRAMES], twenty, frames clear of the kernel and
    below 2 MiB, everything [_start] does after the breakpoint test runs without
    panicking, page-faulting or halting: no check fails, no mapping is refused and
    memory does not run out.  It ends at [enter_ring3] with CR3 on an address space in
    which the first 2 MiB translate to themselves, the user pages to the page of the
    test entry and to the user stack, and the four heap pages to four distinct frames;
    with the ring 0 stack in the TSS, the system-call registers programmed and no
    object or endpoint left over.  All its page tables lie below the end of that
    region and are reachable at their physical addresses.  The entry it passes is
    the start of the page, so it is the test entry exactly when the linker aligned
    that to a page.  With a region that does not end below 2 MiB the outcome is the
    same or a page fault, and it is a page fault if no frame below 2 MiB is free. *)
Theorem start_kernel_spec :
  (boot_end b ≤ 0x200000 →
   wp (start_kernel low_window syscall_entry syscall_stack user_test_entry user_stack m info) (λ _, False)
    (λ r c', r = (USER_CODE_VADDR, USER_STACK_VADDR + USER_STACK_SIZE) ∧
       ring3_ready (boot_end b) K c' ∧ tables_reachable c' ∧
       (translates (cr3 c') (vm c') r.1 (Some user_test_entry) ↔ user_test_entry mod 4096 = 0)) c) ∧
  wp_or_fault (0x200000 < boot_end b)
    (start_kernel low_window syscall_entry syscall_stack user_test_entry user_stack m info) (λ _, False)
    (λ r c', r = (USER_CODE_VADDR, USER_STACK_VADDR + USER_STACK_SIZE) ∧ ring3_ready (boot_end b) K c') c ∧
  ((∀ f, 0 ≤ f < 0x200 → boot_used (memory_map m info) (kernel_phys_start info) (kernel_phys_end info) f = true) →
   faults (start_kernel low_window syscall_entry syscall_stack user_test_entry user_stack m info) c).
Proof using All.
  split; [|split; [|exact start_kernel_faults]].
  - intros Hb. eapply wp_mono; [exact (start_kernel_run low_window (low_covers Hb))| |done].
    intros r c'' (-> & Hready & _). split; [done|]. split; [done|]. split; [by eapply ring3_reachable|]. cbn [fst].
    pose proof (rr_code _ _ _ Hready 0 ltac:(lia)) as Hc. rewrite !Z.add_0_r in Hc.
    pose proof (rr_ok _ _ _ Hready) as Hok. rewrite translates_iff by done. apply translates_iff in Hc; [|done].
    rewrite <- Hc. unfold entry_page. split; [intros [=]; lia|]. intros ->. f_equal. lia.
  - eapply wp_or_fault_mono; [apply start_kernel_low, start_kernel_run|]. intros r c' (? & ? & _). by split.
Qed.

(** Page tables keep clear of the memory of ring 3 when that is part of the kernel image. *)
Lemma tables_apart c' : kernel_phys_start info ≤ user_test_entry < kernel_phys_end info →
  kernel_phys_start info ≤ user_stack → user_stack + USER_STACK_SIZE ≤ kernel_phys_end info →
  ring3_ready (boot_end b) K c' → ∀ x a w q t, ring3_memory x = Some (a, w) →
    path_ok q → (length q ≤ 3)%nat → walk (mem (vm c')) (cr3 c') q = Some t → ¬ t ≤ a < t + 4096.
Proof using.
  intros Hc Hs Hs' Hready x a w q t Ha Hq Hl Hw Hin.
  destruct (rr_low _ _ _ Hready q t Hq Hl Hw) as [_ HK]. apply HK.
  destruct (wf_node _ _ _ (proj2 (rr_ok _ _ _ Hready)) q t Hq Hl Hw) as [[Hm _] _].
  unfold ring3_memory, entry_page in Ha. unfold kernel_frame, FRAME_SIZE.
  pose proof (Z.div_mod t 4096 ltac:(lia)). pose proof (Z.div_mod user_test_entry 4096 ltac:(lia)).
  pose proof (Z.mod_pos_bound user_test_entry 4096 ltac:(lia)).
  destruct (decide (USER_CODE_VADDR ≤ x < USER_CODE_VADDR + 4096)); [|case_decide; [|done]]; injection Ha as <- _; lia.
Qed.

(** C5: Ring 3 is confined.  When the kernel enters ring 3, the flags in the page tables
    let ring 3 access the page of the test entry and the user stack, both with write
    access, and no other address at all: not the rest of the first 2 MiB, which stays
    mapped for the kernel, and not the heap.  With the test entry and the user stack
    inside the kernel image the boot information describes, no byte it can write
    belongs to a page table, so it cannot change what it may access.  (Only a page
    fault, and only if the free region does not end below 2 MiB, keeps the kernel from
    getting there.) *)
Theorem ring3_isolation :
  kernel_phys_start info ≤ user_test_entry < kernel_phys_end info →
  kernel_phys_start info ≤ user_stack → user_stack + USER_STACK_SIZE ≤ kernel_phys_end info →
  wp_or_fault (0x200000 < boot_end b)
    (start_kernel low_window syscall_entry syscall_stack user_test_entry user_stack m info) (λ _, False)
    (λ _ c', (∀ x, in_u 64 x → user_access (cr3 c') (vm c') x = ring3_memory x) ∧
       ∀ x a w q t, in_u 64 x → user_access (cr3 c') (vm c') x = Some (a, w) →
         path_ok q → (length q ≤ 3)%nat → walk (mem (vm c')) (cr3 c') q = Some t → ¬ t ≤ a < t + 4096) c.
Proof using All.
  intros Hc Hs Hs'. eapply wp_or_fault_mono; [apply start_kernel_low, start_kernel_run|].
  intros r c' (_ & Hready & Hview). split; [done|]. intros x a w q t Hx Ha. rewrite Hview in Ha by done.
  by apply (tables_apart c' Hc Hs Hs' Hready x a w).
Qed.
End memory_map.
End start_kernel.

(** ** A machine that boots *)

(** One usable region of 128 MiB at 1 MiB, the kernel in its first half megabyte. *)
Definition sample_memory : bytemem :=
  stage2_build_boot_info 0x80 1 0x100000 0x180000
    (le_store (le_store (le_store ∅ 0x60000 8 0x100000) 0x60008 8 0x8000000) 0x60010 4 1).
Definition sample_info : BootInfo :=
  mkBootInfo BOOT_INFO_MAGIC BOOT_INFO_VERSION 64 0x80 0x100000 0x180000 0x60000 1 24.

Lemma sample_map : memory_map sample_memory sample_info = [mkMemoryMapEntry 0x100000 0x8000000 1 0].
Proof. vm_compute. reflexivity. Qed.

Lemma sample_valid : validate_boot_info sample_memory STAGE2_BOOT_INFO = Ok sample_info.
Proof. vm_compute. reflexivity. Qed.

Lemma start_descriptors_spec_witness :
  wp (start_descriptors 0x110000 0x111000 0x115000 0x120000 (λ v, 0x130000 + 16 * (v mod 32)) 0x130200
        sample_memory STAGE2_BOOT_INFO) (λ _, False)
    (λ r c', r = sample_info ∧ ∃ t, c' = set_tables t sample_state ∧
       descriptors_ok 0x111000 0x120000 (λ v, 0x130000 + 16 * (v mod 32)) 0x130200 t) sample_state.
Proof.
  assert (∀ v, in_u 64 (0x130000 + 16 * (v mod 32))) as Hisr.
  { intros v. pose proof (Z.mod_pos_bound v 32 ltac:(lia)). unfold in_u. lia. }
  assert (in_u 64 0x130200) as Hirq by (unfold in_u; lia).
  assert (length (gdt (tables sample_state)) = 7%nat) as Hgdt by reflexivity.
  assert (length (idt (tables sample_state)) = IDT_ENTRIES) as Hidt by reflexivity.
  pose proof (start_descriptors_spec 0x110000 0x111000 0x115000 0x120000 (λ v, 0x130000 + 16 * (v mod 32)) 0x130200
    ltac:(lia) ltac:(reflexivity) ltac:(lia) ltac:(reflexivity) ltac:(lia) ltac:(reflexivity) ltac:(reflexivity)
    ltac:(lia) ltac:(reflexivity) Hisr Hirq sample_memory STAGE2_BOOT_INFO sample_state Hgdt Hidt) as H.
  rewrite sample_valid in H. exact H.
Defined.

Lemma sample_map_entries : Forall entry_ok (memory_map sample_memory sample_info).
Proof. rewrite sample_map. apply Forall_singleton. unfold entry_ok, in_u, FRAME_SIZE; cbn. lia. Qed.
Lemma sample_region : free_region (memory_map sample_memory sample_info) 0x100000 0x180000 0x180 BOOT_FRAMES.
Proof.
  rewrite sample_map. unfold free_region, FRAME_SIZE. assert (MAX_FRAMES = 0x100000) as -> by reflexivity.
  assert (Z.of_nat BOOT_FRAMES = 20) as -> by reflexivity. split; [|lia].
  eexists. split; [apply list_elem_of_here|]. cbn [entry_type base_addr entry_length]. lia.
Qed.

(** The same machine with its usable memory from 2 MiB on. *)
Definition high_memory : bytemem :=
  stage2_build_boot_info 0x80 1 0x100000 0x180000
    (le_store (le_store (le_store ∅ 0x60000 8 0x200000) 0x60008 8 0x8000000) 0x60010 4 1).
Lemma high_map : memory_map high_memory sample_info = [mkMemoryMapEntry 0x200000 0x8000000 1 0].
Proof. vm_compute. reflexivity. Qed.
Lemma high_map_entries : Forall entry_ok (memory_map high_memory sample_info).
Proof. rewrite high_map. apply Forall_singleton. unfold entry_ok, in_u, FRAME_SIZE; cbn. lia. Qed.
Lemma high_region : free_region (memory_map high_memory sample_info) 0x100000 0x180000 0x200 BOOT_FRAMES.
Proof.
  rewrite high_map. unfold free_region, FRAME_SIZE. assert (MAX_FRAMES = 0x100000) as -> by reflexivity.
  assert (Z.of_nat BOOT_FRAMES = 20) as -> by reflexivity. split; [|lia].
  eexists. split; [apply list_elem_of_here|]. cbn [entry_type base_addr entry_length]. lia.
Qed.
Lemma high_used f : 0 ≤ f < 0x200 → boot_used (memory_map high_memory sample_info) 0x100000 0x180000 f = true.
Proof.
  intros Hf. apply not_false_is_true. intros [(e & He & _ & _ & Hb & _) _]%boot_used_false. rewrite high_map in He.
  apply list_elem_of_singleton in He as ->. cbn [base_addr] in Hb. unfold FRAME_SIZE in Hb. lia.
Qed.

Ltac sample_boot_facts :=
  unfold in_u, SYSCALL_STACK_SIZE, USER_STACK_SIZE, FRAME_SIZE; cbn [kernel_phys_start kernel_phys_end sample_info];
  first [lia|reflexivity].

Lemma start_kernel_spec_witness :
  wp (start_kernel low_window 0x101000 0x140000 0x150000 0x160000 sample_memory sample_info) (λ _, False)
    (λ r c', r = (USER_CODE_VADDR, USER_STACK_VADDR + USER_STACK_SIZE) ∧
       ring3_ready 0x101000 0x140000 0x150000 0x160000 0x194000 (kernel_frame 0x100000 0x180000) c' ∧ tables_reachable c' ∧
       translates (cr3 c') (vm c') r.1 (Some 0x150000)) sample_state ∧
  faults (start_kernel low_window 0x101000 0x140000 0x150000 0x160000 high_memory sample_info) sample_state.
Proof.
  split; [|destruct (start_kernel_spec 0x101000 0x140000 0x150000 0x160000 0x500) with (m := high_memory)
    (info := sample_info) (b := 0x200) (c := sample_state) as (_ & _ & Hhigh);
    [..|exact high_map_entries| | |exact high_region|reflexivity|reflexivity|reflexivity|apply Hhigh; exact high_used];
    sample_boot_facts].
  destruct (start_kernel_spec 0x101000 0x140000 0x150000 0x160000 0x500) with (m := sample_memory) (info := sample_info)
    (b := 0x180) (c := sample_state) as [Hlow _];
    [..|exact sample_map_entries| | |exact sample_region|reflexivity|reflexivity|reflexivity|]; try sample_boot_facts.
  eapply wp_mono; [apply Hlow; vm_compute; discriminate| |intros ? H; exact H].
  intros r c' (Hr & Hready & Hreach & Hentry). split; [exact Hr|]. split; [exact Hready|]. split; [exact Hreach|].
  apply Hentry. reflexivity.
Defined.

Lemma ring3_isolation_witness :
  wp (start_kernel low_window 0x101000 0x140000 0x150000 0x160000 sample_memory sample_info) (λ _, False)
    (λ _ c', user_access (cr3 c') (vm c') 0x400010 = Some (0x150010, true) ∧
       user_access (cr3 c') (vm c') 0x803FF8 = Some (0x163FF8, true) ∧
       user_access (cr3 c') (vm c') 0x150010 = None ∧ user_access (cr3 c') (vm c') HEAP_START = None) sample_state.
Proof.
  eapply wp_mono; [apply (wp_or_fault_wp (0x200000 < boot_end 0x180));
    [apply (ring3_isolation 0x101000 0x140000 0x150000 0x160000 0x500) with (b := 0x180);
     [..|exact sample_map_entries| | |exact sample_region|reflexivity|reflexivity|reflexivity| | |]; sample_boot_facts
    |vm_compute; discriminate]| |intros ? H; exact H].
  intros r c' [Hview _]. rewrite !Hview by (unfold in_u, HEAP_START; lia). repeat split; reflexivity.
Defined.
