(* ===== verification/ImageBuilder.v ===== *)
(** * The image builder (tools/image-builder/src/main.rs)

    The program reads three files, checks them and writes the disk image.  The
    file system is a map from paths (relative to [project_root]) to contents, with the
    error the system gives for each file that cannot be read (a file that is absent is
    not found), the error, if any, of creating a file, and how many bytes can still be
    written and the error past them.  An error carries the numbers
    of its message.  The standard output is the list of the lines printed. *)

From S2P Require Import Prelude.
From stdpp Require Import pretty.
Local Open Scope Z_scope.

Definition SECTOR_SIZE : Z := 512.
Definition STAGE1_SECTORS : Z := 1.
Definition STAGE2_SECTORS : Z := 32.
Definition KERNEL_LBA : Z := STAGE1_SECTORS + STAGE2_SECTORS.
Definition STAGE2_KERNEL_READ_SECTORS : Z := 1024.

Abbreviation bytes := (list Z).
(** The data errors, with the numbers their messages show. *)
Inductive invalid :=
  | Stage1Size (expected got : Z)
  | Stage1Signature
  | Stage2TooLarge (size maximum : Z)
  | KernelEmpty
  | KernelTooLarge (sectors maximum : Z).
(** The errors of the program: those the system reports, by their number, and its own. *)
Inductive io_error := NotFound | Os (errno : Z) | InvalidData (what : invalid).

Record disk := mkDisk {
  files : gmap string bytes; unreadable : gmap string io_error; create_error : option io_error;
  room : nat; write_error : io_error }.
Definition set_files (fs : gmap string bytes) (n : nat) (d : disk) : disk :=
  mkDisk fs (unreadable d) (create_error d) n (write_error d).

(** [CARGO_MANIFEST_DIR], which the paths of the project start from when printed. *)
Definition project_root (manifest_dir : string) : string := manifest_dir +:+ "/../..".
Definition stage1_path : string := "boot/stage1/stage1.bin".
Definition stage2_path : string := "boot/stage2/stage2.bin".
Definition kernel_path : string := "target/unbound-kernel-stripped.elf".
Definition output_path : string := "target/unbound-os.img".

Definition read_file (path : string) (d : disk) : bytes + io_error :=
  match unreadable d !! path with
  | Some e => inr e
  | None => match files d !! path with Some b => inl b | None => inr NotFound end
  end.
(** [File::create] truncates the file or fails. *)
Definition file_create (path : string) : M disk (unit + io_error) := λ d,
  match create_error d with
  | None => Done (inl (), set_files (<[path := []]> (files d)) (room d) d)
  | Some e => Done (inr e, d)
  end.
(** [write_all] writes what fits; [flush] of a [File] does nothing. *)
Definition write_all (path : string) (image : bytes) : M disk (unit + io_error) := λ d,
  let d' := set_files (<[path := take (room d) image]> (files d)) (room d - length image) d in
  Done (if Nat.leb (length image) (room d) then inl () else inr (write_error d), d').
Definition write_file (path : string) (image : bytes) : M disk (unit + io_error) :=
  created ← file_create path;
  match created with
  | inr e => mret (inr e)
  | inl _ => write_all path image
  end.

Definition len (b : bytes) : Z := Z.of_nat (length b).
Definition index (b : bytes) (i : Z) : outcome Z :=
  match b !! Z.to_nat i with Some x => Done x | None => Panicked OutOfBounds end.
(** [image[offset..offset + src.len()].copy_from_slice(&src)]. *)
Definition copy_into (image : bytes) (offset : Z) (src : bytes) : outcome bytes :=
  stop ← add_u 64 offset (len src);
  if len image <? stop then Panicked OutOfBounds
  else Done (take (Z.to_nat offset) image ++ src ++ drop (Z.to_nat stop) image).

(** The checks, in the order of [main], and the number of sectors of the kernel. *)
Definition check_stage1 (stage1 : bytes) : outcome (option io_error) :=
  if negb (len stage1 =? STAGE1_SECTORS * SECTOR_SIZE)
  then Done (Some (InvalidData (Stage1Size (STAGE1_SECTORS * SECTOR_SIZE) (len stage1))))
  else
    b510 ← index stage1 510;
    b511 ← (if negb (b510 =? 0x55) then Done 0 else index stage1 511);
    if negb (b510 =? 0x55) || negb (b511 =? 0xAA)
    then Done (Some (InvalidData Stage1Signature))
    else Done None.
Definition check_stage2 (stage2 : bytes) : option io_error :=
  let stage2_capacity := STAGE2_SECTORS * SECTOR_SIZE in
  if stage2_capacity <? len stage2 then Some (InvalidData (Stage2TooLarge (len stage2) stage2_capacity)) else None.
Definition check_kernel (kernel : bytes) : outcome (Z + io_error) :=
  a ← add_u 64 (len kernel) SECTOR_SIZE;
  b ← sub_u a 1;
  let actual_kernel_sectors := b / SECTOR_SIZE in
  if actual_kernel_sectors =? 0 then Done (inr (InvalidData KernelEmpty))
  else if STAGE2_KERNEL_READ_SECTORS <? actual_kernel_sectors
  then Done (inr (InvalidData (KernelTooLarge actual_kernel_sectors STAGE2_KERNEL_READ_SECTORS)))
  else Done (inl actual_kernel_sectors).

Definition build_image (stage1 stage2 kernel : bytes) : outcome bytes :=
  let image_kernel_sectors := STAGE2_KERNEL_READ_SECTORS in
  let image_size := (KERNEL_LBA + image_kernel_sectors) * SECTOR_SIZE in
  let image := replicate (Z.to_nat image_size) 0 in
  let stage1_offset := Z.max 0 (STAGE1_SECTORS - 1) * SECTOR_SIZE in
  image ← copy_into image stage1_offset stage1;
  let stage2_offset := STAGE1_SECTORS * SECTOR_SIZE in
  image ← copy_into image stage2_offset stage2;
  let kernel_offset := KERNEL_LBA * SECTOR_SIZE in
  copy_into image kernel_offset kernel.

(** The program's process: what it has printed, and the disk. *)
Record host := mkHost { console : list string; host_disk : disk }.
Definition set_host_disk (d : disk) (h : host) : host := mkHost (console h) d.
(** Consecutive [println!]s. *)
Definition print_lines (l : list string) : M host unit := λ h, Done ((), mkHost (console h ++ l) (host_disk h)).
Definition fail (e : io_error) : M host (unit + io_error) := mret (inr e).

Definition banner : list string :=
  ["========================================"; "        UNBOUND OS IMAGE BUILDER";
   "========================================"; ""].
Definition size_line (what : string) (b : bytes) : string := what +:+ ": " +:+ pretty (len b) +:+ " bytes".
Definition layout_lines : list string :=
  let image_kernel_sectors := STAGE2_KERNEL_READ_SECTORS in
  let image_kernel_bytes := image_kernel_sectors * SECTOR_SIZE in
  let image_size := (KERNEL_LBA + image_kernel_sectors) * SECTOR_SIZE in
  [""; "Disk layout:"; "  Stage 1 LBA:       " +:+ pretty 0;
   "  Stage 2 LBA:       1-" +:+ pretty STAGE2_SECTORS;
   "  Kernel LBA:        " +:+ pretty KERNEL_LBA;
   "  Kernel sectors:    " +:+ pretty image_kernel_sectors;
   "  Kernel capacity:   " +:+ pretty image_kernel_bytes +:+ " bytes";
   "  Image size:        " +:+ pretty image_size +:+ " bytes"; ""].
Definition final_lines (manifest_dir : string) (kernel image : bytes) (actual_kernel_sectors : Z) : list string :=
  ["Actual kernel sectors: " +:+ pretty actual_kernel_sectors;
   "Stage 2 read sectors:  " +:+ pretty STAGE2_KERNEL_READ_SECTORS;
   "Kernel capacity:       " +:+ pretty STAGE2_KERNEL_READ_SECTORS +:+ " sectors";
   "Kernel unused space:   " +:+ pretty (Z.max 0 (STAGE2_KERNEL_READ_SECTORS * SECTOR_SIZE - len kernel)) +:+ " bytes";
   ""; "✓ Image created:"; "  " +:+ project_root manifest_dir +:+ "/" +:+ output_path;
   "  " +:+ pretty (len image) +:+ " bytes"; ""].

Definition main (manifest_dir : string) : M host (unit + io_error) :=
  print_lines banner ;;
  h ← get;
  let d := host_disk h in
  match read_file stage1_path d with
  | inr e => fail e
  | inl stage1 =>
      print_lines [size_line "Stage 1" stage1] ;;
      c1 ← lift (check_stage1 stage1);
      match c1 with
      | Some e => fail e
      | None =>
          match read_file stage2_path d with
          | inr e => fail e
          | inl stage2 =>
              print_lines [size_line "Stage 2" stage2] ;;
              match check_stage2 stage2 with
              | Some e => fail e
              | None =>
                  match read_file kernel_path d with
                  | inr e => fail e
                  | inl kernel =>
                      print_lines [size_line "Kernel ELF" kernel] ;;
                      ck ← lift (check_kernel kernel);
                      match ck with
                      | inr e => fail e
                      | inl actual_kernel_sectors =>
                          print_lines layout_lines ;;
                          image ← lift (build_image stage1 stage2 kernel);
                          written ← zoom host_disk set_host_disk (write_file output_path image);
                          match written with
                          | inr e => fail e
                          | inl _ =>
                              print_lines (final_lines manifest_dir kernel image actual_kernel_sectors) ;;
                              mret (inl ())
                          end
                      end
                  end
              end
          end
      end
  end.

(** ** What the program is meant to produce *)

(** The files the three stages accept. *)
Definition acceptable (stage1 stage2 kernel : bytes) : Prop :=
  length stage1 = 512%nat ∧ stage1 !! 510%nat = Some 0x55 ∧ stage1 !! 511%nat = Some 0xAA ∧
  len stage2 ≤ 32 * 512 ∧ 0 < len kernel ≤ 1024 * 512.

#[export] Instance acceptable_dec s1 s2 k : Decision (acceptable s1 s2 k).
Proof. unfold acceptable. apply _. Defined.

(** The layout of the disk: the boot sector, 32 sectors of second stage and 1024
    sectors of kernel, the last two padded with zeros. *)
Definition disk_layout (stage1 stage2 kernel : bytes) : bytes :=
  stage1 ++ (stage2 ++ replicate (Z.to_nat (32 * 512) - length stage2) 0) ++
  (kernel ++ replicate (Z.to_nat (1024 * 512) - length kernel) 0).

(** The file at [p] can be read, and is [b]. *)
Definition reads (d : disk) (p : string) (b : bytes) : Prop := files d !! p = Some b ∧ unreadable d !! p = None.
Lemma read_file_reads d p b : reads d p b → read_file p d = inl b.
Proof. intros [H1 H2]. unfold read_file. by rewrite H2, H1. Qed.

(** Why a build is refused. *)
Inductive refused (d : disk) : io_error → Prop :=
  | refused_missing p : p ∈ [stage1_path; stage2_path; kernel_path] → files d !! p = None → unreadable d !! p = None →
      refused d NotFound
  | refused_unreadable p e : p ∈ [stage1_path; stage2_path; kernel_path] → unreadable d !! p = Some e → refused d e
  | refused_stage1_size s : reads d stage1_path s → length s ≠ 512%nat →
      refused d (InvalidData (Stage1Size 512 (len s)))
  | refused_signature s : reads d stage1_path s → length s = 512%nat →
      ¬ (s !! 510%nat = Some 0x55 ∧ s !! 511%nat = Some 0xAA) → refused d (InvalidData Stage1Signature)
  | refused_stage2 s : reads d stage2_path s → 32 * 512 < len s →
      refused d (InvalidData (Stage2TooLarge (len s) (32 * 512)))
  | refused_empty : reads d kernel_path [] → refused d (InvalidData KernelEmpty)
  | refused_kernel s : reads d kernel_path s → 1024 * 512 < len s →
      refused d (InvalidData (KernelTooLarge ((len s + 511) / 512) 1024)).

(** A file is read, or the build is refused with the error of reading it. *)
Lemma read_file_spec d p : p ∈ [stage1_path; stage2_path; kernel_path] →
  (∃ b, read_file p d = inl b ∧ reads d p b) ∨ (∃ e, read_file p d = inr e ∧ refused d e ∧ ∀ b, ¬ reads d p b).
Proof.
  intros Hp. unfold read_file, reads. destruct (unreadable d !! p) as [e|] eqn:Hu.
  - right. exists e. split; [done|]. split; [by eapply refused_unreadable|]. by intros b [_ ?].
  - destruct (files d !! p) as [b|] eqn:Hf; [left; by exists b|].
    right. exists NotFound. split; [done|]. split; [by eapply refused_missing|]. by intros b [? _].
Qed.

(** ** The checks *)

Lemma check_stage1_spec s :
  check_stage1 s =
    Done (if decide (length s = 512%nat) then
            if decide (s !! 510%nat = Some 0x55 ∧ s !! 511%nat = Some 0xAA) then None
            else Some (InvalidData Stage1Signature)
          else Some (InvalidData (Stage1Size 512 (len s)))).
Proof.
  unfold check_stage1, len, index. change (STAGE1_SECTORS * SECTOR_SIZE) with 512.
  change (Z.to_nat 510) with 510%nat. change (Z.to_nat 511) with 511%nat.
  case_decide as Hl.
  - rewrite (proj2 (Z.eqb_eq _ _)) by lia. cbn [negb].
    destruct (lookup_lt_is_Some_2 s 510%nat) as [a Ha]; [lia|].
    destruct (lookup_lt_is_Some_2 s 511%nat) as [b Hb]; [lia|].
    rewrite Ha, Hb. unfold mbind, outcome_bind.
    destruct (Z.eqb_spec a 0x55) as [->|Na]; cbn [negb].
    + destruct (Z.eqb_spec b 0xAA) as [->|Nb]; cbn [negb orb]; case_decide; naive_solver.
    + case_decide; naive_solver.
  - rewrite (proj2 (Z.eqb_neq _ _)) by lia. done.
Qed.

Lemma check_stage2_spec s :
  check_stage2 s =
    if decide (len s ≤ 32 * 512) then None else Some (InvalidData (Stage2TooLarge (len s) (32 * 512))).
Proof.
  unfold check_stage2. change (STAGE2_SECTORS * SECTOR_SIZE) with (32 * 512).
  destruct (Z.ltb_spec (32 * 512) (len s)); case_decide; (done || lia).
Qed.

Lemma check_kernel_spec k :
  len k < 2 ^ 63 →
  check_kernel k =
    Done (if decide (len k = 0) then inr (InvalidData KernelEmpty)
          else if decide (len k ≤ 1024 * 512) then inl ((len k + 511) / 512)
          else inr (InvalidData (KernelTooLarge ((len k + 511) / 512) 1024))).
Proof.
  intros Hk. assert (0 ≤ len k) by (unfold len; lia).
  unfold check_kernel, SECTOR_SIZE, STAGE2_KERNEL_READ_SECTORS. rewrite add_u_Done by lia.
  unfold mbind, outcome_bind. rewrite sub_u_Done by lia.
  replace (len k + 512 - 1) with (len k + 511) by lia.
  pose proof (Z.div_mod (len k + 511) 512). pose proof (Z.mod_pos_bound (len k + 511) 512).
  destruct (Z.eqb_spec ((len k + 511) / 512) 0); case_decide; try lia; [done|].
  destruct (Z.ltb_spec 1024 ((len k + 511) / 512)); case_decide; (done || lia).
Qed.

(** Copying a slice over the zeros that follow what is already written. *)
Lemma copy_into_zeros pre n src :
  len pre + len src < 2 ^ 64 → (length src ≤ n)%nat →
  copy_into (pre ++ replicate n 0) (len pre) src = Done (pre ++ src ++ replicate (n - length src) 0).
Proof.
  unfold len. intros Hu Hn. unfold copy_into, len. rewrite add_u_Done by lia.
  unfold mbind, outcome_bind. rewrite length_app, length_replicate.
  rewrite (proj2 (Z.ltb_ge _ _)) by lia. rewrite Nat2Z.id, take_app_length.
  replace (Z.to_nat (Z.of_nat (length pre) + Z.of_nat (length src))) with (length pre + length src)%nat by lia.
  rewrite drop_app_add, drop_replicate. done.
Qed.

Lemma build_image_spec s1 s2 k :
  acceptable s1 s2 k → build_image s1 s2 k = Done (disk_layout s1 s2 k).
Proof.
  unfold acceptable, len. intros (H1 & _ & _ & H2 & _ & Hk). unfold build_image.
  change ((KERNEL_LBA + STAGE2_KERNEL_READ_SECTORS) * SECTOR_SIZE) with 541184.
  change (KERNEL_LBA * SECTOR_SIZE) with 16896.
  replace (Z.max 0 (STAGE1_SECTORS - 1) * SECTOR_SIZE) with (len []) by reflexivity.
  assert (E1 : STAGE1_SECTORS * SECTOR_SIZE = len s1) by (unfold len; rewrite H1; reflexivity).
  rewrite E1. set (n := Z.to_nat 541184).
  assert (Hn : n = (512 + (Z.to_nat (32 * 512) + Z.to_nat (1024 * 512)))%nat) by (subst n; lia).
  pose proof (copy_into_zeros [] n s1) as C1. rewrite !app_nil_l in C1.
  rewrite C1; [| unfold len; simpl length; lia | lia]. clear C1.
  unfold mbind, outcome_bind.
  rewrite copy_into_zeros by (unfold len; lia).
  set (pad := (Z.to_nat (32 * 512) - length s2)%nat).
  assert (En : (n - length s1 - length s2 = pad + Z.to_nat (1024 * 512))%nat) by (subst pad; lia).
  rewrite En, replicate_add. rewrite !(app_assoc s2), !(app_assoc s1).
  replace 16896 with (len (s1 ++ s2 ++ replicate pad 0))
    by (unfold len; rewrite !length_app, length_replicate; subst pad; lia).
  rewrite <- !app_assoc, !(app_assoc s2), !(app_assoc s1).
  rewrite copy_into_zeros; [| unfold len; rewrite !length_app, length_replicate; subst pad; lia | lia].
  unfold disk_layout. fold pad. by rewrite !app_assoc.
Qed.

Lemma disk_layout_length s1 s2 k :
  acceptable s1 s2 k → len (disk_layout s1 s2 k) = 1057 * 512.
Proof.
  unfold acceptable, disk_layout, len. intros (H1 & _ & _ & H2 & _ & Hk).
  rewrite !length_app, !length_replicate. lia.
Qed.

(** [n] sectors of the disk from sector [lba], as the BIOS reads them. *)
Definition sectors (lba n : nat) (image : bytes) : bytes := take (n * 512) (drop (lba * 512) image).

Lemma sectors_pad (pre x rest : bytes) lba n :
  (length pre = lba * 512)%nat → (length x ≤ n * 512)%nat →
  sectors lba n (pre ++ (x ++ replicate (n * 512 - length x) 0) ++ rest) = x ++ replicate (n * 512 - length x) 0.
Proof.
  intros Hp Hx. unfold sectors. rewrite drop_app_length' by done.
  apply take_app_length'. rewrite length_app, length_replicate. lia.
Qed.

Lemma disk_layout_sectors s1 s2 k :
  acceptable s1 s2 k →
  sectors 0 1 (disk_layout s1 s2 k) = s1 ∧
  sectors 1 32 (disk_layout s1 s2 k) = s2 ++ replicate (32 * 512 - length s2) 0 ∧
  sectors 33 1024 (disk_layout s1 s2 k) = k ++ replicate (1024 * 512 - length k) 0.
Proof.
  unfold acceptable, disk_layout, len. intros (H1 & _ & _ & H2 & _ & Hk).
  replace (Z.to_nat (32 * 512)) with (32 * 512)%nat by lia.
  replace (Z.to_nat (1024 * 512)) with (1024 * 512)%nat by lia.
  split_and!.
  - unfold sectors. apply take_app_length'. lia.
  - apply sectors_pad; lia.
  - pose proof (sectors_pad (s1 ++ s2 ++ replicate (32 * 512 - length s2) 0) k [] 33 1024) as P.
    rewrite app_nil_r, <- !app_assoc in P. rewrite <- !app_assoc. apply P; [|lia].
    rewrite !length_app, length_replicate. lia.
Qed.

(** What is printed before the image is written, and in all. *)
Definition opening (s1 s2 k : bytes) : list string :=
  banner ++ [size_line "Stage 1" s1; size_line "Stage 2" s2; size_line "Kernel ELF" k] ++ layout_lines.
Definition report (manifest_dir : string) (s1 s2 k : bytes) : list string :=
  opening s1 s2 k ++ final_lines manifest_dir k (disk_layout s1 s2 k) ((len k + 511) / 512).

(** Running [main] when its inputs are refused or accepted. *)
Lemma main_refused dir o d :
  (∀ p b, files d !! p = Some b → len b < 2 ^ 63) →
  (∀ s1 s2 k, reads d stage1_path s1 → reads d stage2_path s2 → reads d kernel_path k → ¬ acceptable s1 s2 k) →
  ∃ e o', main dir (mkHost o d) = Done (inr e, mkHost (o ++ banner ++ o') d) ∧ refused d e.
Proof.
  intros Hsz Hno. assert (∀ e o1, banner `prefix_of` o1 → refused d e → ∃ e' o',
    Done (inr (A := unit) e, mkHost (o ++ o1) d) = Done (inr e', mkHost (o ++ banner ++ o') d) ∧ refused d e') as Hend.
  { intros e o1 [o' ->] He. by exists e, o'. }
  unfold main. do 2 (erewrite bind_run; [|reflexivity]). cbn [console host_disk]. cbv zeta.
  destruct (read_file_spec d stage1_path) as [(s1 & -> & E1)|(e & -> & He & _)]; [set_solver| |by apply Hend].
  do 2 (erewrite bind_run; [|first [reflexivity|unfold lift; rewrite check_stage1_spec; reflexivity]]).
  cbn [console host_disk]. rewrite <- app_assoc.
  destruct (decide (length s1 = 512%nat)) as [L1|L1]; [|apply Hend; [by apply prefix_app_r|by apply refused_stage1_size]].
  destruct (decide _) as [S1|S1]; [|apply Hend; [by apply prefix_app_r|by eapply refused_signature]].
  destruct (read_file_spec d stage2_path) as [(s2 & -> & E2)|(e & -> & He & _)];
    [set_solver| |apply Hend; [by apply prefix_app_r|done]].
  erewrite bind_run; [|reflexivity]. cbn [console host_disk]. rewrite check_stage2_spec, <- !app_assoc.
  destruct (decide (len s2 ≤ 32 * 512)) as [L2|L2];
    [|apply Hend; [by apply prefix_app_r|]; apply refused_stage2; [done|lia]].
  destruct (read_file_spec d kernel_path) as [(k & -> & E3)|(e & -> & He & _)];
    [set_solver| |apply Hend; [by apply prefix_app_r|done]]. pose proof (Hsz _ _ (proj1 E3)) as Hk.
  do 2 (erewrite bind_run; [|first [reflexivity|unfold lift; rewrite check_kernel_spec by done; reflexivity]]).
  cbn [console host_disk]. rewrite <- !app_assoc.
  destruct (decide (len k = 0)) as [L3|L3].
  { apply Hend; [by apply prefix_app_r|]. apply refused_empty. destruct k; [done|]. unfold len in L3. simpl in L3. lia. }
  destruct (decide (len k ≤ 1024 * 512)) as [L4|L4]; [|apply Hend; [by apply prefix_app_r|]; apply refused_kernel; [done|lia]].
  exfalso. destruct S1. apply (Hno s1 s2 k); [done..|]. unfold acceptable, len in *. split_and!; (done || lia).
Qed.

Lemma main_accepted dir o d s1 s2 k :
  reads d stage1_path s1 → reads d stage2_path s2 → reads d kernel_path k →
  acceptable s1 s2 k → main dir (mkHost o d) =
    match write_file output_path (disk_layout s1 s2 k) d with
    | Done (inl _, d') => Done (inl (), mkHost (o ++ report dir s1 s2 k) d')
    | Done (inr e, d') => Done (inr e, mkHost (o ++ opening s1 s2 k) d')
    | Panicked f => Panicked f
    end.
Proof.
  intros E1%read_file_reads E2%read_file_reads E3%read_file_reads Ha. pose proof (build_image_spec _ _ _ Ha) as Hb.
  destruct Ha as (L1 & B1 & B2 & L2 & L3 & L4).
  unfold main. do 2 (erewrite bind_run; [|reflexivity]). cbn [console host_disk]. cbv zeta. rewrite E1.
  do 2 (erewrite bind_run; [|first [reflexivity|unfold lift; rewrite check_stage1_spec, decide_True, decide_True by done; reflexivity]]).
  rewrite E2. erewrite bind_run; [|reflexivity]. rewrite check_stage2_spec, decide_True, E3 by done.
  do 2 (erewrite bind_run; [|first [reflexivity|unfold lift; rewrite check_kernel_spec, decide_False, decide_True by lia; reflexivity]]).
  cbv iota beta.
  do 2 (erewrite bind_run; [|first [reflexivity|unfold lift; rewrite Hb; reflexivity]]). cbn [console host_disk].
  unfold report, opening. rewrite <- !app_assoc. unfold mbind, M_bind, zoom at 1. cbn [host_disk].
  destruct (write_file output_path _ d) as [[[[]|e] d']|f]; unfold fail, print_lines, mret, M_ret, set_host_disk; cbn [console host_disk];
    rewrite <- ?app_assoc; reflexivity.
Qed.

(** C37: The image builder never panics (on files below 2^63 bytes) and does one
    of two things.  When the boot sector is 512 bytes ending in 55 AA, the second
    stage fits its 32 sectors and the kernel is not empty and fits its 1024, it
    writes an image of 1057 sectors from which the BIOS reads back the boot sector
    at sector 0, the second stage at sector 1 and the kernel at sector 33, each
    padded with zeros, and prints its report; a full disk leaves the written part and
    an output that cannot be created leaves the disk alone, with the system's error.
    Otherwise it says why (a file that is absent, one that cannot be read, with the
    system's error, or one that is not acceptable), after its banner, and the disk is
    untouched. *)
Theorem image_builder_spec dir o d :
  (∀ p b, files d !! p = Some b → len b < 2 ^ 63) →
  (∃ s1 s2 k image,
    reads d stage1_path s1 ∧ reads d stage2_path s2 ∧ reads d kernel_path k ∧
    acceptable s1 s2 k ∧ len image = 1057 * 512 ∧
    sectors 0 1 image = s1 ∧
    sectors 1 32 image = s2 ++ replicate (32 * 512 - length s2) 0 ∧
    sectors 33 1024 image = k ++ replicate (1024 * 512 - length k) 0 ∧
    main dir (mkHost o d) =
      match create_error d with
      | None =>
          let d' := set_files (<[output_path := take (room d) image]> (files d)) (room d - length image) d in
          Done (if Nat.leb (length image) (room d) then (inl (), mkHost (o ++ report dir s1 s2 k) d')
                else (inr (write_error d), mkHost (o ++ opening s1 s2 k) d'))
      | Some e => Done (inr e, mkHost (o ++ opening s1 s2 k) d)
      end) ∨
  (∃ e o', main dir (mkHost o d) = Done (inr e, mkHost (o ++ banner ++ o') d) ∧ refused d e ∧
    ∀ s1 s2 k, reads d stage1_path s1 → reads d stage2_path s2 → reads d kernel_path k → ¬ acceptable s1 s2 k).
Proof.
  intros Hsz. assert (∀ p b b', reads d p b → reads d p b' → b = b') as Heq by (intros p b b' [H1 _] [H2 _]; congruence).
  assert ((∀ s1 s2 k, reads d stage1_path s1 → reads d stage2_path s2 → reads d kernel_path k → ¬ acceptable s1 s2 k) ∨
    ∃ s1 s2 k, reads d stage1_path s1 ∧ reads d stage2_path s2 ∧ reads d kernel_path k ∧ acceptable s1 s2 k)
    as [Hno|(s1 & s2 & k & R1 & R2 & R3 & Ha)].
  { destruct (read_file_spec d stage1_path) as [(s1 & _ & R1)|(? & _ & _ & N)]; [set_solver| |left; intros; by edestruct N].
    destruct (read_file_spec d stage2_path) as [(s2 & _ & R2)|(? & _ & _ & N)]; [set_solver| |left; intros; by edestruct N].
    destruct (read_file_spec d kernel_path) as [(k & _ & R3)|(? & _ & _ & N)]; [set_solver| |left; intros; by edestruct N].
    destruct (decide (acceptable s1 s2 k)) as [Ha|Ha]; [right; by exists s1, s2, k|left].
    intros s1' s2' k' H1 H2 H3. by rewrite (Heq _ _ _ H1 R1), (Heq _ _ _ H2 R2), (Heq _ _ _ H3 R3). }
  - right. destruct (main_refused dir o d Hsz Hno) as (e & o' & Hm & Hr). by exists e, o'.
  - left. exists s1, s2, k, (disk_layout s1 s2 k).
    destruct (disk_layout_sectors _ _ _ Ha) as (H0 & H1 & H33).
    split_and!; try done; [by apply disk_layout_length|].
    rewrite (main_accepted dir o d s1 s2 k) by done. unfold write_file, mbind, M_bind, file_create.
    destruct (create_error d) eqn:Ec; [done|]. unfold write_all, set_files.
    cbn [files unreadable create_error room write_error]. rewrite insert_insert_eq. by destruct (Nat.leb _ _).
Qed.

(** A disk with a boot sector, a second stage and a kernel of a few bytes. *)
Definition demo_stage1 : bytes := replicate 510 0x90 ++ [0x55; 0xAA].
Definition demo_disk : disk :=
  mkDisk {[ stage1_path := demo_stage1; stage2_path := [0xFA; 0xF4]; kernel_path := [0x7F; 69; 76; 70] ]} ∅ None
    (Z.to_nat 600000) (Os 28).

Lemma image_builder_spec_witness :
  ∃ image, sectors 33 1024 image = [0x7F; 69; 76; 70] ++ replicate (1024 * 512 - 4) 0 ∧
    main "/src" (mkHost [] demo_disk) = Done (inl (),
      mkHost (report "/src" demo_stage1 [0xFA; 0xF4] [0x7F; 69; 76; 70])
        (set_files (<[output_path := take (Z.to_nat 600000) image]> (files demo_disk))
          (Z.to_nat 600000 - length image) demo_disk)).
Proof.
  destruct (image_builder_spec "/src" [] demo_disk)
    as [(s1 & s2 & k & image & [E1 _] & [E2 _] & [E3 _] & _ & L & _ & _ & H33 & H)|(e & o & _ & _ & H)].
  - intros p b Hb. unfold demo_disk in Hb. cbn [files] in Hb.
    apply lookup_insert_Some in Hb as [[_ <-]|[_ Hb]]; [reflexivity|].
    apply lookup_insert_Some in Hb as [[_ <-]|[_ Hb]]; [reflexivity|].
    apply lookup_singleton_Some in Hb as [_ <-]. reflexivity.
  - exists image. assert (k = [0x7F; 69; 76; 70]) as -> by (vm_compute in E3; congruence).
    assert (s2 = [0xFA; 0xF4]) as -> by (vm_compute in E2; congruence).
    assert (Some s1 = Some demo_stage1) as [= ->] by (rewrite <- E1; reflexivity).
    split; [exact H33|]. refine (eq_trans H _). unfold demo_disk. cbn [create_error room files].
    rewrite (proj2 (Nat.leb_le _ _)); [reflexivity|]. unfold len in L. lia.
  - exfalso. apply (H demo_stage1 [0xFA; 0xF4] [0x7F; 69; 76; 70]); [split; reflexivity..|].
    unfold acceptable. split_and!; vm_compute; try reflexivity; intros X; discriminate X.
Defined.
