(* ===== verification/BuildScript.v ===== *)
(** * The build script of the image builder (tools/image-builder/build.rs)

    Cargo runs it before the image builder is built: it finds [llvm-objcopy] through
    the sysroot that [rustc] prints and lets it strip the kernel's ELF file into the
    file the image builder reads.  The two programs and the environment are
    arguments.  Texts are lists of code points; what [rustc] prints is bytes, which
    the script decodes.  The lines for Cargo are kept, in order, and a panic carries
    its message, up to the path of [llvm-objcopy] shown in one of them. *)

From S2P Require Import Prelude ImageBuilder.
Local Open Scope Z_scope.

Abbreviation text := (list Z).
Definition of_string (s : string) : text := (λ a, Z.of_N (Ascii.N_of_ascii a)) <$> String.list_ascii_of_string s.

(** ** The standard library *)

Definition between (lo hi b : Z) : bool := (lo <=? b) && (b <=? hi).
Definition continuation (b : Z) : bool := between 0x80 0xBF b.

(** [String::from_utf8]: the code points, unless a sequence is malformed, overlong, a
    surrogate or beyond U+10FFFF. *)
Fixpoint from_utf8 (l : bytes) : option text :=
  match l with
  | [] => Some []
  | b0 :: r0 =>
      if between 0x00 0x7F b0 then cons b0 <$> from_utf8 r0
      else match r0 with
      | [] => None
      | b1 :: r1 =>
          if between 0xC2 0xDF b0 then
            if continuation b1 then cons ((b0 - 0xC0) * 0x40 + (b1 - 0x80)) <$> from_utf8 r1 else None
          else match r1 with
          | [] => None
          | b2 :: r2 =>
              let lo := if b0 =? 0xE0 then 0xA0 else 0x80 in
              let hi := if b0 =? 0xED then 0x9F else 0xBF in
              if between 0xE0 0xEF b0 then
                if between lo hi b1 && continuation b2
                then cons ((b0 - 0xE0) * 0x1000 + (b1 - 0x80) * 0x40 + (b2 - 0x80)) <$> from_utf8 r2 else None
              else match r2 with
              | [] => None
              | b3 :: r3 =>
                  let lo := if b0 =? 0xF0 then 0x90 else 0x80 in
                  let hi := if b0 =? 0xF4 then 0x8F else 0xBF in
                  if between 0xF0 0xF4 b0 && between lo hi b1 && continuation b2 && continuation b3
                  then cons ((b0 - 0xF0) * 0x40000 + (b1 - 0x80) * 0x1000 + (b2 - 0x80) * 0x40 + (b3 - 0x80)) <$> from_utf8 r3
                  else None
              end
          end
      end
  end.

(** [char::is_whitespace] and [str::trim]. *)
Definition is_whitespace (c : Z) : bool :=
  between 0x09 0x0D c || (c =? 0x20) || (c =? 0x85) || (c =? 0xA0) || (c =? 0x1680) || between 0x2000 0x200A c
  || (c =? 0x2028) || (c =? 0x2029) || (c =? 0x202F) || (c =? 0x205F) || (c =? 0x3000).
Fixpoint trim_start (s : text) : text :=
  match s with
  | c :: rest => if is_whitespace c then trim_start rest else s
  | [] => []
  end.
Definition trim (s : text) : text := rev (trim_start (rev (trim_start s))).

(** [PathBuf::join]. *)
Definition slash : Z := 0x2F.
Definition join (path part : text) : text :=
  match part with
  | c :: _ => if c =? slash then part
              else match last path with
              | None => part
              | Some d => if d =? slash then path ++ part else path ++ slash :: part
              end
  | [] => match last path with
          | None => []
          | Some d => if d =? slash then path else path ++ [slash]
          end
  end.

(** ** The script *)

Definition kernel_elf_path : string := "target/x86_64-unknown-none/debug/unbound-kernel".
Definition stripped_path : string := "target/unbound-kernel-stripped.elf".

Inductive build_result := Built | BuildPanic (message : string).
(** The exit of a program: whether it succeeded, and what it printed. *)
Record exit := mkExit { success : bool; stdout : bytes }.

Record build_state := mkBuild { printed : list string; build_disk : disk }.
Definition println (s : string) : M build_state unit := λ st,
  Done ((), mkBuild (printed st ++ [s]) (build_disk st)).

Section script.
(** [CARGO_MANIFEST_DIR], [rustc --print sysroot], the variable HOST, the files outside the project, and
    [llvm-objcopy], run by its path on its arguments; [None] is a program that could
    not be executed. *)
Context (manifest_dir : string) (rustc : option exit) (HOST : option text) (exists_outside : text → bool)
  (objcopy : text → list string → disk → option (exit * disk)).

Definition objcopy_path (sysroot host : text) : text :=
  join (join (join (join (join sysroot (of_string "lib")) (of_string "rustlib")) host) (of_string "bin"))
    (of_string "llvm-objcopy").

Definition run_objcopy (path : text) : M build_state build_result := λ st,
  match objcopy path ["--strip-all"; kernel_elf_path; stripped_path] (build_disk st) with
  | None => Done (BuildPanic "failed to execute llvm-objcopy", st)
  | Some (status, d) =>
      let st := mkBuild (printed st) d in
      if negb (success status) then Done (BuildPanic "llvm-objcopy failed while stripping kernel ELF", st)
      else (println ("cargo:warning=Kernel stripped: " +:+ project_root manifest_dir +:+ "/" +:+ stripped_path) ;; mret Built) st
  end.

Definition build_main : M build_state build_result :=
  println "cargo:rerun-if-changed=../../kernel/src" ;;
  println "cargo:rerun-if-changed=../../kernel/Cargo.toml" ;;
  println "cargo:rerun-if-changed=../../kernel/linker.ld" ;;
  println "cargo:rerun-if-changed=../../boot/stage1/stage1.bin" ;;
  println "cargo:rerun-if-changed=../../boot/stage2/stage2.bin" ;;
  st ← get;
  match files (build_disk st) !! kernel_elf_path with
  | None => mret (BuildPanic ("kernel ELF not found: " +:+ project_root manifest_dir +:+ "/" +:+ kernel_elf_path +:+
      String (Ascii.ascii_of_nat 10) "Build it first with: cargo build -p unbound-kernel"))
  | Some _ =>
      match rustc with
      | None => mret (BuildPanic "failed to execute rustc")
      | Some sysroot =>
          if negb (success sysroot) then mret (BuildPanic "rustc --print sysroot failed")
          else match from_utf8 (stdout sysroot) with
          | None => mret (BuildPanic "rustc returned invalid UTF-8")
          | Some sysroot =>
              match HOST with
              | None => mret (BuildPanic "Cargo HOST environment variable is not set")
              | Some host =>
                  let path := objcopy_path (trim sysroot) host in
                  if negb (exists_outside path) then mret (BuildPanic "llvm-objcopy not found")
                  else run_objcopy path
              end
          end
      end
  end.
End script.

(** ** What the script finds *)

Lemma from_utf8_ascii l : Forall (λ b, between 0x00 0x7F b = true) l → from_utf8 l = Some l.
Proof. induction 1 as [|b l Hb _ IH]; [done|]. cbn [from_utf8]. by rewrite Hb, IH. Qed.

Lemma trim_start_id c s : is_whitespace c = false → trim_start (c :: s) = c :: s.
Proof. intros H. cbn [trim_start]. by rewrite H. Qed.
(** A text that neither begins nor ends with white space, and a line end. *)
Definition trimmed (s : text) : Prop := ∃ c d, head s = Some c ∧ last s = Some d ∧ is_whitespace c = false ∧ is_whitespace d = false.
Lemma trim_line s : trimmed s → trim (s ++ [0x0A]) = s.
Proof.
  intros (c & d & Hc & Hd & Wc & Wd). destruct s as [|x s]; [done|]. injection Hc as ->.
  unfold trim. cbn [app]. rewrite trim_start_id by done.
  change (c :: s ++ [0x0A]) with ((c :: s) ++ [0x0A]). rewrite rev_app_distr. cbn [rev app trim_start].
  change (is_whitespace 0x0A) with true. cbv iota.
  destruct (last_Some (c :: s) d) as [H _]. destruct (H Hd) as [s' E]. change (rev s ++ [c]) with (rev (c :: s)).
  rewrite E, rev_app_distr. cbn [rev app]. rewrite trim_start_id by done. cbn [rev]. by rewrite rev_involutive.
Qed.

Section specs.
Context (manifest_dir : string) (rustc : option exit) (HOST : option text) (exists_outside : text → bool)
  (objcopy : text → list string → disk → option (exit * disk)).

(** Only [llvm-objcopy] changes the disk. *)
Lemma build_disk_changes d r st : build_main manifest_dir rustc HOST exists_outside objcopy (mkBuild [] d) = Done (r, st) →
  (build_disk st = d ∧ r ≠ Built) ∨
  ∃ path e d', objcopy path ["--strip-all"; kernel_elf_path; stripped_path] d = Some (e, d') ∧ build_disk st = d' ∧
    (r = Built ↔ success e = true).
Proof.
  unfold build_main. intros E. do 6 run_inv E. injection E0 as _ <-. injection E1 as _ <-. injection E2 as _ <-.
  injection E3 as _ <-. injection E4 as _ <-. injection E5 as <- <-. cbn [printed build_disk app] in E.
  destruct (files d !! kernel_elf_path); [|injection E as <- <-; by left].
  destruct rustc as [sysroot|]; [|injection E as <- <-; by left].
  destruct (success sysroot); cbn [negb] in E; [|injection E as <- <-; by left].
  destruct (from_utf8 (stdout sysroot)) as [s|]; [|injection E as <- <-; by left].
  destruct HOST as [host|]; [|injection E as <- <-; by left].
  destruct (exists_outside _); cbn [negb] in E; [|injection E as <- <-; by left].
  unfold run_objcopy in E. cbn [build_disk printed] in E.
  destruct (objcopy _ _ d) as [[e d']|] eqn:Eo; [|injection E as <- <-; by left].
  right. exists (objcopy_path (trim s) host), e, d'. split; [done|].
  destruct (success e); cbn [negb] in E; injection E as <- <-; done.
Qed.

(** The documented behaviour of [llvm-objcopy --strip-all in out]: when it succeeds, the
    output file is the stripped input, which can be read, and no other file has changed. *)
Definition strips (strip : bytes → bytes) : Prop := ∀ path d e d' k, files d !! kernel_elf_path = Some k →
  objcopy path ["--strip-all"; kernel_elf_path; stripped_path] d = Some (e, d') → success e = true →
  files d' = <[stripped_path := strip k]> (files d) ∧ create_error d' = create_error d ∧
  unreadable d' = delete stripped_path (unreadable d).

(** C40: From the kernel's ELF file to the disk image.  With the boot stages readable on disk,
    [rustc] printing its sysroot on a line, and [llvm-objcopy] where the script looks
    for it and working as documented, the build script succeeds and the image builder
    then writes an image that holds the boot sector, the second stage and, from sector
    33 on, the stripped kernel, provided these are acceptable and the disk has room.
    The file the script writes is the one the image builder reads. *)
Theorem build_pipeline strip d k s1 s2 sysroot host e d1 :
  files d !! kernel_elf_path = Some k → reads d stage1_path s1 → reads d stage2_path s2 →
  acceptable s1 s2 (strip k) → strips strip → create_error d = None →
  rustc = Some (mkExit true (sysroot ++ [0x0A])) → Forall (λ b, between 0x00 0x7F b = true) sysroot → trimmed sysroot →
  HOST = Some host → exists_outside (objcopy_path sysroot host) = true →
  objcopy (objcopy_path sysroot host) ["--strip-all"; kernel_elf_path; stripped_path] d = Some (e, d1) → success e = true →
  (1057 * 512 ≤ room d1)%nat →
  ∃ st image h, build_main manifest_dir rustc HOST exists_outside objcopy (mkBuild [] d) = Done (Built, st) ∧
    main manifest_dir (mkHost [] (build_disk st)) = Done (inl (), h) ∧ files (host_disk h) !! output_path = Some image ∧
    sectors 0 1 image = s1 ∧ sectors 1 32 image = s2 ++ replicate (32 * 512 - length s2) 0 ∧
    sectors 33 1024 image = strip k ++ replicate (1024 * 512 - length (strip k)) 0.
Proof.
  intros Hk [H1 H1'] [H2 H2'] Hacc Hs Hcc -> Hascii Htrim -> Hex Ho He Hroom.
  destruct (Hs _ _ _ _ _ Hk Ho He) as (Hf & Hc & Hu). pose proof (disk_layout_length _ _ _ Hacc) as Hlen. unfold len in Hlen.
  eexists _, (disk_layout s1 s2 (strip k)), _. split; [|split; [|split; [|by apply disk_layout_sectors]]].
  - unfold build_main. do 6 (erewrite bind_run; [|reflexivity]). cbn [printed build_disk app]. rewrite Hk. cbn [success stdout negb].
    rewrite from_utf8_ascii by (apply Forall_app; split; [done|by apply Forall_singleton]). rewrite trim_line, Hex by done.
    cbn [negb]. unfold run_objcopy. cbn [build_disk printed]. rewrite Ho, He. reflexivity.
  - cbn [build_disk]. rewrite (main_accepted _ _ d1 s1 s2 (strip k)).
    + unfold write_file. erewrite (bind_run _ _ d1); [|unfold file_create; by rewrite Hc, Hcc]. unfold write_all.
      cbn [files set_files room]. rewrite (proj2 (Nat.leb_le _ _)) by lia. reflexivity.
    + unfold reads. rewrite Hf, Hu, lookup_insert_ne, lookup_delete_ne by discriminate. done.
    + unfold reads. rewrite Hf, Hu, lookup_insert_ne, lookup_delete_ne by discriminate. done.
    + unfold reads. rewrite Hf, Hu. split; [apply lookup_insert_eq|apply lookup_delete_eq].
    + done.
  - cbn [files set_files host_disk]. rewrite lookup_insert_eq. f_equal. apply take_ge. lia.
Qed.
End specs.

(** A machine on which the script works: the stripped kernel is the first four bytes. *)
Definition demo_build_disk : disk :=
  mkDisk {[ stage1_path := demo_stage1; stage2_path := [0xFA; 0xF4]; kernel_elf_path := [0x7F; 69; 76; 70; 1; 2] ]}
    ∅ None (Z.to_nat 600000) (Os 28).
Definition demo_objcopy (path : text) (args : list string) (d : disk) : option (exit * disk) :=
  match files d !! kernel_elf_path with
  | Some k => Some (mkExit true [], mkDisk (<[stripped_path := take 4 k]> (files d)) (delete stripped_path (unreadable d))
      (create_error d) (room d) (write_error d))
  | None => None
  end.

Lemma build_pipeline_witness : ∃ st image h,
  build_main "/src" (Some (mkExit true (of_string "/opt/rust" ++ [0x0A]))) (Some (of_string "x86_64-unknown-linux-gnu"))
    (λ p, bool_decide (p = of_string "/opt/rust/lib/rustlib/x86_64-unknown-linux-gnu/bin/llvm-objcopy"))
    demo_objcopy (mkBuild [] demo_build_disk) = Done (Built, st) ∧
  main "/src" (mkHost [] (build_disk st)) = Done (inl (), h) ∧ files (host_disk h) !! output_path = Some image ∧
  sectors 33 1024 image = [0x7F; 69; 76; 70] ++ replicate (1024 * 512 - 4) 0.
Proof.
  assert (acceptable demo_stage1 [0xFA; 0xF4] (take 4 [0x7F; 69; 76; 70; 1; 2])) as Hacc.
  { unfold acceptable. split_and!; vm_compute; try reflexivity; intros X; discriminate X. }
  assert (files demo_build_disk !! kernel_elf_path = Some [0x7F; 69; 76; 70; 1; 2]) as Hfile by reflexivity.
  assert (strips demo_objcopy (take 4)) as Hs.
  { intros path d e d' k Hk Ho _. unfold demo_objcopy in Ho. rewrite Hk in Ho. injection Ho as _ <-. split_and!; reflexivity. }
  destruct (build_pipeline "/src" (Some (mkExit true (of_string "/opt/rust" ++ [0x0A]))) (Some (of_string "x86_64-unknown-linux-gnu"))
    (λ p, bool_decide (p = of_string "/opt/rust/lib/rustlib/x86_64-unknown-linux-gnu/bin/llvm-objcopy")) demo_objcopy
    (take 4) demo_build_disk [0x7F; 69; 76; 70; 1; 2] demo_stage1 [0xFA; 0xF4] (of_string "/opt/rust")
    (of_string "x86_64-unknown-linux-gnu") (mkExit true [])
    (mkDisk (<[stripped_path := [0x7F; 69; 76; 70]]> (files demo_build_disk)) ∅ None (Z.to_nat 600000) (Os 28)))
    as (st & image & d2 & HB & HM & HI & _ & _ & H33).
  - exact Hfile.
  - split; reflexivity.
  - split; reflexivity.
  - exact Hacc.
  - exact Hs.
  - reflexivity.
  - reflexivity.
  - apply Forall_forall. intros x Hx. assert (forallb (between 0 0x7F) (of_string "/opt/rust") = true) as H by reflexivity.
    rewrite forallb_forall in H. by apply H, list_elem_of_In.
  - eexists _, _. repeat split; reflexivity.
  - reflexivity.
  - reflexivity.
  - unfold demo_objcopy. rewrite Hfile. reflexivity.
  - reflexivity.
  - cbn [room]. lia.
  - exists st, image, d2. split; [exact HB|]. split; [exact HM|]. split; [exact HI|exact H33].
Defined.
