(* ===== verification/BootLoader.v ===== *)
(** * The boot loader (boot/stage1/boot.asm, boot/stage2/stage2.asm)

    The boot sector reads the second stage, the second stage reads the kernel's ELF
    file, asks the BIOS for the memory map, copies the loadable segments to their
    physical addresses, fills in the boot information and jumps to the entry point.
    The BIOS services are arguments: [int13 lba count] is what the extended disk read
    transfers, [int15 ebx] what the memory-map call answers.  Memory is byte
    addressed; in long mode the stage has mapped the first 2 MiB, and an access
    beyond them faults.  The second stage keeps its variables in its own image, from
    the label boot_drive on, whose address [vars] is the assembler's; they are read
    and written there.  The drive number the boot sector keeps in its own sector, and
    what is pushed on the stacks below 0x7C00, 0x8000 and 0x90000, are not kept. *)

From S2P Require Import Prelude BootInfo ImageBuilder.
Local Open Scope Z_scope.

(** What the BIOS answers to INT 15h, E820: the carry flag, EAX, EBX, ECX and the
    bytes it wrote to the buffer. *)
Record e820_reply := mkReply { r_carry : bool; r_eax : Z; r_ebx : Z; r_ecx : Z; r_bytes : bytes }.

Definition kernel_buffer : Z := 0x20000.
Definition kernel_max_sectors : Z := 1024.
Definition kernel_read_chunk : Z := 32.
Definition memory_map_buffer : Z := 0x60000.
Definition SMAP : Z := 0x534D4150.

(** ** Long mode *)

(** The pages of the second stage: 2 MiB from 0. *)
Definition mapped (a n : Z) : bool := (0 <=? a) && (a + n <=? 0x200000).
Definition load_at (m : bytemem) (a : Z) (n : nat) : option Z :=
  let a := cast 64 a in if mapped a (Z.of_nat n) then Some (le_load m a n) else None.

Fixpoint memory_copy (rcx : nat) (rsi rdi : Z) (m : bytemem) : option bytemem :=
  match rcx with
  | O => Some m
  | S k =>
      if mapped rsi 1 && mapped rdi 1
      then memory_copy k (rsi + 1) (rdi + 1) (<[rdi := default 0 (m !! rsi)]> m)
      else None
  end.
Fixpoint memory_zero (rcx : nat) (rdi : Z) (m : bytemem) : option bytemem :=
  match rcx with
  | O => Some m
  | S k => if mapped rdi 1 then memory_zero k (rdi + 1) (<[rdi := 0]> m) else None
  end.

(** [elf_program_loop] with [n] headers to go: R10 and R11 are the lowest address and
    the highest end so far.  The sizes are read again after the copy, as in the code. *)
Fixpoint elf_program_loop (n : nat) (rbx r14 r10 r11 : Z) (m : bytemem) : option (Z * Z * bytemem) :=
  match n with
  | O => Some (r10, r11, m)
  | S k =>
      p_type ← load_at m rbx 4;
      if negb (p_type =? 1) then elf_program_loop k (cast 64 (rbx + r14)) r14 r10 r11 m
      else
        p_offset ← load_at m (rbx + 0x08) 8;
        let rsi := cast 64 (kernel_buffer + p_offset) in
        p_paddr ← load_at m (rbx + 0x18) 8;
        let r10 := if r10 <=? p_paddr then r10 else p_paddr in
        p_memsz ← load_at m (rbx + 0x28) 8;
        let rax := cast 64 (p_paddr + p_memsz) in
        let r11 := if rax <=? r11 then r11 else rax in
        p_filesz ← load_at m (rbx + 0x20) 8;
        m ← memory_copy (Z.to_nat p_filesz) rsi p_paddr m;
        p_memsz ← load_at m (rbx + 0x28) 8;
        p_filesz' ← load_at m (rbx + 0x20) 8;
        m ← memory_zero (Z.to_nat (cast 64 (p_memsz - p_filesz'))) (p_paddr + p_filesz) m;
        elf_program_loop k (cast 64 (rbx + r14)) r14 r10 r11 m
  end.

(** What follows the entry into long mode: the entry point and the kernel's range. *)
Inductive elf_result :=
  | Loaded (e_entry r10 r11 : Z) (m : bytemem)
  | ElfError
  | PageFault.

Definition load_elf (m : bytemem) : elf_result :=
  let rsi := kernel_buffer in
  if negb (le_load m rsi 4 =? 0x464C457F) then ElfError
  else if negb (le_load m (rsi + 4) 1 =? 2) then ElfError
  else if negb (le_load m (rsi + 5) 1 =? 1) then ElfError
  else
    let r12 := le_load m (rsi + 0x18) 8 in
    let r13 := le_load m (rsi + 0x20) 8 in
    let r14 := le_load m (rsi + 0x36) 2 in
    let r15 := le_load m (rsi + 0x38) 2 in
    match elf_program_loop (Z.to_nat r15) (cast 64 (rsi + r13)) r14 0xFFFFFFFFFFFFFFFF 0 m with
    | None => PageFault
    | Some (r10, r11, m) => Loaded r12 r10 r11 m
    end.

(** ** The stages *)

(** Where a stage ends: at the kernel's entry with RDI, or halted with the texts it
    printed last, or with a fault nothing handles. *)
Inductive boot_result :=
  | Jump (rip rdi : Z) (m : bytemem)
  | BootHalt (message : list string)
  | TripleFault.

Section loader.
Context (int13 : Z → Z → option bytes) (int15 : Z → e820_reply) (vars : Z).

(** The transfer of a disk address packet: offset and segment of the buffer. *)
Definition disk_read (count offset segment lba : Z) (m : bytemem) : option bytemem :=
  store_bytes m (16 * segment + offset) <$> int13 lba count.

(** [load_stage2]: 32 sectors from sector 1 to 0000:8000. *)
Definition load_stage2 (m : bytemem) : option bytemem := disk_read 32 0x8000 0 1 m.

(** The variables of the second stage, in the order of the source; the disk address
    packet is aligned to four bytes. *)
Definition boot_drive_at : Z := vars.
Definition memory_map_count_at : Z := vars + 1.
Definition memory_map_error_code_at : Z := vars + 3.
Definition kernel_remaining : Z := vars + 4.
Definition kernel_current_chunk : Z := vars + 6.
Definition kernel_destination_segment : Z := vars + 8.
Definition kernel_current_lba_low : Z := vars + 10.
Definition kernel_current_lba_high : Z := vars + 14.
Definition kernel_dap : Z := 4 * ((vars + 18 + 3) / 4).

(** The extended read of the BIOS with DS:SI at the packet. *)
Definition int13_read (dap : Z) (m : bytemem) : option bytemem :=
  disk_read (le_load m (dap + 2) 2) (le_load m (dap + 4) 2) (le_load m (dap + 6) 2)
    (le_load m (dap + 8) 4 + 2 ^ 32 * le_load m (dap + 12) 4) m.

(** [.use_remaining]: the packet of the next chunk of [ax] sectors. *)
Definition fill_dap (ax : Z) (m : bytemem) : bytemem :=
  let m := le_store m kernel_current_chunk 2 ax in
  let m := le_store m (kernel_dap + 2) 2 ax in
  let m := le_store m (kernel_dap + 4) 2 0 in
  let m := le_store m (kernel_dap + 6) 2 (le_load m kernel_destination_segment 2) in
  let m := le_store m (kernel_dap + 8) 4 (le_load m kernel_current_lba_low 4) in
  le_store m (kernel_dap + 12) 4 (le_load m kernel_current_lba_high 4).
(** After the read: the sectors left, the sector number with its carry, the segment. *)
Definition advance (m : bytemem) : bytemem :=
  let chunk := le_load m kernel_current_chunk 2 in
  let m := le_store m kernel_remaining 2 (cast 16 (le_load m kernel_remaining 2 - chunk)) in
  let low := le_load m kernel_current_lba_low 4 + chunk in
  let m := le_store m kernel_current_lba_low 4 (cast 32 low) in
  let m := le_store m kernel_current_lba_high 4 (cast 32 (le_load m kernel_current_lba_high 4 + low / 2 ^ 32)) in
  le_store m kernel_destination_segment 2
    (cast 16 (le_load m kernel_destination_segment 2 + cast 16 (Z.shiftl chunk 5))).
Fixpoint load_next_chunk (fuel : nat) (m : bytemem) : option bytemem :=
  match fuel with
  | O => Some m
  | S k =>
      let ax := le_load m kernel_remaining 2 in
      if ax =? 0 then Some m
      else
        let ax := if ax <=? kernel_read_chunk then ax else kernel_read_chunk in
        m ← int13_read kernel_dap (fill_dap ax m);
        load_next_chunk k (advance m)
  end.
(** At most 1024 rounds, one sector each; the last finds nothing left. *)
Definition load_kernel (m : bytemem) : option bytemem :=
  let m := le_store m kernel_remaining 2 kernel_max_sectors in
  let m := le_store m kernel_destination_segment 2 0x2000 in
  let m := le_store m kernel_current_lba_low 4 33 in
  let m := le_store m kernel_current_lba_high 4 0 in
  load_next_chunk (S (Z.to_nat kernel_max_sectors)) m.

(** [.e820_next]: the number of entries, or the error code, with memory. *)
Fixpoint e820_next (fuel : nat) (ebx si di : Z) (m : bytemem) : (Z * bytemem) + (Z * bytemem) :=
  match fuel with
  | O => inl (si, m)
  | S k =>
      if 128 <=? si then inl (si, m)
      else
        let m := le_store m (memory_map_buffer + cast 16 (di + 20)) 4 1 in
        let reply := int15 ebx in
        let m := store_bytes m (memory_map_buffer + di) (r_bytes reply) in
        if r_carry reply then inr (1, m)
        else if negb (r_eax reply =? SMAP) then inr (2, m)
        else if r_ecx reply <? 20 then inr (3, m)
        else
          let si := cast 16 (si + 1) in
          let di := cast 16 (di + 24) in
          if r_ebx reply =? 0 then inl (si, m) else e820_next k (r_ebx reply) si di m
  end.
(** At most 128 entries; the last round finds the table full.  The count is stored, or
    the error code is, with no entries. *)
Definition detect_memory_map (m : bytemem) : bytemem + bytemem :=
  match e820_next 129 0 0 0 m with
  | inl (si, m) => inl (le_store m memory_map_count_at 2 si)
  | inr (code, m) => inr (le_store (le_store m memory_map_error_code_at 1 code) memory_map_count_at 2 0)
  end.

Definition error_code_text (code : Z) : string :=
  String (Ascii.ascii_of_N (Z.to_N (code + 48))) EmptyString.

Definition stage2 (drive : Z) (m : bytemem) : boot_result :=
  let m := le_store m boot_drive_at 1 drive in
  match load_kernel m with
  | None => BootHalt ["KERNEL DISK READ ERROR"]
  | Some m =>
      match detect_memory_map m with
      | inr m => BootHalt ["MEMORY MAP ERROR CODE "; error_code_text (le_load m memory_map_error_code_at 1)]
      | inl m =>
          match load_elf m with
          | ElfError => BootHalt ["ELF ERROR"]
          | PageFault => TripleFault
          | Loaded r12 r10 r11 m =>
              Jump r12 STAGE2_BOOT_INFO
                (stage2_build_boot_info (le_load m boot_drive_at 1) (le_load m memory_map_count_at 2) r10 r11 m)
          end
      end
  end.

(** From the boot sector on; the second stage runs where it was loaded. *)
Definition boot_loader (drive : Z) (m : bytemem) : boot_result :=
  match load_stage2 m with
  | None => BootHalt ["STAGE 2 LOAD ERROR"]
  | Some m => stage2 drive m
  end.
End loader.

(** ** Copies *)

Lemma mapped_true a n : mapped a n = true ↔ 0 ≤ a ∧ a + n ≤ 0x200000.
Proof. unfold mapped. rewrite andb_true_iff, Z.leb_le, Z.leb_le. done. Qed.

(** Memory holds the bytes [bs] at [a]. *)
Definition holds (m : bytemem) (a : Z) (bs : bytes) : Prop :=
  ∀ i x, bs !! i = Some x → m !! (a + Z.of_nat i) = Some x.

Lemma holds_store m a bs : holds (store_bytes m a bs) a bs.
Proof. intros i x Hi. by apply store_bytes_in. Qed.
Lemma holds_other m a b bs bs' : holds m a bs → b + Z.of_nat (length bs') ≤ a ∨ a + Z.of_nat (length bs) ≤ b →
  holds (store_bytes m b bs') a bs.
Proof.
  intros H Hd i x Hi. rewrite store_bytes_other; [by apply H|]. apply lookup_lt_Some in Hi. lia.
Qed.
Lemma holds_slice m a bs o n : holds m a bs → holds m (a + Z.of_nat o) (take n (drop o bs)).
Proof.
  intros H i x Hi. apply lookup_take_Some in Hi as [Hi _]. rewrite lookup_drop in Hi.
  rewrite <- (H (o + i)%nat x Hi). f_equal. lia.
Qed.

Lemma holds_app m a bs bs' : holds m a (bs ++ bs') → holds m a bs ∧ holds m (a + Z.of_nat (length bs)) bs'.
Proof.
  intros H. split.
  - intros i x Hi. apply H. by apply lookup_app_l_Some.
  - intros i x Hi. rewrite <- (H (length bs + i)%nat x); [f_equal; lia|]. rewrite lookup_app_r by lia. rewrite <- Hi. f_equal. lia.
Qed.
Lemma holds_same m m' a bs : holds m a bs → (∀ b, a ≤ b < a + Z.of_nat (length bs) → m' !! b = m !! b) → holds m' a bs.
Proof. intros H Hs i x Hi. rewrite Hs; [by apply H|]. apply lookup_lt_Some in Hi. lia. Qed.
Lemma holds_le m a n x : holds m a (le_bytes n x) → 0 ≤ x < 256 ^ Z.of_nat n → le_load m a n = x.
Proof.
  intros H Hx. transitivity (le_load (le_store ∅ a n x) a n); [|by apply le_load_store_same].
  apply le_load_ext. intros i Hi. rewrite le_store_bytes.
  destruct (lookup_lt_is_Some_2 (le_bytes n x) (Z.to_nat i)) as [y Hy]; [rewrite le_bytes_length; lia|].
  pose proof (H _ _ Hy) as E. pose proof (store_bytes_in _ ∅ a _ _ Hy) as E'. rewrite Z2Nat.id in E, E' by lia. congruence.
Qed.

(** A copy that does not overlap its source. *)
Lemma memory_copy_run bs src dst m : holds m src bs → 0 ≤ src → src + Z.of_nat (length bs) ≤ dst →
  dst + Z.of_nat (length bs) ≤ 0x200000 → memory_copy (length bs) src dst m = Some (store_bytes m dst bs).
Proof.
  revert src dst m. induction bs as [|b bs IH]; intros src dst m Hm Hs Hd Hmax; [done|].
  cbn [length memory_copy store_bytes] in *. rewrite (proj2 (mapped_true src 1)), (proj2 (mapped_true dst 1)) by lia. cbn [andb].
  pose proof (Hm 0%nat b eq_refl) as H0. rewrite Z.add_0_r in H0. rewrite H0. cbn [default].
  apply IH; [|lia|lia|lia]. intros i x Hi. rewrite lookup_insert_ne.
  - rewrite <- (Hm (S i) x Hi). f_equal. lia.
  - apply lookup_lt_Some in Hi. lia.
Qed.
Lemma memory_zero_run n dst m : 0 ≤ dst → dst + Z.of_nat n ≤ 0x200000 →
  memory_zero n dst m = Some (store_bytes m dst (replicate n 0)).
Proof.
  revert dst m. induction n as [|n IH]; intros dst m H0 H1; [done|]. cbn [memory_zero replicate store_bytes].
  rewrite (proj2 (mapped_true dst 1)) by lia. apply IH; lia.
Qed.

(** ** ELF files *)

Record segment := mkSegment { p_offset : Z; p_paddr : Z; p_filesz : Z; p_memsz : Z }.

Section elf.
Context (f : bytes).
(** A little-endian number in the file. *)
Definition field (off : Z) (n : nat) : Z := le_load (store_bytes ∅ 0 f) off n.
Definition e_entry : Z := field 0x18 8.
Definition e_phoff : Z := field 0x20 8.
Definition e_phentsize : Z := field 0x36 2.
Definition e_phnum : Z := field 0x38 2.
(** The program headers, and the loadable segments among them. *)
Definition header (i : nat) : Z := e_phoff + Z.of_nat i * e_phentsize.
Definition segment_at (h : Z) : segment :=
  mkSegment (field (h + 0x08) 8) (field (h + 0x18) 8) (field (h + 0x20) 8) (field (h + 0x28) 8).
Definition loadable (h : Z) : bool := field h 4 =? 1.
Definition segments_from (i n : nat) : list segment :=
  segment_at <$> filter (λ h, loadable h = true) (header <$> seq i n).
Definition segments : list segment := segments_from 0 (Z.to_nat e_phnum).

(** What a segment puts in memory: its bytes of the file, then zeros. *)
Definition segment_bytes (s : segment) : bytes :=
  take (Z.to_nat (p_filesz s)) (drop (Z.to_nat (p_offset s)) f) ++ replicate (Z.to_nat (p_memsz s - p_filesz s)) 0.
Definition place (m : bytemem) (s : segment) : bytemem := store_bytes m (p_paddr s) (segment_bytes s).

(** A segment the loader can place: inside the file, and between 1 and 2 MiB. *)
Definition segment_ok (s : segment) : Prop :=
  p_offset s + p_filesz s ≤ Z.of_nat (length f) ∧ p_filesz s ≤ p_memsz s ∧
  0x100000 ≤ p_paddr s ∧ p_paddr s + p_memsz s ≤ 0x200000.
(** An ELF file the loader can load: the identification, the headers inside the file,
    and segments that do not overlap.  The file fits below the memory map. *)
Record elf_ok : Prop := {
  ek_bytes : Forall (in_u 8) f;
  ek_size : 64 ≤ Z.of_nat (length f) ≤ memory_map_buffer - kernel_buffer;
  ek_magic : field 0 4 = 0x464C457F;
  ek_class : field 4 1 = 2;
  ek_endian : field 5 1 = 1;
  ek_headers i : (i < Z.to_nat e_phnum)%nat → header i + 56 ≤ Z.of_nat (length f);
  ek_segments : Forall segment_ok segments;
  ek_apart i j s t : segments !! i = Some s → segments !! j = Some t → i ≠ j →
    p_paddr s + p_memsz s ≤ p_paddr t ∨ p_paddr t + p_memsz t ≤ p_paddr s;
}.

(** ** Reading the file from the buffer *)

Context (Hok : elf_ok).

Lemma field_bound off n : 0 ≤ field off n < 256 ^ Z.of_nat n.
Proof using Hok.
  apply le_load_bound. intros i _. destruct (store_bytes ∅ 0 f !! (off + i)) as [x|] eqn:E; [|cbn; lia]. cbn.
  destruct (decide (0 ≤ off + i < Z.of_nat (length f))) as [Hin|Hout].
  - destruct (lookup_lt_is_Some_2 f (Z.to_nat (off + i))) as [y Hy]; [lia|].
    pose proof (store_bytes_in f ∅ 0 _ _ Hy) as E'. rewrite Z2Nat.id, Z.add_0_l, E in E' by lia. injection E' as ->.
    pose proof (Forall_lookup_1 _ _ _ _ (ek_bytes Hok) Hy) as Hb. exact Hb.
  - rewrite store_bytes_other in E by lia. by rewrite lookup_empty in E.
Qed.

Lemma buffer_field m off n : holds m kernel_buffer f → 0 ≤ off → off + Z.of_nat n ≤ Z.of_nat (length f) →
  le_load m (kernel_buffer + off) n = field off n.
Proof using.
  intros Hm H0 Hl. unfold field. rewrite <- (le_load_shift (store_bytes ∅ 0 f) m off (kernel_buffer + off)); [done|].
  intros i Hi. destruct (lookup_lt_is_Some_2 f (Z.to_nat (off + i))) as [y Hy]; [lia|].
  pose proof (store_bytes_in f ∅ 0 _ _ Hy) as E. pose proof (Hm _ _ Hy) as E'.
  rewrite Z2Nat.id in E, E' by lia. rewrite Z.add_0_l in E. rewrite E, <- E'. f_equal. lia.
Qed.
Lemma buffer_load m off n : holds m kernel_buffer f → 0 ≤ off → off + Z.of_nat n ≤ Z.of_nat (length f) →
  load_at m (kernel_buffer + off) n = Some (field off n).
Proof using Hok.
  intros Hm H0 Hl. pose proof (ek_size Hok) as Hs. unfold memory_map_buffer in Hs. unfold load_at.
  assert (cast 64 (kernel_buffer + off) = kernel_buffer + off) as -> by (unfold cast; apply Z.mod_small; unfold kernel_buffer in *; lia).
  rewrite (proj2 (mapped_true _ _)) by (unfold kernel_buffer in *; lia). by rewrite buffer_field.
Qed.

(** ** The program loop *)

Definition lowest (r : Z) (s : segment) : Z := if r <=? p_paddr s then r else p_paddr s.
Definition highest (r : Z) (s : segment) : Z :=
  if p_paddr s + p_memsz s <=? r then r else p_paddr s + p_memsz s.

Lemma header_bound i : 0 ≤ header i.
Proof using Hok. pose proof (field_bound 0x20 8). pose proof (field_bound 0x36 2). unfold header, e_phoff, e_phentsize. lia. Qed.
Lemma segments_from_S i n : segments_from i (S n) =
  (if loadable (header i) then [segment_at (header i)] else []) ++ segments_from (S i) n.
Proof using.
  unfold segments_from. cbn [seq fmap list_fmap]. rewrite filter_cons. destruct (loadable (header i)).
  - by rewrite decide_True.
  - by rewrite decide_False.
Qed.

Lemma segment_bytes_length s : segment_ok s → 0 ≤ p_offset s → 0 ≤ p_filesz s →
  Z.of_nat (length (segment_bytes s)) = p_memsz s.
Proof using.
  intros (H1 & H2 & _) H3 H4. unfold segment_bytes. rewrite length_app, length_replicate, length_take, length_drop. lia.
Qed.
Lemma segment_at_bound h : 0 ≤ p_offset (segment_at h) < 2 ^ 64 ∧ 0 ≤ p_paddr (segment_at h) < 2 ^ 64 ∧
  0 ≤ p_filesz (segment_at h) < 2 ^ 64 ∧ 0 ≤ p_memsz (segment_at h) < 2 ^ 64.
Proof using Hok.
  pose proof (field_bound (h + 0x08) 8). pose proof (field_bound (h + 0x18) 8).
  pose proof (field_bound (h + 0x20) 8). pose proof (field_bound (h + 0x28) 8). cbn [p_offset p_paddr p_filesz p_memsz segment_at].
  change (256 ^ Z.of_nat 8) with (2 ^ 64) in *. done.
Qed.

(** The file stays in the buffer: segments go above 1 MiB. *)
Lemma holds_place m s : holds m kernel_buffer f → segment_ok s → holds (place m s) kernel_buffer f.
Proof using Hok.
  intros Hm Hs. apply holds_other; [done|]. right. pose proof (ek_size Hok) as Hl.
  unfold segment_ok, memory_map_buffer, kernel_buffer in *. lia.
Qed.

(** One header of a loadable segment. *)
Lemma place_run m s : holds m kernel_buffer f → segment_ok s → 0 ≤ p_offset s → 0 ≤ p_filesz s → ∃ m1,
  memory_copy (Z.to_nat (p_filesz s)) (cast 64 (kernel_buffer + p_offset s)) (p_paddr s) m = Some m1 ∧
  holds m1 kernel_buffer f ∧
  memory_zero (Z.to_nat (cast 64 (p_memsz s - p_filesz s))) (p_paddr s + p_filesz s) m1 = Some (place m s).
Proof using Hok.
  intros Hm Hs Ho Hz. pose proof Hs as (H1 & H2 & H3 & H4). pose proof (ek_size Hok) as Hl.
  unfold memory_map_buffer, kernel_buffer in *. set (bs := take (Z.to_nat (p_filesz s)) (drop (Z.to_nat (p_offset s)) f)).
  assert (Z.of_nat (length bs) = p_filesz s) as Hb by (unfold bs; rewrite length_take, length_drop; lia).
  assert (cast 64 (0x20000 + p_offset s) = 0x20000 + p_offset s) as -> by (unfold cast; apply Z.mod_small; lia).
  exists (store_bytes m (p_paddr s) bs). replace (Z.to_nat (p_filesz s)) with (length bs) by lia. split; [|split].
  - apply memory_copy_run; [|lia|lia|lia]. pose proof (holds_slice m 0x20000 f (Z.to_nat (p_offset s)) (Z.to_nat (p_filesz s)) Hm) as Hh.
    by rewrite Z2Nat.id in Hh by lia.
  - apply holds_other; [done|]. lia.
  - assert (cast 64 (p_memsz s - p_filesz s) = p_memsz s - p_filesz s) as -> by (unfold cast; apply Z.mod_small; lia).
    rewrite memory_zero_run by lia. unfold place, segment_bytes. fold bs. by rewrite store_bytes_app, Hb.
Qed.

Lemma elf_loop_run n i m r10 r11 : (i + n = Z.to_nat e_phnum)%nat → Forall segment_ok (segments_from i n) →
  holds m kernel_buffer f →
  elf_program_loop n (cast 64 (kernel_buffer + header i)) e_phentsize r10 r11 m =
  Some (foldl lowest r10 (segments_from i n), foldl highest r11 (segments_from i n), foldl place m (segments_from i n)).
Proof using Hok.
  revert i m r10 r11. induction n as [|n IH]; intros i m r10 r11 Hi Hs Hm; [done|]. rewrite segments_from_S in *.
  pose proof (header_bound i) as H0. pose proof (ek_headers Hok i ltac:(lia)) as H1. pose proof (ek_size Hok) as Hl.
  assert (cast 64 (kernel_buffer + header i) = kernel_buffer + header i) as Hrbx
    by (unfold cast, kernel_buffer, memory_map_buffer in *; apply Z.mod_small; lia).
  assert (cast 64 (kernel_buffer + header i + e_phentsize) = cast 64 (kernel_buffer + header (S i))) as Hnext
    by (f_equal; unfold header; lia).
  cbn [elf_program_loop]. rewrite Hrbx, Hnext, (buffer_load m (header i) 4 Hm) by lia. cbn [mbind option_bind].
  fold (loadable (header i)). destruct (loadable (header i)); cbn [negb app] in *; [|by apply IH; [lia|..]].
  apply Forall_cons in Hs as [Hseg Hs]. destruct (segment_at_bound (header i)) as (B1 & B2 & B3 & B4).
  rewrite <- !Z.add_assoc, !(buffer_load m (header i + _) 8 Hm) by lia. cbn [mbind option_bind].
  destruct (place_run m _ Hm Hseg ltac:(lia) ltac:(lia)) as (m1 & E1 & Hm1 & E2).
  cbn [p_offset p_paddr p_filesz p_memsz segment_at] in E1, E2, B1, B2, B3, B4.
  rewrite E1. cbn [mbind option_bind]. rewrite !(buffer_load m1 (header i + _) 8 Hm1) by lia. cbn [mbind option_bind].
  rewrite E2. cbn [mbind option_bind foldl].
  rewrite IH; [|lia|done|by apply holds_place].
  assert (cast 64 (field (header i + 0x18) 8 + field (header i + 0x28) 8) = field (header i + 0x18) 8 + field (header i + 0x28) 8) as ->.
  { destruct Hseg as (_ & _ & _ & Hx). cbn in Hx. unfold cast. apply Z.mod_small. lia. }
  done.
Qed.

(** What is in memory after the segments have been placed. *)
Definition seg_apart (s t : segment) : Prop :=
  p_paddr s + p_memsz s ≤ p_paddr t ∨ p_paddr t + p_memsz t ≤ p_paddr s.

Lemma place_others segs m b : (∀ s, s ∈ segs → b < p_paddr s ∨ p_paddr s + Z.of_nat (length (segment_bytes s)) ≤ b) →
  foldl place m segs !! b = m !! b.
Proof using.
  revert m. induction segs as [|s segs IH]; intros m Hb; [done|]. cbn [foldl]. rewrite IH.
  - apply store_bytes_other. apply Hb. left.
  - intros t Ht. apply Hb. by right.
Qed.
Lemma place_all segs m i s : (∀ s, s ∈ segs → Z.of_nat (length (segment_bytes s)) = p_memsz s) →
  (∀ i j s t, segs !! i = Some s → segs !! j = Some t → i ≠ j → seg_apart s t) →
  segs !! i = Some s → holds (foldl place m segs) (p_paddr s) (segment_bytes s).
Proof using.
  revert m i. induction segs as [|t segs IH]; intros m i Hlen Hap Hi; [done|]. cbn [foldl].
  destruct i as [|i].
  - injection Hi as ->. intros k x Hk. rewrite place_others; [by apply holds_store|].
    intros u Hu. pose proof (lookup_lt_Some _ _ _ Hk). rewrite !Hlen in * by (by right || by left).
    apply list_elem_of_lookup in Hu as [j Hj]. pose proof (Hap 0%nat (S j) s u eq_refl Hj ltac:(done)) as Hd.
    unfold seg_apart in Hd. pose proof (Hlen s ltac:(left)). lia.
  - apply (IH (place m t) i); [|intros i' j' u v Hu Hv Hne|done].
    + intros u Hu. apply Hlen. by right.
    + apply (Hap (S i') (S j')); [done|done|lia].
Qed.

Lemma segments_in s : s ∈ segments → segment_ok s ∧ Z.of_nat (length (segment_bytes s)) = p_memsz s.
Proof using Hok.
  intros Hs. pose proof (proj1 (Forall_forall _ _) (ek_segments Hok) s Hs) as Hseg. split; [done|].
  unfold segments, segments_from in Hs. apply list_elem_of_fmap in Hs as (h & -> & _).
  destruct (segment_at_bound h) as (? & _ & ? & _). apply segment_bytes_length; [done|lia|lia].
Qed.

(** The range R10 and R11 end with. *)
Lemma lowest_le segs r : foldl lowest r segs ≤ r ∧ ∀ s, s ∈ segs → foldl lowest r segs ≤ p_paddr s.
Proof using.
  revert r. induction segs as [|t segs IH]; intros r; cbn [foldl]; [split; [lia|by intros s ?%not_elem_of_nil]|].
  destruct (IH (lowest r t)) as [H1 H2]. assert (lowest r t ≤ r ∧ lowest r t ≤ p_paddr t).
  { unfold lowest. destruct (Z.leb_spec r (p_paddr t)); lia. }
  split; [lia|]. intros s [->|Hs]%elem_of_cons; [lia|by apply H2].
Qed.
Lemma highest_ge segs r : r ≤ foldl highest r segs ∧ ∀ s, s ∈ segs → p_paddr s + p_memsz s ≤ foldl highest r segs.
Proof using.
  revert r. induction segs as [|t segs IH]; intros r; cbn [foldl]; [split; [lia|by intros s ?%not_elem_of_nil]|].
  destruct (IH (highest r t)) as [H1 H2]. assert (r ≤ highest r t ∧ p_paddr t + p_memsz t ≤ highest r t).
  { unfold highest. destruct (Z.leb_spec (p_paddr t + p_memsz t) r); lia. }
  split; [lia|]. intros s [->|Hs]%elem_of_cons; [lia|by apply H2].
Qed.
(** Both are reached, so the range is no larger than it must be. *)
Lemma lowest_reached segs r : foldl lowest r segs = r ∨ ∃ s, s ∈ segs ∧ foldl lowest r segs = p_paddr s.
Proof using.
  revert r. induction segs as [|t segs IH]; intros r; cbn [foldl]; [by left|].
  destruct (IH (lowest r t)) as [H|(s & Hs & H)]; [|right; exists s; by split; [right|]].
  rewrite H. unfold lowest. destruct (r <=? p_paddr t); [by left|]. right. exists t. by split; [left|].
Qed.
Lemma highest_reached segs r : foldl highest r segs = r ∨ ∃ s, s ∈ segs ∧ foldl highest r segs = p_paddr s + p_memsz s.
Proof using.
  revert r. induction segs as [|t segs IH]; intros r; cbn [foldl]; [by left|].
  destruct (IH (highest r t)) as [H|(s & Hs & H)]; [|right; exists s; by split; [right|]].
  rewrite H. unfold highest. destruct (p_paddr t + p_memsz t <=? r); [by left|]. right. exists t. by split; [left|].
Qed.

Definition kernel_start : Z := foldl lowest 0xFFFFFFFFFFFFFFFF segments.
Definition kernel_end : Z := foldl highest 0 segments.

Lemma load_elf_run m : holds m kernel_buffer f →
  load_elf m = Loaded e_entry kernel_start kernel_end (foldl place m segments).
Proof using Hok.
  intros Hm. pose proof (ek_size Hok) as Hl. unfold load_elf. cbv zeta.
  assert (∀ off n, 0 ≤ off → off + Z.of_nat n ≤ 64 → le_load m (kernel_buffer + off) n = field off n) as Hf.
  { intros off n H0 H1. apply buffer_field; [done|done|lia]. }
  pose proof (Hf 0 4%nat ltac:(lia) ltac:(lia)) as H4. rewrite Z.add_0_r in H4. rewrite H4, (ek_magic Hok), Z.eqb_refl.
  rewrite !Hf by lia. rewrite (ek_class Hok), (ek_endian Hok), !Z.eqb_refl. cbn [negb].
  fold e_entry e_phoff e_phentsize e_phnum. replace (kernel_buffer + e_phoff) with (kernel_buffer + header 0) by (unfold header; lia).
  rewrite (elf_loop_run (Z.to_nat e_phnum) 0); [done|done|apply (ek_segments Hok)|done].
Qed.
End elf.

(** ** The BIOS *)

Lemma store_bytes_lookup bs m a b : store_bytes m a bs !! b =
  match (if decide (a ≤ b) then bs !! Z.to_nat (b - a) else None) with Some x => Some x | None => m !! b end.
Proof.
  case_decide as Hd.
  - destruct (bs !! Z.to_nat (b - a)) as [x|] eqn:E.
    + rewrite <- (store_bytes_in bs m a _ _ E). f_equal. lia.
    + apply lookup_ge_None in E. apply store_bytes_other. lia.
  - apply store_bytes_other. lia.
Qed.

(** An entry of the map, and how the BIOS may deliver it: all of it, or without the
    attributes, which the loader has set to 1. *)
Definition entry_bytes (e : MemoryMapEntry) : bytes :=
  le_bytes 8 (base_addr e) ++ le_bytes 8 (entry_length e) ++ le_bytes 4 (entry_type e) ++ le_bytes 4 (attributes e).

Lemma store_bytes_agree (P : Z → Prop) bs a m m' : (∀ b, ¬ P b → m !! b = m' !! b) →
  ∀ b, ¬ P b → store_bytes m a bs !! b = store_bytes m' a bs !! b.
Proof. intros H b Hb. rewrite !store_bytes_lookup. destruct (if decide (a ≤ b) then _ else _); [done|by apply H]. Qed.
Lemma le_load_store_bytes m a bs b n : b + Z.of_nat n ≤ a → le_load (store_bytes m a bs) b n = le_load m b n.
Proof. intros H. apply le_load_ext. intros i Hi. apply store_bytes_other. lia. Qed.

Section bios.
Context (int13 : Z → Z → option bytes) (int15 : Z → e820_reply).
(** The variables lie inside the second stage. *)
Context (vars : Z) (Hvars : 0x8000 ≤ vars) (Hvars' : kernel_dap vars + 16 ≤ 0xC000).

(** The bytes of the variables, and of those that [load_kernel] writes. *)
Definition variable (b : Z) : Prop := vars ≤ b < kernel_dap vars + 16.
Definition load_variable (b : Z) : Prop := kernel_remaining vars ≤ b < kernel_dap vars + 16.

Lemma dap_range : vars + 18 ≤ kernel_dap vars.
Proof using. unfold kernel_dap. pose proof (Z.div_mod (vars + 18 + 3) 4 ltac:(lia)). pose proof (Z.mod_pos_bound (vars + 18 + 3) 4 ltac:(lia)). lia. Qed.

(** The disk read works on the sectors of [image]. *)
Definition reads_disk (image : bytes) : Prop := ∀ lba n, 0 ≤ lba → 0 < n ≤ 32 →
  (lba + n) * 512 ≤ len image → int13 lba n = Some (sectors (Z.to_nat lba) (Z.to_nat n) image).

(** The variables when [32 * j] sectors are left, the next of them [lba]. *)
Definition ready (j : nat) (segment lba : Z) (m : bytemem) : Prop :=
  le_load m (kernel_remaining vars) 2 = 32 * Z.of_nat j ∧ le_load m (kernel_destination_segment vars) 2 = segment ∧
  le_load m (kernel_current_lba_low vars) 4 = lba ∧ le_load m (kernel_current_lba_high vars) 4 = 0.

Local Ltac vars_addr := unfold kernel_remaining, kernel_destination_segment, kernel_current_lba_low,
  kernel_current_lba_high, kernel_current_chunk, kernel_max_sectors in *.
Local Ltac load_vars := repeat first
  [ rewrite le_load_store_same by (vars_addr; lia) | rewrite le_load_store_other by (vars_addr; lia) ].

(** A variable is not changed by stores elsewhere. *)
Local Ltac keep_var a := repeat rewrite (le_load_store_other _ _ _ _ (a vars)) by (vars_addr; lia).

Lemma fill_dap_run j segment lba m : ready (S j) segment lba m → 0 ≤ segment < 2 ^ 16 → 0 ≤ lba < 2 ^ 32 →
  int13_read int13 (kernel_dap vars) (fill_dap vars 32 m) =
    store_bytes (fill_dap vars 32 m) (16 * segment) <$> int13 lba 32 ∧
  ready (S j) segment lba (fill_dap vars 32 m) ∧ le_load (fill_dap vars 32 m) (kernel_current_chunk vars) 2 = 32 ∧
  ∀ b, ¬ load_variable b → fill_dap vars 32 m !! b = m !! b.
Proof using.
  intros (H1 & H2 & H3 & H4) Hs Hl. pose proof dap_range as Hd. unfold int13_read, disk_read, fill_dap, ready. cbv zeta.
  keep_var kernel_destination_segment. keep_var kernel_current_lba_low. keep_var kernel_current_lba_high. rewrite H2, H3, H4.
  split; [|split; [|split]].
  - load_vars. f_equal; [f_equal; lia|f_equal; lia].
  - load_vars. done.
  - load_vars. done.
  - intros b Hb. unfold load_variable in Hb. vars_addr. rewrite !le_store_other by lia. done.
Qed.

Lemma advance_run j segment lba m : ready (S j) segment lba m → le_load m (kernel_current_chunk vars) 2 = 32 →
  0 ≤ segment → segment + 0x400 < 2 ^ 16 → 0 ≤ lba → lba + 32 < 2 ^ 32 → Z.of_nat j < 32 →
  ready j (segment + 0x400) (lba + 32) (advance vars m) ∧ ∀ b, ¬ load_variable b → advance vars m !! b = m !! b.
Proof using.
  intros (H1 & H2 & H3 & H4) Hc Hs Hs' Hl Hl' Hj. pose proof dap_range as Hd. unfold advance. cbv zeta. rewrite Hc.
  change (cast 16 (Z.shiftl 32 5)) with 0x400. split.
  - keep_var kernel_current_lba_low. keep_var kernel_current_lba_high. keep_var kernel_destination_segment. rewrite H1, H2, H3, H4.
    rewrite (Z.div_small (lba + 32)) by lia. rewrite Z.add_0_r. change (cast 32 0) with 0. unfold cast.
    rewrite (Z.mod_small (32 * _ - 32)), (Z.mod_small (lba + 32)), (Z.mod_small (segment + 0x400)) by lia.
    unfold ready. load_vars. split; [lia|done].
  - intros b Hb. unfold load_variable in Hb. vars_addr. rewrite !le_store_other by lia. done.
Qed.

Lemma load_chunks_run image fuel j segment lba m : reads_disk image → (j < fuel)%nat → ready j segment lba m →
  0x2000 ≤ segment → segment + 0x400 * Z.of_nat j < 2 ^ 16 → 0 ≤ lba → lba + 32 * Z.of_nat j < 2 ^ 32 → Z.of_nat j ≤ 32 →
  (lba + 32 * Z.of_nat j) * 512 ≤ len image → ∃ m',
  load_next_chunk int13 vars fuel m = Some m' ∧
  ∀ b, ¬ load_variable b → m' !! b = store_bytes m (16 * segment) (sectors (Z.to_nat lba) (32 * j) image) !! b.
Proof using Hvars Hvars'.
  intros Hdisk. revert j segment lba m.
  induction fuel as [|fuel IH]; intros j segment lba m Hj Hr Hs Hs' Hl Hl' Hj' Hlen; [lia|]. cbn [load_next_chunk]. cbv zeta.
  pose proof Hr as (-> & _). destruct (Z.eqb_spec (32 * Z.of_nat j) 0) as [H0|H0].
  { exists m. split; [done|]. by replace j with 0%nat by lia. }
  destruct j as [|j]; [lia|].
  assert ((if 32 * Z.of_nat (S j) <=? kernel_read_chunk then 32 * Z.of_nat (S j) else kernel_read_chunk) = 32) as ->.
  { unfold kernel_read_chunk. destruct (Z.leb_spec (32 * Z.of_nat (S j)) 32); lia. }
  destruct (fill_dap_run j segment lba m Hr ltac:(lia) ltac:(lia)) as (E & (R1 & R2 & R3 & R4) & Hc & Ho). rewrite E, Hdisk by lia.
  cbn [fmap option_fmap option_map mbind option_bind]. change (Z.to_nat 32) with 32%nat. pose proof dap_range as Hd.
  set (m1 := store_bytes (fill_dap vars 32 m) (16 * segment) (sectors (Z.to_nat lba) 32 image)).
  destruct (advance_run j segment lba m1) as [Hr' Ho']; try lia.
  { unfold ready, m1. vars_addr. by rewrite !le_load_store_bytes by lia. }
  { unfold m1. vars_addr. by rewrite le_load_store_bytes by lia. }
  destruct (IH j (segment + 0x400) (lba + 32) (advance vars m1) ltac:(lia) Hr') as (m' & E' & Hm'); try lia.
  exists m'. split; [done|]. intros b Hb. rewrite Hm' by done.
  assert (length (sectors (Z.to_nat lba) 32 image) = (32 * 512)%nat) as Hlen32.
  { unfold sectors. rewrite length_take, length_drop. unfold len in Hlen. lia. }
  rewrite (store_bytes_agree load_variable _ _ _ m1) by done. unfold m1.
  replace (16 * (segment + 0x400)) with (16 * segment + Z.of_nat (length (sectors (Z.to_nat lba) 32 image)))
    by (rewrite Hlen32; lia).
  rewrite <- store_bytes_app, (store_bytes_agree load_variable _ _ _ m) by done. f_equal. f_equal. unfold sectors.
  replace (Z.to_nat (lba + 32) * 512)%nat with (Z.to_nat lba * 512 + 32 * 512)%nat by lia.
  rewrite <- drop_drop, take_take_drop. f_equal. lia.
Qed.

Definition replies (ebx : Z) (e : MemoryMapEntry) : Prop :=
  r_carry (int15 ebx) = false ∧ r_eax (int15 ebx) = SMAP ∧ 20 ≤ r_ecx (int15 ebx) ∧
  (r_bytes (int15 ebx) = entry_bytes e ∨ r_bytes (int15 ebx) = take 20 (entry_bytes e) ∧ attributes e = 1).
(** The entries the BIOS has from the continuation value [ebx] on. *)
Inductive e820_chain : Z → list MemoryMapEntry → Prop :=
  | chain_last ebx e : replies ebx e → r_ebx (int15 ebx) = 0 → e820_chain ebx [e]
  | chain_more ebx e es : replies ebx e → r_ebx (int15 ebx) ≠ 0 → e820_chain (r_ebx (int15 ebx)) es →
      e820_chain ebx (e :: es).

Lemma entry_bytes_length e : length (entry_bytes e) = 24%nat.
Proof. unfold entry_bytes. by rewrite !length_app, !le_bytes_length. Qed.

(** The reply over the preset attributes is the entry. *)
Lemma reply_stored ebx e m a : replies ebx e →
  store_bytes (le_store m (a + 20) 4 1) a (r_bytes (int15 ebx)) = store_bytes m a (entry_bytes e).
Proof.
  intros (_ & _ & _ & Hb). pose proof (entry_bytes_length e) as Hlen. rewrite le_store_bytes.
  apply map_eq. intros b. rewrite !store_bytes_lookup.
  destruct (decide (a ≤ b)) as [Hd|Hd]; [|by rewrite decide_False by lia].
  destruct Hb as [->|[-> Ha]].
  - destruct (entry_bytes e !! Z.to_nat (b - a)) as [x|] eqn:E; [done|]. apply lookup_ge_None in E.
    case_decide; [|done]. by rewrite lookup_ge_None_2 by (rewrite le_bytes_length; lia).
  - destruct (decide (Z.to_nat (b - a) < 20)%nat) as [Hl|Hl].
    + rewrite lookup_take_lt by done. destruct (lookup_lt_is_Some_2 (entry_bytes e) (Z.to_nat (b - a))) as [x ->]; [lia|done].
    + rewrite lookup_take_ge by lia. rewrite decide_True by lia. unfold entry_bytes. rewrite Ha.
      rewrite !app_assoc, (lookup_app_r _ (le_bytes 4 1)) by (rewrite !length_app, !le_bytes_length; lia).
      rewrite !length_app, !le_bytes_length.
      by replace (Z.to_nat (b - (a + 20))) with (Z.to_nat (b - a) - (8 + 8 + 4))%nat by lia.
Qed.

Definition map_bytes (es : list MemoryMapEntry) : bytes := mjoin (entry_bytes <$> es).

Lemma e820_run fuel ebx es si m : e820_chain ebx es → 0 ≤ si ≤ 128 → 129 - si ≤ Z.of_nat fuel →
  let got := take (Z.to_nat (128 - si)) es in
  e820_next int15 fuel ebx si (24 * si) m =
  inl (si + Z.of_nat (length got), store_bytes m (memory_map_buffer + 24 * si) (map_bytes got)).
Proof.
  intros Hc. revert fuel si m. induction Hc as [ebx e Hr H0|ebx e es Hr Hn _ IH]; intros fuel si m Hsi Hf;
    (destruct fuel as [|fuel]; [lia|]); cbn [e820_next]; cbv zeta;
    (destruct (Z.leb_spec 128 si) as [H128|H128];
      [replace si with 128 by lia; cbn; rewrite ?Z.add_0_r; done|]);
    (replace (Z.to_nat (128 - si)) with (S (Z.to_nat (128 - (si + 1)))) by lia);
    (assert (cast 16 (24 * si + 20) = 24 * si + 20) as -> by (unfold cast; apply Z.mod_small; lia));
    (replace (memory_map_buffer + (24 * si + 20)) with (memory_map_buffer + 24 * si + 20) by lia);
    rewrite (reply_stored ebx e) by done; destruct Hr as (-> & -> & Hecx & _); rewrite Z.eqb_refl; cbn [negb];
    rewrite (proj2 (Z.ltb_ge _ _)) by lia;
    (assert (cast 16 (si + 1) = si + 1) as -> by (unfold cast; apply Z.mod_small; lia));
    (assert (cast 16 (24 * si + 24) = 24 * (si + 1)) as -> by (unfold cast; rewrite Z.mod_small; lia)).
  - rewrite (proj2 (Z.eqb_eq _ _) H0). cbn [take length]. rewrite take_nil. unfold map_bytes.
    cbn [fmap list_fmap mjoin list_join length]. by rewrite app_nil_r.
  - rewrite (proj2 (Z.eqb_neq _ _) Hn), IH by lia. cbn [take length]. f_equal. f_equal; [lia|].
    unfold map_bytes. cbn [fmap list_fmap mjoin list_join]. rewrite store_bytes_app, entry_bytes_length. f_equal. lia.
Qed.

(** ** The loader on a disk made by the image builder *)

Context (s1 s2 k : bytes) (Hacc : acceptable s1 s2 k) (Hdisk : reads_disk (disk_layout s1 s2 k)).

Definition stage2_file : bytes := s2 ++ replicate (32 * 512 - length s2) 0.
Definition kernel_file : bytes := k ++ replicate (1024 * 512 - length k) 0.

Lemma kernel_file_length : len kernel_file = 0x80000.
Proof using Hacc.
  destruct Hacc as (_ & _ & _ & _ & _ & Hk). unfold kernel_file, len in *. rewrite length_app, length_replicate. lia.
Qed.
Lemma load_stage2_run m : load_stage2 int13 m = Some (store_bytes m 0x8000 stage2_file).
Proof using Hacc Hdisk.
  unfold load_stage2, disk_read. destruct (disk_layout_sectors _ _ _ Hacc) as (_ & H1 & _).
  rewrite Hdisk by (rewrite ?disk_layout_length by done; lia). cbn [fmap option_fmap option_map].
  change (Z.to_nat 1) with 1%nat. change (Z.to_nat 32) with 32%nat. by rewrite H1.
Qed.
Lemma load_kernel_run m : ∃ m', load_kernel int13 vars m = Some m' ∧
  ∀ b, ¬ load_variable b → m' !! b = store_bytes m kernel_buffer kernel_file !! b.
Proof using Hacc Hdisk Hvars Hvars'.
  pose proof dap_range as Hd. unfold load_kernel. cbv zeta.
  destruct (disk_layout_sectors _ _ _ Hacc) as (_ & _ & H33).
  set (m0 := le_store _ (kernel_current_lba_high vars) 4 0).
  destruct (load_chunks_run (disk_layout s1 s2 k) (S (Z.to_nat kernel_max_sectors)) 32 0x2000 33 m0 Hdisk) as (m' & E & Hm');
    try (unfold kernel_max_sectors; lia); [|rewrite disk_layout_length by done; lia|].
  { unfold ready, m0. load_vars. done. }
  exists m'. split; [done|]. intros b Hb. rewrite Hm' by done. change (Z.to_nat 33) with 33%nat.
  change (32 * 32)%nat with 1024%nat. rewrite H33. apply (store_bytes_agree load_variable); [|done].
  intros a Ha. unfold m0, load_variable in *. vars_addr. by rewrite !le_store_other by lia.
Qed.

(** What the kernel reads of the map. *)
Definition entry_u (e : MemoryMapEntry) : Prop :=
  in_u 64 (base_addr e) ∧ in_u 64 (entry_length e) ∧ in_u 32 (entry_type e) ∧ in_u 32 (attributes e).

Lemma entry_read m a e : holds m a (entry_bytes e) → entry_u e → MemoryMapEntry_read m a = e.
Proof using.
  intros H (H1 & H2 & H3 & H4). unfold entry_bytes in H.
  apply holds_app in H as [L1 H]. apply holds_app in H as [L2 H]. apply holds_app in H as [L3 L4].
  rewrite !le_bytes_length in *. unfold MemoryMapEntry_read.
  assert (c_offsets 0 MemoryMapEntry_fields = [0; 8; 16; 20]) as -> by done. cbn [nth]. cbv zeta.
  replace (a + Z.of_nat 8 + Z.of_nat 8 + Z.of_nat 4) with (a + 20) in L4 by lia.
  replace (a + Z.of_nat 8 + Z.of_nat 8) with (a + 16) in L3 by lia. change (Z.of_nat 8) with 8 in L2. rewrite Z.add_0_r.
  rewrite (holds_le _ _ _ _ L1), (holds_le _ _ _ _ L2), (holds_le _ _ _ _ L3), (holds_le _ _ _ _ L4) by done. by destruct e.
Qed.
Lemma map_bytes_at m a es i e : holds m a (map_bytes es) → es !! i = Some e → holds m (a + 24 * Z.of_nat i) (entry_bytes e).
Proof using.
  revert a i. induction es as [|e' es IH]; intros a i H Hi; [done|].
  change (map_bytes (e' :: es)) with (entry_bytes e' ++ map_bytes es) in H. apply holds_app in H as [H1 H2]. rewrite entry_bytes_length in H2.
  destruct i as [|i]; [injection Hi as ->; by rewrite Z.add_0_r|].
  replace (a + 24 * Z.of_nat (S i)) with (a + Z.of_nat 24 + 24 * Z.of_nat i) by lia. by apply IH.
Qed.
Lemma map_bytes_length es : length (map_bytes es) = (24 * length es)%nat.
Proof using.
  induction es as [|e es IH]; [done|]. change (map_bytes (e :: es)) with (entry_bytes e ++ map_bytes es).
  rewrite length_app, entry_bytes_length, IH. cbn [length]. lia.
Qed.
Lemma map_read m info es : holds m memory_map_buffer (map_bytes es) → Forall entry_u es →
  memory_map_addr info = memory_map_buffer → memory_map_count info = Z.of_nat (length es) → memory_map m info = es.
Proof using.
  intros H Hu Ha Hc. unfold memory_map. rewrite Ha, Hc. change (size_of MemoryMapEntry_fields) with 24.
  apply list_eq. intros i. rewrite list_lookup_fmap. destruct (es !! i) as [e|] eqn:Hi.
  - pose proof (lookup_lt_Some _ _ _ Hi). rewrite lookup_seqZ_lt by lia. cbn [fmap option_fmap option_map]. f_equal.
    apply entry_read; [|by eapply Forall_lookup_1]. by apply (map_bytes_at _ _ es).
  - apply lookup_ge_None in Hi. by rewrite lookup_seqZ_ge by lia.
Qed.

Lemma boot_info_other drive count r10 r11 m b : b < 0x70000 ∨ 0x70040 ≤ b →
  stage2_build_boot_info drive count r10 r11 m !! b = m !! b.
Proof using.
  intros Hb. unfold stage2_build_boot_info, STAGE2_BOOT_INFO. cbv zeta. rewrite !le_store_other by lia. done.
Qed.

(** Memory after the kernel file and the map have been read. *)
Lemma buffers_run es m : e820_chain 0 es → let got := take 128 es in ∃ m2,
  (m1 ← load_kernel int13 vars m; match detect_memory_map int15 vars m1 with inl m2 => Some m2 | inr _ => None end) = Some m2 ∧
  le_load m2 (memory_map_count_at vars) 2 = Z.of_nat (length got) ∧
  le_load m2 (boot_drive_at vars) 1 = le_load m (boot_drive_at vars) 1 ∧
  ∀ b, ¬ variable b →
    m2 !! b = store_bytes (store_bytes m kernel_buffer kernel_file) memory_map_buffer (map_bytes got) !! b.
Proof using Hacc Hdisk Hvars Hvars'.
  intros Hc got. destruct (load_kernel_run m) as (m1 & -> & Hm1). cbn [mbind option_bind]. unfold detect_memory_map.
  pose proof (e820_run 129 0 es 0 m1 Hc ltac:(lia) ltac:(lia)) as E. change (24 * 0) with 0 in E. rewrite E.
  change (Z.to_nat (128 - 0)) with 128%nat. fold got. rewrite Z.add_0_l, Z.add_0_r.
  assert (length got ≤ 128)%nat as Hg by (unfold got; rewrite length_take; lia). pose proof dap_range as Hd.
  eexists. split; [done|]. unfold variable, load_variable, memory_map_count_at, boot_drive_at, memory_map_buffer, kernel_buffer in *.
  vars_addr. split; [|split].
  - apply le_load_store_same. lia.
  - rewrite le_load_store_other, le_load_store_bytes by lia. apply le_load_ext. intros i Hi.
    rewrite Hm1 by lia. apply store_bytes_other. lia.
  - intros b Hb. rewrite le_store_other by lia. apply (store_bytes_agree (λ b, vars + 4 ≤ b < kernel_dap vars + 16)); [|lia].
    intros a Ha. by apply Hm1.
Qed.

Lemma place_low m b : elf_ok k → b < 0x100000 → foldl (place k) m (segments k) !! b = m !! b.
Proof using.
  intros Hk Hb. apply place_others. intros s Hs. destruct (segments_in k Hk s Hs) as [(_ & _ & ? & _) _]. lia.
Qed.

Lemma stage2_run es drive m : e820_chain 0 es → elf_ok k → in_u 8 drive → let got := take 128 es in ∃ m2,
  stage2 int13 int15 vars drive m = Jump (e_entry k) STAGE2_BOOT_INFO
    (stage2_build_boot_info drive (Z.of_nat (length got)) (kernel_start k) (kernel_end k) (foldl (place k) m2 (segments k))) ∧
  ∀ b, ¬ variable b →
    m2 !! b = store_bytes (store_bytes m kernel_buffer kernel_file) memory_map_buffer (map_bytes got) !! b.
Proof using Hacc Hdisk Hvars Hvars'.
  intros Hc Hk Hdr got. pose proof dap_range as Hd.
  destruct (buffers_run es (le_store m (boot_drive_at vars) 1 drive) Hc) as (m2 & E & Hn & Hb & Hm). unfold stage2. cbv zeta.
  destruct (load_kernel int13 vars _) as [m1|]; [|done]. cbn [mbind option_bind] in E.
  destruct (detect_memory_map int15 vars m1) as [m'|code]; [|done]. injection E as ->. fold got in Hn, Hm.
  assert (∀ b, ¬ variable b → m2 !! b = store_bytes (store_bytes m kernel_buffer kernel_file) memory_map_buffer (map_bytes got) !! b) as Hm2.
  { intros b Hv. rewrite Hm by done. do 2 (apply (store_bytes_agree variable); [clear b Hv; intros b Hv|done]).
    unfold variable, boot_drive_at in *. apply le_store_other. lia. }
  exists m2. split; [|done]. rewrite (load_elf_run k Hk m2).
  - assert (∀ a n, a + Z.of_nat n ≤ 0x100000 → le_load (foldl (place k) m2 (segments k)) a n = le_load m2 a n) as Hlow.
    { intros a n Ha. apply le_load_ext. intros i Hi. apply place_low; [done|lia]. }
    rewrite !Hlow by (unfold memory_map_count_at, boot_drive_at; lia). rewrite Hn, Hb, le_load_store_same by (unfold in_u in Hdr; lia). done.
  - pose proof (ek_size k Hk) as Hs. unfold memory_map_buffer, kernel_buffer in Hs.
    apply (holds_same (store_bytes (store_bytes m kernel_buffer kernel_file) memory_map_buffer (map_bytes got))).
    + apply holds_other; [|right; unfold memory_map_buffer, kernel_buffer in *; lia].
      apply (holds_app _ _ k (replicate (1024 * 512 - length k) 0)), holds_store.
    + intros b Hv. apply Hm2. unfold variable, kernel_buffer in *. lia.
Qed.

(** The range of the segments. *)
Lemma kernel_range : elf_ok k → (∃ s, s ∈ segments k ∧ 0 < p_memsz s) →
  0x100000 ≤ kernel_start k ∧ kernel_start k < kernel_end k ∧ kernel_end k ≤ 0x200000.
Proof using.
  intros Hk (s & Hs & Hpos). destruct (segments_in k Hk s Hs) as [(_ & _ & Hlo & Hhi) _].
  destruct (lowest_le (segments k) 0xFFFFFFFFFFFFFFFF) as [_ Hl]. destruct (highest_ge (segments k) 0) as [_ Hh].
  pose proof (Hl s Hs). pose proof (Hh s Hs). unfold kernel_start, kernel_end.
  split; [|split; [lia|]].
  - destruct (lowest_reached (segments k) 0xFFFFFFFFFFFFFFFF) as [->|(t & Ht & ->)]; [lia|].
    by destruct (segments_in k Hk t Ht) as [(_ & _ & ? & _) _].
  - destruct (highest_reached (segments k) 0) as [->|(t & Ht & ->)]; [lia|].
    by destruct (segments_in k Hk t Ht) as [(_ & _ & _ & ?) _].
Qed.

Lemma boot_loader_run es drive m :
  e820_chain 0 es → Forall entry_u es → in_u 8 drive → elf_ok k → (∃ s, s ∈ segments k ∧ 0 < p_memsz s) →
  ∃ m' info, boot_loader int13 int15 vars drive m = Jump (e_entry k) STAGE2_BOOT_INFO m' ∧
    validate_boot_info m' STAGE2_BOOT_INFO = Ok info ∧ memory_map m' info = take 128 es ∧
    kernel_phys_start info = kernel_start k ∧ kernel_phys_end info = kernel_end k ∧
    (∀ s, s ∈ segments k → holds m' (p_paddr s) (segment_bytes k s)) ∧
    (∀ i x, stage2_file !! i = Some x → ¬ variable (0x8000 + Z.of_nat i) → m' !! (0x8000 + Z.of_nat i) = Some x).
Proof using Hacc Hdisk Hvars Hvars'.
  intros Hc Hu Hd Hk Hpos. destruct (kernel_range Hk Hpos) as (R1 & R2 & R3). set (got := take 128 es).
  assert (length got ≤ 128)%nat as Hg by (unfold got; rewrite length_take; lia).
  assert (0 < length got)%nat as Hg0 by (unfold got; rewrite length_take; inversion Hc; cbn; lia).
  destruct (stage2_run es drive (store_bytes m 0x8000 stage2_file) Hc Hk Hd) as (m2 & HJ & Hm2). fold got in HJ, Hm2.
  set (m' := stage2_build_boot_info drive (Z.of_nat (length got)) (kernel_start k) (kernel_end k) (foldl (place k) m2 (segments k))) in HJ.
  exists m', (mkBootInfo BOOT_INFO_MAGIC BOOT_INFO_VERSION 64 drive (kernel_start k) (kernel_end k) 0x60000 (Z.of_nat (length got)) 24).
  assert (∀ b, b < 0x70000 → ¬ variable b → m' !! b =
    store_bytes (store_bytes (store_bytes m 0x8000 stage2_file) kernel_buffer kernel_file) memory_map_buffer (map_bytes got) !! b) as Hlow.
  { intros b Hb Hv. unfold m'. rewrite boot_info_other, place_low by (done || lia). by apply Hm2. }
  split; [unfold boot_loader; by rewrite load_stage2_run, HJ|].
  split; [|split; [|split; [done|split; [done|split]]]].
  - unfold m'. rewrite validate_stage2 by (done || (unfold in_u; lia)).
    rewrite (proj2 (Z.eqb_neq _ _)), (proj2 (Z.leb_gt _ _)) by lia. done.
  - apply map_read; [|by apply Forall_take|done|done]. eapply holds_same; [apply holds_store|].
    intros b Hb. rewrite map_bytes_length in Hb. unfold memory_map_buffer, variable in *. apply Hlow; lia.
  - intros s Hs. destruct (segments_in k Hk s Hs) as [(_ & _ & Hlo & _) _].
    apply (holds_same (foldl (place k) m2 (segments k))).
    + apply list_elem_of_lookup in Hs as [i Hi]. apply (place_all k (segments k) m2 i s); [|apply (ek_apart k Hk)|done].
      intros t Ht. by apply segments_in.
    + intros b Hb. unfold m'. apply boot_info_other. lia.
  - assert (len stage2_file = 0x4000) as Hl2.
    { destruct Hacc as (_ & _ & _ & H2 & _). unfold stage2_file, len in *. rewrite length_app, length_replicate. lia. }
    intros i x Hi Hv. pose proof (lookup_lt_Some _ _ _ Hi) as Hlt. unfold len in Hl2. rewrite Hlow by (done || lia).
    rewrite !(store_bytes_other _ _ _ (0x8000 + _)) by (unfold memory_map_buffer, kernel_buffer; lia). by apply store_bytes_in.
Qed.

(** C11: From the disk image to the kernel's entry.  On a disk with the image the image
    builder writes, with a BIOS that reads its sectors and lists the memory map [es],
    the boot sector and the second stage neither halt nor fault: they jump to the
    entry point of the kernel's ELF file with RDI at the boot information.  Then every
    loadable segment of the file is at its physical address, its bytes followed by
    zeros up to its size in memory; the second stage was not overwritten while it ran,
    its own variables apart; and the boot information passes all checks of [_start], gives the kernel a memory
    map that reads back as the first 128 entries the BIOS listed, and a kernel range
    that contains every segment and begins and ends with one.  The file must fit below
    the memory map, at 256 KiB: see [large_kernel_overwritten]. *)
Theorem boot_loader_spec es drive m :
  e820_chain 0 es → Forall entry_u es → in_u 8 drive → elf_ok k → (∃ s, s ∈ segments k ∧ 0 < p_memsz s) →
  ∃ m' info, boot_loader int13 int15 vars drive m = Jump (e_entry k) STAGE2_BOOT_INFO m' ∧
    validate_boot_info m' STAGE2_BOOT_INFO = Ok info ∧ memory_map m' info = take 128 es ∧
    0x100000 ≤ kernel_phys_start info < kernel_phys_end info ∧ kernel_phys_end info ≤ 0x200000 ∧
    (∃ s, s ∈ segments k ∧ p_paddr s = kernel_phys_start info) ∧
    (∃ s, s ∈ segments k ∧ p_paddr s + p_memsz s = kernel_phys_end info) ∧
    (∀ s, s ∈ segments k → holds m' (p_paddr s) (segment_bytes k s) ∧
       kernel_phys_start info ≤ p_paddr s ∧ p_paddr s + p_memsz s ≤ kernel_phys_end info) ∧
    (∀ i x, stage2_file !! i = Some x → ¬ variable (0x8000 + Z.of_nat i) → m' !! (0x8000 + Z.of_nat i) = Some x).
Proof using Hacc Hdisk Hvars Hvars'.
  intros Hc Hu Hd Hk Hpos. destruct (kernel_range Hk Hpos) as (R1 & R2 & R3).
  destruct (boot_loader_run es drive m Hc Hu Hd Hk Hpos) as (m' & info & HJ & HV & HM & Es & Ee & HS & H2).
  exists m', info. rewrite Es, Ee. do 3 (split; [done|]). split; [lia|]. split; [done|]. split; [|split; [|split; [|done]]].
  - destruct (lowest_reached (segments k) 0xFFFFFFFFFFFFFFFF) as [E|(t & Ht & E)]; [unfold kernel_start in R2; lia|by exists t].
  - destruct (highest_reached (segments k) 0) as [E|(t & Ht & E)]; [unfold kernel_end in R2; lia|by exists t].
  - intros s Hs. split; [by apply HS|]. split; [by apply lowest_le|by apply highest_ge].
Qed.

(** A kernel file above 256 KiB, which the image builder accepts, reaches past 0x60000
    in the buffer, and the memory map is written over it before it is parsed. *)
Lemma large_kernel_overwritten es m : e820_chain 0 es → ∃ m',
  (m1 ← load_kernel int13 vars m; match detect_memory_map int15 vars m1 with inl m2 => Some m2 | inr _ => None end) = Some m' ∧
  holds m' (kernel_buffer + 0x40000) (map_bytes (take 128 es)).
Proof using Hacc Hdisk Hvars Hvars'.
  intros Hc. destruct (buffers_run es m Hc) as (m' & E & _ & _ & Hm). exists m'. split; [done|].
  eapply holds_same; [apply holds_store|]. intros b Hb. apply Hm. unfold variable, memory_map_buffer, kernel_buffer in *. lia.
Qed.
End bios.

(** ** A disk that boots *)

(** An ELF file with one segment of four bytes at 1 MiB, [memsz] bytes in memory. *)
Definition demo_elf (memsz : Z) : bytes :=
  [0x7F; 0x45; 0x4C; 0x46; 2; 1] ++ replicate 18 0 ++ le_bytes 8 0x100000 ++ le_bytes 8 64 ++ replicate 14 0
  ++ le_bytes 2 56 ++ le_bytes 2 1 ++ replicate 6 0
  ++ le_bytes 4 1 ++ le_bytes 4 5 ++ le_bytes 8 120 ++ le_bytes 8 0x100000 ++ le_bytes 8 0x100000
  ++ le_bytes 8 4 ++ le_bytes 8 memsz ++ le_bytes 8 4096 ++ [0xFA; 0xF4; 0xEB; 0xFC].
Definition demo_int13 (k : bytes) (lba n : Z) : option bytes :=
  Some (sectors (Z.to_nat lba) (Z.to_nat n) (disk_layout demo_stage1 [0xFA; 0xF4] k)).
(** Two entries, the second without attributes. *)
Definition demo_map : list MemoryMapEntry :=
  [mkMemoryMapEntry 0 0x9F000 1 0; mkMemoryMapEntry 0x100000 0x7F00000 1 1].
Definition demo_int15 (ebx : Z) : e820_reply :=
  if ebx =? 0 then mkReply false SMAP 1 24 (entry_bytes (mkMemoryMapEntry 0 0x9F000 1 0))
  else mkReply false SMAP 0 20 (take 20 (entry_bytes (mkMemoryMapEntry 0x100000 0x7F00000 1 1))).

Lemma demo_reads k : reads_disk (demo_int13 k) (disk_layout demo_stage1 [0xFA; 0xF4] k).
Proof. intros lba n _ _ _. reflexivity. Qed.
Lemma demo_chain : e820_chain demo_int15 0 demo_map.
Proof.
  apply chain_more; [|discriminate|apply chain_last; [|reflexivity]];
    (split; [reflexivity|]; split; [reflexivity|]; split; [vm_compute; discriminate|]); [by left|by right].
Qed.
Lemma demo_entries : Forall entry_u demo_map.
Proof. repeat constructor; cbn; lia. Qed.
Lemma demo_acceptable memsz : memsz ∈ [16; 0x80000] → acceptable demo_stage1 [0xFA; 0xF4] (demo_elf memsz).
Proof.
  intros Hin. repeat (apply elem_of_cons in Hin as [->|Hin]; [unfold acceptable; split_and!; vm_compute; try reflexivity; intros X; discriminate X|]).
  by apply elem_of_nil in Hin.
Qed.
Lemma demo_segments memsz : memsz ∈ [16; 0x80000] → segments (demo_elf memsz) = [mkSegment 120 0x100000 4 memsz].
Proof.
  intros Hin. repeat (apply elem_of_cons in Hin as [->|Hin]; [vm_compute; reflexivity|]). by apply elem_of_nil in Hin.
Qed.
Lemma demo_bytes memsz : Forall (in_u 8) (demo_elf memsz).
Proof.
  assert (∀ n x, Forall (in_u 8) (le_bytes n x)) as Hle.
  { intros n. induction n as [|n IH]; intros x; constructor; [apply Z.mod_pos_bound; lia|apply IH]. }
  assert (∀ n, Forall (in_u 8) (replicate n 0)) as Hr by (intros n; apply Forall_replicate; unfold in_u; lia).
  unfold demo_elf. repeat (apply Forall_app; split); try apply Hle; try apply Hr; repeat constructor; unfold in_u; lia.
Qed.
Lemma demo_headers memsz : memsz ∈ [16; 0x80000] →
  field (demo_elf memsz) 0 4 = 0x464C457F ∧ field (demo_elf memsz) 4 1 = 2 ∧ field (demo_elf memsz) 5 1 = 1 ∧
  e_phnum (demo_elf memsz) = 1 ∧ header (demo_elf memsz) 0 = 64 ∧ length (demo_elf memsz) = 124%nat.
Proof.
  intros Hin. repeat (apply elem_of_cons in Hin as [->|Hin]; [vm_compute; tauto|]). by apply elem_of_nil in Hin.
Qed.
Lemma demo_elf_ok memsz : memsz ∈ [16; 0x80000] → elf_ok (demo_elf memsz).
Proof.
  intros Hin. destruct (demo_headers memsz Hin) as (H1 & H2 & H3 & H4 & H5 & H6).
  split; [apply demo_bytes| |exact H1|exact H2|exact H3| | |]; rewrite ?(demo_segments memsz Hin), ?H4, ?H6.
  - unfold memory_map_buffer, kernel_buffer. lia.
  - intros i Hi. replace i with 0%nat by lia. rewrite H5. lia.
  - apply Forall_singleton. unfold segment_ok. rewrite H6. cbn [p_offset p_filesz p_memsz p_paddr].
    clear -Hin. repeat (apply elem_of_cons in Hin as [->|Hin]; [lia|]). by apply elem_of_nil in Hin.
  - clear. intros [|i] [|j] s t Hi Hj Hne; done.
Qed.

Lemma boot_loader_spec_witness : ∃ m' info,
  boot_loader (demo_int13 (demo_elf 16)) demo_int15 0x8449 0x80 ∅ = Jump 0x100000 STAGE2_BOOT_INFO m' ∧
  validate_boot_info m' STAGE2_BOOT_INFO = Ok info ∧ memory_map m' info = demo_map ∧
  holds m' 0x100000 ([0xFA; 0xF4; 0xEB; 0xFC] ++ replicate 12 0).
Proof.
  assert (16 ∈ [16; 0x80000]) as Hin by apply list_elem_of_here.
  assert (in_u 8 0x80) as Hd by (unfold in_u; lia).
  assert (0x8000 ≤ 0x8449) as Hv by lia. assert (kernel_dap 0x8449 + 16 ≤ 0xC000) as Hv' by (vm_compute; discriminate).
  assert (∃ s, s ∈ segments (demo_elf 16) ∧ 0 < p_memsz s) as Hpos.
  { rewrite (demo_segments 16 Hin). eexists. split; [apply list_elem_of_here|]. reflexivity. }
  destruct (boot_loader_spec (demo_int13 (demo_elf 16)) demo_int15 0x8449 Hv Hv' demo_stage1 [0xFA; 0xF4] (demo_elf 16) (demo_acceptable 16 Hin)
    (demo_reads (demo_elf 16)) demo_map 0x80 ∅ demo_chain demo_entries Hd (demo_elf_ok 16 Hin) Hpos)
    as (m' & info & HJ & HV & HM & _ & _ & _ & _ & HS & _).
  exists m', info. split; [exact HJ|]. split; [exact HV|]. split; [exact HM|].
  rewrite (demo_segments 16 Hin) in HS. destruct (HS _ ltac:(apply list_elem_of_here)) as [HS' _]. exact HS'.
Defined.
