(* ===== verification/BootChain.v ===== *)
(** * From the disk to ring 3

    The boot loader of BootLoader.v hands over to [_start] of Boot.v: the boot
    information it leaves in memory is what [_start] validates, the memory map it
    leaves is what the frame allocator is initialised with, and the kernel range is
    what the allocator keeps free. *)

From S2P Require Import Prelude BootInfo FrameInterface FrameAllocator PageTable AddressSpace Heap Window Protection Budget.
From S2P Require Import Objects Ipc Descriptors Cpu Syscall Serial Devices SpinLock Console KernelTests Boot.
From S2P Require Import ImageBuilder BootLoader.
Local Open Scope Z_scope.

(** Part of a loaded segment. *)
Definition in_segment (k : bytes) (a n : Z) : Prop :=
  ∃ s, s ∈ segments k ∧ p_paddr s ≤ a ∧ a + n ≤ p_paddr s + p_memsz s.

Lemma in_segment_range k a n info :
  (∀ s, s ∈ segments k → kernel_phys_start info ≤ p_paddr s ∧ p_paddr s + p_memsz s ≤ kernel_phys_end info) →
  in_segment k a n → kernel_phys_start info ≤ a ∧ a + n ≤ kernel_phys_end info.
Proof. intros H (s & Hs & H1 & H2). destruct (H s Hs). lia. Qed.

Section chain.
(** The BIOS and the disk. *)
Context (int13 : Z → Z → option bytes) (int15 : Z → e820_reply) (s1 s2 k : bytes) (es : list MemoryMapEntry) (drive vars : Z).
Context (Hacc : acceptable s1 s2 k) (Hdisk : reads_disk int13 (disk_layout s1 s2 k)) (Hchain : e820_chain int15 0 es)
  (Hentries : Forall entry_u es) (Hdrive : in_u 8 drive) (Helf : elf_ok k)
  (Hvars : 0x8000 ≤ vars) (Hvars' : kernel_dap vars + 16 ≤ 0xC000).
(** The addresses the linker gave the statics and the entry points. *)
Context (gdt_addr tss_addr idt_addr df : Z) (unbound_isr : Z → Z) (unbound_irq0 : Z).
Context (Hgdt : 0 ≤ gdt_addr) (Hgdt' : gdt_addr + GDT_SIZE < 2 ^ 64) (Htss : 0 ≤ tss_addr)
  (Htss' : tss_addr + TSS_SIZE < 2 ^ 64) (Hdf : 0 ≤ df) (Hdf' : df + DOUBLE_FAULT_STACK_SIZE < 2 ^ 64)
  (Hdf16 : df mod 16 = 0) (Hidt : 0 ≤ idt_addr) (Hidt' : idt_addr + IDT_SIZE < 2 ^ 64)
  (Hisr : ∀ v, in_u 64 (unbound_isr v)) (Hirq : in_u 64 unbound_irq0).
Context (syscall_entry syscall_stack user_test_entry user_stack efer : Z).
Context (Hentry : in_u 64 syscall_entry) (Hentry0 : syscall_entry ≠ 0) (Hefer : in_u 64 efer)
  (Hstack : 0 ≤ syscall_stack) (Hstack' : syscall_stack + SYSCALL_STACK_SIZE < 2 ^ 64)
  (Hualign : user_stack mod 4096 = 0)
  (Hcode : in_segment k user_test_entry 1) (Hustack : in_segment k user_stack USER_STACK_SIZE).
(** Memory: what the loader took from the BIOS has room for the kernel's start, in
    the 2 MiB the loader maps. *)
Context (b : Z) (Hmap : Forall entry_ok (take 128 es))
  (Hreg : free_region (take 128 es) (kernel_start k) (kernel_end k) b BOOT_FRAMES)
  (Hlow : boot_end b ≤ 0x200000).

(** C3: The machine boots.  Take a disk with the image the builder writes, whose kernel is
    an ELF file of at most 256 KiB with its segments between 1 and 2 MiB, a BIOS that
    reads the disk and lists a memory map with twenty free frames clear of the kernel
    and below 2 MiB, and the test entry and the user stack in the kernel's segments.  Then the boot
    loader jumps to the kernel's entry, [_start] accepts the boot information it finds
    there and sets up the descriptor tables without halting, and from the state at boot
    everything after the breakpoint test runs, without panicking, page-faulting,
    halting or running out of memory, to the entry into ring 3; there the kernel can
    reach its page tables at their physical addresses, ring 3 can access its code page
    and its stack only, and none of that memory belongs to a page table. *)
Theorem disk_to_ring3 m : ∃ m' info,
  boot_loader int13 int15 vars drive m = Jump (e_entry k) STAGE2_BOOT_INFO m' ∧
  (∀ c, length (gdt (tables c)) = 7%nat → length (idt (tables c)) = IDT_ENTRIES →
    wp (start_descriptors gdt_addr tss_addr idt_addr df unbound_isr unbound_irq0 m' STAGE2_BOOT_INFO) (λ _, False)
      (λ r c', r = info ∧ ∃ t, c' = set_tables t c ∧ descriptors_ok tss_addr df unbound_isr unbound_irq0 t) c) ∧
  (∀ c, KERNEL_OBJECTS c = ObjectTable_new → IPC_MANAGER c = IpcManager_new → model_regs c !! IA32_EFER = Some efer →
    wp (start_kernel low_window syscall_entry syscall_stack user_test_entry user_stack m' info) (λ _, False)
      (λ r c', r = (USER_CODE_VADDR, USER_STACK_VADDR + USER_STACK_SIZE) ∧
         ring3_ready syscall_entry syscall_stack user_test_entry user_stack (boot_end b)
           (kernel_frame (kernel_start k) (kernel_end k)) c' ∧ tables_reachable c' ∧
         ∀ x, in_u 64 x → user_access (cr3 c') (vm c') x = ring3_memory user_test_entry user_stack x ∧
           ∀ a w q t, ring3_memory user_test_entry user_stack x = Some (a, w) → path_ok q → (length q ≤ 3)%nat →
             walk (mem (vm c')) (cr3 c') q = Some t → ¬ t ≤ a < t + 4096) c).
Proof using All.
  destruct Hustack as (su & Hsu & Hu1 & Hu2). assert (USER_STACK_SIZE = 0x4000) as Hz by done.
  assert (∃ s, s ∈ segments k ∧ 0 < p_memsz s) as Hpos by (exists su; split; [done|lia]).
  destruct (kernel_range k Helf Hpos) as (R1 & R2 & R3).
  destruct (boot_loader_run int13 int15 vars Hvars Hvars' s1 s2 k Hacc Hdisk es drive m Hchain Hentries Hdrive Helf Hpos)
    as (m' & info & HJ & HV & HM & Hks & Hke & _ & _).
  assert (∀ s, s ∈ segments k → kernel_phys_start info ≤ p_paddr s ∧ p_paddr s + p_memsz s ≤ kernel_phys_end info) as Hseg.
  { intros s Hs. rewrite Hks, Hke. split; [by apply lowest_le|by apply highest_ge]. }
  destruct (in_segment_range k _ _ info Hseg Hcode) as [C1 C2].
  destruct (in_segment_range k user_stack USER_STACK_SIZE info Hseg) as [U1 U2]; [by exists su|].
  exists m', info. split; [done|]. split; [intros c Hlg Hli; by apply start_descriptors_run|].
  intros c Hobj Hipc Hmsr. rewrite <- Hks, <- Hke.
  eapply wp_mono; [apply (start_kernel_run syscall_entry syscall_stack user_test_entry user_stack efer) with (b := b)| |done];
    try done; try (by apply low_covers); try lia; try (by rewrite HM); try (by rewrite HM, Hks, Hke); try (unfold FRAME_SIZE; lia).
  intros r c' (-> & Hready & Hview). split; [done|]. split; [done|]. split; [by eapply ring3_reachable|]. intros x Hx. split; [by apply Hview|].
  intros a w q t Ha. by apply (tables_apart syscall_entry syscall_stack user_test_entry user_stack info b c' ltac:(lia) U1 U2 Hready x a w).
Qed.
End chain.

(** ** A machine that boots from its disk *)

Lemma demo_range : kernel_start (demo_elf 0x80000) = 0x100000 ∧ kernel_end (demo_elf 0x80000) = 0x180000.
Proof. unfold kernel_start, kernel_end. rewrite demo_segments by (right; left). done. Qed.
Lemma demo_in_segment a n : 0x100000 ≤ a → a + n ≤ 0x180000 → in_segment (demo_elf 0x80000) a n.
Proof.
  intros H1 H2. unfold in_segment. rewrite demo_segments by (right; left). eexists. split; [left|].
  cbn [p_paddr p_memsz]. lia.
Qed.
Lemma demo_region : free_region demo_map 0x100000 0x180000 0x180 BOOT_FRAMES.
Proof.
  unfold free_region, FRAME_SIZE. assert (MAX_FRAMES = 0x100000) as -> by reflexivity.
  assert (Z.of_nat BOOT_FRAMES = 20) as -> by reflexivity. split; [|lia].
  exists (mkMemoryMapEntry 0x100000 0x7F00000 1 1). split; [right; left|]. cbn [entry_type base_addr entry_length]. lia.
Qed.
Lemma demo_map_ok : Forall entry_ok demo_map.
Proof. repeat constructor; unfold FRAME_SIZE; cbn; lia. Qed.

Lemma disk_to_ring3_witness : ∃ m' info,
  boot_loader (demo_int13 (demo_elf 0x80000)) demo_int15 0x8449 0x80 ∅ = Jump 0x100000 STAGE2_BOOT_INFO m' ∧
  wp (start_kernel low_window 0x101000 0x140000 0x150000 0x160000 m' info) (λ _, False)
    (λ r c', r = (USER_CODE_VADDR, USER_STACK_VADDR + USER_STACK_SIZE) ∧
       user_access (cr3 c') (vm c') 0x400010 = Some (0x150010, true)) sample_state.
Proof.
  assert (0x80000 ∈ [16; 0x80000]) as Hin by (right; left).
  destruct demo_range as [Es Ee].
  assert (free_region (take 128 demo_map) (kernel_start (demo_elf 0x80000)) (kernel_end (demo_elf 0x80000)) 0x180 BOOT_FRAMES) as Hreg.
  { rewrite Es, Ee. exact demo_region. }
  assert (∀ v, in_u 64 (0x130000 + 16 * (v mod 32))) as Hisr.
  { intros v. pose proof (Z.mod_pos_bound v 32 ltac:(lia)). unfold in_u. lia. }
  destruct (disk_to_ring3 (demo_int13 (demo_elf 0x80000)) demo_int15 demo_stage1 [0xFA; 0xF4] (demo_elf 0x80000) demo_map 0x80 0x8449
    (demo_acceptable 0x80000 Hin) (demo_reads (demo_elf 0x80000)) demo_chain demo_entries ltac:(unfold in_u; lia)
    (demo_elf_ok 0x80000 Hin) ltac:(lia) ltac:(vm_compute; discriminate) 0x110000 0x111000 0x115000 0x120000 (λ v, 0x130000 + 16 * (v mod 32)) 0x130200
    ltac:(lia) ltac:(reflexivity) ltac:(lia) ltac:(reflexivity) ltac:(lia) ltac:(reflexivity) ltac:(reflexivity)
    ltac:(lia) ltac:(reflexivity) Hisr ltac:(unfold in_u; lia)
    0x101000 0x140000 0x150000 0x160000 0x500 ltac:(unfold in_u; lia) ltac:(lia) ltac:(unfold in_u; lia) ltac:(lia)
    ltac:(reflexivity) ltac:(reflexivity) (demo_in_segment 0x150000 1 ltac:(lia) ltac:(lia))
    (demo_in_segment 0x160000 USER_STACK_SIZE ltac:(lia) ltac:(unfold USER_STACK_SIZE; lia)) 0x180 demo_map_ok Hreg ltac:(vm_compute; discriminate) ∅)
    as (m' & info & HJ & _ & HK).
  exists m', info. split; [exact HJ|].
  eapply wp_mono; [apply (HK sample_state); reflexivity| |intros ? H; exact H].
  intros r c' (Hr & _ & _ & Hview). split; [exact Hr|].
  destruct (Hview 0x400010 ltac:(unfold in_u; lia)) as [Hx _]. rewrite Hx. reflexivity.
Defined.
